(* ===== verification/_CoqProject ===== *)
-Q . S2P
Prelude.v
Strs.v
Rfc2616.v
Method.v
Io.v
Buffer.v
Common.v
Chunked.v
StreamSpec.v
SerializationUtils.v
HeaderIter.v
HeaderValues.v
Headers.v
Status.v
Branchify.v
Codegen.v
ParserText.v
ServerRequest.v
ServerResponse.v
Server.v
ServeForever.v
Client.v
Termination.v
Hangs.v
Fuel.v
Tests.v
Examples.v
ExampleClient.v
Exchange.v
Segments.v
