(* ===== verification/Prelude.v ===== *)
(** * rust-http: a verification library

    rust-http (src/src/libhttp) is an HTTP/1.x library for the Rust of 2013: a
    server and a client on top of a buffered stream, with typed headers.  This
    library models its code as Rocq functions and proves what the code does.

    ** The program and its parts

    Bytes come from a TCP stream through a [BufferedStream] (buffer.rs).  The
    server (server/mod.rs) accepts connections and spawns a task for each; the
    task loads a request ([Request::load], server/request.rs), hands it to the
    user's handler together with a [ResponseWriter] (server/response.rs),
    finishes the response, reports the times to a statistics task, and goes on
    until a request closes the connection.  The client (client/request.rs,
    client/response.rs) sends a request with a [RequestWriter] and reads the
    response with a [ResponseReader].  Both read numbers and versions with
    common.rs, methods with a parser that codegen/branchify.rs generates, and
    headers with headers/mod.rs: [HeaderValueByteIterator] walks over the bytes
    of a value and unfolds its lines, each type of value has its parser and its
    writer, and the macro [headers_mod!] makes header lines and collections out
    of them.  A program of its own, codegen (codegen/*.rs), writes the method
    parser and the module of statuses before the library is compiled; the
    examples (src/src/examples) are four servers and a client.

    ** Which file models what (paths under src/src/libhttp)

    - Prelude: outcomes, the state monad, loops, the logics used in the proofs
      ([msim] simulation, [safe] absence of failure, [rets] results, [keeps]
      invariants), lists and machine integers.  Strs: strings of the standard
      library.  Io: the traits [Reader] and [Writer], their laws [ByteSource]
      and [ByteSink], memstream.rs, TCP streams.
    - Rfc2616 (rfc2616.rs), Method (method.rs), Common (common.rs), Status
      (codegen/status.rs and the module it generates), Branchify
      (codegen/branchify.rs, codegen/read_method.rs and the parser they
      generate), Codegen (codegen/*.rs: the text of these two files and the
      program that writes them), ParserText (a reader and an interpreter of the
      text of the method parser).
    - Buffer, Chunked, StreamSpec (buffer.rs): [BufferedStream]; the chunked
      coding and [ChunkedReader]; the abstract stream that [BufferedStream]
      implements, chunked bodies included.
    - SerializationUtils (headers/serialization_utils.rs), HeaderIter
      (headers/mod.rs, the iterator), HeaderValues (headers/mod.rs and
      headers/*.rs, the types of values), Headers (headers/mod.rs, lines and
      collections, [headers_mod!] and its two tables).
    - ServerRequest (server/request.rs), ServerResponse (server/response.rs),
      Server (server/mod.rs, a connection and the statistics), ServeForever
      (server/mod.rs, the accept loop and all its tasks).
    - Client (client/request.rs, client/response.rs).
    - Termination: the parsers return; Hangs: the requests on which they do
      not; Fuel: the bounds of the model decide which is the case.  Exchange:
      client and server together.  Segments: every parser and the task of a
      connection, run side by side on the same bytes cut in two ways.
    - Tests (headers/test_utils.rs and the test functions of the other files):
      a test is a computation that returns, fails or diverges.
    - Examples (src/src/examples/server), ExampleClient
      (src/src/examples/client): the handlers are instances of [Server], the
      client is a [main] that prints.

    ** How the code is modelled

    A method with a [&mut self] receiver of type [S] is a function [M S A] from
    a state to an outcome: [Done] with a result and the new state, [Fail] for a
    failure of the task ([fail!], [assert!], an index out of range), [Diverge]
    when the fuel of a loop is used up.  Structs are records, enumerations are
    inductive types, a call on a field is [zoom], a borrowed stream is returned
    to its owner when the borrower is done.  Bytes, characters and integers are
    [Z]; arithmetic that can leave its width is wrapped ([wrap64] and the
    like).  A [~str] is the list of its code points and [as_bytes] its UTF-8
    encoding.  The numerals of the [match]es, the order of the checks and the
    texts of the failures are those of the source.

    What is not in the repository is a parameter: URLs ([UrlOps], [UrlParts])
    and times ([TimeOps]) of [extra], name resolution and [TcpStream::connect]
    ([NetOps]), whether the caller has trapped [io_error] ([IoErrors]), the
    clock, the user's handler ([Server]), and the paths and files the generator
    sees ([PathOps]).  Readers and writers are
    classes; a parser is proved for every [ByteSource], that is, however the
    bytes are cut into reads.  [BufferedStream] is proved to be a [ByteSource]
    when the stream it wraps is one; each type of header value is proved to
    have [WireFormat] (what it writes is read back), [SafeRead] (reading never
    fails the task) and [TotalRead] (reading returns), and the header parser is
    proved against these interfaces.

    ** Fuel

    Every loop of the source takes [fuel], the number of its rounds.  A theorem
    that says that a call returns has a lower bound on the fuel as hypothesis,
    a little more than the number of bytes still to be read: each round of each
    loop takes a byte, and the fixed parts (method, version, line end) take at
    most six more rounds.  More fuel does not change a result ([load_mle],
    [construct_body_mle]), and above that bound fuel changes nothing, also on
    input on which the call does not return ([load_decided],
    [construct_decided]): a call that has not returned then is an infinite
    loop of the source, as in [load_hangs].

    ** What the theorems show

    - The whole: [exchange_correct] (a request goes from the client to the
      server's handler and its response comes back), with
      [request_reaches_server] and [response_reaches_client].
    - Transport: [load_segments], [serve_segments], [construct_segments]:
      whatever bytes arrive, valid or not, what the server and the client make
      of them does not depend on how they are cut into segments.
    - The server: [load_correct], [load_answers], [load_failures],
      [load_terminates], [read_request_line_correct],
      [read_request_uri_correct]: what [Request::load] makes of a valid and of
      any other message, and [load_hangs]: the messages on which it never
      returns, and [load_decided]: a bounded run tells; [response_output], [write_content_auto_correct]: what a
      response puts on the wire, also when the handler assigns the status or
      headers too late; [serve_connection_correct],
      [bad_request_answered]: the loop of a connection; [connections_served],
      [connections_isolated], [statistics_invariant]: the system of all tasks,
      as a transition system, in every reachable state.
    - The client: [read_response_correct], [construct_correct],
      [construct_errors], [construct_terminates], [request_failures].
    - The stream: [stream_refines] (the abstract stream: bytes left to read,
      bodies written, plain or chunked), [stream_bounds] (the buffers), [chunked_output_decodes] (the chunked coding),
      [read_byte_equivalent], [poke_after_read].
    - Headers: [header_line_round_trip], [write_all_correct],
      [iterator_never_fails], [collect_to_str_folded], [parameters_read_back],
      [unquote_inverts_quote], [normalise_header_name_correct].
    - Generated code and numbers: [branchify_correct], [read_method_correct],
      [status_round_trip], [read_http_version_correct], [read_uint_correct];
      [status_text_correct] (the text written is the program modelled),
      [parser_text_correct] and [read_method_file] (the text of a generated
      method parser, read back and run, is the parser modelled),
      [parser_text_balanced] (its braces match) and
      [codegen_main_correct] (the command line).
    - Tests and examples: [unit_tests_pass] (what each unit test does),
      [conversion_holds] (what the tests of header values check at a few values
      holds at every value), [date_tests_pass] (the same for dates, under what
      the tests need of [TimeOps]); [hello_world_serves], [apache_fake_serves],
      [info_serves], [request_uri_serves]: the bytes the example servers answer
      with; [client_main_prints]: what the example client prints.
    - Defects of the code, each with a proof: [ChunkedReader] reads a byte
      beyond a chunk, fails on small buffers and reads sizes in decimal;
      [read_token_or_quoted_string] does not return, so that one request
      occupies its task for ever; a list of range units is written without
      separators; the [keep-alive] branch of [load] is never taken; the length
      check of the URI can be stepped over; the request_uri example sets a
      status after the status line was sent.

    ** Not modelled

    lib.rs, client/mod.rs and the other declarations of modules and imports;
    client/tests.rs, which no module declares and which does not have the types
    of the functions it calls; code inside comments ([SimpleServer], the
    definition of a Go request); log messages, the console output of the
    request_uri server and of the statistics task, which is represented by the
    totals it prints; [Clone] of a collection, which is the identity here; the
    result of [make_dir], which the generator ignores.  A quality value and a
    value printed with [{:?}] are formatted by the standard library, which is a
    parameter.  The runtime's scheduling is any interleaving of whole rounds of
    the tasks' loops; the tasks share nothing within a round.

    ** What is left

    To characterise the parameters on which the parsers return by a grammar
    ([load_decided] decides it by a run), and to bound the rounds of a whole
    connection with an arbitrary handler. *)

From stdpp Require Export prelude strings gmap.
From Stdlib Require Ascii.
Export Stdlib.Strings.Ascii.AsciiSyntax.
#[global] Open Scope Z_scope.

(** ** Outcomes of a Rust computation

    A call either returns ([Done]), fails the task ([fail!], a failed
    [assert!], an index out of range: [Fail], with the message), or is still
    running when the fuel given to its loops is used up ([Diverge]). *)
Inductive res (A : Type) : Type :=
  | Done (a : A)
  | Fail (msg : string)
  | Diverge.
Arguments Done {A} a.
Arguments Fail {A} msg.
Arguments Diverge {A}.
#[global] Instance res_eq_dec {A} `{EqDecision A} : EqDecision (res A).
Proof. solve_decision. Defined.

(** A method with a [&mut self] receiver of type [S]. *)
Definition M (S A : Type) : Type := S → res (A * S).

#[global] Instance M_ret S : MRet (M S) := λ A a s, Done (a, s).
#[global] Instance M_bind S : MBind (M S) := λ A B k m s,
  match m s with
  | Done (a, s') => k a s'
  | Fail e => Fail e
  | Diverge => Diverge
  end.

Definition fail {S A} (msg : string) : M S A := λ _, Fail msg.
Definition gets {S A} (f : S → A) : M S A := λ s, Done (f s, s).
Definition modify {S} (f : S → S) : M S unit := λ s, Done (tt, f s).
(** [assert!] and [assert_eq!]. *)
Definition assert {S} (b : bool) (msg : string) : M S unit :=
  if b then mret tt else fail msg.
(** Call a function that has no receiver. *)
Definition call {S A} (r : res A) : M S A := λ s,
  match r with Done a => Done (a, s) | Fail e => Fail e | Diverge => Diverge end.
(** Run a method on a component of the receiver. *)
Definition zoom {S T A} (get : S → T) (put : T → S → S) (m : M T A) : M S A :=
  λ s, match m (get s) with
       | Done (a, t) => Done (a, put t s)
       | Fail e => Fail e
       | Diverge => Diverge
       end.

(** Rust's [loop]: the body answers [inl a] to go round again with the local
    variables [a] ([continue], or falling off the end of the body) and [inr b]
    to leave with [b] ([break] or [return]). *)
Fixpoint loop {S A B} (fuel : nat) (body : A → M S (A + B)) (a : A) : M S B :=
  match fuel with
  | O => λ _, Diverge
  | Datatypes.S n =>
      body a ≫= λ r, match r with inl a' => loop n body a' | inr b => mret b end
  end.
Definition continue {S A B} (a : A) : M S (A + B) := mret (inl a).
Definition break {S A B} (b : B) : M S (A + B) := mret (inr b).

(** Rust's [for x in xs]. *)
Fixpoint for_each {S A} (xs : list A) (body : A → M S unit) : M S unit :=
  match xs with
  | [] => mret tt
  | x :: xs' => body x;; for_each xs' body
  end.

(** Rust's [Result]. *)
Inductive Result (T E : Type) : Type :=
  | Ok (t : T)
  | Err (e : E).
Arguments Ok {T E} t.
Arguments Err {T E} e.

(** ** Machine integers: unsigned, with wrap-around on overflow *)
Abbreviation u8 := Z (only parsing).
Abbreviation u16 := Z (only parsing).
Abbreviation u64 := Z (only parsing).
Abbreviation uint := Z (only parsing).
Definition wrap8 (z : Z) : u8 := z mod 2 ^ 8.
Definition wrap16 (z : Z) : u16 := z mod 2 ^ 16.
Definition wrap64 (z : Z) : u64 := z mod 2 ^ 64.

(** A byte or a character literal, ['x' as u8]. *)
Definition chr (a : Ascii.ascii) : Z := Z.of_N (Ascii.N_of_ascii a).
Arguments chr a%_char_scope.
(** An ASCII string literal or [bytes!] literal. *)
Definition lit (s : string) : list Z := chr <$> String.list_ascii_of_string s.

(** Values of type [u8]. *)
Definition is_u8 (b : Z) : Prop := 0 ≤ b < 256.

(** ** Equations of the monad *)
Section Monad.
Context {S : Type}.

Lemma bind_unfold {A B} (m : M S A) (k : A → M S B) s :
  (m ≫= k) s = match m s with
               | Done (a, s') => k a s'
               | Fail e => Fail e
               | Diverge => Diverge
               end.
Proof. reflexivity. Qed.

Lemma bind_Done {A B} (m : M S A) (k : A → M S B) s a s' :
  m s = Done (a, s') → (m ≫= k) s = k a s'.
Proof. intros H. by rewrite bind_unfold, H. Qed.

Lemma bind_Fail {A B} (m : M S A) (k : A → M S B) s e :
  m s = Fail e → (m ≫= k) s = Fail e.
Proof. intros H. by rewrite bind_unfold, H. Qed.

Lemma bind_Diverge {A B} (m : M S A) (k : A → M S B) s :
  m s = Diverge → (m ≫= k) s = Diverge.
Proof. intros H. by rewrite bind_unfold, H. Qed.

Lemma bind_ret {A B} (a : A) (k : A → M S B) s : (mret a ≫= k) s = k a s.
Proof. reflexivity. Qed.

Lemma bind_gets {A B} (f : S → A) (k : A → M S B) s : (gets f ≫= k) s = k (f s) s.
Proof. reflexivity. Qed.

Lemma bind_modify {B} (f : S → S) (k : unit → M S B) s : (modify f ≫= k) s = k tt (f s).
Proof. reflexivity. Qed.

Lemma bind_fail {A B} e (k : A → M S B) s : (fail e ≫= k) s = Fail e.
Proof. reflexivity. Qed.

Lemma bind_assoc {A B C} (m : M S A) (k : A → M S B) (k' : B → M S C) s :
  ((m ≫= k) ≫= k') s = (m ≫= (λ a, k a ≫= k')) s.
Proof. rewrite !bind_unfold. by destruct (m s) as [[a s']| |]. Qed.

Lemma bind_ext {A B} (m : M S A) (k k' : A → M S B) s :
  (∀ a t, k a t = k' a t) → (m ≫= k) s = (m ≫= k') s.
Proof. intros H. rewrite !bind_unfold. destruct (m s) as [[a t]| |]; auto. Qed.

Lemma bind_continue {A B C} (a : A) (k : A + B → M S C) s :
  (continue a ≫= k) s = k (inl a) s.
Proof. reflexivity. Qed.

Lemma bind_break {A B C} (b : B) (k : A + B → M S C) s :
  (break b ≫= k) s = k (inr b) s.
Proof. reflexivity. Qed.

Lemma loop_S {A B} n (body : A → M S (A + B)) a s :
  loop (Datatypes.S n) body a s =
  (body a ≫= λ r, match r with inl a' => loop n body a' | inr b => mret b end) s.
Proof. reflexivity. Qed.

Lemma loop_continue {A B} n (body : A → M S (A + B)) a s a' s' :
  body a s = Done (inl a', s') → loop (Datatypes.S n) body a s = loop n body a' s'.
Proof. intros H. by rewrite loop_S, bind_unfold, H. Qed.

Lemma loop_break {A B} n (body : A → M S (A + B)) a s b s' :
  body a s = Done (inr b, s') → loop (Datatypes.S n) body a s = Done (b, s').
Proof. intros H. by rewrite loop_S, bind_unfold, H. Qed.

Lemma loop_fail {A B} n (body : A → M S (A + B)) a s e :
  body a s = Fail e → loop (Datatypes.S n) body a s = Fail e.
Proof. intros H. by rewrite loop_S, bind_unfold, H. Qed.

(** A loop whose body steps back to the state it started from never ends. *)
Lemma loop_stuck {A B} (body : A → M S (A + B)) a s :
  body a s = Done (inl a, s) → ∀ n, loop n body a s = Diverge.
Proof. intros H n. induction n; [done|]. by rewrite (loop_continue _ _ _ _ _ _ H). Qed.

End Monad.

Create HintDb http.
Create Rewrite HintDb monad.
#[export] Hint Rewrite @bind_ret @bind_gets @bind_modify @bind_fail
  @bind_continue @bind_break : monad.

(** Reduce the monadic prefix of a goal as far as it computes. *)
Ltac mstep := autorewrite with monad; cbn beta iota.
(** Compute the primitives of the monad and use the resulting equations. *)
Ltac minv :=
  unfold fail, gets, modify, break, continue, mret, M_ret in *; simplify_eq/=.
(** Reduce [m ≫= k] with an equation for [m]. *)
Tactic Notation "mrun" uconstr(H) :=
  first [ rewrite (bind_Done _ _ _ _ _ H)
        | rewrite (bind_Fail _ _ _ _ H)
        | rewrite (bind_Diverge _ _ _ H) ]; cbn beta iota.

(** ** Simulation between two receivers

    [msim P Q m1 m2]: from states related by [P], the two methods return the
    same value in states related by [Q], or fail with the same message, or
    both run out of fuel. *)
Definition msim {S1 S2 A} (P Q : S1 → S2 → Prop) (m1 : M S1 A) (m2 : M S2 A) : Prop :=
  ∀ s1 s2, P s1 s2 →
    match m1 s1, m2 s2 with
    | Done (a1, s1'), Done (a2, s2') => a1 = a2 ∧ Q s1' s2'
    | Fail e1, Fail e2 => e1 = e2
    | Diverge, Diverge => True
    | _, _ => False
    end.

Section Simulation.
Context {S1 S2 : Type}.
Implicit Types P Q R : S1 → S2 → Prop.

Lemma msim_ret {A} P (a : A) : msim P P (mret a) (mret a).
Proof. by intros s1 s2 H. Qed.

Lemma msim_fail {A} P Q e : msim P Q (fail (A:=A) e) (fail e).
Proof. by intros s1 s2 H. Qed.

Lemma msim_assert P b e : msim P P (assert b e) (assert b e).
Proof. destruct b; [apply msim_ret | apply msim_fail]. Qed.

Lemma msim_gets {A} P (f1 : S1 → A) (f2 : S2 → A) :
  (∀ s1 s2, P s1 s2 → f1 s1 = f2 s2) → msim P P (gets f1) (gets f2).
Proof. intros Hf s1 s2 H. split; [by apply Hf | done]. Qed.

Lemma msim_modify P Q (f1 : S1 → S1) (f2 : S2 → S2) :
  (∀ s1 s2, P s1 s2 → Q (f1 s1) (f2 s2)) → msim P Q (modify f1) (modify f2).
Proof. intros Hf s1 s2 H. split; [done | by apply Hf]. Qed.

Lemma msim_bind {A B} P Q R (m1 : M S1 A) m2 (k1 : A → M S1 B) k2 :
  msim P Q m1 m2 → (∀ a, msim Q R (k1 a) (k2 a)) → msim P R (m1 ≫= k1) (m2 ≫= k2).
Proof.
  intros Hm Hk s1 s2 H. specialize (Hm s1 s2 H). rewrite !bind_unfold.
  destruct (m1 s1) as [[a1 t1]|e1|], (m2 s2) as [[a2 t2]|e2|]; try done.
  destruct Hm as [-> HQ]. by apply Hk.
Qed.

Lemma msim_weaken {A} (P P' Q Q' : S1 → S2 → Prop) (m1 : M S1 A) m2 :
  (∀ s1 s2, P' s1 s2 → P s1 s2) → (∀ s1 s2, Q s1 s2 → Q' s1 s2) →
  msim P Q m1 m2 → msim P' Q' m1 m2.
Proof.
  intros HP HQ Hm s1 s2 H. specialize (Hm s1 s2 (HP _ _ H)).
  destruct (m1 s1) as [[a1 t1]|e1|], (m2 s2) as [[a2 t2]|e2|]; try done.
  destruct Hm as [-> ?]. auto.
Qed.

Lemma msim_loop {A B} P n (b1 : A → M S1 (A + B)) b2 :
  (∀ a, msim P P (b1 a) (b2 a)) → ∀ a, msim P P (loop n b1 a) (loop n b2 a).
Proof.
  intros Hb. induction n as [|n IH]; intros a; [by intros s1 s2 H|].
  eapply (msim_bind P P P); [apply Hb | intros [a'|b]; [apply IH | apply msim_ret]].
Qed.

(** A loop whose body establishes a stronger relation [Q] at its first run. *)
Lemma msim_loop_enter {A B} P Q n (b1 : A → M S1 (A + B)) b2 :
  (∀ s1 s2, Q s1 s2 → P s1 s2) → (∀ a, msim P Q (b1 a) (b2 a)) →
  ∀ a, msim P Q (loop n b1 a) (loop n b2 a).
Proof.
  intros HQP Hb. induction n as [|n IH]; intros a; [by intros s1 s2 H|].
  eapply (msim_bind P Q Q); [apply Hb | intros [a'|b]].
  - eapply msim_weaken; [apply HQP | | apply IH]; done.
  - apply msim_ret.
Qed.

Lemma msim_if {A} P Q (b : bool) (m1 m1' : M S1 A) (m2 m2' : M S2 A) :
  (b = true → msim P Q m1 m2) → (b = false → msim P Q m1' m2') →
  msim P Q (if b then m1 else m1') (if b then m2 else m2').
Proof. destruct b; auto. Qed.

Lemma msim_for_each {A} P (xs : list A) b1 b2 :
  (∀ x, msim P P (b1 x) (b2 x)) → msim P P (for_each xs b1) (for_each xs b2).
Proof.
  intros Hb. induction xs as [|x xs IH]; simpl; [apply msim_ret|].
  eapply msim_bind; [apply Hb | by intros []].
Qed.

Lemma msim_Done {A} P Q (m1 : M S1 A) (m2 : M S2 A) s1 s2 a s2' :
  msim P Q m1 m2 → P s1 s2 → m2 s2 = Done (a, s2') →
  ∃ s1', m1 s1 = Done (a, s1') ∧ Q s1' s2'.
Proof.
  intros Hm H E. specialize (Hm s1 s2 H). rewrite E in Hm.
  destruct (m1 s1) as [[a1 t1]| |]; try done. destruct Hm as [-> ?]. eauto.
Qed.

End Simulation.

Lemma msim_zoom {S1 S2 T1 T2 A} (P Q : S1 → S2 → Prop) (PT QT : T1 → T2 → Prop)
    get1 put1 get2 put2 (m1 : M T1 A) (m2 : M T2 A) :
  (∀ s1 s2, P s1 s2 → PT (get1 s1) (get2 s2)) →
  (∀ s1 s2 t1 t2, P s1 s2 → QT t1 t2 → Q (put1 t1 s1) (put2 t2 s2)) →
  msim PT QT m1 m2 → msim P Q (zoom get1 put1 m1) (zoom get2 put2 m2).
Proof.
  intros Hg Hp Hm s1 s2 H. specialize (Hm _ _ (Hg _ _ H)). unfold zoom.
  destruct (m1 (get1 s1)) as [[a1 t1]|e1|], (m2 (get2 s2)) as [[a2 t2]|e2|]; try done.
  destruct Hm as [-> ?]. eauto.
Qed.

#[export] Hint Resolve msim_ret msim_fail msim_assert : http.

(** ** Fuel

    [mle m1 m2]: [m1] is [m2] with less fuel: where it returns or fails, [m2]
    does the same. *)
Definition mle {S A} (m1 m2 : M S A) : Prop := ∀ s, m1 s = Diverge ∨ m1 s = m2 s.

Section Fuel.
Context {S : Type}.

Lemma mle_refl {A} (m : M S A) : mle m m.
Proof. intros s. by right. Qed.

Lemma mle_bind {A B} (m m' : M S A) (k k' : A → M S B) :
  mle m m' → (∀ a, mle (k a) (k' a)) → mle (m ≫= k) (m' ≫= k').
Proof.
  intros Hm Hk s. rewrite !bind_unfold. destruct (Hm s) as [->| ->]; [by left|].
  destruct (m' s) as [[a t]| |]; [apply Hk|by right|by left].
Qed.

Lemma mle_loop {A B} n n' (b b' : A → M S (A + B)) :
  (n ≤ n')%nat → (∀ a, mle (b a) (b' a)) → ∀ a, mle (loop n b a) (loop n' b' a).
Proof.
  intros Hn Hb. revert n' Hn. induction n as [|n IH]; intros n' Hn a; [by left|].
  destruct n' as [|n']; [lia|]. apply mle_bind; [apply Hb|].
  intros [a'|r]; [apply IH; lia | apply mle_refl].
Qed.

Lemma mle_if {A} (c : bool) (m1 m1' m2 m2' : M S A) :
  mle m1 m2 → mle m1' m2' → mle (if c then m1 else m1') (if c then m2 else m2').
Proof. by destruct c. Qed.

Lemma mle_Diverge {A} (m m' : M S A) s : mle m m' → m' s = Diverge → m s = Diverge.
Proof. intros H E. destruct (H s); congruence. Qed.

Lemma mle_Done {A} (m m' : M S A) s r : mle m m' → m s = Done r → m' s = Done r.
Proof. intros H E. destruct (H s); congruence. Qed.
End Fuel.

Lemma mle_zoom {S T A} (get : S → T) put (m m' : M T A) :
  mle m m' → mle (zoom get put m) (zoom get put m').
Proof. intros Hm s. unfold zoom. destruct (Hm (get s)) as [->| ->]; [by left|by right]. Qed.

#[export] Hint Resolve mle_refl mle_bind mle_loop mle_if mle_zoom : http.

(** ** Safety

    [safe P m Q]: from a state in [P], [m] never fails, whatever its fuel, and
    if it returns [a] in state [s'] then [Q a s']. *)
Definition safe {S A} (P : S → Prop) (m : M S A) (Q : A → S → Prop) : Prop :=
  ∀ s, P s → match m s with Done (a, s') => Q a s' | Fail _ => False | Diverge => True end.

Section Safety.
Context {S : Type}.
Implicit Types P : S → Prop.

Lemma safe_ret {A} P (a : A) (Q : A → S → Prop) : (∀ s, P s → Q a s) → safe P (mret a) Q.
Proof. intros H s Hs. by apply H. Qed.

Lemma safe_gets {A} P (f : S → A) : safe P (gets f) (λ a s, P s ∧ a = f s).
Proof. by intros s Hs. Qed.

Lemma safe_modify P (f : S → S) (Q : S → Prop) :
  (∀ s, P s → Q (f s)) → safe P (modify f) (λ _, Q).
Proof. intros H s Hs. by apply H. Qed.

Lemma safe_bind {A B} P (m : M S A) (k : A → M S B) Q Q' :
  safe P m Q → (∀ a, safe (Q a) (k a) Q') → safe P (m ≫= k) Q'.
Proof.
  intros Hm Hk s Hs. rewrite bind_unfold. specialize (Hm s Hs).
  destruct (m s) as [[a t]| |]; [by apply Hk|done|done].
Qed.

Lemma safe_weaken {A} P P' (m : M S A) (Q Q' : A → S → Prop) :
  (∀ s, P' s → P s) → (∀ a s, Q a s → Q' a s) → safe P m Q → safe P' m Q'.
Proof.
  intros HP HQ Hm s Hs. specialize (Hm s (HP s Hs)).
  destruct (m s) as [[a t]| |]; auto.
Qed.

Lemma safe_loop {A B} n (body : A → M S (A + B)) (I : A → S → Prop) (Q : B → S → Prop) :
  (∀ a, safe (I a) (body a) (λ r s, match r with inl a' => I a' s | inr b => Q b s end)) →
  ∀ a, safe (I a) (loop n body a) Q.
Proof.
  intros Hb. induction n as [|n IH]; intros a s Hs; [done|].
  apply (safe_bind _ _ _ _ _ (Hb a)); [|done]. intros [a'|b]; [apply IH | by apply safe_ret].
Qed.

Lemma safe_for_each {A} (xs : list A) (body : A → M S unit) P :
  (∀ x, safe P (body x) (λ _, P)) → safe P (for_each xs body) (λ _, P).
Proof.
  intros Hb. induction xs as [|x xs IH]; simpl; [by apply safe_ret|].
  eapply safe_bind; [apply Hb|]. by intros [].
Qed.

Lemma safe_if {A} P (c : bool) (m m' : M S A) Q :
  (c = true → safe P m Q) → (c = false → safe P m' Q) → safe P (if c then m else m') Q.
Proof. destruct c; auto. Qed.

Lemma safe_pure {A} (φ : Prop) P (m : M S A) Q :
  (φ → safe P m Q) → safe (λ s, P s ∧ φ) m Q.
Proof. intros H s [Hs Hφ]. by apply H. Qed.
End Safety.

(** ** Results

    [rets m Q]: whatever the state it starts from, if [m] returns then its
    result satisfies [Q]. *)
Definition rets {S A} (m : M S A) (Q : A → Prop) : Prop := ∀ s a s', m s = Done (a, s') → Q a.

Section Results.
Context {S : Type}.

Lemma rets_any {A} (m : M S A) : rets m (λ _, True).
Proof. done. Qed.

Lemma rets_ret {A} (a : A) (Q : A → Prop) : Q a → rets (S:=S) (mret a) Q.
Proof. intros HQ s b s' [= <- <-]. done. Qed.

Lemma rets_fail {A} e (Q : A → Prop) : rets (S:=S) (fail e) Q.
Proof. done. Qed.

Lemma rets_bind {A B} (m : M S A) (k : A → M S B) (P : A → Prop) Q :
  rets m P → (∀ a, P a → rets (k a) Q) → rets (m ≫= k) Q.
Proof.
  intros Hm Hk s b s'. rewrite bind_unfold. destruct (m s) as [[a t]| |] eqn:E; [|done|done].
  apply Hk. by apply (Hm s a t).
Qed.

(** What is computed before does not matter. *)
Lemma rets_seq {A B} (m : M S A) (k : A → M S B) Q : (∀ a, rets (k a) Q) → rets (m ≫= k) Q.
Proof. intros Hk. apply (rets_bind m k (λ _, True)); [apply rets_any|auto]. Qed.

Lemma rets_loop {A B} n (body : A → M S (A + B)) (I : A → Prop) (Q : B → Prop) :
  (∀ a, I a → rets (body a) (λ r, match r with inl a' => I a' | inr b => Q b end)) →
  ∀ a, I a → rets (loop n body a) Q.
Proof.
  intros Hb. induction n as [|n IH]; intros a Ha; [done|].
  apply (rets_bind _ _ _ _ (Hb a Ha)). intros [a'|b]; [apply IH|apply rets_ret].
Qed.

Lemma rets_zoom {T A} (get : S → T) (put : T → S → S) (m : M T A) Q : rets m Q → rets (zoom get put m) Q.
Proof.
  intros Hm s a s'. unfold zoom. destruct (m (get s)) as [[b t]| |] eqn:E; [|done|done].
  intros [= <- <-]. by apply (Hm (get s) b t).
Qed.
End Results.

Lemma safe_rets {S A} (P : S → Prop) (m : M S A) Q (φ : A → Prop) :
  safe P m Q → rets m φ → safe P m (λ a s, Q a s ∧ φ a).
Proof.
  intros Hm Hr s Hs. specialize (Hm s Hs). destruct (m s) as [[a t]| |] eqn:E; [|done|done].
  split; [done|]. by apply (Hr s a t).
Qed.

(** ** Invariants of methods that may fail

    [keeps P m]: if [m] returns, it leaves the state in [P]. *)
Definition keeps {S A} (P : S → Prop) (m : M S A) : Prop := ∀ s a s', P s → m s = Done (a, s') → P s'.

Section Keeping.
Context {S : Type} (P : S → Prop).

Lemma keeps_safe {A} (m : M S A) : safe P m (λ _, P) → keeps P m.
Proof. intros Hm s a s' Hs E. specialize (Hm s Hs). by rewrite E in Hm. Qed.

Lemma keeps_ret {A} (a : A) : keeps P (mret a).
Proof. intros s b s' Hs [= <- <-]. done. Qed.

Lemma keeps_fail {A} e : keeps P (fail (A:=A) e).
Proof. done. Qed.

Lemma keeps_bind {A B} (m : M S A) (k : A → M S B) :
  keeps P m → (∀ a, keeps P (k a)) → keeps P (m ≫= k).
Proof.
  intros Hm Hk s b s' Hs. rewrite bind_unfold. destruct (m s) as [[a t]| |] eqn:E; [|done|done].
  apply Hk. by apply (Hm s a t).
Qed.

Lemma keeps_loop {A B} n (body : A → M S (A + B)) a : (∀ a, keeps P (body a)) → keeps P (loop n body a).
Proof.
  intros Hb. revert a. induction n as [|n IH]; intros a; [done|].
  apply (keeps_bind _ _ (Hb a)). intros [a'|b]; [apply IH|apply keeps_ret].
Qed.
End Keeping.

(** ** Generic facts on lists and integers *)

Lemma lit_app s t : lit (s +:+ t) = lit s ++ lit t.
Proof.
  unfold lit. rewrite <-fmap_app. f_equal. induction s as [|a s IH]; [done|].
  simpl. by f_equal.
Qed.

Lemma wrap64_small z : 0 ≤ z < 2 ^ 64 → wrap64 z = z.
Proof. apply Z.mod_small. Qed.

Lemma wrap8_small z : 0 ≤ z < 2 ^ 8 → wrap8 z = z.
Proof. apply Z.mod_small. Qed.

Lemma wrap16_small z : 0 ≤ z < 2 ^ 16 → wrap16 z = z.
Proof. apply Z.mod_small. Qed.

Lemma forallb_Forall {A} (f : A → bool) l : forallb f l = true ↔ Forall (λ x, f x = true) l.
Proof.
  induction l as [|x l IH]; simpl; [split; auto|].
  rewrite andb_true_iff, Forall_cons, IH. done.
Qed.

(** The longest prefix of a list that satisfies a test. *)
Lemma span_exists {A} (p : A → bool) l :
  ∃ x y, l = x ++ y ∧ Forall (λ a, p a = true) x
    ∧ match y with [] => True | b :: _ => p b = false end.
Proof.
  induction l as [|a l (x & y & -> & Hx & Hy)]; [by exists [], []|].
  destruct (p a) eqn:Ha; [by exists (a :: x), y; auto | by exists [], (a :: x ++ y)].
Qed.

Lemma span_unique {A} (p : A → bool) x y x' y' :
  Forall (λ a, p a = true) x → match y with [] => True | b :: _ => p b = false end →
  Forall (λ a, p a = true) x' → match y' with [] => True | b :: _ => p b = false end →
  x ++ y = x' ++ y' → x = x' ∧ y = y'.
Proof.
  intros Hx Hy. revert x'. induction Hx as [|a x Ha Hx IH]; intros x' Hx' Hy' E.
  - destruct Hx'; simpl in *; subst; [done|]. congruence.
  - destruct Hx' as [|a' x' Ha' Hx']; simpl in *; subst; [congruence|].
    injection E as -> E. destruct (IH x' Hx' Hy' E) as [-> ->]. done.
Qed.

(** The same for the bytes up to a given one. *)
Definition starts_with (c : Z) (l : list Z) : Prop := match l with [] => True | d :: _ => d = c end.

Lemma not_elem_neqb (c : Z) u : c ∉ u ↔ Forall (λ d, negb (d =? c) = true) u.
Proof.
  rewrite Forall_forall. split.
  - intros Hc d Hd. apply negb_true_iff, Z.eqb_neq. by intros ->.
  - intros Hu Hc. specialize (Hu c Hc). by rewrite Z.eqb_refl in Hu.
Qed.

Lemma starts_with_neqb c l : starts_with c l ↔ match l with [] => True | d :: _ => negb (d =? c) = false end.
Proof. destruct l as [|d l]; [done|]. simpl. rewrite negb_false_iff. symmetry. apply Z.eqb_eq. Qed.

Lemma split_at (c : Z) l : ∃ u l2, l = u ++ l2 ∧ (c ∉ u) ∧ starts_with c l2.
Proof.
  destruct (span_exists (λ d, negb (d =? c)) l) as (u & l2 & -> & Hu%not_elem_neqb & Hl%starts_with_neqb).
  by exists u, l2.
Qed.

Lemma split_at_unique (c : Z) u l u' l' :
  c ∉ u → starts_with c l → c ∉ u' → starts_with c l' → u ++ l = u' ++ l' → u = u' ∧ l = l'.
Proof.
  rewrite !not_elem_neqb, !starts_with_neqb. apply span_unique.
Qed.

(** Evaluate the character literals of the goal and the hypotheses. *)
Ltac eval_chr :=
  repeat match goal with
  | |- context [chr ?a] => let v := eval vm_compute in (chr a) in change (chr a) with v
  | H : context [chr ?a] |- _ =>
      let v := eval vm_compute in (chr a) in change (chr a) with v in H
  end.

(** Split the boolean comparisons in the goal and the hypotheses. *)
Ltac bool_lia :=
  repeat match goal with
  | H : context [negb _] |- _ => rewrite ?negb_true_iff, ?negb_false_iff in H
  | H : _ && _ = true |- _ => apply andb_true_iff in H as [? ?]
  | H : _ || _ = false |- _ => apply orb_false_iff in H as [? ?]
  end; lia.
