(* ===== verification/Strs.v ===== *)
(** * Strings and numerals of the Rust standard library

    What the sources use of [std::str], [std::char], [std::ascii] and of the
    integer conversions.  A [~str] is the sequence of its characters (code
    points); [as_bytes] is its UTF-8 encoding and [len] the length of that
    encoding, as in Rust.  Integers print and parse through [to_str_radix] and
    [FromStr]. *)

From S2P Require Import Prelude.

Abbreviation str := (list Z) (only parsing).

(** ** UTF-8 *)
Definition utf8_encode (c : Z) : list u8 :=
  if c <? 128 then [c]
  else if c <? 2048 then [192 + c / 64; 128 + c mod 64]
  else if c <? 65536 then [224 + c / 4096; 128 + (c / 64) mod 64; 128 + c mod 64]
  else [240 + c / 262144; 128 + (c / 4096) mod 64; 128 + (c / 64) mod 64; 128 + c mod 64].

Definition as_bytes (s : str) : list u8 := s ≫= utf8_encode.
(** A continuation byte, and the scalar values of Unicode. *)
Definition is_continuation (b : u8) : bool := (128 <=? b) && (b <? 192).
Definition is_scalar (c : Z) : bool :=
  ((0 <=? c) && (c <? 55296)) || ((57344 <=? c) && (c <? 1114112)).
(** [str::from_utf8] on valid text: each character is decoded from its leading
    byte and the continuation bytes after it; overlong forms and surrogates
    are not characters.  [None] where the bytes are not UTF-8. *)
Fixpoint utf8_decode (l : list u8) : option str :=
  match l with
  | [] => Some []
  | b0 :: l1 =>
      if (0 <=? b0) && (b0 <? 128) then s ← utf8_decode l1; Some (b0 :: s)
      else
        match l1 with
        | [] => None
        | b1 :: l2 =>
            if negb (is_continuation b1) then None
            else if (192 <=? b0) && (b0 <? 224) then
              let c := (b0 - 192) * 64 + (b1 - 128) in
              if 128 <=? c then s ← utf8_decode l2; Some (c :: s) else None
            else
              match l2 with
              | [] => None
              | b2 :: l3 =>
                  if negb (is_continuation b2) then None
                  else if (224 <=? b0) && (b0 <? 240) then
                    let c := (b0 - 224) * 4096 + (b1 - 128) * 64 + (b2 - 128) in
                    if (2048 <=? c) && is_scalar c then s ← utf8_decode l3; Some (c :: s) else None
                  else
                    match l3 with
                    | [] => None
                    | b3 :: l4 =>
                        let c := (b0 - 240) * 262144 + (b1 - 128) * 4096 + (b2 - 128) * 64 + (b3 - 128) in
                        if is_continuation b3 && (240 <=? b0) && (65536 <=? c) && is_scalar c
                        then s ← utf8_decode l4; Some (c :: s)
                        else None
                    end
              end
        end
  end.
(** [str::from_utf8]: the condition [not_utf8], which nothing in the library
    handles, fails the task. *)
Definition from_utf8 (l : list u8) : res str :=
  match utf8_decode l with
  | Some s => Done s
  | None => Fail "Unhandled condition: not_utf8"
  end.
(** [s.len()], in bytes. *)
Definition str_len (s : str) : nat := length (as_bytes s).

(** ** [std::ascii] *)
Definition is_ascii (s : str) : bool := forallb (λ c, c <? 128) s.
(** [Ascii::to_upper], [Ascii::to_lower]. *)
Definition ascii_to_upper (c : Z) : Z := if (97 <=? c) && (c <=? 122) then c - 32 else c.
Definition ascii_to_lower (c : Z) : Z := if (65 <=? c) && (c <=? 90) then c + 32 else c.
(** [StrAsciiExt::to_ascii_lower]: other characters are unchanged. *)
Definition to_ascii_lower (s : str) : str := ascii_to_lower <$> s.

(** ** [std::str] *)
(** [char::is_whitespace]: ASCII white space and the categories Zs, Zl, Zp. *)
Definition is_whitespace (c : Z) : bool :=
  (c =? 32) || ((9 <=? c) && (c <=? 13)) || (c =? 160) || (c =? 5760) || (c =? 6158)
  || ((8192 <=? c) && (c <=? 8202)) || (c =? 8232) || (c =? 8233) || (c =? 8239)
  || (c =? 8287) || (c =? 12288).
Fixpoint trim_left (s : str) : str :=
  match s with
  | c :: s' => if is_whitespace c then trim_left s' else s
  | [] => []
  end.
(** [split_iter(c)]: always at least one piece. *)
Fixpoint split_char (sep : Z) (s : str) : list str :=
  match s with
  | [] => [[]]
  | c :: s' =>
      if c =? sep then [] :: split_char sep s'
      else match split_char sep s' with
           | [] => [[c]]
           | w :: ws => (c :: w) :: ws
           end
  end.
(** [splitn_iter(c, 1)]: the part before the first separator and, when there
    is a separator, the part after it. *)
Fixpoint splitn1 (sep : Z) (s : str) : str * option str :=
  match s with
  | [] => ([], None)
  | c :: s' => if c =? sep then ([], Some s') else let '(w, r) := splitn1 sep s' in (c :: w, r)
  end.
(** [starts_with], [contains] and [replace] with one-character patterns. *)
Definition starts_with_char (c : Z) (s : str) : bool :=
  match s with x :: _ => x =? c | [] => false end.
Definition contains_char (c : Z) (s : str) : bool := existsb (Z.eqb c) s.
Definition replace_char (c : Z) (t : str) (s : str) : str :=
  s ≫= λ x, if x =? c then t else [x].
(** [connect]. *)
Fixpoint connect (sep : str) (ws : list str) : str :=
  match ws with
  | [] => []
  | [w] => w
  | w :: ws' => w ++ sep ++ connect sep ws'
  end.

(** ** Numerals *)
Definition digit_char (d : Z) : Z := if d <? 10 then 48 + d else 87 + d.
(** [char::to_digit]. *)
Definition to_digit (radix c : Z) : option Z :=
  let d := if (48 <=? c) && (c <=? 57) then c - 48
           else if (97 <=? c) && (c <=? 122) then c - 87
           else if (65 <=? c) && (c <=? 90) then c - 55
           else radix in
  if d <? radix then Some d else None.
Fixpoint radix_aux (fuel : nat) (radix n : Z) (acc : str) : str :=
  match fuel with
  | O => acc
  | S f =>
      let acc' := digit_char (n mod radix) :: acc in
      if n / radix =? 0 then acc' else radix_aux f radix (n / radix) acc'
  end.
(** [n.to_str_radix(radix)] for an unsigned integer of at most 64 bits: it has
    at most 64 digits in any radix. *)
Definition to_str_radix (n radix : Z) : str := radix_aux 64 radix n [].
(** [n.to_str()]. *)
Definition uint_to_str (n : Z) : str := to_str_radix n 10.

Fixpoint parse_digits (bound radix : Z) (acc : Z) (s : str) : option Z :=
  match s with
  | [] => Some acc
  | c :: s' =>
      match to_digit radix c with
      | Some d =>
          let acc' := acc * radix + d in
          if acc' <? bound then parse_digits bound radix acc' s' else None
      | None => None
      end
  end.
(** [FromStr] for the unsigned integers below [bound]: an optional ['+'],
    decimal digits, [None] on overflow, on the empty string and on anything
    else. *)
Definition unsigned_from_str (bound : Z) (s : str) : option Z :=
  match s with
  | [] => None
  | c :: s' => if c =? 43 then parse_digits bound 10 0 s' else parse_digits bound 10 0 s
  end.
Definition uint_from_str : str → option uint := unsigned_from_str (2 ^ 64).
Definition u16_from_str : str → option u16 := unsigned_from_str (2 ^ 16).

(** The number a digit string denotes. *)
Definition digits_value (radix : Z) (ds : str) : Z :=
  foldl (λ n c, n * radix + default 0 (to_digit radix c)) 0 ds.
Definition is_radix_digit (radix c : Z) : bool :=
  match to_digit radix c with Some _ => true | None => false end.

(** ** Facts *)

Lemma utf8_ascii c : c < 128 → utf8_encode c = [c].
Proof. intros H. unfold utf8_encode. by destruct (Z.ltb_spec c 128); [|lia]. Qed.

Lemma utf8_length c : (1 ≤ length (utf8_encode c) ≤ 4)%nat.
Proof. unfold utf8_encode. repeat case_match; simpl; lia. Qed.

Lemma utf8_decode_char c l :
  is_scalar c = true → utf8_decode (utf8_encode c ++ l) = s ← utf8_decode l; Some (c :: s).
Proof.
  intros Hc. unfold is_scalar in Hc. unfold utf8_encode.
  assert (Hd : ∀ a, 0 ≤ a mod 64 < 64) by (intros; apply Z.mod_pos_bound; lia).
  assert (Hd64 := Z.div_mod c 64 ltac:(lia)).
  assert (Hd4096 : c / 4096 = c / 64 / 64) by (by rewrite Z.div_div by lia).
  assert (Hd262144 : c / 262144 = c / 4096 / 64) by (by rewrite Z.div_div by lia).
  assert (He64 := Z.div_mod (c / 64) 64 ltac:(lia)).
  assert (He4096 := Z.div_mod (c / 4096) 64 ltac:(lia)).
  pose proof (Hd c); pose proof (Hd (c / 64)); pose proof (Hd (c / 4096)).
  destruct (Z.ltb_spec c 128); [|destruct (Z.ltb_spec c 2048); [|destruct (Z.ltb_spec c 65536)]];
    cbn [app utf8_decode].
  - rewrite (proj2 (andb_true_iff _ _)) by lia. done.
  - unfold is_continuation.
    rewrite (proj2 (andb_false_iff (0 <=? 192 + _) _)) by lia.
    rewrite (proj2 (negb_false_iff _)) by lia. rewrite (proj2 (andb_true_iff _ _)) by lia.
    replace ((192 + c / 64 - 192) * 64 + (128 + c mod 64 - 128)) with c by lia.
    by rewrite (proj2 (Z.leb_le _ _)) by lia.
  - unfold is_continuation.
    rewrite (proj2 (andb_false_iff (0 <=? 224 + _) _)) by lia.
    rewrite !(proj2 (negb_false_iff _)) by lia.
    rewrite (proj2 (andb_false_iff (192 <=? 224 + _) _)) by lia.
    rewrite (proj2 (andb_true_iff (224 <=? 224 + _) _)) by lia.
    match goal with |- context [2048 <=? ?e] => replace e with c by lia end.
    unfold is_scalar. by rewrite (proj2 (andb_true_iff _ _)) by lia.
  - unfold is_continuation.
    rewrite (proj2 (andb_false_iff (0 <=? 240 + _) _)) by lia.
    rewrite !(proj2 (negb_false_iff _)) by lia.
    rewrite (proj2 (andb_false_iff (192 <=? 240 + _) _)) by lia.
    rewrite (proj2 (andb_false_iff (224 <=? 240 + _) _)) by lia.
    match goal with |- context [65536 <=? ?e] => replace e with c by lia end.
    unfold is_scalar. by rewrite (proj2 (andb_true_iff _ _)) by lia.
Qed.

(** Decoding inverts encoding. *)
Lemma from_utf8_as_bytes s : Forall (λ c, is_scalar c = true) s → from_utf8 (as_bytes s) = Done s.
Proof.
  intros Hs. unfold from_utf8. enough (utf8_decode (as_bytes s) = Some s) as -> by done.
  induction Hs as [|c s Hc Hs IH]; [done|].
  change (as_bytes (c :: s)) with (utf8_encode c ++ as_bytes s).
  by rewrite utf8_decode_char, IH.
Qed.

Lemma as_bytes_app s t : as_bytes (s ++ t) = as_bytes s ++ as_bytes t.
Proof. apply bind_app. Qed.

Lemma as_bytes_cons c s : as_bytes (c :: s) = utf8_encode c ++ as_bytes s.
Proof. done. Qed.

Lemma is_ascii_Forall s : is_ascii s = true ↔ Forall (λ c, c < 128) s.
Proof.
  unfold is_ascii. rewrite forallb_Forall.
  split; intros H; (eapply Forall_impl; [exact H|]); intros c; simpl; lia.
Qed.

Lemma as_bytes_ascii s : is_ascii s = true → as_bytes s = s.
Proof.
  rewrite is_ascii_Forall. induction 1 as [|c s Hc Hs IH]; [done|].
  rewrite as_bytes_cons, utf8_ascii by done. simpl. by rewrite IH.
Qed.

Lemma str_len_snoc s c : str_len (s ++ [c]) = (str_len s + length (utf8_encode c))%nat.
Proof. unfold str_len. rewrite as_bytes_app, length_app. simpl. by rewrite app_nil_r. Qed.

Lemma is_ascii_cons c s : is_ascii (c :: s) = (c <? 128) && is_ascii s.
Proof. reflexivity. Qed.

Lemma to_ascii_lower_cons c s : to_ascii_lower (c :: s) = ascii_to_lower c :: to_ascii_lower s.
Proof. reflexivity. Qed.

Lemma is_ascii_app s t : is_ascii (s ++ t) = is_ascii s && is_ascii t.
Proof. apply forallb_app. Qed.

Lemma chr_ascii a : 0 ≤ chr a < 256.
Proof. unfold chr. pose proof (Ascii.N_ascii_bounded a). lia. Qed.

Lemma ascii_to_upper_idemp c : ascii_to_upper (ascii_to_upper c) = ascii_to_upper c.
Proof. unfold ascii_to_upper. repeat case_match; lia. Qed.

Lemma ascii_to_lower_idemp c : ascii_to_lower (ascii_to_lower c) = ascii_to_lower c.
Proof. unfold ascii_to_lower. repeat case_match; lia. Qed.

Lemma ascii_to_lower_upper c : ascii_to_lower (ascii_to_upper c) = ascii_to_lower c.
Proof. unfold ascii_to_lower, ascii_to_upper. repeat case_match; lia. Qed.

Lemma ascii_to_upper_lower c : ascii_to_upper (ascii_to_lower c) = ascii_to_upper c.
Proof. unfold ascii_to_lower, ascii_to_upper. repeat case_match; lia. Qed.

Lemma to_ascii_lower_idemp s : to_ascii_lower (to_ascii_lower s) = to_ascii_lower s.
Proof.
  unfold to_ascii_lower. rewrite <-list_fmap_compose. apply list_fmap_ext.
  intros i x _. apply ascii_to_lower_idemp.
Qed.

Lemma split_char_nonempty sep s : split_char sep s ≠ [].
Proof. destruct s as [|c s]; simpl; [done|]. repeat case_match; done. Qed.

(** Splitting after a separator-free piece. *)
Lemma split_char_app sep w s :
  forallb (λ c, negb (c =? sep)) w = true →
  split_char sep (w ++ sep :: s) = w :: split_char sep s.
Proof.
  induction w as [|c w IH]; simpl.
  - by rewrite Z.eqb_refl.
  - intros [Hc Hw]%andb_true_iff. rewrite (IH Hw).
    by destruct (c =? sep).
Qed.

Lemma split_char_id sep w :
  forallb (λ c, negb (c =? sep)) w = true → split_char sep w = [w].
Proof.
  induction w as [|c w IH]; simpl; [done|].
  intros [Hc Hw]%andb_true_iff. rewrite (IH Hw). by destruct (c =? sep).
Qed.

Lemma splitn1_app sep w s :
  forallb (λ c, negb (c =? sep)) w = true → splitn1 sep (w ++ sep :: s) = (w, Some s).
Proof.
  induction w as [|c w IH]; simpl.
  - by rewrite Z.eqb_refl.
  - intros [Hc Hw]%andb_true_iff. rewrite (IH Hw). by destruct (c =? sep).
Qed.

Lemma splitn1_id sep w :
  forallb (λ c, negb (c =? sep)) w = true → splitn1 sep w = (w, None).
Proof.
  induction w as [|c w IH]; simpl; [done|].
  intros [Hc Hw]%andb_true_iff. rewrite (IH Hw). by destruct (c =? sep).
Qed.

(** ** Facts about numerals *)

Lemma to_digit_digit_char radix d :
  2 ≤ radix ≤ 36 → 0 ≤ d < radix → to_digit radix (digit_char d) = Some d.
Proof.
  intros Hr Hd. unfold to_digit, digit_char.
  destruct (Z.ltb_spec d 10).
  - replace ((48 <=? 48 + d) && (48 + d <=? 57)) with true by lia.
    replace (48 + d - 48) with d by lia. by destruct (Z.ltb_spec d radix); [|lia].
  - replace ((48 <=? 87 + d) && (87 + d <=? 57)) with false by lia.
    replace ((97 <=? 87 + d) && (87 + d <=? 122)) with true by lia.
    replace (87 + d - 87) with d by lia. by destruct (Z.ltb_spec d radix); [|lia].
Qed.

Lemma digits_value_snoc radix ds c :
  digits_value radix (ds ++ [c]) = digits_value radix ds * radix + default 0 (to_digit radix c).
Proof. unfold digits_value. by rewrite foldl_app. Qed.

(** The digits of [n]: most significant first, no more than needed. *)
Lemma radix_aux_spec f radix n acc :
  2 ≤ radix ≤ 36 → 0 ≤ n → n < radix ^ Z.of_nat f → (0 < f)%nat →
  ∃ ds, radix_aux f radix n acc = ds ++ acc ∧ digits_value radix ds = n
        ∧ forallb (is_radix_digit radix) ds = true ∧ ds ≠ []
        ∧ ∀ k, (0 < k)%nat → n < radix ^ Z.of_nat k → (length ds ≤ k)%nat.
Proof.
  intros Hr. revert n acc. induction f as [|f IH]; intros n acc Hn Hlt Hf; [lia|].
  cbn [radix_aux].
  assert (Hm : 0 ≤ n mod radix < radix) by (apply Z.mod_pos_bound; lia).
  assert (Hd : n = radix * (n / radix) + n mod radix) by (apply Z.div_mod; lia).
  assert (Hdig : is_radix_digit radix (digit_char (n mod radix)) = true)
    by (unfold is_radix_digit; by rewrite to_digit_digit_char).
  destruct (Z.eqb_spec (n / radix) 0) as [Hz|Hz].
  - exists [digit_char (n mod radix)]. split; [done|].
    unfold digits_value. simpl. rewrite to_digit_digit_char by lia. simpl.
    rewrite Hdig. split; [lia|]. split; [done|]. split; [done|]. intros k Hk _. lia.
  - assert (Hq : 0 < n / radix) by (pose proof (Z.div_pos n radix); lia).
    assert (Hqlt : n / radix < radix ^ Z.of_nat f).
    { apply Z.div_lt_upper_bound; [lia|]. rewrite Nat2Z.inj_succ, Z.pow_succ_r in Hlt; lia. }
    destruct (IH (n / radix) (digit_char (n mod radix) :: acc)) as (ds & E & Hv & Hds & Hne & Hlen);
      [lia | done | destruct f; simpl in Hqlt; lia |].
    exists (ds ++ [digit_char (n mod radix)]). rewrite <-app_assoc. simpl. split; [done|].
    rewrite digits_value_snoc, Hv, to_digit_digit_char by lia. simpl.
    rewrite forallb_app, Hds. simpl. rewrite Hdig.
    split; [lia|]. split; [done|]. split; [by destruct ds|].
    intros k Hk Hnk. rewrite length_app. simpl.
    destruct k as [|[|k]]; [lia | |].
    + simpl in Hnk. nia.
    + enough (length ds ≤ S k)%nat by lia. apply Hlen; [lia|].
      apply Z.div_lt_upper_bound; [lia|]. rewrite Nat2Z.inj_succ, Z.pow_succ_r in Hnk; lia.
Qed.

Lemma to_str_radix_spec n radix :
  2 ≤ radix ≤ 36 → 0 ≤ n < 2 ^ 64 →
  digits_value radix (to_str_radix n radix) = n
  ∧ forallb (is_radix_digit radix) (to_str_radix n radix) = true
  ∧ to_str_radix n radix ≠ []
  ∧ ∀ k, (0 < k)%nat → n < radix ^ Z.of_nat k → (length (to_str_radix n radix) ≤ k)%nat.
Proof.
  intros Hr Hn.
  destruct (radix_aux_spec 64 radix n []) as (ds & E & ?); [done|lia| |lia|].
  - apply Z.lt_le_trans with (2 ^ 64); [lia|]. apply Z.pow_le_mono_l. lia.
  - unfold to_str_radix. rewrite E, app_nil_r. done.
Qed.

Lemma parse_digits_value bound radix ds : ∀ acc,
  0 ≤ acc → 2 ≤ radix → forallb (is_radix_digit radix) ds = true →
  foldl (λ n c, n * radix + default 0 (to_digit radix c)) acc ds < bound →
  parse_digits bound radix acc ds =
  Some (foldl (λ n c, n * radix + default 0 (to_digit radix c)) acc ds).
Proof.
  induction ds as [|c ds IH]; intros acc Hacc Hr Hds Hb; [done|].
  cbn [forallb] in Hds. apply andb_true_iff in Hds as [Hc Hds].
  unfold is_radix_digit in Hc. cbn [parse_digits foldl] in *.
  destruct (to_digit radix c) as [d|] eqn:Ed; [|done]. simpl in *.
  assert (0 ≤ d < radix).
  { unfold to_digit in Ed. repeat case_match; simplify_eq; lia. }
  assert (Hmono : ∀ ds a, 0 ≤ a →
    a ≤ foldl (λ n c, n * radix + default 0 (to_digit radix c)) a ds).
  { clear -Hr. induction ds as [|c ds IH]; intros a Ha; simpl; [lia|].
    assert (0 ≤ default 0 (to_digit radix c)).
    { unfold to_digit. repeat case_match; simpl; lia. }
    etransitivity; [|apply IH]; nia. }
  specialize (Hmono ds (acc * radix + d)).
  destruct (Z.ltb_spec (acc * radix + d) bound); [|nia]. apply IH; [nia|done|done|done].
Qed.

Lemma radix_digit_10 c : is_radix_digit 10 c = (48 <=? c) && (c <=? 57).
Proof. unfold is_radix_digit, to_digit. repeat (case_match; simplify_eq); lia. Qed.

Lemma unsigned_from_to_str bound n :
  bound ≤ 2 ^ 64 → 0 ≤ n < bound → unsigned_from_str bound (uint_to_str n) = Some n.
Proof.
  intros Hb Hn.
  destruct (to_str_radix_spec n 10) as (Hv & Hd & Hne & _); [lia|lia|].
  unfold unsigned_from_str, uint_to_str in *.
  destruct (to_str_radix n 10) as [|c s] eqn:E; [done|].
  assert ((c =? 43) = false) as ->.
  { cbn [forallb] in Hd. apply andb_true_iff in Hd as [Hc _].
    rewrite radix_digit_10 in Hc. lia. }
  unfold digits_value in Hv. rewrite parse_digits_value, Hv; [done|lia|lia|done|].
  rewrite Hv. lia.
Qed.

Lemma uint_to_str_digits n :
  0 ≤ n < 2 ^ 64 → Forall (λ c, 48 ≤ c ≤ 57) (uint_to_str n).
Proof.
  intros Hn. destruct (to_str_radix_spec n 10) as (_ & Hd & _); [lia|lia|].
  apply forallb_Forall in Hd. eapply Forall_impl; [exact Hd|].
  intros c. simpl. rewrite radix_digit_10. lia.
Qed.

Lemma uint_to_str_ascii n : 0 ≤ n < 2 ^ 64 → is_ascii (uint_to_str n) = true.
Proof.
  intros Hn. apply is_ascii_Forall.
  eapply Forall_impl; [apply (uint_to_str_digits n Hn)|]. simpl. lia.
Qed.
