(* ===== verification/Rfc2616.v ===== *)
(** * Values taken from RFC 2616 (src/libhttp/rfc2616.rs)

    The octet classes of the lexical grammar and the coding tokens. *)

From S2P Require Import Prelude Strs.

(** ** Octet classes *)
Definition is_octet (_ : u8) : bool := true.
Definition is_char (octet : u8) : bool := octet <? 128.
Definition is_upalpha (octet : u8) : bool := (chr "A" <=? octet) && (octet <=? chr "Z").
Definition is_loalpha (octet : u8) : bool := (chr "a" <=? octet) && (octet <=? chr "z").
Definition is_alpha (octet : u8) : bool := is_upalpha octet || is_loalpha octet.
Definition is_digit (octet : u8) : bool := (chr "0" <=? octet) && (octet <=? chr "9").
Definition is_ctl (octet : u8) : bool := (octet <? 32) || (octet =? 127).

Definition CR : u8 := 13.
Definition LF : u8 := 10.
Definition SP : u8 := 32.
Definition HT : u8 := 9.
Definition COLON : u8 := 58.
Definition DOUBLE_QUOTE : u8 := 34.
Definition BACKSLASH : u8 := 92.

Definition is_hex (octet : u8) : bool :=
  ((chr "A" <=? octet) && (octet <=? chr "F"))
  || ((chr "a" <=? octet) && (octet <=? chr "f"))
  || is_digit octet.

Definition is_separator (o : u8) : bool :=
  (o =? chr "(") || (o =? chr ")") || (o =? chr "<") || (o =? chr ">") || (o =? chr "@")
  || (o =? chr ",") || (o =? chr ";") || (o =? chr ":") || (o =? chr "\")
  || (o =? DOUBLE_QUOTE)
  || (o =? chr "/") || (o =? chr "[") || (o =? chr "]") || (o =? chr "?") || (o =? chr "=")
  || (o =? chr "{") || (o =? chr "}") || (o =? SP) || (o =? HT).

Definition is_token_item (o : u8) : bool := is_char o && negb (is_ctl o) && negb (is_separator o).

(** [s.byte_iter().all(is_token_item)]. *)
Definition is_token (s : str) : bool := forallb is_token_item (as_bytes s).

(** ** Content codings *)
Module content_coding.
Inductive ValueToken : Type := Gzip | Compress | Deflate | Identity.
#[global] Instance ValueToken_eq_dec : EqDecision ValueToken.
Proof. solve_decision. Defined.

Definition to_str (t : ValueToken) : str :=
  match t with
  | Gzip => lit "gzip"
  | Compress => lit "compress"
  | Deflate => lit "deflate"
  | Identity => lit "identity"
  end.

Definition from_str (s : str) : option ValueToken :=
  let s := to_ascii_lower s in
  if decide (s = lit "gzip") then Some Gzip
  else if decide (s = lit "compress") then Some Compress
  else if decide (s = lit "deflate") then Some Deflate
  else if decide (s = lit "identity") then Some Identity
  else None.
End content_coding.

(** ** Transfer codings *)
Module transfer_coding.
Inductive ValueToken : Type := Chunked | Gzip | Compress | Deflate.

Definition to_str (t : ValueToken) : str :=
  match t with
  | Chunked => lit "chunked"
  | Gzip => lit "gzip"
  | Compress => lit "compress"
  | Deflate => lit "deflate"
  end.
End transfer_coding.

(** ** Facts on the classes *)

(** Decide a goal about octet classes by linear arithmetic. *)
Ltac octet_lia :=
  unfold is_token_item, is_separator, is_hex, is_ctl, is_char, is_alpha, is_upalpha,
    is_loalpha, is_digit, CR, LF, SP, HT, COLON, DOUBLE_QUOTE, BACKSLASH in *;
  eval_chr; lia.

Lemma token_item_not_separator b : is_token_item b = true → is_separator b = false.
Proof. unfold is_token_item. destruct (is_separator b); [|done]. by rewrite andb_false_r. Qed.

Lemma token_item_range b : is_token_item b = true → 32 < b < 127.
Proof.
  unfold is_token_item, is_separator. intros H. octet_lia.
Qed.

Lemma token_item_ascii b : is_token_item b = true → b < 128.
Proof. intros H%token_item_range. lia. Qed.

Lemma is_token_app s t : is_token (s ++ t) = is_token s && is_token t.
Proof. unfold is_token. by rewrite as_bytes_app, forallb_app. Qed.

(** Only ASCII characters have an encoding made of token octets. *)
Lemma is_token_Forall s :
  Forall (λ c, 0 ≤ c) s →
  is_token s = true ↔ Forall (λ c, is_token_item c = true) s.
Proof.
  intros Hs. induction Hs as [|c s Hc Hs IH]; [by split|].
  rewrite Forall_cons, <-IH. unfold is_token. rewrite as_bytes_cons, forallb_app, andb_true_iff.
  apply and_iff_compat_r.
  destruct (Z.ltb_spec c 128) as [Hlt|Hge].
  - rewrite utf8_ascii by done. simpl. by rewrite andb_true_r.
  - split; intros H; exfalso; [|apply token_item_range in H; lia].
    destruct (utf8_encode c) as [|b bs] eqn:E; 
      [pose proof (utf8_length c) as Hl; rewrite E in Hl; simpl in Hl; lia|].
    simpl in H. apply andb_true_iff in H as [H%token_item_range _].
    revert E. unfold utf8_encode. repeat case_match; intros E; simplify_eq;
      Z.to_euclidean_division_equations; lia.
Qed.

(** All bytes of a type are checked by evaluation. *)
Lemma octet_forall (f : Z → bool) :
  forallb f (seqZ 0 256) = true → ∀ b, is_u8 b → f b = true.
Proof.
  intros Hf b Hb. apply forallb_Forall in Hf. rewrite Forall_forall in Hf.
  apply Hf. apply elem_of_seqZ. unfold is_u8 in Hb. lia.
Qed.

(** The characters of a token, as the grammar of RFC 7230 lists them. *)
Definition tchars : list u8 :=
  lit "!#$%&'*+-.^_`|~0123456789ABCDEFGHIJKLMNOPQRSTUVWXYZabcdefghijklmnopqrstuvwxyz".

(** The octets are classified as the grammar has it: every octet is
    exactly one of a token character, a separator, a control character that is
    no separator, or no ASCII character; the token characters are the 77 of
    the grammar; and a hexadecimal digit is one that denotes a value below
    16. *)
Theorem octets_classified b :
  is_u8 b →
  is_token_item b = bool_decide (b ∈ tchars)
  ∧ length (filter (λ x : bool, x = true) [is_token_item b; is_separator b; is_ctl b && negb (is_separator b); negb (is_char b)])
    = 1%nat
  ∧ is_hex b = bool_decide (is_Some (to_digit 16 b)).
Proof.
  intros Hb.
  assert (Hall : forallb (λ b, Bool.eqb (is_token_item b) (bool_decide (b ∈ tchars))
    && (length (filter (λ x : bool, x = true) [is_token_item b; is_separator b; is_ctl b && negb (is_separator b);
                           negb (is_char b)]) =? 1)%nat
    && Bool.eqb (is_hex b) (bool_decide (is_Some (to_digit 16 b)))) (seqZ 0 256) = true)
    by (vm_compute; reflexivity).
  pose proof (octet_forall _ Hall b Hb) as H. apply andb_true_iff in H as [H H3].
  apply andb_true_iff in H as [H1 H2].
  apply Bool.eqb_prop in H1, H3. apply Nat.eqb_eq in H2. exact (conj H1 (conj H2 H3)).
Qed.

Lemma octets_classified_witness :
  is_token_item 64 = bool_decide (64 ∈ tchars)
  ∧ length (filter (λ x : bool, x = true) [is_token_item 64; is_separator 64; is_ctl 64 && negb (is_separator 64); negb (is_char 64)])
    = 1%nat
  ∧ is_hex 64 = bool_decide (is_Some (to_digit 16 64)).
Proof. apply octets_classified. unfold is_u8. lia. Defined.
