(* ===== verification/Method.v ===== *)
(** * HTTP methods (src/libhttp/method.rs) *)

From S2P Require Import Prelude Strs.

Inductive Method : Type :=
  | Options | Get | Head | Post | Put | Delete | Trace | Connect | Patch
  | ExtensionMethod (s : str).
#[global] Instance Method_eq_dec : EqDecision Method.
Proof. solve_decision. Defined.

(** [ToStr for Method]. *)
Definition to_str (m : Method) : str :=
  match m with
  | Options => lit "OPTIONS"
  | Get => lit "GET"
  | Head => lit "HEAD"
  | Post => lit "POST"
  | Put => lit "PUT"
  | Delete => lit "DELETE"
  | Trace => lit "TRACE"
  | Connect => lit "CONNECT"
  | Patch => lit "PATCH"
  | ExtensionMethod s => s
  end.

(** [FromStr for Method]. *)
Definition from_str (method : str) : option Method :=
  if negb (is_ascii method) then None
  else if decide (method = lit "OPTIONS") then Some Options
  else if decide (method = lit "GET") then Some Get
  else if decide (method = lit "HEAD") then Some Head
  else if decide (method = lit "POST") then Some Post
  else if decide (method = lit "PUT") then Some Put
  else if decide (method = lit "DELETE") then Some Delete
  else if decide (method = lit "TRACE") then Some Trace
  else if decide (method = lit "CONNECT") then Some Connect
  else if decide (method = lit "PATCH") then Some Patch
  else None.

(** [fmt::Default for Method]: the bytes written to the formatter. *)
Definition fmt (m : Method) : list u8 :=
  match m with
  | Options => lit "OPTIONS"
  | Get => lit "GET"
  | Head => lit "HEAD"
  | Post => lit "POST"
  | Put => lit "PUT"
  | Delete => lit "DELETE"
  | Trace => lit "TRACE"
  | Connect => lit "CONNECT"
  | Patch => lit "PATCH"
  | ExtensionMethod s => as_bytes s
  end.

(** [Method::from_str_or_new]: fails the task on a string that is not ASCII. *)
Definition from_str_or_new (method : str) : res (option Method) :=
  if negb (is_ascii method) then Fail "assertion failed: method.is_ascii()"
  else Done (Some (
    if decide (method = lit "OPTIONS") then Options
    else if decide (method = lit "GET") then Get
    else if decide (method = lit "HEAD") then Head
    else if decide (method = lit "POST") then Post
    else if decide (method = lit "PUT") then Put
    else if decide (method = lit "DELETE") then Delete
    else if decide (method = lit "TRACE") then Trace
    else if decide (method = lit "CONNECT") then Connect
    else if decide (method = lit "PATCH") then Patch
    else ExtensionMethod method)).

(** The registered methods. *)
Definition known_methods : list Method :=
  [Options; Get; Head; Post; Put; Delete; Trace; Connect; Patch].
(** The values the parsers produce: an [ExtensionMethod] is an ASCII name that
    is not the name of a registered method. *)
Definition canonical (m : Method) : bool :=
  match m with
  | ExtensionMethod s => is_ascii s && bool_decide (s ∉ to_str <$> known_methods)
  | _ => true
  end.

(** ** Facts *)

Lemma from_str_or_new_ascii s : is_ascii s = true → ∃ m, from_str_or_new s = Done (Some m).
Proof. intros Hs. unfold from_str_or_new. rewrite Hs. by eexists. Qed.

Lemma from_str_or_new_to_str m :
  canonical m = true → from_str_or_new (to_str m) = Done (Some m).
Proof.
  destruct m; intros H; try reflexivity.
  cbn [canonical] in H. apply andb_true_iff in H as [Ha Hn]. apply bool_decide_eq_true in Hn.
  cbn [known_methods fmap list_fmap to_str] in Hn. rewrite !not_elem_of_cons in Hn.
  destruct_and?. unfold from_str_or_new. cbn [to_str]. rewrite Ha. cbn [negb].
  by repeat (rewrite decide_False; [|done]).
Qed.

(** [from_str] agrees with [from_str_or_new] on the names it knows and refuses
    every other one. *)
Lemma from_str_spec s m : from_str s = Some m ↔ m ∈ known_methods ∧ s = to_str m.
Proof.
  split.
  - unfold from_str. repeat case_match; intros ?; simplify_eq; (split; [|done]);
      apply (bool_decide_unpack _); vm_compute; done.
  - intros [Hm ->]. unfold known_methods in Hm.
    rewrite !elem_of_cons in Hm. destruct_or?; subst; try reflexivity.
    by apply not_elem_of_nil in Hm.
Qed.

Lemma fmt_to_str m : fmt m = as_bytes (to_str m).
Proof. by destruct m. Qed.

(** Method names and methods correspond: the name of a method, registered
    or not, reads back as that method, through [from_str_or_new] and, for the
    registered ones and only for them, through [from_str]; and a method that
    was read has the name it was read from. *)
Theorem method_round_trip m s :
  (canonical m = true → from_str_or_new (to_str m) = Done (Some m))
  ∧ (from_str s = Some m ↔ m ∈ known_methods ∧ s = to_str m)
  ∧ (from_str_or_new s = Done (Some m) → to_str m = s ∧ canonical m = true)
  ∧ fmt m = as_bytes (to_str m).
Proof.
  split; [apply from_str_or_new_to_str|]. split; [apply from_str_spec|].
  split; [|apply fmt_to_str]. unfold from_str_or_new.
  destruct (is_ascii s) eqn:Ha; cbn [negb]; [|discriminate]. intros [= <-].
  repeat (match goal with |- context [decide (?x = ?y)] =>
    destruct (decide (x = y)) as [Hd|?]; [rewrite Hd; split; reflexivity|] end).
  split; [reflexivity|]. cbn [canonical]. rewrite Ha. cbn [andb].
  apply bool_decide_eq_true. cbn [known_methods fmap list_fmap to_str].
  rewrite !not_elem_of_cons. split_and!; try assumption. apply not_elem_of_nil.
Qed.

Lemma method_round_trip_witness :
  from_str_or_new (to_str (ExtensionMethod (lit "PROPFIND"))) = Done (Some (ExtensionMethod (lit "PROPFIND"))).
Proof.
  apply (proj1 (method_round_trip (ExtensionMethod (lit "PROPFIND")) [])). vm_compute. reflexivity.
Defined.
