(* ===== verification/Io.v ===== *)
(** * Byte streams: the traits of [std::rt::io] and their instances

    [Reader] and [Writer] are the traits the library is generic over.
    [ByteSource] and [ByteSink] state what the library relies on of an
    implementation; [BufferedStream] (Buffer.v) is proved to provide the first
    when the stream it wraps does, and every parser is proved against it.
    The instances are std's in-memory reader and writer, the wrappers of
    src/libhttp/memstream.rs, a TCP connection, and the plain byte list that
    serves as the reference reader. *)

From S2P Require Import Prelude Strs.

(** ** The traits *)

(** [std::rt::io::Reader]: [reader_read n] is [read(buf)] for a [buf] of [n]
    bytes; [Some bs] are the bytes placed at the start of [buf], [None] is the
    end of the stream. *)
Class Reader (R : Type) := {
  reader_read : nat → M R (option (list u8));
  reader_eof : M R bool
}.

(** [std::rt::io::Writer]. *)
Class Writer (W : Type) := {
  writer_write : list u8 → M W unit;
  writer_flush : M W unit
}.

(** [std::rt::io::extensions::ReaderUtil::read_byte]: asks again after an
    empty read. *)
Definition read_byte_util {R} `{Reader R} (fuel : nat) : M R (option u8) :=
  loop fuel (λ _,
    r ← reader_read 1;
    match r with
    | Some [] => continue tt
    | Some [b] => break (Some b)
    | Some _ => fail "internal error: entered unreachable code"
    | None => break None
    end) tt.

(** [std::rt::io::extensions::ReaderUtil::read_to_end]: reads up to 64 KB at a
    time until the end of the stream. *)
Definition DEFAULT_BUF_SIZE : nat := Z.to_nat 0x10000.
Definition read_to_end {R} `{Reader R} (fuel : nat) : M R (list u8) :=
  loop fuel (λ buf,
    r ← reader_read DEFAULT_BUF_SIZE;
    match r with
    | Some bs => continue (buf ++ bs)
    | None => break buf
    end) [].

(** ** Laws *)

(** A source of bytes: [pending] are the bytes still to come; a read into a
    non-empty buffer delivers at least one of them, and [None] is returned
    only at the end.  [source_fresh] holds after a read: it is when the last
    byte read can still be put back. *)
Class ByteSource (R : Type) `{Reader R} := {
  pending : R → list u8;
  source_inv : R → Prop;
  source_fresh : R → Prop;
  source_read n r :
    source_inv r → (0 < n)%nat →
    ∃ o r', reader_read n r = Done (o, r') ∧ source_inv r' ∧ source_fresh r' ∧
      match o with
      | None => pending r = [] ∧ pending r' = []
      | Some bs => (0 < length bs ≤ n)%nat ∧ pending r = bs ++ pending r'
      end
}.

(** A sink of bytes: [sent] is everything written so far. *)
Class ByteSink (W : Type) `{Writer W} := {
  sent : W → list u8;
  sink_write bs w : ∃ w', writer_write bs w = Done (tt, w') ∧ sent w' = sent w ++ bs
}.

(** The two directions of a stream do not interfere. *)
Class Duplex (S : Type) `{ByteSource S, ByteSink S} := {
  duplex_read n s o s' : reader_read n s = Done (o, s') → sent s' = sent s;
  duplex_write bs s s' :
    writer_write bs s = Done (tt, s') →
    pending s' = pending s ∧ (source_inv s → source_inv s')
}.

(** ** The reference reader: a list of bytes *)
#[global] Instance list_reader : Reader (list u8) := {
  reader_read n := λ l,
    match l with
    | [] => Done (None, [])
    | _ => Done (Some (take n l), drop n l)
    end;
  reader_eof := gets (λ l, bool_decide (l = []))
}.

#[global] Program Instance list_source : ByteSource (list u8) := {
  pending l := l;
  source_inv _ := True;
  source_fresh _ := True
}.
Next Obligation.
  intros n [|b l] _ Hn; cbn [reader_read list_reader].
  - by exists None, [].
  - exists (Some (take n (b :: l))), (drop n (b :: l)). do 3 (split; [done|]). split.
    + rewrite length_take. simpl. lia.
    + by rewrite take_drop.
Qed.

(** ** [std::rt::io::mem] *)
Record MemReader : Type := mkMemReader { mr_buf : list u8; mr_pos : nat }.

#[global] Instance MemReader_reader : Reader MemReader := {
  reader_read n := λ r,
    let len := length (mr_buf r) in
    if decide (mr_pos r = len) then Done (None, r)
    else
      let write_len := Nat.min n (len - mr_pos r) in
      Done (Some (take write_len (drop (mr_pos r) (mr_buf r))),
            mkMemReader (mr_buf r) (mr_pos r + write_len));
  reader_eof := gets (λ r, bool_decide (mr_pos r = length (mr_buf r)))
}.

#[global] Program Instance MemReader_source : ByteSource MemReader := {
  pending r := drop (mr_pos r) (mr_buf r);
  source_inv r := (mr_pos r ≤ length (mr_buf r))%nat;
  source_fresh _ := True
}.
Next Obligation.
  intros n [buf pos]; simpl; intros Hinv Hn. case_decide as Hd.
  - exists None, (mkMemReader buf pos). do 3 (split; [done|]). simpl.
    by rewrite drop_ge by lia.
  - eexists _, _. split; [done|]. simpl. split; [lia|]. split; [done|]. split.
    + rewrite length_take, length_drop. lia.
    + by rewrite <-drop_drop, take_drop.
Qed.

(** [MemWriter] without seeking: writes go to the end. *)
Record MemWriter : Type := mkMemWriter { mw_buf : list u8 }.

#[global] Instance MemWriter_writer : Writer MemWriter := {
  writer_write bs := modify (λ w, mkMemWriter (mw_buf w ++ bs));
  writer_flush := mret tt
}.

#[global] Program Instance MemWriter_sink : ByteSink MemWriter := { sent := mw_buf }.
Next Obligation. intros bs w. by eexists. Qed.

(** ** src/libhttp/memstream.rs *)
(** [std::rt::io::SeekStyle]. *)
Inductive SeekStyle : Type := SeekSet | SeekEnd | SeekCur.

Module memstream.
(** [MemWriterFakeStream]: a writer whose reading methods fail. *)
Record MemWriterFakeStream : Type := mkWriterFake { wf_inner : MemWriter }.
Definition MemWriterFakeStream_new : MemWriterFakeStream := mkWriterFake (mkMemWriter []).
#[global] Instance MemWriterFakeStream_writer : Writer MemWriterFakeStream := {
  writer_write bs := zoom wf_inner (λ i _, mkWriterFake i) (writer_write bs);
  writer_flush := zoom wf_inner (λ i _, mkWriterFake i) writer_flush
}.
#[global] Instance MemWriterFakeStream_reader : Reader MemWriterFakeStream := {
  reader_read _ := fail "Uh oh, you didn't aught to call MemWriterFakeStream.read()!";
  reader_eof := fail "Uh oh, you didn't aught to call MemWriterFakeStream.eof()!"
}.
Definition MemWriterFakeStream_tell (s : MemWriterFakeStream) : u64 :=
  Z.of_nat (length (mw_buf (wf_inner s))).
(** [seek] is that of the stream inside, which is a parameter. *)
Definition MemWriterFakeStream_seek (inner_seek : Z → SeekStyle → M MemWriter unit)
    (pos : Z) (style : SeekStyle) : M MemWriterFakeStream unit :=
  zoom wf_inner (λ i _, mkWriterFake i) (inner_seek pos style).

(** [MemReaderFakeStream]: a reader whose writing methods fail. *)
Record MemReaderFakeStream : Type := mkReaderFake { rf_inner : MemReader }.
Definition MemReaderFakeStream_new (buf : list u8) : MemReaderFakeStream :=
  mkReaderFake (mkMemReader buf 0).
#[global] Instance MemReaderFakeStream_reader : Reader MemReaderFakeStream := {
  reader_read n := zoom rf_inner (λ i _, mkReaderFake i) (reader_read n);
  reader_eof := zoom rf_inner (λ i _, mkReaderFake i) reader_eof
}.
#[global] Instance MemReaderFakeStream_writer : Writer MemReaderFakeStream := {
  writer_write _ := fail "Uh oh, you didn't aught to call MemReaderFakeStream.write()!";
  writer_flush := fail "Uh oh, you didn't aught to call MemReaderFakeStream.flush()!"
}.
Definition MemReaderFakeStream_tell (s : MemReaderFakeStream) : u64 :=
  Z.of_nat (mr_pos (rf_inner s)).
Definition MemReaderFakeStream_seek (inner_seek : Z → SeekStyle → M MemReader unit)
    (pos : Z) (style : SeekStyle) : M MemReaderFakeStream unit :=
  zoom rf_inner (λ i _, mkReaderFake i) (inner_seek pos style).

#[global] Program Instance MemReaderFakeStream_source : ByteSource MemReaderFakeStream := {
  pending r := pending (rf_inner r);
  source_inv r := source_inv (rf_inner r);
  source_fresh r := source_fresh (rf_inner r)
}.
Next Obligation.
  intros n r Hinv Hn. destruct (source_read n (rf_inner r) Hinv Hn) as (o & r' & E & Hr).
  exists o, (mkReaderFake r'). split; [|exact Hr].
  cbn [reader_read MemReaderFakeStream_reader]. unfold zoom. by rewrite E.
Qed.

#[global] Program Instance MemWriterFakeStream_sink : ByteSink MemWriterFakeStream := {
  sent w := sent (wf_inner w)
}.
Next Obligation. intros bs w. by eexists. Qed.
End memstream.

(** ** [std::rt::io::net] *)
Inductive IpAddr : Type :=
  | Ipv4Addr (a b c d : u8)
  | Ipv6Addr (a b c d e f g h : u16).
Record SocketAddr : Type := mkSocketAddr { ip : IpAddr; port : u16 }.
#[global] Instance IpAddr_eq_dec : EqDecision IpAddr.
Proof. solve_decision. Defined.
#[global] Instance SocketAddr_eq_dec : EqDecision SocketAddr.
Proof. solve_decision. Defined.

(** A TCP connection: the segments in which the peer's bytes arrive (one
    [read] returns bytes of one segment), what was written, and the address of
    the peer.  [flush] fails, as the library notes where it opens a
    connection, and so does [eof]. *)
Record TcpStream : Type := mkTcp {
  tcp_in : list (list u8);
  tcp_out : list u8;
  peer_name : option SocketAddr
}.

#[global] Instance TcpStream_reader : Reader TcpStream := {
  reader_read n := λ t,
    match tcp_in t with
    | [] => Done (None, t)
    | seg :: segs =>
        Done (Some (take n seg),
              mkTcp (if (length seg <=? n)%nat then segs else drop n seg :: segs)
                    (tcp_out t) (peer_name t))
    end;
  reader_eof := fail "explicit failure"
}.
#[global] Instance TcpStream_writer : Writer TcpStream := {
  writer_write bs := modify (λ t, mkTcp (tcp_in t) (tcp_out t ++ bs) (peer_name t));
  writer_flush := fail "explicit failure"
}.

(** A connection that delivers no empty segment is a byte source. *)
#[global] Program Instance TcpStream_source : ByteSource TcpStream := {
  pending t := concat (tcp_in t);
  source_inv t := Forall (λ seg, seg ≠ []) (tcp_in t);
  source_fresh _ := True
}.
Next Obligation.
  intros n [segs out peer]; simpl; intros Hinv Hn.
  destruct segs as [|seg segs].
  - by exists None, (mkTcp [] out peer).
  - apply Forall_cons in Hinv as [Hseg Hsegs]. eexists _, _. split; [done|]. simpl.
    split; [|split; [done|split]].
    + destruct (Nat.leb_spec (length seg) n); [done|]. apply Forall_cons. split; [|done].
      intros Hd%(f_equal length). rewrite length_drop in Hd. simpl in Hd. lia.
    + rewrite length_take. destruct seg; [done|]. simpl. lia.
    + destruct (Nat.leb_spec (length seg) n).
      * by rewrite take_ge by lia.
      * simpl. by rewrite app_assoc, take_drop.
Qed.

#[global] Program Instance TcpStream_sink : ByteSink TcpStream := { sent := tcp_out }.
Next Obligation. intros bs w. by eexists. Qed.

#[global] Program Instance TcpStream_duplex : Duplex TcpStream.
Next Obligation.
  intros n s o s' E. simpl in E. destruct (tcp_in s); by simplify_eq.
Qed.
Next Obligation.
  intros bs s s' E. cbn in E. unfold modify in E. simplify_eq. by simpl.
Qed.

(** ** Reading from a source, one byte at a time *)

(** A reader related to the bytes it has still to deliver. *)
Definition src_rel {R} `{ByteSource R} (r : R) (l : list u8) : Prop :=
  source_inv r ∧ pending r = l.
Definition fresh_rel {R} `{ByteSource R} (r : R) (l : list u8) : Prop :=
  src_rel r l ∧ source_fresh r.

Section Source.
Context {R : Type} `{ByteSource R}.

Lemma fresh_src (r : R) l : fresh_rel r l → src_rel r l.
Proof. by intros [? ?]. Qed.

(** The generic [read_byte] on any source returns the first pending byte, and
    [None] when there is none: it behaves as on the list of pending bytes. *)
Lemma read_byte_util_sim fuel :
  msim src_rel fresh_rel (read_byte_util (R:=R) fuel) (read_byte_util (R:=list u8) fuel).
Proof.
  destruct fuel as [|fuel]; [by intros r l|].
  intros r l [Hinv Hp]. destruct (source_read 1 r Hinv) as (o & r' & E & Hinv' & Hf & Ho); [lia|].
  unfold read_byte_util. rewrite !loop_S, !bind_assoc, (bind_Done _ _ _ _ _ E).
  destruct o as [bs|].
  - destruct Ho as [Hl Ho]. destruct bs as [|b [|? bs]]; simpl in Hl; try lia.
    rewrite Ho in Hp. subst l. by repeat split.
  - destruct Ho as [Ho Ho']. rewrite Ho in Hp. subst l. split; [done|]. by split; [split|].
Qed.

Lemma read_byte_util_list fuel (l : list u8) :
  (0 < fuel)%nat →
  read_byte_util fuel l = match l with
                          | [] => Done (None, [])
                          | b :: l' => Done (Some b, l')
                          end.
Proof. destruct fuel; [lia|]. by destruct l. Qed.

(** Everything that is left is read, and the source is at its end. *)
Lemma read_to_end_spec fuel (r : R) :
  source_inv r → (length (pending r) < fuel)%nat →
  ∃ r', read_to_end fuel r = Done (pending r, r') ∧ source_inv r' ∧ pending r' = [].
Proof.
  unfold read_to_end. set (body := λ buf : list u8, _).
  assert (Hgen : ∀ n buf r, source_inv r → (length (pending r) < n)%nat →
    ∃ r', loop n body buf r = Done (buf ++ pending r, r') ∧ source_inv r' ∧ pending r' = []);
    [|intros Hi Hf; apply (Hgen fuel [] r Hi Hf)].
  intros n. induction n as [|n IH]; intros buf s Hi Hn; [lia|].
  destruct (source_read DEFAULT_BUF_SIZE s Hi) as (o & s' & E & Hi' & _ & Ho); [unfold DEFAULT_BUF_SIZE; lia|].
  destruct o as [bs|].
  - destruct Ho as [Hl Hp]. assert (Eb : body buf s = Done (inl (buf ++ bs), s')) by (unfold body; by rewrite bind_unfold, E).
    rewrite (loop_continue _ _ _ _ _ _ Eb), Hp. rewrite Hp, length_app in Hn.
    destruct (IH (buf ++ bs) s' Hi') as (r' & -> & ?); [lia|]. exists r'. by rewrite app_assoc.
  - destruct Ho as [Hp Hp']. assert (Eb : body buf s = Done (inr buf, s')) by (unfold body; by rewrite bind_unfold, E).
    rewrite (loop_break _ _ _ _ _ _ Eb), Hp, app_nil_r. by exists s'.
Qed.

End Source.

#[export] Hint Resolve fresh_src : http.

(** The same source, restricted to the states after a read: a parser that
    starts in one ends in one. *)
Program Definition fresh_source {R} {HR : Reader R} (HS : ByteSource R) : ByteSource R := {|
  pending := @pending R HR HS;
  source_inv r := @source_inv R HR HS r ∧ @source_fresh R HR HS r;
  source_fresh := @source_fresh R HR HS
|}.
Next Obligation.
  intros R HR HS n r [Hi _] Hn. destruct (source_read n r Hi Hn) as (o & r' & E & Hi' & Hf & Ho).
  by exists o, r'.
Qed.

(** ** Methods that only write

    [Writes m bs]: [m] is a sequence of [write] calls whose bytes are [bs]. *)
Definition Writes {W} `{Writer W} (m : M W unit) (bs : list u8) : Prop :=
  ∃ bss, concat bss = bs ∧ ∀ w, m w = for_each bss writer_write w.

Section Writes.
Context {W : Type} `{Writer W}.

Lemma for_each_app {S A} (xs ys : list A) (f : A → M S unit) s :
  for_each (xs ++ ys) f s = (for_each xs f;; for_each ys f) s.
Proof.
  revert s. induction xs as [|x xs IH]; intros s; [done|]. simpl.
  rewrite bind_assoc, !bind_unfold. destruct (f x s) as [[[] s']| |]; [apply IH|done|done].
Qed.

Lemma Writes_ret : Writes (W:=W) (mret tt) [].
Proof. by exists []. Qed.

Lemma Writes_write bs : Writes (W:=W) (writer_write bs) bs.
Proof.
  exists [bs]. simpl. split; [by rewrite app_nil_r|]. intros w.
  rewrite bind_unfold. by destruct (writer_write bs w) as [[[] w']| |].
Qed.

Lemma Writes_bind (m1 m2 : M W unit) bs1 bs2 :
  Writes m1 bs1 → Writes m2 bs2 → Writes (m1;; m2) (bs1 ++ bs2).
Proof.
  intros (b1 & <- & H1) (b2 & <- & H2). exists (b1 ++ b2). split; [by rewrite concat_app|].
  intros w. rewrite for_each_app, !bind_unfold, H1.
  by destruct (for_each b1 writer_write w) as [[[] w']| |].
Qed.

Lemma Writes_for_each {A} (xs : list A) (f : A → M W unit) (g : A → list u8) :
  (∀ x, Writes (f x) (g x)) → Writes (for_each xs f) (xs ≫= g).
Proof.
  intros Hf. induction xs as [|x xs IH]; simpl; [apply Writes_ret|].
  apply (Writes_bind (f x) (for_each xs f)); auto.
Qed.

Lemma Writes_if (b : bool) (m1 m2 : M W unit) bs1 bs2 :
  Writes m1 bs1 → Writes m2 bs2 → Writes (if b then m1 else m2) (if b then bs1 else bs2).
Proof. by destruct b. Qed.

Lemma Writes_assert b e (m : M W unit) bs : b = true → Writes m bs → Writes (assert b e;; m) bs.
Proof. intros -> Hm. apply (Writes_bind (mret tt) m [] bs Writes_ret Hm). Qed.

(** On a sink, such a method sends its bytes. *)
Lemma Writes_sink `{!ByteSink W} (m : M W unit) bs w :
  Writes m bs → ∃ w', m w = Done (tt, w') ∧ sent w' = sent w ++ bs.
Proof.
  intros (bss & <- & Hm). setoid_rewrite Hm. revert w. clear. induction bss as [|b bss IH]; intros w.
  - exists w. by rewrite app_nil_r.
  - destruct (sink_write b w) as (w1 & E1 & H1). destruct (IH w1) as (w2 & E2 & H2).
    exists w2. simpl. rewrite (bind_Done _ _ _ _ _ E1), E2, H2, H1, app_assoc. done.
Qed.
End Writes.

#[export] Hint Resolve Writes_ret Writes_write Writes_bind Writes_for_each Writes_if : http.
