(* ===== verification/Buffer.v ===== *)
(** * BufferedStream (src/libhttp/buffer.rs)

    The buffer between the library and the stream it wraps.  Its reading side
    is proved to be a [ByteSource] with the bytes of the buffer in front of
    those of the wrapped stream; its writing side delivers what was written, in
    order, either as it is or, in chunked mode, as a sequence of chunks. *)

From S2P Require Import Prelude Strs Rfc2616 Io.

Definition READ_BUF_SIZE : nat := Z.to_nat 0x10000.
Definition WRITE_BUF_SIZE : nat := Z.to_nat 0x10000.

Record BufferedStream (T : Type) : Type := mkBuffered {
  wrapped : T;
  read_buffer : list u8;
  read_pos : nat;
  read_max : nat;
  write_buffer : list u8;
  write_len : nat;
  call_wrapped_flush : bool;
  writing_chunked_body : bool
}.
Arguments mkBuffered {T}.
Arguments wrapped {T}.
Arguments read_buffer {T}.
Arguments read_pos {T}.
Arguments read_max {T}.
Arguments write_buffer {T}.
Arguments write_len {T}.
Arguments call_wrapped_flush {T}.
Arguments writing_chunked_body {T}.

Section Operations.
Context {T : Type}.
Implicit Types s : BufferedStream T.

(** Field updates. *)
Definition set_wrapped (w : T) s :=
  mkBuffered w (read_buffer s) (read_pos s) (read_max s) (write_buffer s) (write_len s)
    (call_wrapped_flush s) (writing_chunked_body s).
Definition set_read (buf : list u8) (pos max : nat) s :=
  mkBuffered (wrapped s) buf pos max (write_buffer s) (write_len s)
    (call_wrapped_flush s) (writing_chunked_body s).
Definition set_write (buf : list u8) (len : nat) s :=
  mkBuffered (wrapped s) (read_buffer s) (read_pos s) (read_max s) buf len
    (call_wrapped_flush s) (writing_chunked_body s).
Definition set_writing_chunked_body (b : bool) s :=
  mkBuffered (wrapped s) (read_buffer s) (read_pos s) (read_max s) (write_buffer s)
    (write_len s) (call_wrapped_flush s) b.
Definition set_pos (pos : nat) s := set_read (read_buffer s) pos (read_max s) s.
Definition set_max (max : nat) s := set_read (read_buffer s) (read_pos s) max s.
Definition set_write_len (len : nat) s := set_write (write_buffer s) len s.

(** [BufferedStream::new]. *)
Definition new (stream : T) (call_wrapped_flush : bool) : BufferedStream T :=
  mkBuffered stream (replicate READ_BUF_SIZE 0) 0 0 (replicate WRITE_BUF_SIZE 0) 0
    call_wrapped_flush false.

(** ** Reading *)

(** [self.read_buffer[i] = byte] and [self.read_buffer[i]], with the bounds
    check. *)
Definition store_read (i : nat) (byte : u8) : M (BufferedStream T) unit := λ s,
  if (i <? length (read_buffer s))%nat
  then Done (tt, set_read (<[i := byte]> (read_buffer s)) (read_pos s) (read_max s) s)
  else Fail "index out of bounds".
Definition load_read (i : nat) : M (BufferedStream T) u8 := λ s,
  match read_buffer s !! i with
  | Some b => Done (b, s)
  | None => Fail "index out of bounds"
  end.

Definition poke_byte (byte : u8) : M (BufferedStream T) unit :=
  pos ← gets read_pos;
  max ← gets read_max;
  match pos, max with
  | O, O => modify (set_max 1)
  | O, _ => fail "poke called when buffer is full"
  | S p, _ => modify (set_pos p)
  end;;
  pos ← gets read_pos;
  store_read pos byte.

(** Bytes read into the start of a buffer. *)
Definition overwrite (bs buf : list u8) : list u8 := bs ++ drop (length bs) buf.

Definition fill_buffer `{Reader T} : M (BufferedStream T) bool :=
  pos ← gets read_pos;
  max ← gets read_max;
  assert (bool_decide (pos = max)) "assertion failed: read_pos == read_max";;
  buf ← gets read_buffer;
  r ← zoom wrapped set_wrapped (reader_read (length buf));
  match r with
  | None => modify (set_read buf 0 0);; mret false
  | Some bs => modify (set_read (overwrite bs buf) 0 (length bs));; mret true
  end.

(** [if self.read_pos == self.read_max && !self.fill_buffer()]: whether the
    buffer has something to give. *)
Definition ensure_buffer `{Reader T} : M (BufferedStream T) bool :=
  pos ← gets read_pos;
  max ← gets read_max;
  if bool_decide (pos = max) then fill_buffer else mret true.

Definition read_byte `{Reader T} : M (BufferedStream T) (option u8) :=
  more ← ensure_buffer;
  if negb more then mret None
  else
    modify (λ s, set_pos (S (read_pos s)) s);;
    pos ← gets read_pos;
    b ← load_read (pos - 1);
    mret (Some b).

(** [Reader::read] into a buffer of [n] bytes.  The length left is computed
    with wrap-around; [slice_from] and [copy_memory] check their bounds. *)
Definition read `{Reader T} (n : nat) : M (BufferedStream T) (option (list u8)) :=
  more ← ensure_buffer;
  if negb more then mret None
  else
    pos ← gets read_pos;
    max ← gets read_max;
    buf ← gets read_buffer;
    let size := Z.min (wrap64 (Z.of_nat max - Z.of_nat pos)) (Z.of_nat n) in
    assert (pos <=? length buf)%nat "assertion failed: slice_from";;
    assert (size <=? Z.of_nat (length (drop pos buf))) "assertion failed: copy_memory";;
    modify (set_pos (pos + Z.to_nat size));;
    mret (Some (take (Z.to_nat size) (drop pos buf))).

Definition eof `{Reader T} : M (BufferedStream T) bool :=
  pos ← gets read_pos;
  max ← gets read_max;
  if bool_decide (pos = max) then zoom wrapped set_wrapped reader_eof else mret false.

(** ** Writing *)
Definition CRLF : list u8 := [CR; LF].

(** [format!("{}\r\n", n.to_str_radix(16))]. *)
Definition chunk_header (n : Z) : list u8 := as_bytes (to_str_radix n 16 ++ [CR; LF]).

Definition write_wrapped `{Writer T} (bs : list u8) : M (BufferedStream T) unit :=
  zoom wrapped set_wrapped (writer_write bs).

(** The first branch of [write]: what is buffered and [buf] go out together. *)
Definition write_through `{Writer T} (buf : list u8) (total : Z) : M (BufferedStream T) unit :=
  len ← gets write_len;
  wb ← gets write_buffer;
  chunked ← gets writing_chunked_body;
  (if (chunked : bool) then write_wrapped (chunk_header total) else mret tt);;
  (if (0 <? len)%nat then write_wrapped (take len wb);; modify (set_write_len 0) else mret tt);;
  write_wrapped buf;;
  modify (set_write_len 0);;
  if (chunked : bool) then write_wrapped CRLF else mret tt.

(** The end of its second branch: a full buffer goes out. *)
Definition write_full `{Writer T} : M (BufferedStream T) unit :=
  len ← gets write_len;
  wb ← gets write_buffer;
  chunked ← gets writing_chunked_body;
  (if (chunked : bool) then
     write_wrapped (chunk_header (Z.of_nat len));;
     write_wrapped wb;;
     write_wrapped CRLF
   else write_wrapped wb);;
  modify (set_write_len 0).

Definition write `{Writer T} (buf : list u8) : M (BufferedStream T) unit :=
  len ← gets write_len;
  wb ← gets write_buffer;
  let total := wrap64 (Z.of_nat (length buf) + Z.of_nat len) in
  if Z.of_nat (length wb) <? total then write_through buf total
  else
    modify (set_write (take len wb ++ buf ++ drop (len + length buf) wb) (len + length buf));;
    if bool_decide ((len + length buf)%nat = length wb) then write_full else mret tt.

Definition flush `{Writer T} : M (BufferedStream T) unit :=
  len ← gets write_len;
  wb ← gets write_buffer;
  chunked ← gets writing_chunked_body;
  (if (0 <? len)%nat then
     (if (chunked : bool) then write_wrapped (chunk_header (Z.of_nat len)) else mret tt);;
     write_wrapped (take len wb);;
     (if (chunked : bool) then write_wrapped CRLF else mret tt);;
     modify (set_write_len 0)
   else mret tt);;
  cwf ← gets call_wrapped_flush;
  if (cwf : bool) then zoom wrapped set_wrapped writer_flush else mret tt.

(** [bytes!("0\r\n\r\n")]: the last chunk, with an empty trailer. *)
Definition last_chunk : list u8 := lit "0" ++ CRLF ++ CRLF.

Definition finish_response `{Writer T} : M (BufferedStream T) unit :=
  flush;;
  chunked ← gets writing_chunked_body;
  if (chunked : bool) then write_wrapped last_chunk else mret tt.

#[global] Instance BufferedStream_reader `{Reader T} : Reader (BufferedStream T) := {
  reader_read := read;
  reader_eof := eof
}.
#[global] Instance BufferedStream_writer `{Writer T} : Writer (BufferedStream T) := {
  writer_write := write;
  writer_flush := flush
}.

(** ** The invariant

    The reading window lies in the buffer, and the write buffer is never left
    full. *)
Definition read_wf s : Prop :=
  length (read_buffer s) = READ_BUF_SIZE ∧ (read_pos s ≤ read_max s ≤ READ_BUF_SIZE)%nat.
Definition write_wf s : Prop :=
  length (write_buffer s) = WRITE_BUF_SIZE ∧ (write_len s < WRITE_BUF_SIZE)%nat.

(** The bytes read from the wrapped stream and not yet delivered. *)
Definition window s : list u8 := take (read_max s - read_pos s) (drop (read_pos s) (read_buffer s)).
(** The bytes accepted and not yet handed to the wrapped stream. *)
Definition buffered s : list u8 := take (write_len s) (write_buffer s).
(** Where [poke_byte] does not fail. *)
Definition can_poke s : Prop := (0 < read_pos s)%nat ∨ read_max s = 0%nat.

End Operations.

Lemma READ_BUF_SIZE_pos : (0 < READ_BUF_SIZE)%nat.
Proof. unfold READ_BUF_SIZE. lia. Qed.
Lemma WRITE_BUF_SIZE_pos : (0 < WRITE_BUF_SIZE)%nat.
Proof. unfold WRITE_BUF_SIZE. lia. Qed.
Lemma READ_BUF_SIZE_Z : Z.of_nat READ_BUF_SIZE = 2 ^ 16.
Proof. unfold READ_BUF_SIZE. lia. Qed.
Lemma WRITE_BUF_SIZE_Z : Z.of_nat WRITE_BUF_SIZE = 2 ^ 16.
Proof. unfold WRITE_BUF_SIZE. lia. Qed.
#[global] Opaque READ_BUF_SIZE WRITE_BUF_SIZE.

(** ** The reading side is a byte source

    [F] is a property of the rest of the state that reading leaves alone: the
    frame.  It is [True] for a reader on its own; the server instantiates it
    with the state of the writing side. *)
Definition read_stable {T} `{Reader T} (F : BufferedStream T → Prop) : Prop :=
  (∀ s buf pos max, F s → F (set_read buf pos max s)) ∧
  (∀ n s o w, F s → reader_read n (wrapped s) = Done (o, w) → F (set_wrapped w s)).

Section Reading.
Context {T : Type} `{ByteSource T} (F : BufferedStream T → Prop) (HF : read_stable F).
Implicit Types s : BufferedStream T.

Definition bs_inv s : Prop := read_wf s ∧ source_inv (wrapped s) ∧ F s.
Definition bs_pending s : list u8 := window s ++ pending (wrapped s).

Lemma window_length s : read_wf s → length (window s) = (read_max s - read_pos s)%nat.
Proof.
  intros [Hl Hp]. unfold window. rewrite length_take, length_drop, Hl. lia.
Qed.

Lemma window_empty s : read_pos s = read_max s → window s = [].
Proof. intros Hp. unfold window. by rewrite Hp, Nat.sub_diag. Qed.

Lemma fill_buffer_spec s :
  bs_inv s → read_pos s = read_max s →
  ∃ more s', fill_buffer s = Done (more, s') ∧ bs_inv s' ∧ bs_pending s' = bs_pending s ∧
    if more : bool then read_pos s' = 0%nat ∧ (0 < read_max s')%nat
    else bs_pending s = [] ∧ read_pos s' = 0%nat ∧ read_max s' = 0%nat.
Proof.
  intros ((Hlen & Hpos) & Hsrc & HFs) Heq. unfold fill_buffer.
  rewrite !bind_gets, bool_decide_true by done. cbn [assert]. rewrite bind_ret, bind_gets.
  destruct (source_read (length (read_buffer s)) (wrapped s) Hsrc) as (o & w & E & Hw & _ & Ho).
  { rewrite Hlen. apply READ_BUF_SIZE_pos. }
  assert (Hz : zoom wrapped set_wrapped (reader_read (length (read_buffer s))) s
               = Done (o, set_wrapped w s)) by (unfold zoom; by rewrite E).
  rewrite (bind_Done _ _ _ _ _ Hz).
  assert (HF' : F (set_wrapped w s)) by (eapply HF; eauto).
  assert (Hps : bs_pending s = pending (wrapped s))
    by (unfold bs_pending; by rewrite (window_empty s Heq)).
  destruct o as [bs|]; rewrite bind_modify.
  - destruct Ho as [Hl Hp]. eexists true, _. split; [done|]. simpl. split; [|split; [|lia]].
    + split; [|by split; [|apply HF]]. unfold read_wf, overwrite; simpl.
      rewrite length_app, length_drop. lia.
    + rewrite Hps. unfold bs_pending, window, overwrite; simpl.
      by rewrite Nat.sub_0_r, drop_0, take_app_length.
  - destruct Ho as [Hp Hp']. eexists false, _. split; [done|]. simpl. split; [|split; [|by rewrite Hps]].
    + split; [|by split; [|apply HF]]. unfold read_wf; simpl. lia.
    + rewrite Hps. unfold bs_pending, window; simpl. by rewrite Hp, Hp'.
Qed.

Lemma ensure_buffer_spec s :
  bs_inv s →
  ∃ more s', ensure_buffer s = Done (more, s') ∧ bs_inv s' ∧ bs_pending s' = bs_pending s ∧
    if more : bool then (read_pos s' < read_max s')%nat
    else bs_pending s = [] ∧ read_pos s' = 0%nat ∧ read_max s' = 0%nat.
Proof.
  intros Hinv. unfold ensure_buffer. rewrite !bind_gets. case_bool_decide as Heq.
  - destruct (fill_buffer_spec s Hinv Heq) as (more & s' & E & Hs' & Hp & Hm).
    exists more, s'. do 3 (split; [done|]). destruct more; [lia|done].
  - exists true, s. do 3 (split; [done|]). destruct Hinv as [[_ Hpos] _]. lia.
Qed.

(** Taking [k] bytes out of the window. *)
Lemma advance_window s k :
  bs_inv s → (k ≤ read_max s - read_pos s)%nat →
  bs_inv (set_pos (read_pos s + k) s) ∧
  bs_pending s = take k (drop (read_pos s) (read_buffer s)) ++ bs_pending (set_pos (read_pos s + k) s).
Proof.
  intros ((Hlen & Hpos) & Hsrc & HFs) Hk. split.
  - split; [|split; [done|by apply HF]]. unfold read_wf; simpl. lia.
  - unfold bs_pending, window; simpl. rewrite app_assoc. f_equal.
    rewrite <-drop_drop. generalize (drop (read_pos s) (read_buffer s)). intros l.
    replace (read_max s - read_pos s)%nat with (k + (read_max s - (read_pos s + k)))%nat by lia.
    generalize (read_max s - (read_pos s + k))%nat. intros m. clear. revert l.
    induction k as [|k IH]; intros l; [done|]. destruct l as [|x l]; simpl.
    + by rewrite take_nil.
    + by rewrite <-IH.
Qed.

Lemma read_spec n s :
  bs_inv s → (0 < n)%nat →
  ∃ o s', read n s = Done (o, s') ∧ bs_inv s' ∧ can_poke s' ∧
    match o with
    | None => bs_pending s = [] ∧ bs_pending s' = []
    | Some bs => (0 < length bs ≤ n)%nat ∧ bs_pending s = bs ++ bs_pending s'
    end.
Proof.
  intros Hinv Hn. destruct (ensure_buffer_spec s Hinv) as (more & t & E & Ht & Hp & Hm).
  unfold read. rewrite (bind_Done _ _ _ _ _ E). destruct more; cbn [negb].
  - pose proof Ht as ((Hlen & Hpos) & _ & _). pose proof READ_BUF_SIZE_Z as HZ.
    rewrite !bind_gets, wrap64_small by lia.
    set (size := Z.min _ _).
    assert (Hsz : Z.to_nat size = Nat.min (read_max t - read_pos t) n) by lia.
    assert ((read_pos t <=? length (read_buffer t))%nat = true) as ->
      by (apply Nat.leb_le; lia).
    assert ((size <=? Z.of_nat (length (drop (read_pos t) (read_buffer t)))) = true) as ->
      by (rewrite length_drop; subst size; apply Z.leb_le; lia).
    cbn [assert]. rewrite !bind_ret, bind_modify, Hsz.
    set (k := Nat.min _ _) in *. destruct (advance_window t k Ht) as [Ht' Hpt]; [lia|].
    eexists _, _. split; [done|]. split; [exact Ht'|]. split; [left; simpl; lia|]. split.
    + rewrite length_take, length_drop. lia.
    + by rewrite <-Hp.
  - destruct Hm as (Hnil & _ & Hmax). exists None, t.
    split; [done|]. split; [done|]. split; [by right|]. by rewrite Hp.
Qed.

#[global] Program Instance BufferedStream_source : ByteSource (BufferedStream T) := {
  pending := bs_pending;
  source_inv := bs_inv;
  source_fresh := can_poke;
  source_read := read_spec
}.

(** [BufferedStream::read_byte], the fast path, agrees with the generic
    [read_byte] on the list of pending bytes. *)
Lemma read_byte_sim fuel :
  (0 < fuel)%nat → msim src_rel fresh_rel read_byte (read_byte_util (R:=list u8) fuel).
Proof.
  intros Hf s l [Hinv <-]. rewrite read_byte_util_list by done.
  destruct (ensure_buffer_spec s Hinv) as (more & t & E & Ht & Hp & Hm).
  unfold read_byte. rewrite (bind_Done _ _ _ _ _ E). cbn [pending BufferedStream_source].
  destruct more; cbn [negb].
  - rewrite bind_modify, bind_gets. destruct (advance_window t 1 Ht) as [Ht' Hpt]; [lia|].
    rewrite Nat.add_1_r in *. cbn [read_pos set_pos set_read]. rewrite Nat.sub_1_r. cbn [Nat.pred].
    destruct (drop (read_pos t) (read_buffer t)) as [|b bs] eqn:Eb.
    { exfalso. apply (f_equal length) in Eb. rewrite length_drop in Eb.
      destruct Ht as [[? ?] _]. simpl in Eb. lia. }
    rewrite <-Hp, Hpt. simpl.
    assert (Hb : read_buffer t !! read_pos t = Some b).
    { pose proof (lookup_drop (read_buffer t) (read_pos t) 0) as Hl.
      rewrite Eb, Nat.add_0_r in Hl. done. }
    unfold load_read. rewrite bind_unfold. simpl. rewrite Hb. simpl.
    split; [done|]. split; [split; [exact Ht'|done]|left; simpl; lia].
  - destruct Hm as (Hnil & Hpos & Hmax). rewrite Hnil. split; [done|].
    split; [split; [done|]|by right]. cbn. by rewrite Hp.
Qed.

(** A byte that has just been read can be put back. *)
Lemma poke_byte_sim b :
  msim fresh_rel src_rel (poke_byte b) (λ l : list u8, Done (tt, b :: l)).
Proof.
  intros s l [[Hinv <-] Hfresh]. pose proof Hinv as ((Hlen & Hpos) & Hsrc & HFs).
  pose proof READ_BUF_SIZE_pos. cbn in Hfresh. unfold can_poke in Hfresh.
  unfold poke_byte. rewrite !bind_gets.
  assert (Hput : ∀ p m, (p < m ≤ READ_BUF_SIZE)%nat →
    take (m - S p) (drop (S p) (read_buffer s)) = window s →
    ∃ s', store_read p b (set_read (read_buffer s) p m s) = Done (tt, s')
      ∧ bs_inv s' ∧ bs_pending s' = b :: bs_pending s).
  { intros p m Hpm Hwin. unfold store_read. simpl.
    destruct (Nat.ltb_spec p (length (read_buffer s))); [|lia]. eexists. split; [done|].
    split; [split; [|split; [done|by apply HF, HF]]|].
    - unfold read_wf; simpl. rewrite length_insert. lia.
    - unfold bs_pending, window at 1; simpl.
      replace (m - p)%nat with (S (m - S p)) by lia.
      rewrite insert_take_drop by done.
      rewrite drop_app_ge by (rewrite length_take; lia).
      rewrite length_take, Nat.min_l, Nat.sub_diag by lia.
      rewrite drop_0. simpl. by rewrite Hwin. }
  destruct (read_pos s) as [|p] eqn:Ep.
  - destruct (read_max s) as [|m] eqn:Em; [|lia].
    rewrite bind_modify, bind_gets. simpl. rewrite Ep.
    destruct (Hput 0%nat 1%nat) as (s' & E & Hs' & Hp'); [lia| |].
    { rewrite window_empty by congruence. done. }
    unfold set_max. rewrite Ep, E. done.
  - rewrite bind_modify, bind_gets. simpl.
    destruct (Hput p (read_max s)) as (s' & E & Hs' & Hp'); [lia| |].
    { unfold window. by rewrite Ep. }
    unfold set_pos. rewrite E. done.
Qed.

End Reading.

(** ** The writing side *)

(** One chunk of the chunked transfer-coding (RFC 2616, section 3.6.1). *)
Definition chunk (data : list u8) : list u8 :=
  chunk_header (Z.of_nat (length data)) ++ data ++ CRLF.
(** What a buffer's worth of data becomes on the wire. *)
Definition emit (chunked : bool) (data : list u8) : list u8 :=
  if chunked then chunk data else data.

(** [Emits chunked body out]: [out] carries [body], as it is or as a sequence
    of non-empty chunks. *)
Inductive Emits (chunked : bool) : list u8 → list u8 → Prop :=
  | emits_nil : Emits chunked [] []
  | emits_snoc body out data :
      Emits chunked body out → data ≠ [] →
      Emits chunked (body ++ data) (out ++ emit chunked data).

(** Without chunking what is sent is what was written. *)
Lemma emits_plain body out : Emits false body out → out = body.
Proof. induction 1; simpl; congruence. Qed.

(** A use of the writing side: writes and flushes in some order. *)
Inductive wop : Type := WWrite (bs : list u8) | WFlush.
Definition run_wop {T} `{Writer T} (op : wop) : M (BufferedStream T) unit :=
  match op with WWrite bs => write bs | WFlush => flush end.
Definition run_wops {T} `{Writer T} (ops : list wop) : M (BufferedStream T) unit :=
  for_each ops run_wop.
(** The bytes a sequence of operations writes. *)
Definition payload (ops : list wop) : list u8 :=
  ops ≫= λ op, match op with WWrite bs => bs | WFlush => [] end.

(** Lengths that fit the address space. *)
Definition fits (bs : list u8) : Prop := Z.of_nat (length bs) < 2 ^ 63.

(** [G] is a property that writing leaves alone. *)
Definition write_stable {T} `{Writer T} (G : BufferedStream T → Prop) : Prop :=
  (∀ s buf len, G s → G (set_write buf len s)) ∧
  (∀ bs s w, G s → writer_write bs (wrapped s) = Done (tt, w) → G (set_wrapped w s)).

Section Writing.
Context {T : Type} `{ByteSink T} (G : BufferedStream T → Prop) (HG : write_stable G).
Implicit Types s : BufferedStream T.

(** [Wrote s out s']: from [s] to [s'] the stream sent [out] and changed
    nothing but its write buffer. *)
Definition Wrote s (out : list u8) s' : Prop :=
  sent (wrapped s') = sent (wrapped s) ++ out ∧ G s'
  ∧ call_wrapped_flush s' = call_wrapped_flush s
  ∧ writing_chunked_body s' = writing_chunked_body s.

Lemma Wrote_refl s : G s → Wrote s [] s.
Proof. intros Hs. split; [by rewrite app_nil_r | done]. Qed.

Lemma Wrote_trans s o1 s1 o2 s2 : Wrote s o1 s1 → Wrote s1 o2 s2 → Wrote s (o1 ++ o2) s2.
Proof.
  intros (H1 & _ & Hf1 & Hc1) (H2 & HG2 & Hf2 & Hc2). unfold Wrote.
  rewrite H2, H1, app_assoc, Hf2, Hf1, Hc2, Hc1. done.
Qed.

Lemma Wrote_set_write s out s' buf len : Wrote s out s' → Wrote s out (set_write buf len s').
Proof. intros (H1 & HG1 & ? & ?). split; [done|]. split; [by apply HG | done]. Qed.

Lemma write_wrapped_spec bs s :
  G s → ∃ s', write_wrapped bs s = Done (tt, s') ∧ Wrote s bs s'
              ∧ write_buffer s' = write_buffer s ∧ write_len s' = write_len s.
Proof.
  intros HGs. destruct (sink_write bs (wrapped s)) as (w & E & Hw).
  exists (set_wrapped w s). unfold write_wrapped, zoom. rewrite E.
  split; [done|]. split; [|done]. split; [done|]. split; [|done]. by eapply HG.
Qed.

Lemma write_wrapped_if (b : bool) bs s :
  G s → ∃ s', (if b then write_wrapped bs else mret tt) s = Done (tt, s')
              ∧ Wrote s (if b then bs else []) s'
              ∧ write_buffer s' = write_buffer s ∧ write_len s' = write_len s.
Proof.
  intros HGs. destruct b; [by apply write_wrapped_spec|].
  exists s. split; [done|]. split; [by apply Wrote_refl | done].
Qed.

Lemma Wrote_G s out s' : Wrote s out s' → G s'.
Proof. by intros (_ & ? & _). Qed.

Lemma emit_spec (c : bool) n data :
  n = Z.of_nat (length data) →
  (if c then chunk_header n else []) ++ data ++ (if c then CRLF else []) = emit c data.
Proof. intros ->. destruct c; simpl; [done|]. by rewrite app_nil_r. Qed.

(** [flush]: the buffered bytes go out, as one chunk in chunked mode. *)
Lemma flush_spec s :
  write_wf s → G s → call_wrapped_flush s = false →
  ∃ s', flush s = Done (tt, s') ∧ write_wf s' ∧ buffered s' = [] ∧
    Wrote s (if decide (buffered s = []) then [] else emit (writing_chunked_body s) (buffered s)) s'.
Proof.
  intros [Hlen Hw] HGs Hcwf. unfold flush. rewrite !bind_gets.
  assert (Hbl : length (buffered s) = write_len s)
    by (unfold buffered; rewrite length_take; lia).
  destruct (Nat.ltb_spec 0 (write_len s)) as [Hpos|Hz].
  - rewrite decide_False by (intros E; rewrite E in Hbl; simpl in Hbl; lia).
    destruct (write_wrapped_if (writing_chunked_body s) (chunk_header (Z.of_nat (write_len s))) s HGs)
      as (s1 & E1 & W1 & Hb1 & Hl1).
    rewrite !bind_assoc, (bind_Done _ _ _ _ _ E1), bind_assoc.
    destruct (write_wrapped_spec (buffered s) s1 (Wrote_G _ _ _ W1)) as (s2 & E2 & W2 & Hb2 & Hl2).
    fold (buffered s). rewrite (bind_Done _ _ _ _ _ E2), bind_assoc.
    destruct (write_wrapped_if (writing_chunked_body s) CRLF s2 (Wrote_G _ _ _ W2))
      as (s3 & E3 & W3 & Hb3 & Hl3).
    rewrite (bind_Done _ _ _ _ _ E3), bind_modify, bind_gets.
    pose proof (Wrote_trans _ _ _ _ _ (Wrote_trans _ _ _ _ _ W1 W2) W3) as W.
    rewrite <-app_assoc, emit_spec in W by lia.
    cbn [call_wrapped_flush set_write_len set_write].
    assert (call_wrapped_flush s3 = false) as -> by (destruct W as (_ & _ & -> & _); done).
    eexists. split; [done|]. split; [|split; [done|by apply Wrote_set_write]].
    unfold write_wf; simpl. rewrite Hb3, Hb2, Hb1. pose proof WRITE_BUF_SIZE_pos. lia.
  - rewrite bind_ret, bind_gets, Hcwf.
    assert (Hnil : buffered s = []) by (apply length_zero_iff_nil; lia).
    rewrite decide_True by done. exists s. split; [done|]. split; [done|]. split; [done|].
    by apply Wrote_refl.
Qed.

Lemma buffered_length s : write_wf s → length (buffered s) = write_len s.
Proof. intros [Hlen Hw]. unfold buffered. rewrite length_take. lia. Qed.

Lemma write_through_spec bs s :
  write_wf s → G s → (0 < length bs + write_len s)%nat →
  ∃ s', write_through bs (Z.of_nat (length bs) + Z.of_nat (write_len s)) s = Done (tt, s')
    ∧ write_wf s' ∧ buffered s' = []
    ∧ Wrote s (emit (writing_chunked_body s) (buffered s ++ bs)) s'.
Proof.
  intros Hwf HGs Hpos. pose proof (buffered_length s Hwf) as Hbl. destruct Hwf as [Hlen Hw].
  unfold write_through. rewrite !bind_gets. fold (buffered s).
  destruct (write_wrapped_if (writing_chunked_body s)
    (chunk_header (Z.of_nat (length bs) + Z.of_nat (write_len s))) s HGs)
    as (s1 & E1 & W1 & Hb1 & Hl1).
  rewrite (bind_Done _ _ _ _ _ E1).
  assert (∃ s2, (if (0 <? write_len s)%nat
                 then write_wrapped (buffered s);; modify (set_write_len 0) else mret tt) s1
                = Done (tt, s2) ∧ Wrote s1 (buffered s) s2 ∧ write_buffer s2 = write_buffer s)
    as (s2 & E2 & W2 & Hb2).
  { destruct (Nat.ltb_spec 0 (write_len s)) as [Hl|Hz].
    - destruct (write_wrapped_spec (buffered s) s1 (Wrote_G _ _ _ W1)) as (s2 & E2 & W2 & Hb2 & _).
      rewrite (bind_Done _ _ _ _ _ E2). eexists. split; [done|].
      split; [by apply Wrote_set_write|]. simpl. by rewrite Hb2.
    - exists s1. split; [done|].
      assert (buffered s = []) as -> by (apply length_zero_iff_nil; lia).
      split; [by apply Wrote_refl, (Wrote_G _ _ _ W1) | done]. }
  rewrite (bind_Done _ _ _ _ _ E2).
  destruct (write_wrapped_spec bs s2 (Wrote_G _ _ _ W2)) as (s3 & E3 & W3 & Hb3 & _).
  rewrite (bind_Done _ _ _ _ _ E3), bind_modify.
  assert (W3' : Wrote s2 bs (set_write_len 0 s3)) by (by apply Wrote_set_write).
  destruct (write_wrapped_if (writing_chunked_body s) CRLF (set_write_len 0 s3)
              (Wrote_G _ _ _ W3')) as (s4 & E4 & W4 & Hb4 & Hl4).
  exists s4. split; [exact E4|]. simpl in Hb4, Hl4. split; [|split].
  - unfold write_wf. rewrite Hl4, Hb4, Hb3, Hb2. pose proof WRITE_BUF_SIZE_pos. lia.
  - unfold buffered. by rewrite Hl4.
  - pose proof (Wrote_trans _ _ _ _ _ (Wrote_trans _ _ _ _ _ (Wrote_trans _ _ _ _ _ W1 W2) W3') W4) as W.
    rewrite <-!app_assoc, (app_assoc (buffered s)), emit_spec in W; [done|].
    rewrite length_app. lia.
Qed.

Lemma write_full_spec s :
  length (write_buffer s) = WRITE_BUF_SIZE → write_len s = WRITE_BUF_SIZE → G s →
  ∃ s', write_full s = Done (tt, s') ∧ write_wf s' ∧ buffered s' = []
    ∧ Wrote s (emit (writing_chunked_body s) (write_buffer s)) s'.
Proof.
  intros Hlen Hfull HGs. unfold write_full. rewrite !bind_gets.
  assert (∃ s', (if writing_chunked_body s
                 then write_wrapped (chunk_header (Z.of_nat (write_len s)));;
                      write_wrapped (write_buffer s);; write_wrapped CRLF
                 else write_wrapped (write_buffer s)) s = Done (tt, s')
                ∧ Wrote s (emit (writing_chunked_body s) (write_buffer s)) s'
                ∧ write_buffer s' = write_buffer s)
    as (s' & E' & W' & Hb').
  { destruct (writing_chunked_body s).
    - destruct (write_wrapped_spec (chunk_header (Z.of_nat (write_len s))) s HGs)
        as (s1 & E1 & W1 & Hb1 & _). rewrite (bind_Done _ _ _ _ _ E1).
      destruct (write_wrapped_spec (write_buffer s) s1 (Wrote_G _ _ _ W1)) as (s2 & E2 & W2 & Hb2 & _).
      rewrite (bind_Done _ _ _ _ _ E2).
      destruct (write_wrapped_spec CRLF s2 (Wrote_G _ _ _ W2)) as (s3 & E3 & W3 & Hb3 & _).
      exists s3. split; [exact E3|]. split; [|by rewrite Hb3, Hb2, Hb1].
      pose proof (Wrote_trans _ _ _ _ _ (Wrote_trans _ _ _ _ _ W1 W2) W3) as W.
      unfold emit, chunk. rewrite <-app_assoc, Hfull, <-Hlen in W. exact W.
    - destruct (write_wrapped_spec (write_buffer s) s HGs) as (s1 & E1 & W1 & Hb1 & _).
      by exists s1. }
  rewrite (bind_Done _ _ _ _ _ E'). eexists. split; [done|]. split; [|split; [done|]].
  - unfold write_wf; simpl. rewrite Hb'. pose proof WRITE_BUF_SIZE_pos. lia.
  - by apply Wrote_set_write.
Qed.

(** [write]: the bytes are added to the buffer, and either stay there or leave
    with everything that was buffered. *)
Lemma write_spec bs s :
  write_wf s → G s → fits bs →
  ∃ s', write bs s = Done (tt, s') ∧ write_wf s' ∧
    ((buffered s' = buffered s ++ bs ∧ Wrote s [] s') ∨
     (buffered s' = [] ∧ buffered s ++ bs ≠ [] ∧
      Wrote s (emit (writing_chunked_body s) (buffered s ++ bs)) s')).
Proof.
  intros Hwf HGs Hfit. unfold fits in Hfit. pose proof WRITE_BUF_SIZE_Z as HZ.
  pose proof (buffered_length s Hwf) as Hbl. pose proof Hwf as [Hlen Hw].
  unfold write. rewrite !bind_gets, wrap64_small by lia. fold (buffered s).
  destruct (Z.ltb_spec (Z.of_nat (length (write_buffer s)))
              (Z.of_nat (length bs) + Z.of_nat (write_len s))) as [Hbig|Hsmall].
  - destruct (write_through_spec bs s Hwf HGs) as (s' & E & Hwf' & Hb & W); [lia|].
    exists s'. split; [done|]. split; [done|]. right. split; [done|]. split; [|done].
    intros Hnil%(f_equal length). rewrite length_app in Hnil. simpl in Hnil. lia.
  - rewrite bind_modify.
    set (wb := buffered s ++ bs ++ drop (write_len s + length bs) (write_buffer s)).
    assert (Hwb : length wb = WRITE_BUF_SIZE).
    { unfold wb. rewrite !length_app, length_drop. lia. }
    assert (Htake : take (write_len s + length bs) wb = buffered s ++ bs).
    { unfold wb. rewrite app_assoc, take_app_length'; [done|]. rewrite length_app. lia. }
    set (t := set_write wb (write_len s + length bs) s).
    assert (Wt : Wrote s [] t) by (by apply Wrote_set_write, Wrote_refl).
    case_bool_decide as Hfull.
    + destruct (write_full_spec t) as (s' & E & Hwf' & Hb & W);
        [done | simpl; lia | by apply (Wrote_G _ _ _ Wt) |].
      assert (Hwbe : wb = buffered s ++ bs) by (rewrite <-Htake, take_ge by lia; done).
      exists s'. split; [done|]. split; [done|]. right. rewrite <-Hwbe. split; [done|]. split.
      * intros Hnil%(f_equal length). simpl in Hnil. pose proof WRITE_BUF_SIZE_pos. lia.
      * by apply (Wrote_trans _ [] t).
    + exists t. split; [done|]. split; [split; [exact Hwb | simpl; lia]|].
      left. split; [exact Htake | exact Wt].
Qed.

(** A sequence of writes and flushes, each within the address space. *)
Lemma run_wops_spec ops s :
  write_wf s → G s → call_wrapped_flush s = false →
  Forall (λ op, match op with WWrite bs => fits bs | WFlush => True end) ops →
  ∃ s' body out, run_wops ops s = Done (tt, s') ∧ write_wf s' ∧ Wrote s out s'
    ∧ Emits (writing_chunked_body s) body out ∧ buffered s ++ payload ops = body ++ buffered s'.
Proof.
  intros Hwf HGs Hcwf Hops.
  assert (∀ body0 out0 s0, write_wf s0 → Wrote s out0 s0 →
    Emits (writing_chunked_body s) body0 out0 →
    ∃ s' body out, run_wops ops s0 = Done (tt, s') ∧ write_wf s' ∧ Wrote s out s'
      ∧ Emits (writing_chunked_body s) body out
      ∧ body0 ++ buffered s0 ++ payload ops = body ++ buffered s') as Hgen;
    [|destruct (Hgen [] [] s Hwf (Wrote_refl s HGs) (emits_nil _)) as (s' & body & out & ?);
      by exists s', body, out].
  induction Hops as [|op ops Hop _ IH]; intros body0 out0 s0 Hwf0 W0 HE0.
  { exists s0, body0, out0. by rewrite app_nil_r. }
  pose proof W0 as (_ & HG0 & Hf0 & Hc0). unfold run_wops. cbn [for_each].
  assert (∃ s1, run_wop op s0 = Done (tt, s1) ∧ write_wf s1 ∧ ∃ body1 out1, Wrote s out1 s1
    ∧ Emits (writing_chunked_body s) body1 out1
    ∧ body0 ++ buffered s0 ++ payload [op] = body1 ++ buffered s1)
    as (s1 & E1 & Hwf1 & body1 & out1 & W1 & HE1 & Hp1).
  { destruct op as [bs|]; simpl.
    - destruct (write_spec bs s0 Hwf0 HG0 Hop) as (s1 & E & Hwf1 & [[Hb W]|(Hb & Hne & W)]);
        exists s1; (split; [done|]; split; [done|]); pose proof (Wrote_trans _ _ _ _ _ W0 W) as W'.
      + exists body0, out0. rewrite app_nil_r in W' |- *. by rewrite Hb.
      + eexists (body0 ++ (buffered s0 ++ bs)), _. split; [exact W'|]. rewrite Hc0. split.
        * by apply emits_snoc.
        * by rewrite Hb, !app_nil_r.
    - destruct (flush_spec s0 Hwf0 HG0) as (s1 & E & Hwf1 & Hb & W); [congruence|].
      exists s1. split; [done|]. split; [done|]. pose proof (Wrote_trans _ _ _ _ _ W0 W) as W'.
      rewrite Hb, app_nil_r. case_decide as Hd.
      + exists body0, out0. rewrite Hd, !app_nil_r in *. done.
      + exists (body0 ++ buffered s0). eexists. split; [exact W'|]. rewrite Hc0.
        rewrite app_nil_r. split; [by apply emits_snoc|done]. }
  rewrite (bind_Done _ _ _ _ _ E1).
  destruct (IH body1 out1 s1 Hwf1 W1 HE1) as (s' & body & out & E & Hwf' & W & HE & Hp).
  exists s', body, out. split; [exact E|]. do 3 (split; [done|]).
  rewrite <-Hp, (app_assoc body1), <-Hp1. unfold payload. simpl.
  by rewrite app_nil_r, !app_assoc.
Qed.

(** What a flush of the rest adds. *)
Lemma emits_flush c body out data :
  Emits c body out → Emits c (body ++ data) (out ++ if decide (data = []) then [] else emit c data).
Proof.
  intros HE. case_decide as Hd; [subst; by rewrite !app_nil_r | by apply emits_snoc].
Qed.

(** Writes and flushes followed by the end of the response. *)
Lemma run_finish_spec ops s :
  write_wf s → G s → call_wrapped_flush s = false →
  Forall (λ op, match op with WWrite bs => fits bs | WFlush => True end) ops →
  ∃ s' out, (run_wops ops;; finish_response) s = Done (tt, s') ∧ write_wf s' ∧ buffered s' = []
    ∧ Emits (writing_chunked_body s) (buffered s ++ payload ops) out
    ∧ Wrote s (out ++ if writing_chunked_body s then last_chunk else []) s'.
Proof.
  intros Hwf HGs Hcwf Hops.
  destruct (run_wops_spec ops s Hwf HGs Hcwf Hops) as (s1 & body & out & E1 & Hwf1 & W1 & HE & Hp).
  pose proof W1 as (_ & HG1 & Hf1 & Hc1).
  destruct (flush_spec s1 Hwf1 HG1) as (s2 & E2 & Hwf2 & Hb2 & W2); [congruence|].
  pose proof W2 as (_ & HG2 & Hf2 & Hc2).
  destruct (write_wrapped_if (writing_chunked_body s) last_chunk s2 HG2) as (s3 & E3 & W3 & Hb3 & Hl3).
  eexists s3, _. split; [|split; [|split; [|split]]].
  - rewrite (bind_Done _ _ _ _ _ E1). unfold finish_response.
    rewrite (bind_Done _ _ _ _ _ E2), bind_gets, Hc2, Hc1. exact E3.
  - unfold write_wf. by rewrite Hb3, Hl3.
  - unfold buffered. by rewrite Hb3, Hl3.
  - rewrite Hp. apply emits_flush, HE.
  - rewrite Hc1 in W2. exact (Wrote_trans _ _ _ _ _ (Wrote_trans _ _ _ _ _ W1 W2) W3).
Qed.

End Writing.

(** ** Properties of the reading side *)

Lemma True_read_stable {T} `{Reader T} : read_stable (λ _ : BufferedStream T, True).
Proof. by split. Qed.

(** A well-formed stream over a byte source. *)
Definition stream_wf {T} `{ByteSource T} (s : BufferedStream T) : Prop :=
  read_wf s ∧ source_inv (wrapped s).

Lemma stream_wf_inv {T} `{ByteSource T} (s : BufferedStream T) :
  stream_wf s ↔ bs_inv (λ _, True) s.
Proof. unfold bs_inv, stream_wf. tauto. Qed.

Lemma new_read_wf {T} (t : T) b : read_wf (new t b).
Proof. split; [apply length_replicate | simpl; lia]. Qed.

Lemma new_write_wf {T} (t : T) b : write_wf (new t b).
Proof. split; [apply length_replicate | apply WRITE_BUF_SIZE_pos]. Qed.

Section ReadingProperties.
Context {T : Type} `{ByteSource T}.
Implicit Types s : BufferedStream T.

(** The fast [BufferedStream::read_byte] and the generic
    [ReaderUtil::read_byte] through [BufferedStream::read] agree on every
    well-formed stream: both return the next byte of the logical stream (the
    buffered bytes, then those of the wrapped stream, however it fragments
    them), both leave the same bytes to be read, and [None] means that there
    are none. *)
Theorem read_byte_equivalent s fuel :
  stream_wf s → (0 < fuel)%nat →
  ∃ s1 s2, read_byte s = Done (head (bs_pending s), s1)
    ∧ read_byte_util fuel s = Done (head (bs_pending s), s2)
    ∧ stream_wf s1 ∧ stream_wf s2
    ∧ bs_pending s1 = tail (bs_pending s) ∧ bs_pending s2 = tail (bs_pending s).
Proof.
  intros Hwf Hf. rewrite stream_wf_inv in Hwf.
  pose (Src := BufferedStream_source (λ _ : BufferedStream T, True) True_read_stable).
  assert (Hrel : src_rel s (bs_pending s)) by (by split).
  assert (El : read_byte_util fuel (bs_pending s) = Done (head (bs_pending s), tail (bs_pending s))).
  { rewrite read_byte_util_list by done. by destruct (bs_pending s). }
  destruct (msim_Done _ _ _ _ _ _ _ _ (read_byte_sim _ True_read_stable fuel Hf) Hrel El)
    as (s1 & E1 & [Hi1 Hp1] & _).
  destruct (msim_Done _ _ _ _ _ _ _ _ (read_byte_util_sim fuel) Hrel El)
    as (s2 & E2 & [Hi2 Hp2] & _).
  exists s1, s2. rewrite !stream_wf_inv. done.
Qed.

(** A byte that has just been read can always be put back: on every
    well-formed stream with bytes left, [read_byte] followed by [poke_byte] of
    the byte it returned does not fail and restores the logical stream. *)
Theorem poke_after_read s b rest :
  stream_wf s → bs_pending s = b :: rest →
  ∃ s', (ob ← read_byte; match ob with Some b => poke_byte b | None => mret tt end) s
        = Done (tt, s')
    ∧ stream_wf s' ∧ bs_pending s' = bs_pending s.
Proof.
  intros Hwf Hp. rewrite stream_wf_inv in Hwf.
  pose (Src := BufferedStream_source (λ _ : BufferedStream T, True) True_read_stable).
  assert (Hrel : src_rel s (b :: rest)) by (by split).
  assert (El : read_byte_util 1 (b :: rest) = Done (Some b, rest)) by done.
  destruct (msim_Done _ _ _ _ _ _ _ _ (read_byte_sim _ True_read_stable 1 ltac:(lia)) Hrel El)
    as (s1 & E1 & Hs1).
  destruct (msim_Done _ _ _ _ s1 rest tt (b :: rest)
              (poke_byte_sim _ True_read_stable b) Hs1 eq_refl) as (s2 & E2 & [Hi2 Hp2]).
  exists s2. rewrite (bind_Done _ _ _ _ _ E1), E2, stream_wf_inv, Hp. done.
Qed.

End ReadingProperties.

Definition tcp_stream (segs : list (list u8)) : BufferedStream TcpStream :=
  new (mkTcp segs [] None) false.

Lemma tcp_stream_wf segs : Forall (λ seg, seg ≠ []) segs → stream_wf (tcp_stream segs).
Proof. intros Hs. split; [apply new_read_wf | done]. Qed.

Lemma read_byte_equivalent_witness :
  ∃ s1 s2, read_byte (tcp_stream [lit "a"; lit "bc"]) = Done (Some (chr "a"), s1)
    ∧ read_byte_util 1 (tcp_stream [lit "a"; lit "bc"]) = Done (Some (chr "a"), s2)
    ∧ stream_wf s1 ∧ stream_wf s2
    ∧ bs_pending s1 = lit "bc" ∧ bs_pending s2 = lit "bc".
Proof.
  assert (Ep : bs_pending (tcp_stream [lit "a"; lit "bc"]) = lit "abc") by (vm_compute; reflexivity).
  pose proof (read_byte_equivalent (tcp_stream [lit "a"; lit "bc"]) 1) as Hx.
  rewrite Ep in Hx. apply Hx; [|lia]. apply tcp_stream_wf. repeat constructor; discriminate.
Defined.

Lemma poke_after_read_witness :
  ∃ s', (ob ← read_byte; match ob with Some b => poke_byte b | None => mret tt end)
          (tcp_stream [lit "a"; lit "bc"]) = Done (tt, s')
    ∧ stream_wf s' ∧ bs_pending s' = bs_pending (tcp_stream [lit "a"; lit "bc"]).
Proof.
  apply (poke_after_read (tcp_stream [lit "a"; lit "bc"]) (chr "a") (lit "bc")).
  - apply tcp_stream_wf. repeat constructor; discriminate.
  - vm_compute. reflexivity.
Defined.

(** [std::rt::io::Reader::read] may return [Some(0)].  [read_byte] does not
    allow for it: when the buffer is empty and the wrapped stream reports an
    empty read, it returns the byte at index 0 of the read buffer, which was
    never received, and leaves the position after the end of the window. *)
Theorem read_byte_after_empty_read {T} `{Reader T} (s : BufferedStream T) w b :
  read_pos s = read_max s → read_buffer s !! 0%nat = Some b →
  reader_read (length (read_buffer s)) (wrapped s) = Done (Some [], w) →
  ∃ s', read_byte s = Done (Some b, s') ∧ read_pos s' = 1%nat ∧ read_max s' = 0%nat.
Proof.
  intros Hp Hb E.
  assert (Ef : ensure_buffer s = Done (true, set_read (read_buffer s) 0 0 (set_wrapped w s))).
  { unfold ensure_buffer. rewrite !bind_gets, bool_decide_true by done. unfold fill_buffer.
    rewrite !bind_gets, bool_decide_true by done. cbn [assert]. rewrite bind_ret, bind_gets.
    rewrite bind_unfold. unfold zoom. rewrite E. done. }
  unfold read_byte. rewrite (bind_Done _ _ _ _ _ Ef). cbn [negb].
  rewrite bind_modify, bind_gets, bind_unfold. unfold load_read. simpl. rewrite Hb. by eexists.
Qed.

Lemma read_byte_after_empty_read_witness :
  ∃ s', read_byte (tcp_stream [[]; lit "a"]) = Done (Some 0, s')
    ∧ read_pos s' = 1%nat ∧ read_max s' = 0%nat.
Proof.
  apply (read_byte_after_empty_read _ (mkTcp [lit "a"] [] None) 0);
    [reflexivity | vm_compute; reflexivity | vm_compute; reflexivity].
Defined.
