(* ===== verification/Common.v ===== *)
(** * Number and version readers (src/libhttp/common.rs)

    Both readers, and the status-code reader of the client, run the same loop:
    decimal digits up to a terminator, with a limit on their number. *)

From S2P Require Import Prelude Strs Rfc2616 Io.

(** The digit loop.  [rb] is the [read_byte] in use, [wrap] the width of the
    accumulator, [limit] the value of the counter at which it gives up and
    [stop] the terminator, which is consumed. *)
Definition digit_loop {R} (rb : M R (option u8)) (wrap : Z → Z) (limit : u8) (stop : u8)
    (fuel : nat) : u8 * Z → M R (option Z) :=
  loop fuel (λ '(digits, n),
    if digits =? limit then break None
    else
      ob ← rb;
      match ob with
      | Some b =>
          if (chr "0" <=? b) && (b <=? chr "9")
          then continue (wrap8 (digits + 1), wrap (n * 10 + b - chr "0"))
          else if b =? stop then break (Some n)
          else break None
      | None => break None
      end).

Section Readers.
Context {R : Type} `{Reader R}.

Definition read_uint (fuel : nat) (max_digits next_u8 : u8) : M R (option uint) :=
  digit_loop (read_byte_util fuel) wrap64 (wrap8 (max_digits + 1)) next_u8 fuel (0, 0).

(** One letter of [HTTP/], in either case. *)
Definition expect_letter (fuel : nat) (lower upper : u8) : M R bool :=
  ob ← read_byte_util fuel;
  match ob with
  | Some b => mret ((b =? lower) || (b =? upper))
  | None => mret false
  end.

(** The two numbers, once [HTTP/] has been read. *)
Definition version_numbers (fuel : nat) (next_u8 : u8) : M R (option (uint * uint)) :=
  n1 ← digit_loop (read_byte_util fuel) wrap64 5 (chr ".") fuel (0, 0);
  match n1 with
  | None => mret None
  | Some n1 =>
      n2 ← digit_loop (read_byte_util fuel) wrap64 5 next_u8 fuel (0, 0);
      match n2 with
      | None => mret None
      | Some n2 => mret (Some (n1, n2))
      end
  end.

(** The five matches on the letters of [HTTP/], one after the other. *)
Fixpoint expect_letters {A} (fuel : nat) (ls : list (u8 * u8)) (k : M R (option A))
    : M R (option A) :=
  match ls with
  | [] => k
  | (lower, upper) :: ls' =>
      ok ← expect_letter fuel lower upper;
      if negb ok then mret None else expect_letters fuel ls' k
  end.
Definition http_letters : list (u8 * u8) :=
  [(chr "h", chr "H"); (chr "t", chr "T"); (chr "t", chr "T"); (chr "p", chr "P");
   (chr "/", chr "/")].

Definition read_http_version (fuel : nat) (next_u8 : u8) : M R (option (uint * uint)) :=
  expect_letters fuel http_letters (version_numbers fuel next_u8).

End Readers.

(** ** The readers do not depend on how the source delivers its bytes *)
Section Simulation.
Context {S1 S2 : Type} (P : S1 → S2 → Prop).

Lemma digit_loop_sim rb1 rb2 wrap limit stop fuel st :
  msim P P rb1 rb2 →
  msim P P (digit_loop rb1 wrap limit stop fuel st) (digit_loop rb2 wrap limit stop fuel st).
Proof.
  intros Hrb. apply msim_loop. intros [digits n].
  apply msim_if; intros _; [apply msim_ret|].
  eapply msim_bind; [exact Hrb|]. intros [b|]; [|apply msim_ret].
  repeat (apply msim_if; intros _); apply msim_ret.
Qed.
End Simulation.

Section SourceSimulation.
Context {R : Type} `{ByteSource R}.

Lemma read_byte_sim_src fuel :
  msim src_rel src_rel (read_byte_util (R:=R) fuel) (read_byte_util (R:=list u8) fuel).
Proof. eapply msim_weaken; [done | apply fresh_src | apply read_byte_util_sim]. Qed.

Lemma read_byte_sim_fresh fuel :
  msim fresh_rel fresh_rel (read_byte_util (R:=R) fuel) (read_byte_util (R:=list u8) fuel).
Proof. eapply msim_weaken; [apply fresh_src | done | apply read_byte_util_sim]. Qed.

Lemma read_uint_sim fuel d b :
  msim src_rel src_rel (read_uint (R:=R) fuel d b) (read_uint (R:=list u8) fuel d b).
Proof. apply digit_loop_sim, read_byte_sim_src. Qed.

Lemma expect_letter_sim fuel a b :
  msim src_rel src_rel (expect_letter (R:=R) fuel a b) (expect_letter (R:=list u8) fuel a b).
Proof.
  eapply msim_bind; [apply read_byte_sim_src|]. intros [?|]; apply msim_ret.
Qed.

Lemma expect_letters_sim {A} fuel ls (k1 : M R (option A)) (k2 : M (list u8) (option A)) :
  msim src_rel src_rel k1 k2 →
  msim src_rel src_rel (expect_letters fuel ls k1) (expect_letters fuel ls k2).
Proof.
  intros Hk. induction ls as [|[lo up] ls IH]; [done|]. simpl.
  eapply msim_bind; [apply expect_letter_sim|]. intros ok. by destruct ok; [|apply msim_ret].
Qed.

Lemma read_http_version_sim fuel b :
  msim src_rel src_rel (read_http_version (R:=R) fuel b) (read_http_version (R:=list u8) fuel b).
Proof.
  apply expect_letters_sim. unfold version_numbers.
  eapply msim_bind; [apply digit_loop_sim, read_byte_sim_src|]. intros [n1|]; [|apply msim_ret].
  eapply msim_bind; [apply digit_loop_sim, read_byte_sim_src|]. intros [n2|]; apply msim_ret.
Qed.
End SourceSimulation.

(** ** The readers keep an invariant of the source *)
Section Safe.
Context {R : Type} `{Reader R} (P : R → Prop) (fuel : nat).
Context (Hrb : safe P (read_byte_util fuel) (λ _, P)).

Lemma digit_loop_safe wrap limit stop n st :
  safe P (digit_loop (read_byte_util fuel) wrap limit stop n st) (λ _, P).
Proof.
  apply (safe_loop n _ (λ _, P)). intros [digits v]. apply safe_if; intros _; [by apply safe_ret|].
  eapply safe_bind; [exact Hrb|]. intros [b|]; [|by apply safe_ret].
  repeat (apply safe_if; intros _); by apply safe_ret.
Qed.

Lemma read_http_version_safe next_u8 : safe P (read_http_version fuel next_u8) (λ _, P).
Proof.
  unfold read_http_version. assert (Hk : safe P (version_numbers fuel next_u8) (λ _, P)).
  { eapply safe_bind; [apply digit_loop_safe|]. intros [n1|]; [|by apply safe_ret].
    eapply safe_bind; [apply digit_loop_safe|]. intros [n2|]; by apply safe_ret. }
  induction http_letters as [|[lo up] ls IH]; [done|]. cbn [expect_letters].
  apply (safe_bind _ _ _ (λ _, P)).
  - eapply safe_bind; [exact Hrb|]. intros [b|]; by apply safe_ret.
  - intros ok. apply safe_if; intros _; [by apply safe_ret|done].
Qed.
End Safe.

(** ** What the digit loop computes, on a list of bytes *)
Section DigitLoop.
Context (rb : M (list u8) (option u8)) (wrap : Z → Z).
Context (Hrb : ∀ l, rb l = match l with [] => Done (None, []) | b :: l' => Done (Some b, l') end).
Implicit Types (l ds : list u8) (digits n : Z).

Definition dec_step (n b : Z) : Z := wrap (n * 10 + b - chr "0").

Lemma digit_loop_ok limit stop fuel ds rest : ∀ digits n,
  forallb is_digit ds = true → is_digit stop = false →
  0 ≤ digits → digits + Z.of_nat (length ds) < limit ≤ 255 → (length ds < fuel)%nat →
  digit_loop rb wrap limit stop fuel (digits, n) (ds ++ stop :: rest)
  = Done (Some (foldl dec_step n ds), rest).
Proof.
  revert fuel. induction ds as [|b ds IH]; intros fuel digits n Hds Hstop H0 Hlim Hfuel;
    (destruct fuel as [|fuel]; [simpl in Hfuel; lia|]); simpl in *.
  - unfold digit_loop. eapply loop_break. simpl.
    destruct (Z.eqb_spec digits limit); [lia|]. rewrite bind_unfold, Hrb.
    unfold is_digit in Hstop. by rewrite Hstop, Z.eqb_refl.
  - apply andb_true_iff in Hds as [Hb Hds]. unfold digit_loop.
    rewrite (loop_continue _ _ _ _ (wrap8 (digits + 1), dec_step n b) (ds ++ stop :: rest)).
    + unfold wrap8. rewrite Z.mod_small by lia. apply IH; auto; lia.
    + cbn beta iota. destruct (Z.eqb_spec digits limit); [lia|]. rewrite bind_unfold, Hrb.
      unfold is_digit in Hb. by rewrite Hb.
Qed.

(** Whatever it returns comes from digits followed by the terminator. *)
Lemma digit_loop_inv limit stop fuel : ∀ digits n l v l',
  0 ≤ digits ≤ limit → limit ≤ 255 →
  digit_loop rb wrap limit stop fuel (digits, n) l = Done (Some v, l') →
  ∃ ds, forallb is_digit ds = true ∧ l = ds ++ stop :: l'
    ∧ digits + Z.of_nat (length ds) < limit ∧ v = foldl dec_step n ds.
Proof.
  induction fuel as [|fuel IH]; intros digits n l v l' Hd Hl E; [done|].
  unfold digit_loop in E. rewrite loop_S, bind_unfold in E.
  destruct (Z.eqb_spec digits limit) as [|Hne]; [done|].
  rewrite bind_unfold, Hrb in E. destruct l as [|b l1]; [done|].
  destruct ((chr "0" <=? b) && (b <=? chr "9")) eqn:Hb.
  - destruct (IH (wrap8 (digits + 1)) (dec_step n b) l1 v l') as (ds & Hds & -> & Hlen & ->).
    + unfold wrap8. rewrite Z.mod_small; lia.
    + done.
    + exact E.
    + exists (b :: ds). simpl. unfold is_digit at 1. rewrite Hb, Hds.
      unfold wrap8 in Hlen. rewrite Z.mod_small in Hlen by lia. split_and!; [done|done|lia|done].
  - destruct (Z.eqb_spec b stop) as [->|]; minv.
    exists []. split_and!; [done|done|simpl; lia|done].
Qed.

(** It always ends, after at most [limit] digits. *)
Lemma digit_loop_total limit stop fuel : ∀ digits n l,
  0 ≤ digits ≤ limit → limit ≤ 255 → limit - digits < Z.of_nat fuel →
  ∃ o l', digit_loop rb wrap limit stop fuel (digits, n) l = Done (o, l') ∧ l' `suffix_of` l.
Proof.
  induction fuel as [|fuel IH]; intros digits n l Hd Hl Hf; [lia|].
  unfold digit_loop. rewrite loop_S, bind_unfold.
  destruct (Z.eqb_spec digits limit) as [|Hne]; [by eexists _, _|].
  rewrite bind_unfold, Hrb. destruct l as [|b l1]; [by eexists _, _|].
  destruct ((chr "0" <=? b) && (b <=? chr "9")).
  - destruct (IH (wrap8 (digits + 1)) (dec_step n b) l1) as (o & l' & E & Hs);
      [unfold wrap8; rewrite Z.mod_small; lia | done | unfold wrap8; rewrite Z.mod_small; lia |].
    exists o, l'. split; [exact E | by apply suffix_cons_r].
  - destruct (b =? stop); eexists _, _; (split; [done | by apply suffix_cons_r]).
Qed.

End DigitLoop.

(** No overflow below the width of the accumulator: the loop computes the
    decimal value. *)
Lemma foldl_dec_step_bound wrap k ds : ∀ n m,
  (∀ z, 0 ≤ z < 10 ^ k → wrap z = z) → 0 ≤ m → 0 ≤ n < 10 ^ m →
  forallb is_digit ds = true → m + Z.of_nat (length ds) ≤ k →
  foldl (dec_step wrap) n ds = foldl (λ n c, n * 10 + default 0 (to_digit 10 c)) n ds
  ∧ 0 ≤ foldl (dec_step wrap) n ds < 10 ^ (m + Z.of_nat (length ds)).
Proof.
  induction ds as [|b ds IH]; intros n m Hw Hm Hn Hds Hk; simpl in *.
  { rewrite Z.add_0_r. done. }
  apply andb_true_iff in Hds as [Hb Hds]. unfold is_digit in Hb.
  assert (Hb' : 48 ≤ b ≤ 57) by (clear -Hb; eval_chr; lia).
  assert (Hd : default 0 (to_digit 10 b) = b - 48).
  { unfold to_digit. replace ((48 <=? b) && (b <=? 57)) with true by lia.
    destruct (Z.ltb_spec (b - 48) 10); [done|lia]. }
  assert (Hpow : 10 ^ (m + 1) = 10 * 10 ^ m) by (rewrite Z.pow_add_r by lia; lia).
  assert (Hle : 10 ^ (m + 1) ≤ 10 ^ k) by (apply Z.pow_le_mono_r; lia).
  assert (Hs : dec_step wrap n b = n * 10 + (b - 48)).
  { unfold dec_step. rewrite Hw; eval_chr; lia. }
  rewrite Hd, Hs. destruct (IH (n * 10 + (b - 48)) (m + 1)) as [IH1 IH2]; auto; [lia|lia|lia|].
  split; [done|]. replace (m + Z.of_nat (S (length ds))) with (m + 1 + Z.of_nat (length ds)) by lia.
  done.
Qed.

Lemma wrap64_pow19 z : 0 ≤ z < 10 ^ 19 → wrap64 z = z.
Proof. intros Hz. apply wrap64_small. lia. Qed.

Lemma rb_list fuel : (0 < fuel)%nat → ∀ l : list u8,
  read_byte_util fuel l = match l with [] => Done (None, []) | b :: l' => Done (Some b, l') end.
Proof. intros Hf l. by apply read_byte_util_list. Qed.

Lemma dec_value_bound wrap w ds k :
  (∀ z, 0 ≤ z < 10 ^ w → wrap z = z) →
  forallb is_digit ds = true → Z.of_nat (length ds) ≤ k ≤ w →
  foldl (dec_step wrap) 0 ds = digits_value 10 ds ∧ 0 ≤ digits_value 10 ds < 10 ^ k.
Proof.
  intros Hw Hds Hk. destruct (foldl_dec_step_bound wrap w ds 0 0) as [E Hb]; [done|lia|lia|done|lia|].
  unfold digits_value. rewrite <-E. split; [done|]. split; [lia|].
  eapply Z.lt_le_trans; [apply Hb|]. apply Z.pow_le_mono_r; lia.
Qed.

(** ** The readers against any byte source *)

(** What a successful digit loop has consumed. *)
Definition digits_then (d : Z) (stop : u8) (l : list u8) (v : Z) (l' : list u8) : Prop :=
  ∃ ds, l = ds ++ stop :: l' ∧ forallb is_digit ds = true ∧ Z.of_nat (length ds) ≤ d
        ∧ v = digits_value 10 ds ∧ 0 ≤ v < 10 ^ d.

Lemma digits_then_inj d1 d2 stop l v1 v2 l1 l2 :
  digits_then d1 stop l v1 l1 → digits_then d2 stop l v2 l2 → is_digit stop = false →
  l1 = l2.
Proof.
  intros (ds1 & -> & H1 & _) (ds2 & E & H2 & _) Hstop. revert ds2 E H2.
  induction ds1 as [|b ds1 IH]; intros [|b' ds2] E H2; simplify_eq/=.
  - done.
  - by rewrite Hstop in H2.
  - by rewrite Hstop in H1.
  - apply andb_true_iff in H1 as [_ H1], H2 as [_ H2]. by eapply IH.
Qed.

(** The digit loop on a list of bytes, in full, below the width of the
    accumulator. *)
Lemma digit_loop_width rb wrap w fuel d stop l :
  (∀ l, rb l = match l with [] => Done (None, []) | b :: l' => Done (Some b, l') end) →
  (∀ z, 0 ≤ z < 10 ^ w → wrap z = z) →
  0 ≤ d ≤ w → d < 255 → d + 1 < Z.of_nat fuel → is_digit stop = false →
  ∃ o l', digit_loop rb wrap (d + 1) stop fuel (0, 0) l = Done (o, l')
    ∧ match o with
      | Some v => digits_then d stop l v l'
      | None => ∀ v l'', ¬ digits_then d stop l v l''
      end.
Proof.
  intros Hrb Hw Hd H255 Hf Hstop.
  destruct (digit_loop_total _ wrap Hrb (d + 1) stop fuel 0 0 l) as (o & l' & E & _); [lia..|].
  exists o, l'. split; [done|]. destruct o as [v|].
  - destruct (digit_loop_inv _ wrap Hrb (d + 1) stop fuel 0 0 l v l') as (ds & Hds & -> & Hlen & ->);
      [lia|lia|done|].
    destruct (dec_value_bound wrap w ds d Hw Hds) as [Ev Hv]; [lia|].
    exists ds. rewrite Ev. split_and!; try done; lia.
  - intros v l'' (ds & -> & Hds & Hlen & _).
    rewrite (digit_loop_ok _ wrap Hrb (d + 1) stop fuel ds l'' 0 0) in E by (done || lia). done.
Qed.

Lemma digit_loop_list fuel d stop l :
  0 ≤ d ≤ 19 → d + 1 < Z.of_nat fuel → is_digit stop = false →
  ∃ o l', digit_loop (read_byte_util fuel) wrap64 (d + 1) stop fuel (0, 0) l = Done (o, l')
    ∧ match o with
      | Some v => digits_then d stop l v l'
      | None => ∀ v l'', ¬ digits_then d stop l v l''
      end.
Proof.
  intros Hd Hf Hstop. apply (digit_loop_width _ _ 19); [apply rb_list; lia|apply wrap64_pow19|done|lia|done|done].
Qed.

(** [read_uint] with at most 19 digits, on any byte source and however the
    source fragments its bytes: it always returns; it returns [Some v] exactly
    when the source starts with at most [max_digits] decimal digits and the
    terminator, [v] is then their value, below [10 ^ max_digits] (so the
    64-bit accumulator never wraps), and the terminator is consumed. *)
Theorem read_uint_correct {R} `{ByteSource R} (r : R) fuel max_digits next_u8 :
  source_inv r → 0 ≤ max_digits ≤ 19 → max_digits + 1 < Z.of_nat fuel →
  is_digit next_u8 = false →
  ∃ o r', read_uint fuel max_digits next_u8 r = Done (o, r') ∧ source_inv r' ∧
    match o with
    | Some v => digits_then max_digits next_u8 (pending r) v (pending r')
    | None => ∀ v rest, ¬ digits_then max_digits next_u8 (pending r) v rest
    end.
Proof.
  intros Hinv Hd Hf Hstop.
  destruct (digit_loop_list fuel max_digits next_u8 (pending r) Hd Hf Hstop) as (o & l' & E & Ho).
  assert (El : read_uint fuel max_digits next_u8 (pending r) = Done (o, l')).
  { unfold read_uint. rewrite wrap8_small by lia. exact E. }
  destruct (msim_Done _ _ _ _ r (pending r) o l' (read_uint_sim fuel max_digits next_u8))
    as (r' & Er & Hr' & <-); [by split | exact El |].
  by exists o, r'.
Qed.

Lemma read_uint_correct_witness :
  let r := mkTcp [lit "12"; lit "34"; [CR]; [LF]] [] None in
  ∃ o r', read_uint 25 19 CR r = Done (o, r') ∧ source_inv r' ∧
    match o with
    | Some v => digits_then 19 CR (pending r) v (pending r')
    | None => ∀ v rest, ¬ digits_then 19 CR (pending r) v rest
    end.
Proof.
  apply read_uint_correct; [|lia|lia|reflexivity].
  vm_compute. repeat constructor; discriminate.
Defined.

(** ** The HTTP version *)

(** The text of a version: [HTTP/] in any case, one to four digits (or none),
    a dot, again digits, and the terminator. *)
Definition version_text (next_u8 : u8) (l : list u8) (v : uint * uint) (l' : list u8) : Prop :=
  ∃ h l1 l2, l = h ++ l1 ∧ to_ascii_lower h = lit "http/"
    ∧ digits_then 4 (chr ".") l1 v.1 l2 ∧ digits_then 4 next_u8 l2 v.2 l'.

Lemma expect_letter_list fuel a b (l : list u8) :
  (0 < fuel)%nat →
  expect_letter fuel a b l =
  Done (match l with x :: _ => (x =? a) || (x =? b) | [] => false end, tail l).
Proof.
  intros Hf. unfold expect_letter. rewrite bind_unfold, rb_list by done. by destruct l.
Qed.

Lemma lower_letter x lo up :
  97 ≤ lo ≤ 122 → up = lo - 32 → (x =? lo) || (x =? up) = true ↔ ascii_to_lower x = lo.
Proof. intros Hlo ->. unfold ascii_to_lower. repeat case_match; lia. Qed.

Lemma version_numbers_list fuel next_u8 l :
  (6 < fuel)%nat → is_digit next_u8 = false →
  ∃ o l', version_numbers fuel next_u8 l = Done (o, l') ∧
    match o with
    | Some v => ∃ l2, digits_then 4 (chr ".") l v.1 l2 ∧ digits_then 4 next_u8 l2 v.2 l'
    | None => ∀ v l2 l'', ¬ (digits_then 4 (chr ".") l v.1 l2 ∧ digits_then 4 next_u8 l2 v.2 l'')
    end.
Proof.
  intros Hf Hn. unfold version_numbers.
  destruct (digit_loop_list fuel 4 (chr ".") l) as (o1 & l1 & E1 & Ho1); [lia|lia|done|].
  change (4 + 1) with 5 in E1. rewrite bind_unfold, E1. destruct o1 as [v1|].
  - destruct (digit_loop_list fuel 4 next_u8 l1) as (o2 & l2 & E2 & Ho2); [lia|lia|done|].
    change (4 + 1) with 5 in E2. rewrite bind_unfold, E2. destruct o2 as [v2|].
    + exists (Some (v1, v2)), l2. split; [done|]. by exists l1.
    + exists None, l2. split; [done|]. intros v l3 l'' [H1 H2].
      assert (l3 = l1) as -> by (by eapply digits_then_inj; [apply H1 | apply Ho1 |]).
      by apply (Ho2 v.2 l'').
  - exists None, l1. split; [done|]. intros v l2 l'' [H1 _]. by apply (Ho1 v.1 l2).
Qed.

(** A byte that is one of two letters. *)
Definition is_letter (lu : u8 * u8) (x : u8) : Prop := x = lu.1 ∨ x = lu.2.

Lemma expect_letters_list {A} fuel ls (k : M (list u8) (option A)) l :
  (0 < fuel)%nat →
  (∃ h l1, l = h ++ l1 ∧ Forall2 is_letter ls h ∧ expect_letters fuel ls k l = k l1) ∨
  ((∃ l', expect_letters fuel ls k l = Done (None, l')) ∧
   ∀ h l1, l = h ++ l1 → ¬ Forall2 is_letter ls h).
Proof.
  intros Hf. revert l. induction ls as [|[lo up] ls IH]; intros l.
  { left. by exists [], l. }
  cbn [expect_letters]. rewrite (bind_Done _ _ _ _ _ (expect_letter_list fuel lo up l Hf)).
  destruct l as [|x l]; simpl.
  { right. split; [by eexists|]. intros h l1 E Hh. inversion Hh; subst. discriminate. }
  destruct ((x =? lo) || (x =? up)) eqn:Ex; simpl.
  - assert (Hx : is_letter (lo, up) x) by (unfold is_letter; simpl; lia).
    destruct (IH l) as [(h & l1 & -> & Hh & E)|[[l' E] Hno]].
    + left. exists (x :: h), l1. split; [done|]. split; [by constructor|done].
    + right. split; [by exists l'|]. intros h l1 El Hh. inversion Hh; simplify_eq/=.
      by eapply Hno.
  - right. split; [by eexists|]. intros h l1 El Hh.
    inversion Hh as [|? y ? h' [Hy|Hy]]; simplify_eq/=; lia.
Qed.

Lemma http_letters_lower h : Forall2 is_letter http_letters h ↔ to_ascii_lower h = lit "http/".
Proof.
  assert (Hlo : ∀ x lo, is_letter (lo, lo - 32) x ↔ (x =? lo) || (x =? lo - 32) = true)
    by (intros; unfold is_letter; simpl; lia).
  assert (Hsl : ∀ x, is_letter (47, 47) x ↔ ascii_to_lower x = 47)
    by (intros x; unfold is_letter, ascii_to_lower; simpl; case_match; lia).
  change http_letters with [(104, 104 - 32); (116, 116 - 32); (116, 116 - 32); (112, 112 - 32); (47, 47)].
  change (lit "http/") with [104; 116; 116; 112; 47].
  split.
  - intros Hh. repeat (let H := fresh in apply Forall2_cons_inv_l in Hh as (? & ? & H & Hh & ->);
      try rewrite Hlo, lower_letter in H by lia; try rewrite Hsl in H).
    apply Forall2_nil_inv_l in Hh as ->. unfold to_ascii_lower. simpl. congruence.
  - unfold to_ascii_lower. intros Hh. repeat (destruct h as [|? h]; simplify_eq/=).
    do 5 (apply Forall2_cons_2; [first [rewrite Hlo, lower_letter by lia; congruence | by apply Hsl]|]).
    apply Forall2_nil_2.
Qed.

Lemma digits_then_value d1 d2 stop l v1 v2 l' :
  digits_then d1 stop l v1 l' → digits_then d2 stop l v2 l' → v1 = v2.
Proof.
  intros (ds1 & -> & _ & _ & -> & _) (ds2 & E & _ & _ & -> & _). f_equal. by eapply app_inv_tail.
Qed.

Lemma version_text_length next_u8 l v l' : version_text next_u8 l v l' → (length l' < length l)%nat.
Proof.
  intros (h & l1 & l2 & -> & _ & (d1 & -> & _) & (d2 & -> & _)). rewrite !length_app. simpl.
  rewrite length_app. simpl. lia.
Qed.

(** A version text determines the version and what follows it. *)
Lemma version_text_inj next_u8 l v1 v2 l1 l2 :
  is_digit next_u8 = false →
  version_text next_u8 l v1 l1 → version_text next_u8 l v2 l2 → v1 = v2 ∧ l1 = l2.
Proof.
  intros Hn (h & a & a' & -> & Hh & H1 & H2) (k & c & c' & E & Hk & H3 & H4).
  assert (h = k ∧ a = c) as [-> ->].
  { apply app_inj_1; [|done]. apply (f_equal length) in Hh, Hk. unfold to_ascii_lower in Hh, Hk.
    rewrite length_fmap in Hh, Hk. congruence. }
  assert (a' = c') as -> by (by eapply digits_then_inj; [apply H1|apply H3|]).
  assert (l1 = l2) as -> by (by eapply digits_then_inj; [apply H2|apply H4|]).
  destruct v1, v2. split; [|done]. f_equal; by eapply digits_then_value.
Qed.

Lemma read_http_version_list fuel next_u8 (l : list u8) :
  (6 < fuel)%nat → is_digit next_u8 = false →
  ∃ o l', read_http_version fuel next_u8 l = Done (o, l') ∧
    match o with
    | Some v => version_text next_u8 l v l'
    | None => ∀ v rest, ¬ version_text next_u8 l v rest
    end.
Proof.
  intros Hf Hn.
  destruct (expect_letters_list fuel http_letters (version_numbers fuel next_u8) l)
    as [(h & l1 & El & Hh & E)|[[l' E] Hno]]; [lia| |].
  - destruct (version_numbers_list fuel next_u8 l1 Hf Hn) as (o & l' & E' & Ho).
    exists o, l'. split; [by unfold read_http_version; rewrite E|].
    apply http_letters_lower in Hh. destruct o as [v|].
    + destruct Ho as (l2 & H1 & H2). by exists h, l1, l2.
    + intros v rest (h' & l1' & l2 & El' & Hh' & H1 & H2).
      assert (h' = h ∧ l1' = l1) as [-> ->]; [|by eapply Ho].
      apply app_inj_1; [|congruence].
      apply (f_equal length) in Hh, Hh'. unfold to_ascii_lower in Hh, Hh'.
      rewrite length_fmap in Hh, Hh'. congruence.
  - exists None, l'. split; [done|]. intros v rest (h & l1 & l2 & El & Hh & _).
    apply http_letters_lower in Hh. by eapply Hno.
Qed.

(** [read_http_version] on any byte source: it always returns; it returns
    [Some (major, minor)] exactly when the source starts with [HTTP/] in any
    case, at most four digits, a dot, at most four digits and the terminator,
    and has then consumed just that. *)
Theorem read_http_version_correct {R} `{ByteSource R} (r : R) fuel next_u8 :
  source_inv r → (6 < fuel)%nat → is_digit next_u8 = false →
  ∃ o r', read_http_version fuel next_u8 r = Done (o, r') ∧ source_inv r' ∧
    match o with
    | Some v => version_text next_u8 (pending r) v (pending r')
    | None => ∀ v rest, ¬ version_text next_u8 (pending r) v rest
    end.
Proof.
  intros Hinv Hf Hn.
  destruct (read_http_version_list fuel next_u8 (pending r) Hf Hn) as (o & l' & E & Ho).
  destruct (msim_Done _ _ _ _ r (pending r) o l' (read_http_version_sim fuel next_u8))
    as (r' & Er & Hr' & <-); [by split | exact E |].
  by exists o, r'.
Qed.

Lemma read_http_version_correct_witness :
  let r := mkTcp [lit "HTT"; lit "p/1.1"; [CR]; [LF]] [] None in
  ∃ o r', read_http_version 10 CR r = Done (o, r') ∧ source_inv r' ∧
    match o with
    | Some v => version_text CR (pending r) v (pending r')
    | None => ∀ v rest, ¬ version_text CR (pending r) v rest
    end.
Proof.
  apply read_http_version_correct; [|lia|reflexivity].
  vm_compute. repeat constructor; discriminate.
Defined.
