(* ===== verification/Chunked.v ===== *)
(** * The chunked transfer-coding (src/libhttp/buffer.rs)

    A reference decoder of the chunked coding, the proof that what
    [BufferedStream] sends in chunked mode decodes to what was written, and the
    library's own [ChunkedReader] with what it really does on a well-formed
    chunk. *)

From S2P Require Import Prelude Strs Rfc2616 Io Buffer Common.

(** ** Reference decoder (RFC 2616, section 3.6.1; no extensions or trailer) *)

(** The hexadecimal digits at the head of the input. *)
Fixpoint hex_prefix (l : list u8) : list u8 * list u8 :=
  match l with
  | b :: l' => if is_radix_digit 16 b then let '(ds, r) := hex_prefix l' in (b :: ds, r) else ([], l)
  | [] => ([], [])
  end.
Definition strip_crlf (l : list u8) : option (list u8) :=
  match l with
  | c :: d :: l' => if (c =? CR) && (d =? LF) then Some l' else None
  | _ => None
  end.
(** [dechunk fuel l]: the body and what follows it. *)
Fixpoint dechunk (fuel : nat) (l : list u8) : option (list u8 * list u8) :=
  match fuel with
  | O => None
  | S f =>
      let '(ds, l1) := hex_prefix l in
      if bool_decide (ds = []) then None
      else
        l2 ← strip_crlf l1;
        let n := Z.to_nat (digits_value 16 ds) in
        if bool_decide (n = 0%nat) then l3 ← strip_crlf l2; Some ([], l3)
        else if (n <=? length l2)%nat then
          l3 ← strip_crlf (drop n l2);
          '(body, rest) ← dechunk f l3;
          Some (take n l2 ++ body, rest)
        else None
  end.

Lemma hex_prefix_app ds r :
  forallb (is_radix_digit 16) ds = true → hex_prefix (ds ++ CR :: r) = (ds, CR :: r).
Proof.
  induction ds as [|b ds IH]; simpl; [done|].
  intros [Hb Hds]%andb_true_iff. by rewrite Hb, IH.
Qed.

Lemma hex_digit_ascii c : is_radix_digit 16 c = true → c < 128.
Proof. unfold is_radix_digit, to_digit. repeat (case_match; simplify_eq); lia. Qed.

Lemma chunk_header_bytes n :
  0 ≤ n < 2 ^ 64 → chunk_header n = to_str_radix n 16 ++ CRLF.
Proof.
  intros Hn. unfold chunk_header. rewrite as_bytes_ascii; [done|].
  rewrite is_ascii_app. destruct (to_str_radix_spec n 16) as (_ & Hd & _); [lia|lia|].
  apply andb_true_iff. split; [|done]. apply is_ascii_Forall.
  apply forallb_Forall in Hd. eapply Forall_impl; [exact Hd|]. apply hex_digit_ascii.
Qed.

(** One chunk decodes to its data. *)
Lemma dechunk_chunk f data l :
  data ≠ [] → Z.of_nat (length data) < 2 ^ 64 →
  dechunk (S f) (chunk data ++ l) =
  ('(body, rest) ← dechunk f l; Some (data ++ body, rest)).
Proof.
  intros Hne Hlen. cbn [dechunk]. unfold chunk. rewrite chunk_header_bytes by lia.
  destruct (to_str_radix_spec (Z.of_nat (length data)) 16) as (Hv & Hd & Hds & _); [lia|lia|].
  rewrite <-!app_assoc. unfold CRLF at 1. simpl.
  rewrite hex_prefix_app by done. rewrite bool_decide_false by done. simpl.
  rewrite Hv, Nat2Z.id. rewrite bool_decide_false by (by destruct data).
  rewrite (proj2 (Nat.leb_le _ _)) by (rewrite length_app; lia).
  by rewrite drop_app_length, take_app_length.
Qed.

Lemma dechunk_mono k f l b r :
  dechunk f l = Some (b, r) → dechunk (k + f) l = Some (b, r).
Proof.
  assert (∀ n l b r, dechunk n l = Some (b, r) → dechunk (S n) l = Some (b, r)) as HS.
  { clear. induction n as [|n IH]; [done|]. intros l b r E.
    rewrite <-E. cbn [dechunk] in E |- *. destruct (hex_prefix l) as [ds l1].
    case_bool_decide; [done|]. destruct (strip_crlf l1) as [l2|]; [|done]. simpl in *.
    case_bool_decide; [done|]. destruct (_ <=? _)%nat; [|done].
    destruct (strip_crlf (drop _ l2)) as [l3|]; [|done]. simpl in *.
    destruct (dechunk n l3) as [[b' r']|] eqn:E'; [|done]. by rewrite (IH _ _ _ E'). }
  intros E. induction k as [|k IHk]; [done|]. by apply HS.
Qed.

(** A sequence of chunks in front of something that decodes. *)
Lemma dechunk_emits_app body out f tail b r :
  Emits true body out → Z.of_nat (length body) < 2 ^ 64 →
  dechunk f tail = Some (b, r) →
  dechunk (length body + f) (out ++ tail) = Some (body ++ b, r).
Proof.
  intros HE. revert f tail b. induction HE as [|body out data HE IH Hne];
    intros f tail b Hlen Ht; [done|].
  rewrite length_app in *. rewrite <-!app_assoc, <-Nat.add_assoc.
  apply IH; [lia|]. destruct data as [|d data]; [done|]. cbn [length Nat.add emit].
  rewrite dechunk_chunk by (done || simpl in *; lia). by rewrite (dechunk_mono _ _ _ _ _ Ht).
Qed.

(** A sequence of chunks followed by the last chunk decodes to the body. *)
Lemma dechunk_emits body out rest f :
  Emits true body out → Z.of_nat (length body) < 2 ^ 64 → (length body < f)%nat →
  dechunk f (out ++ last_chunk ++ rest) = Some (body, rest).
Proof.
  intros HE Hlen Hf.
  pose proof (dechunk_emits_app body out (f - length body) (last_chunk ++ rest) [] rest HE Hlen) as Hg.
  rewrite app_nil_r, (Nat.add_comm (length body)), Nat.sub_add in Hg by lia. apply Hg.
  destruct (f - length body)%nat eqn:Ef; [lia|done].
Qed.

(** ** What the writing side of a stream puts on the wire *)
Section Output.
Context {T : Type} `{ByteSink T}.

Definition wop_fits (op : wop) : Prop := match op with WWrite bs => fits bs | WFlush => True end.

Lemma True_stable : write_stable (λ _ : BufferedStream T, True).
Proof. by split. Qed.

(** C8. In chunked mode, any sequence of writes and flushes followed by
    [finish_response] succeeds and sends exactly one complete chunked body: the
    reference decoder, given what was sent, returns the bytes written, in
    order, and stops right after it; nothing stays in the buffer. *)
Theorem chunked_output_decodes (ops : list wop) (s : BufferedStream T) :
  write_wf s → call_wrapped_flush s = false → writing_chunked_body s = true →
  buffered s = [] → Forall wop_fits ops → fits (payload ops) →
  ∃ s' out, (run_wops ops;; finish_response) s = Done (tt, s')
    ∧ sent (wrapped s') = sent (wrapped s) ++ out
    ∧ write_wf s' ∧ buffered s' = []
    ∧ ∀ rest, dechunk (S (length (payload ops))) (out ++ rest) = Some (payload ops, rest).
Proof.
  intros Hwf Hcwf Hc Hb Hops Hfit.
  destruct (run_finish_spec _ True_stable ops s Hwf I Hcwf Hops)
    as (s' & out & E & Hwf' & Hb' & HE & (Hs & _)).
  rewrite Hc in HE, Hs. rewrite Hb in HE. eexists s', _. split; [done|]. split; [exact Hs|].
  split; [done|]. split; [done|]. intros rest. rewrite <-app_assoc.
  unfold fits in Hfit. apply dechunk_emits; [done|lia|lia].
Qed.

(** Outside chunked mode, any sequence of writes and flushes followed by
    [finish_response] succeeds and sends the bytes that were buffered followed
    by the bytes written, unchanged and in order. *)
Theorem plain_output_verbatim (ops : list wop) (s : BufferedStream T) :
  write_wf s → call_wrapped_flush s = false → writing_chunked_body s = false →
  Forall wop_fits ops →
  ∃ s', (run_wops ops;; finish_response) s = Done (tt, s')
    ∧ sent (wrapped s') = sent (wrapped s) ++ buffered s ++ payload ops
    ∧ write_wf s' ∧ buffered s' = [].
Proof.
  intros Hwf Hcwf Hc Hops.
  destruct (run_finish_spec _ True_stable ops s Hwf I Hcwf Hops)
    as (s' & out & E & Hwf' & Hb' & HE & (Hs & _)).
  rewrite Hc in HE, Hs. apply emits_plain in HE as ->. rewrite app_nil_r in Hs.
  by exists s'.
Qed.

End Output.

(** A stream in chunked mode over an in-memory writer. *)
Definition chunked_mem : BufferedStream MemWriter :=
  set_writing_chunked_body true (new (mkMemWriter []) false).

Lemma chunked_output_decodes_witness :
  let ops := [WWrite (lit "Hello, "); WFlush; WWrite (lit "World!")] in
  ∃ s' out, (run_wops ops;; finish_response) chunked_mem = Done (tt, s')
    ∧ sent (wrapped s') = sent (wrapped chunked_mem) ++ out
    ∧ write_wf s' ∧ buffered s' = []
    ∧ ∀ rest, dechunk (S (length (payload ops))) (out ++ rest) = Some (payload ops, rest).
Proof.
  apply chunked_output_decodes; [apply new_write_wf | reflexivity | reflexivity | reflexivity | |].
  - repeat constructor.
  - reflexivity.
Defined.

Lemma plain_output_verbatim_witness :
  let ops := [WWrite (lit "Hello, "); WFlush; WWrite (lit "World!")] in
  let s := new (mkMemWriter []) false in
  ∃ s', (run_wops ops;; finish_response) s = Done (tt, s')
    ∧ sent (wrapped s') = sent (wrapped s) ++ buffered s ++ payload ops
    ∧ write_wf s' ∧ buffered s' = [].
Proof.
  apply plain_output_verbatim; [apply new_write_wf | reflexivity | reflexivity |].
  repeat constructor.
Defined.

(** ** ChunkedReader *)
Record ChunkedReader (R : Type) : Type := mkChunkedReader {
  cr_reader : BufferedStream R;
  chunk_size : uint;
  finished : bool
}.
Arguments mkChunkedReader {R}.
Arguments cr_reader {R}.
Arguments chunk_size {R}.
Arguments finished {R}.

Module chunked_reader.
Section Reader.
Context {R : Type} `{Reader R}.
Implicit Types c : ChunkedReader R.

Definition set_reader (r : BufferedStream R) c := mkChunkedReader r (chunk_size c) (finished c).
Definition set_chunk_size (n : uint) c := mkChunkedReader (cr_reader c) n (finished c).
Definition set_finished c := mkChunkedReader (cr_reader c) (chunk_size c) true.

(** [ChunkedReader::new]. *)
Definition new (reader : BufferedStream R) : ChunkedReader R := mkChunkedReader reader 0 false.

(** A call on [self.reader]. *)
Definition on_reader {A} (m : M (BufferedStream R) A) : M (ChunkedReader R) A :=
  zoom cr_reader set_reader m.

Definition read_chunk_header (fuel : nat) : M (ChunkedReader R) (option uint) :=
  o ← on_reader (read_uint fuel 19 CR);
  match o with
  | Some n =>
      b ← on_reader read_byte;
      if bool_decide (b = Some LF) then mret (Some n) else mret None
  | None => mret None
  end.

(** The body of [read] once [self.chunk_size] is set: [mut_slice_to] checks
    its bound, and the second [read_byte] runs only if the first saw a CR. *)
Definition read_chunk (n : nat) : M (ChunkedReader R) (option (list u8)) :=
  cs ← gets chunk_size;
  let available := wrap64 (cs - 2) in
  let want := wrap64 (Z.min available (Z.of_nat n) + 1) in
  assert (want <=? Z.of_nat n) "assertion failed: mut_slice_to";;
  o ← on_reader (read (Z.to_nat want));
  match o with
  | Some bs =>
      if Z.of_nat (length bs) =? available then
        modify (set_chunk_size 0);;
        b1 ← on_reader read_byte;
        bad ← (if bool_decide (b1 = Some CR)
               then b2 ← on_reader read_byte; mret (bool_decide (b2 = Some LF))
               else mret true);
        if (bad : bool) then modify set_finished;; mret None else mret (Some bs)
      else
        modify (set_chunk_size (wrap64 (cs - Z.of_nat (length bs))));;
        mret (Some bs)
  | None => modify set_finished;; mret None
  end.

Definition read (fuel n : nat) : M (ChunkedReader R) (option (list u8)) :=
  fin ← gets finished;
  if (fin : bool) then mret None
  else
    cs ← gets chunk_size;
    if cs =? 0 then
      h ← read_chunk_header fuel;
      match h with
      | None => modify set_finished;; mret None
      | Some k =>
          if k =? 0 then modify set_finished;; mret None
          else modify (set_chunk_size (wrap64 (k + 2)));; read_chunk n
      end
    else read_chunk n.

Definition eof : M (ChunkedReader R) bool := gets finished.
End Reader.
End chunked_reader.

(** Reading from a window that has bytes left. *)
Lemma read_window {T} `{Reader T} (s : BufferedStream T) n :
  read_wf s → (read_pos s < read_max s)%nat →
  read n s = Done (Some (take n (window s)),
                   set_pos (read_pos s + Nat.min (read_max s - read_pos s) n) s).
Proof.
  intros [Hlen Hpos] Hlt. pose proof READ_BUF_SIZE_Z as HZ.
  assert (Ee : ensure_buffer s = Done (true, s)).
  { unfold ensure_buffer. by rewrite !bind_gets, bool_decide_false by lia. }
  unfold read. rewrite (bind_Done _ _ _ _ _ Ee). cbn [negb].
  rewrite !bind_gets.
  rewrite wrap64_small by lia.
  rewrite (proj2 (Nat.leb_le _ _)) by lia.
  rewrite (proj2 (Z.leb_le _ _)) by (rewrite length_drop; lia).
  cbn [assert]. rewrite !bind_ret, bind_modify. unfold window. rewrite take_take.
  replace (Z.to_nat _) with (Nat.min (read_max s - read_pos s) n) by lia.
  by rewrite (Nat.min_comm n).
Qed.

Section ChunkedReaderProperties.
Context {R : Type} `{Reader R}.
Implicit Types c : ChunkedReader R.

Lemma read_chunk_bound c n :
  (chunk_size c = 1 ∨ Z.of_nat n + 2 ≤ chunk_size c < 2 ^ 64) → Z.of_nat n < 2 ^ 63 →
  chunked_reader.read_chunk n c = Fail "assertion failed: mut_slice_to".
Proof.
  intros Hc Hn. unfold chunked_reader.read_chunk. rewrite bind_gets.
  assert (Hav : Z.of_nat n ≤ wrap64 (chunk_size c - 2)).
  { destruct Hc as [-> | Hc]; [change (wrap64 (1 - 2)) with (2 ^ 64 - 1); lia|].
    rewrite wrap64_small; lia. }
  rewrite Z.min_r, (wrap64_small (Z.of_nat n + 1)) by lia.
  destruct (Z.leb_spec (Z.of_nat n + 1) (Z.of_nat n)); [lia|done].
Qed.

Lemma read_current_chunk c fuel n :
  finished c = false → chunk_size c ≠ 0 →
  chunked_reader.read fuel n c = chunked_reader.read_chunk n c.
Proof.
  intros Hfin Hc. unfold chunked_reader.read. rewrite bind_gets, Hfin, bind_gets.
  by destruct (Z.eqb_spec (chunk_size c) 0).
Qed.

(** [ChunkedReader::read] cannot deliver a chunk into a buffer that is not
    larger than the rest of the chunk: it slices one byte past the end of the
    caller's buffer, and the task fails. *)
Theorem chunked_read_small_buffer c fuel n :
  finished c = false → Z.of_nat n + 2 ≤ chunk_size c < 2 ^ 64 → Z.of_nat n < 2 ^ 63 →
  chunked_reader.read fuel n c = Fail "assertion failed: mut_slice_to".
Proof.
  intros Hfin Hc Hn. rewrite read_current_chunk by (done || lia). apply read_chunk_bound; auto.
Qed.

(** On a chunk whose [k] bytes and CR are in the buffer, a read into a
    larger buffer returns the CR as a byte of the body and leaves
    [chunk_size = 1], which the comment on the field says cannot occur; the
    next read, into whatever buffer, then fails the task. *)
Theorem chunked_read_overruns c data rest n n' fuel :
  finished c = false → data ≠ [] → chunk_size c = Z.of_nat (length data) + 2 →
  read_wf (cr_reader c) → window (cr_reader c) = data ++ CR :: rest →
  (length data < n)%nat → Z.of_nat n < 2 ^ 63 → Z.of_nat n' < 2 ^ 63 →
  ∃ c', chunked_reader.read fuel n c = Done (Some (data ++ [CR]), c')
    ∧ chunk_size c' = 1 ∧ finished c' = false
    ∧ chunked_reader.read fuel n' c' = Fail "assertion failed: mut_slice_to".
Proof.
  intros Hfin Hne Hcs Hwf Hwin Hn Hn63 Hn'.
  assert (Hlt : (read_pos (cr_reader c) < read_max (cr_reader c))%nat).
  { apply (f_equal length) in Hwin. rewrite window_length, length_app in Hwin by done.
    simpl in Hwin. lia. }
  assert (E : chunked_reader.read_chunk n c =
    Done (Some (data ++ [CR]), chunked_reader.set_chunk_size 1 (chunked_reader.set_reader
      (set_pos (read_pos (cr_reader c) + Nat.min (read_max (cr_reader c) - read_pos (cr_reader c))
         (length data + 1)) (cr_reader c)) c))).
  { unfold chunked_reader.read_chunk. rewrite bind_gets, Hcs.
    replace (Z.of_nat (length data) + 2 - 2) with (Z.of_nat (length data)) by lia.
    rewrite (wrap64_small (Z.of_nat (length data))) by lia.
    rewrite Z.min_l, wrap64_small by lia.
    rewrite (proj2 (Z.leb_le _ _)) by lia. cbn [assert]. rewrite bind_ret, bind_unfold.
    replace (Z.to_nat (Z.of_nat (length data) + 1)) with (length data + 1)%nat by lia.
    unfold chunked_reader.on_reader, zoom. rewrite read_window, Hwin by done.
    rewrite take_app_add. cbn [take]. rewrite take_0.
    destruct (Z.eqb_spec (Z.of_nat (length (data ++ [CR]))) (Z.of_nat (length data))) as [Hq|_];
      [rewrite length_app in Hq; simpl in Hq; lia|].
    rewrite bind_modify, length_app. cbn [length].
    replace (Z.of_nat (length data) + 2 - Z.of_nat (length data + 1)) with 1 by lia. done. }
  eexists. split; [|split; [|split]].
  - rewrite read_current_chunk by (done || lia). exact E.
  - done.
  - exact Hfin.
  - rewrite read_current_chunk by done. apply read_chunk_bound; [by left|done].
Qed.
End ChunkedReaderProperties.

(** A stream with [bs] in its read buffer. *)
Definition preloaded (bs : list u8) : BufferedStream TcpStream :=
  let s := tcp_stream [] in set_read (overwrite bs (read_buffer s)) 0 (length bs) s.

Lemma preloaded_wf bs : (length bs ≤ READ_BUF_SIZE)%nat → read_wf (preloaded bs).
Proof.
  intros Hl. unfold read_wf, preloaded, overwrite; simpl.
  rewrite length_app, length_drop, length_replicate. lia.
Qed.

Lemma chunked_read_small_buffer_witness :
  chunked_reader.read 30 5 (mkChunkedReader (preloaded (lit "hello" ++ CRLF)) 7 false)
  = Fail "assertion failed: mut_slice_to".
Proof. apply chunked_read_small_buffer; [reflexivity | simpl; lia | lia]. Defined.

Lemma chunked_read_overruns_witness :
  ∃ c', chunked_reader.read 30 100 (mkChunkedReader (preloaded (lit "hello" ++ CRLF)) 7 false)
        = Done (Some (lit "hello" ++ [CR]), c')
    ∧ chunk_size c' = 1 ∧ finished c' = false
    ∧ chunked_reader.read 30 100 c' = Fail "assertion failed: mut_slice_to".
Proof.
  apply (chunked_read_overruns _ (lit "hello") [LF]);
    [reflexivity | discriminate | reflexivity | | vm_compute; reflexivity
    | simpl; lia | lia | lia].
  apply preloaded_wf. pose proof READ_BUF_SIZE_Z. simpl. lia.
Defined.

(** The two ends of the coding disagree: [BufferedStream::write] announces
    chunks in hexadecimal, [ChunkedReader] reads decimal.  A [ChunkedReader]
    given what the writer sends for a body of 10 to 15 bytes returns [None] and
    is finished: the body is lost. *)
Theorem chunked_reader_rejects_hex {R} `{ByteSource R} (s : BufferedStream R) data rest fuel n :
  stream_wf s → bs_pending s = chunk data ++ rest → (10 ≤ length data ≤ 15)%nat →
  (25 < fuel)%nat →
  ∃ c', chunked_reader.read fuel n (chunked_reader.new s) = Done (None, c') ∧ finished c' = true.
Proof.
  intros Hwf Hp Hlen Hf. rewrite stream_wf_inv in Hwf.
  pose (Src := BufferedStream_source (λ _ : BufferedStream R, True) True_read_stable).
  destruct (digit_loop_list fuel 19 CR (bs_pending s)) as (o & l' & E & Ho); [lia|lia|done|].
  assert (o = None) as ->.
  { destruct o as [v|]; [|done]. destruct Ho as (ds & Ed & Hds & _). exfalso.
    assert (Hh : ∃ t, chunk data ++ rest = digit_char (Z.of_nat (length data)) :: t).
    { unfold chunk. rewrite chunk_header_bytes by lia. unfold to_str_radix. cbn [radix_aux].
      rewrite Z.div_small, Z.mod_small by lia. simpl. by eexists. }
    destruct Hh as [t Ht]. rewrite Hp, Ht in Ed.
    assert (Hd : digit_char (Z.of_nat (length data)) = 87 + Z.of_nat (length data)).
    { unfold digit_char. destruct (Z.ltb_spec (Z.of_nat (length data)) 10); lia. }
    rewrite Hd in Ed. destruct ds as [|d ds]; injection Ed as Ed _.
    - unfold CR in Ed. lia.
    - simpl in Hds. apply andb_true_iff in Hds as [Hd' _]. subst d. clear -Hd' Hlen. octet_lia. }
  destruct (msim_Done _ _ _ _ s (bs_pending s) None l' (read_uint_sim fuel 19 CR))
    as (s' & Er & _); [by split | exact E |].
  assert (Eh : chunked_reader.read_chunk_header fuel (chunked_reader.new s)
               = Done (None, chunked_reader.set_reader s' (chunked_reader.new s))).
  { unfold chunked_reader.read_chunk_header. rewrite bind_unfold.
    unfold chunked_reader.on_reader, zoom. cbn [cr_reader chunked_reader.new]. by rewrite Er. }
  eexists. unfold chunked_reader.read. rewrite bind_gets. cbn [finished chunked_reader.new].
  rewrite bind_gets. cbn [chunk_size chunked_reader.new Z.eqb].
  fold (chunked_reader.new s). rewrite (bind_Done _ _ _ _ _ Eh). split; reflexivity.
Qed.

Lemma chunked_reader_rejects_hex_witness :
  ∃ c', chunked_reader.read 30 100 (chunked_reader.new (tcp_stream [chunk (lit "0123456789")]))
        = Done (None, c') ∧ finished c' = true.
Proof.
  apply (chunked_reader_rejects_hex _ (lit "0123456789") []).
  - apply tcp_stream_wf. repeat constructor. discriminate.
  - vm_compute. reflexivity.
  - simpl. lia.
  - lia.
Defined.
