(* ===== verification/StreamSpec.v ===== *)
(** * The contract of [BufferedStream] (src/libhttp/buffer.rs)

    An abstract stream has no buffers and no transfer-coding: it is the bytes
    still to be read and the messages written, each a plain piece or a body.
    [BufferedStream] implements it, over any wrapped stream and for any
    sequence of calls, the switch to chunked mode and back included: each call
    succeeds, with a result the abstract stream allows, and the two stay
    related; a body is on the wire as a chunked coding that decodes to it.  Its
    buffers and positions keep within their bounds on the way. *)

From S2P Require Import Prelude Strs Rfc2616 Io Buffer Chunked.

(** ** The abstract stream *)

(** The calls a client makes on a stream, and what they return.  [SBegin] is
    how [ResponseWriter::write_headers] starts a chunked body and [SEnd] is
    [ResponseWriter::finish_response]. *)
Inductive sop : Type :=
  | SReadByte | SRead (n : nat) | SPoke (b : u8) | SWrite (bs : list u8) | SFlush | SBegin | SEnd.
Inductive sres : Type := RByte (o : option u8) | RBytes (o : option (list u8)) | RUnit.

(** What was written: pieces that are complete, and the piece that is being
    written, which is a chunked body or not; whether something was written
    since the last flush. *)
Inductive piece : Type := Plain (bs : list u8) | Body (bs : list u8).
Record Out : Type := mkOut { pieces : list piece; current : list u8; in_body : bool; dirty : bool }.
Record Abs : Type := mkAbs { abs_in : list u8; abs_out : Out }.

Definition close_piece (o : Out) : list piece :=
  pieces o ++ [if in_body o then Body (current o) else Plain (current o)].
Definition out_write (bs : list u8) (o : Out) : Out := mkOut (pieces o) (current o ++ bs) (in_body o) true.
Definition out_flush (o : Out) : Out := mkOut (pieces o) (current o) (in_body o) false.
Definition out_begin (o : Out) : Out := mkOut (close_piece o) [] true false.
Definition out_end (o : Out) : Out := mkOut (close_piece o) [] false false.

(** A read returns some of the bytes that are left, at least one, and [None]
    only at the end; a byte put back is the next to be read; what is written
    is appended to the current piece. *)
Inductive abs_step : Abs → sop → sres → Abs → Prop :=
  | abs_byte b l o : abs_step (mkAbs (b :: l) o) SReadByte (RByte (Some b)) (mkAbs l o)
  | abs_byte_end o : abs_step (mkAbs [] o) SReadByte (RByte None) (mkAbs [] o)
  | abs_read n bs l o : (0 < length bs ≤ n)%nat → abs_step (mkAbs (bs ++ l) o) (SRead n) (RBytes (Some bs)) (mkAbs l o)
  | abs_read_end n o : abs_step (mkAbs [] o) (SRead n) (RBytes None) (mkAbs [] o)
  | abs_poke b l o : abs_step (mkAbs l o) (SPoke b) RUnit (mkAbs (b :: l) o)
  | abs_write bs l o : abs_step (mkAbs l o) (SWrite bs) RUnit (mkAbs l (out_write bs o))
  | abs_flush l o : abs_step (mkAbs l o) SFlush RUnit (mkAbs l (out_flush o))
  | abs_begin l o : in_body o = false → abs_step (mkAbs l o) SBegin RUnit (mkAbs l (out_begin o))
  | abs_end l o : abs_step (mkAbs l o) SEnd RUnit (mkAbs l (out_end o)).

Inductive abs_run : Abs → list sop → list sres → Abs → Prop :=
  | abs_done a : abs_run a [] [] a
  | abs_more a op r a1 ops rs a2 : abs_step a op r a1 → abs_run a1 ops rs a2 → abs_run a (op :: ops) (r :: rs) a2.

(** The use that is allowed: reads are into a buffer that is not empty, a byte
    is put back only after a read, once, and a body is not started within a
    body. *)
Fixpoint legal (fresh body : bool) (ops : list sop) : Prop :=
  match ops with
  | [] => True
  | SReadByte :: ops' => legal true body ops'
  | SRead n :: ops' => (0 < n)%nat ∧ legal true body ops'
  | SPoke _ :: ops' => fresh = true ∧ legal false body ops'
  | SWrite _ :: ops' | SFlush :: ops' => legal fresh body ops'
  | SBegin :: ops' => body = false ∧ legal fresh true ops'
  | SEnd :: ops' => legal fresh false ops'
  end.
(** The bytes that are written. *)
Definition written (ops : list sop) : list u8 :=
  ops ≫= λ op, match op with SWrite bs => bs | _ => [] end.

(** ** The wire

    [on_wire ps w]: the bytes [w] carry the pieces [ps], the plain ones as they
    are and the bodies in a form that the reference decoder reads back, whatever
    comes after them. *)
Definition piece_on_wire (p : piece) (out : list u8) : Prop :=
  match p with
  | Plain bs => out = bs
  | Body bs => ∀ rest, dechunk (S (length bs)) (out ++ rest) = Some (bs, rest)
  end.
Inductive on_wire : list piece → list u8 → Prop :=
  | wire_nil : on_wire [] []
  | wire_snoc ps w p out : on_wire ps w → piece_on_wire p out → on_wire (ps ++ [p]) (w ++ out).

(** The reference decoder, given the kinds and lengths of the pieces, gets the
    bytes of each of them back from the wire. *)
Fixpoint decode_pieces (ps : list piece) (w : list u8) : option (list (list u8) * list u8) :=
  match ps with
  | [] => Some ([], w)
  | Plain bs :: ps' =>
      '(bss, rest) ← decode_pieces ps' (drop (length bs) w); Some (take (length bs) w :: bss, rest)
  | Body bs :: ps' =>
      '(b, w') ← dechunk (S (length bs)) w; '(bss, rest) ← decode_pieces ps' w'; Some (b :: bss, rest)
  end.
#[local] Arguments dechunk : simpl never.
Definition piece_bytes (p : piece) : list u8 := match p with Plain bs | Body bs => bs end.

Lemma decode_pieces_snoc ps p w bss out :
  decode_pieces ps w = Some (bss, out) →
  decode_pieces (ps ++ [p]) w = ('(bs, rest) ← decode_pieces [p] out; Some (bss ++ bs, rest)).
Proof.
  revert w bss. induction ps as [|q ps IH]; intros w bss E.
  { simplify_eq/=. destruct p; simpl; [done|]. by destruct (dechunk _ _) as [[]|]. }
  destruct q as [bs|bs]; simpl in E |- *.
  - destruct (decode_pieces ps _) as [[bss' r']|] eqn:E'; simplify_eq/=. rewrite (IH _ _ E').
    by destruct p; simpl; [|destruct (dechunk _ _) as [[]|]].
  - destruct (dechunk (S (length bs)) w) as [[b w']|]; [|done]. simpl in *.
    destruct (decode_pieces ps w') as [[bss' r']|] eqn:E'; simplify_eq/=. rewrite (IH _ _ E').
    by destruct p; simpl; [|destruct (dechunk _ _) as [[]|]].
Qed.

Lemma on_wire_decodes ps w rest :
  on_wire ps w → decode_pieces ps (w ++ rest) = Some (piece_bytes <$> ps, rest).
Proof.
  intros Hw. revert rest. induction Hw as [|ps w p out Hw IH Hp]; intros rest; [done|].
  rewrite <-app_assoc, (decode_pieces_snoc _ _ _ _ _ (IH (out ++ rest))), fmap_app.
  destruct p as [bs|bs]; simpl in Hp |- *; [subst out|by rewrite Hp].
  by rewrite drop_app_length, take_app_length.
Qed.

Lemma emits_app c b1 o1 b2 o2 : Emits c b1 o1 → Emits c b2 o2 → Emits c (b1 ++ b2) (o1 ++ o2).
Proof.
  intros H1 H2. induction H2 as [|body out data H2 IH Hne]; [by rewrite !app_nil_r|].
  rewrite !app_assoc. by apply emits_snoc.
Qed.

Lemma emits_verbatim bs : Emits false bs bs.
Proof.
  destruct bs as [|b bs]; [constructor|]. apply (emits_snoc false [] [] (b :: bs)); [constructor|done].
Qed.

(** ** The calls on a [BufferedStream] *)
Section Calls.
Context {T : Type} `{HD : Duplex T}.
Implicit Types s : BufferedStream T.

Definition run_sop (op : sop) : M (BufferedStream T) sres :=
  match op with
  | SReadByte => o ← Buffer.read_byte; mret (RByte o)
  | SRead n => o ← Buffer.read n; mret (RBytes o)
  | SPoke b => poke_byte b;; mret RUnit
  | SWrite bs => Buffer.write bs;; mret RUnit
  | SFlush => Buffer.flush;; mret RUnit
  | SBegin => Buffer.flush;; modify (set_writing_chunked_body true);; mret RUnit
  | SEnd => Buffer.finish_response;; modify (set_writing_chunked_body false);; mret RUnit
  end.
Fixpoint run_sops (ops : list sop) : M (BufferedStream T) (list sres) :=
  match ops with
  | [] => mret []
  | op :: ops' => r ← run_sop op; rs ← run_sops ops'; mret (r :: rs)
  end.

(** The buffers and positions are in bounds. *)
Definition out_wf s : Prop := write_wf s ∧ call_wrapped_flush s = false.
Definition buffers_wf s : Prop := stream_wf s ∧ out_wf s.

(** The bytes sent carry the complete pieces and, with those in the buffer,
    what was written of the current one. *)
Definition carries (ps : list piece) (cur : list u8) s : Prop :=
  ∃ w out body, on_wire ps w ∧ sent (wrapped s) = w ++ out
    ∧ Emits (writing_chunked_body s) body out ∧ cur = body ++ buffered s.
Definition out_rel (o : Out) s : Prop :=
  out_wf s ∧ writing_chunked_body s = in_body o ∧ (dirty o = false → buffered s = [])
  ∧ carries (pieces o) (current o) s.
(** What writing leaves alone: the reading side, and whether a byte may be put
    back. *)
Definition in_frame (l : list u8) (fresh : bool) s : Prop :=
  stream_wf s ∧ bs_pending s = l ∧ (fresh = true → can_poke s).
(** The abstract stream a stream stands for. *)
Definition abstracts s (a : Abs) (fresh : bool) : Prop :=
  in_frame (abs_in a) fresh s ∧ out_rel (abs_out a) s.

Lemma out_wf_stable : read_stable out_wf.
Proof. split; [done|]. intros n s r w Hs E. exact Hs. Qed.

Lemma out_rel_stable o : read_stable (out_rel o).
Proof.
  split; [done|]. intros n s r w (Hw & Hk & Hd & w0 & out & body & Hon & Hs & HE & Hc) E.
  split; [done|]. split; [done|]. split; [done|]. exists w0, out, body. split; [done|].
  cbn [wrapped set_wrapped]. by rewrite (duplex_read n (wrapped s) r w E).
Qed.

Lemma in_frame_stable l fresh : write_stable (in_frame l fresh).
Proof.
  split; [done|]. intros bs s w ([Hw Hi] & Hl & Hf) E. destruct (duplex_write bs (wrapped s) w E) as [Hp Hinv].
  split; [split; [done|by apply Hinv]|]. split; [|done]. rewrite <-Hl. unfold bs_pending. cbn [wrapped set_wrapped]. by rewrite Hp.
Qed.

(** The reading side with the writing side as a frame, and back. *)
Lemma read_frames (F : BufferedStream T → Prop) s l fresh :
  bs_inv F s ∧ bs_pending s = l ∧ (fresh = true → can_poke s) ↔ in_frame l fresh s ∧ F s.
Proof. unfold bs_inv, in_frame, stream_wf. split; intros Hs; destruct_and?; split_and?; auto. Qed.

(** *** One call on the reading side ... *)
Definition reading (op : sop) : Prop := match op with SReadByte | SRead _ | SPoke _ => True | _ => False end.
Definition reading_result (op : sop) (r : sres) (l l' : list u8) : Prop :=
  ∀ o, abs_step (mkAbs l o) op r (mkAbs l' o).

Lemma run_reading (F : BufferedStream T → Prop) (HF : read_stable F) op ops fresh body s l :
  reading op → legal fresh body (op :: ops) → in_frame l fresh s → F s →
  ∃ r s' l' fresh', run_sop op s = Done (r, s') ∧ reading_result op r l l'
    ∧ in_frame l' fresh' s' ∧ F s' ∧ legal fresh' body ops.
Proof.
  intros Hop Hl Hin HFs. destruct (proj2 (read_frames F s l fresh) (conj Hin HFs)) as (Hi & Hp & Hfr).
  pose (Src := BufferedStream_source (T:=T) F HF).
  assert (Hdone : ∀ s' l' fresh', bs_inv F s' → bs_pending s' = l' → (fresh' = true → can_poke s') →
    in_frame l' fresh' s' ∧ F s') by (intros; apply read_frames; auto).
  destruct op as [|n|b|bs| | |]; cbn [legal] in Hl; cbn [run_sop]; try done.
  - destruct (msim_Done src_rel fresh_rel _ _ s l (head l) (tail l) (read_byte_sim F HF 1 ltac:(lia)))
      as (s' & E & [[Hi' Hp'] Hf']); [by split|by rewrite read_byte_util_list by lia; destruct l|].
    destruct (Hdone s' (tail l) true Hi' Hp' (λ _, Hf')) as [Hin' HF'].
    exists (RByte (head l)), s', (tail l), true. rewrite (bind_Done _ _ _ _ _ E). split_and?; try done.
    intros o. destruct l; constructor.
  - destruct Hl as [Hn Hl]. destruct (read_spec F HF n s Hi Hn) as (r & s' & E & Hi' & Hf' & Hr).
    destruct (Hdone s' (bs_pending s') true Hi' eq_refl (λ _, Hf')) as [Hin' HF'].
    exists (RBytes r), s', (bs_pending s'), true. rewrite (bind_Done _ _ _ _ _ E). split_and?; try done. intros o.
    destruct r as [bs|]; [destruct Hr as [Hlen Hr]|destruct Hr as [Hr Hr']]; rewrite <-Hp, Hr; [by constructor|].
    rewrite Hr'. constructor.
  - destruct Hl as [-> Hl].
    destruct (msim_Done fresh_rel src_rel _ _ s l tt (b :: l) (poke_byte_sim F HF b))
      as (s' & E & [Hi' Hp']); [by split; [split|apply Hfr]|done|].
    destruct (Hdone s' (b :: l) false Hi' Hp') as [Hin' HF']; [done|].
    exists RUnit, s', (b :: l), false. rewrite (bind_Done _ _ _ _ _ E). split_and?; try done. intros o. constructor.
Qed.

(** *** ... and on the writing side: what is written is carried *)
Lemma carries_more ps cur bs s s' x :
  carries ps cur s → writing_chunked_body s' = writing_chunked_body s → sent (wrapped s') = sent (wrapped s) ++ x →
  (x = [] ∧ buffered s' = buffered s ++ bs
   ∨ x = (if decide (buffered s ++ bs = []) then [] else emit (writing_chunked_body s) (buffered s ++ bs))
     ∧ buffered s' = []) →
  carries ps (cur ++ bs) s'.
Proof.
  intros (w & out & body & Hon & Hs & HE & ->) Hk Hs' Hx. destruct Hx as [[-> Hb]|[Hx Hb]].
  - exists w, out, body. rewrite Hk, Hb, <-app_assoc. rewrite app_nil_r in Hs'. split_and?; try done. by rewrite Hs'.
  - exists w, (out ++ x), (body ++ buffered s ++ bs). rewrite Hk, Hb, app_nil_r, <-app_assoc. split_and?; try done.
    + by rewrite Hs', Hs, app_assoc.
    + rewrite Hx. by apply emits_flush.
Qed.

(** The end of a piece: everything is sent, with the last chunk after a body. *)
Lemma carries_close o s w :
  carries (pieces o) (current o) s → buffered s = [] → writing_chunked_body s = in_body o →
  (in_body o = true → fits (current o)) →
  sent w = sent (wrapped s) ++ (if in_body o then last_chunk else []) →
  on_wire (close_piece o) (sent w).
Proof.
  intros (w0 & out & body & Hon & Hs & HE & Hc) Hb Hk Hfit Hw. rewrite Hb, app_nil_r in Hc. subst body.
  rewrite Hw, Hs, <-app_assoc. unfold close_piece. apply wire_snoc; [done|]. rewrite Hk in HE.
  destruct (in_body o); simpl; [|rewrite app_nil_r; by apply emits_plain].
  intros rest. specialize (Hfit eq_refl). unfold fits in Hfit. rewrite <-app_assoc.
  apply dechunk_emits; [done|lia|lia].
Qed.

(** A new piece after the pieces that are complete. *)
Lemma carries_new ps b s : on_wire ps (sent (wrapped s)) → buffered s = [] →
  carries ps [] (set_writing_chunked_body b s).
Proof.
  intros Hon Hb. exists (sent (wrapped s)), [], []. split_and?; [done|by rewrite app_nil_r|constructor|].
  change (buffered (set_writing_chunked_body b s)) with (buffered s). by rewrite Hb.
Qed.

Section Writing.
Context (l : list u8) (fresh : bool).

Lemma run_write bs o s :
  fits bs → in_frame l fresh s → out_rel o s →
  ∃ s', run_sop (SWrite bs) s = Done (RUnit, s') ∧ in_frame l fresh s' ∧ out_rel (out_write bs o) s'.
Proof.
  intros Hfit Hin ([Hw Hcf] & Hk & _ & Hc).
  destruct (write_spec _ (in_frame_stable l fresh) bs s Hw Hin Hfit) as (s' & E & Hw' & Hor).
  exists s'. cbn [run_sop]. rewrite (bind_Done _ _ _ _ _ E). split; [done|].
  assert (∃ x, Wrote (in_frame l fresh) s x s' ∧ carries (pieces o) (current o ++ bs) s')
    as (x & (_ & Hin' & Hcf' & Hk') & Hc').
  { destruct Hor as [[Hb Wr]|(Hb & Hne & Wr)]; eexists; (split; [exact Wr|]); destruct Wr as (Hs' & _ & _ & Hk');
      (eapply carries_more; [exact Hc|exact Hk'|exact Hs'|]); [by left|]. right. by rewrite decide_False. }
  split; [done|]. split; [split; [done|congruence]|]. split; [cbn; congruence|]. by split.
Qed.

Lemma flush_rel o s :
  in_frame l fresh s → out_rel o s →
  ∃ s', Buffer.flush s = Done (tt, s') ∧ in_frame l fresh s' ∧ out_rel (out_flush o) s'.
Proof.
  intros Hin ([Hw Hcf] & Hk & _ & Hc).
  destruct (flush_spec _ (in_frame_stable l fresh) s Hw Hin Hcf) as (s' & E & Hw' & Hb & (Hs' & Hin' & Hcf' & Hk')).
  exists s'. split; [done|]. split; [done|]. split; [split; [done|congruence]|]. split; [cbn; congruence|].
  split; [done|]. cbn [pieces current out_flush]. rewrite <-(app_nil_r (current o)).
  eapply carries_more; [exact Hc|exact Hk'|exact Hs'|right]. by rewrite app_nil_r.
Qed.

Lemma run_begin o s :
  in_body o = false → in_frame l fresh s → out_rel o s →
  ∃ s', run_sop SBegin s = Done (RUnit, s') ∧ in_frame l fresh s' ∧ out_rel (out_begin o) s'.
Proof.
  intros Hno Hin Ho. destruct (flush_rel o s Hin Ho) as (s1 & E1 & Hin1 & [Hw1 Hcf1] & Hk1 & Hb1 & Hc1).
  specialize (Hb1 eq_refl). exists (set_writing_chunked_body true s1). cbn [run_sop].
  rewrite (bind_Done _ _ _ _ _ E1). split; [done|]. split; [done|]. split; [done|]. split; [done|]. split; [done|].
  apply carries_new; [|done]. apply (carries_close o s1 (wrapped s1)); try done; rewrite Hno; [done|by rewrite app_nil_r].
Qed.

Lemma run_end o s :
  (in_body o = true → fits (current o)) → in_frame l fresh s → out_rel o s →
  ∃ s', run_sop SEnd s = Done (RUnit, s') ∧ in_frame l fresh s' ∧ out_rel (out_end o) s'.
Proof.
  intros Hfit Hin Ho. destruct (flush_rel o s Hin Ho) as (s1 & E1 & Hin1 & [Hw1 Hcf1] & Hk1 & Hb1 & Hc1).
  specialize (Hb1 eq_refl). cbn [in_body out_flush] in Hk1.
  destruct (write_wrapped_if _ (in_frame_stable l fresh) (writing_chunked_body s1) last_chunk s1 Hin1)
    as (s2 & E2 & (Hs2 & Hin2 & Hcf2 & Hk2) & Hwb2 & Hwl2).
  assert (E : Buffer.finish_response s = Done (tt, s2)).
  { unfold Buffer.finish_response. by rewrite (bind_Done _ _ _ _ _ E1), bind_gets. }
  assert (Hb2 : buffered s2 = []) by (unfold buffered; by rewrite Hwb2, Hwl2).
  exists (set_writing_chunked_body false s2). cbn [run_sop]. rewrite (bind_Done _ _ _ _ _ E). split; [done|].
  split; [done|]. split; [|split; [done|split; [done|]]].
  - split; [unfold write_wf; cbn; by rewrite Hwb2, Hwl2|cbn; congruence].
  - apply carries_new; [|done]. apply (carries_close o s1 (wrapped s2)); try done. by rewrite Hs2, Hk1.
Qed.
End Writing.

(** *** A sequence of calls *)
Definition has_room (o : Out) (ops : list sop) : Prop :=
  Z.of_nat (if in_body o then length (current o) else 0) + Z.of_nat (length (written ops)) < 2 ^ 63.

Lemma run_sop_spec op ops fresh s a :
  legal fresh (in_body (abs_out a)) (op :: ops) → has_room (abs_out a) (op :: ops) → abstracts s a fresh →
  ∃ r s' a' fresh', run_sop op s = Done (r, s') ∧ abs_step a op r a' ∧ abstracts s' a' fresh'
    ∧ legal fresh' (in_body (abs_out a')) ops ∧ has_room (abs_out a') ops.
Proof.
  intros Hl Hroom [Hin Ho]. destruct a as [l o]. cbn [abs_in abs_out] in *.
  assert (Hcases : reading op ∨ ¬ reading op) by (destruct op; cbn; auto).
  destruct Hcases as [Hop|Hop].
  { destruct (run_reading _ (out_rel_stable o) op ops fresh _ s l Hop Hl Hin Ho)
      as (r & s' & l' & fresh' & E & Hr & Hin' & Ho' & Hl').
    exists r, s', (mkAbs l' o), fresh'. split_and?; try done. unfold has_room in *.
    destruct op; try done. }
  assert (Hfit : in_body o = true → fits (current o)).
  { intros Hb. unfold has_room in Hroom. rewrite Hb in Hroom. unfold fits. lia. }
  unfold has_room, written in *. destruct op as [|n|b|bs| | |]; try (by destruct Hop); cbn [legal] in Hl;
    cbn [mbind list_bind] in Hroom; fold (written ops) in Hroom; rewrite ?length_app in Hroom.
  - destruct (run_write l fresh bs o s) as (s' & E & Hin' & Ho'); [unfold fits; lia|done|done|].
    exists RUnit, s', (mkAbs l (out_write bs o)), fresh. split_and?; try done; [constructor|].
    cbn. fold (written ops). destruct (in_body o); rewrite ?length_app; lia.
  - destruct (flush_rel l fresh o s Hin Ho) as (s' & E & Hin' & Ho').
    exists RUnit, s', (mkAbs l (out_flush o)), fresh. cbn [run_sop]. rewrite (bind_Done _ _ _ _ _ E).
    split_and?; try done. constructor.
  - destruct Hl as [Hb Hl]. destruct (run_begin l fresh o s Hb Hin Ho) as (s' & E & Hin' & Ho').
    exists RUnit, s', (mkAbs l (out_begin o)), fresh. split_and?; try done; [by constructor|].
    rewrite Hb in Hroom. exact Hroom.
  - destruct (run_end l fresh o s Hfit Hin Ho) as (s' & E & Hin' & Ho').
    exists RUnit, s', (mkAbs l (out_end o)), fresh. split_and?; try done; [by constructor|].
    cbn. fold (written ops). cbn in Hroom. destruct (in_body o); lia.
Qed.

Lemma run_sops_spec ops : ∀ fresh s a,
  legal fresh (in_body (abs_out a)) ops → has_room (abs_out a) ops → abstracts s a fresh →
  ∃ rs s' a' fresh', run_sops ops s = Done (rs, s') ∧ abs_run a ops rs a' ∧ abstracts s' a' fresh'.
Proof.
  induction ops as [|op ops IH]; intros fresh s a Hl Hr Ha;
    [by exists [], s, a, fresh; split_and?; try done; constructor|].
  destruct (run_sop_spec op ops fresh s a Hl Hr Ha) as (r & s1 & a1 & fresh1 & E1 & Hs1 & Ha1 & Hl1 & Hr1).
  destruct (IH fresh1 s1 a1 Hl1 Hr1 Ha1) as (rs & s2 & a2 & fresh2 & E2 & Hs2 & Ha2).
  exists (r :: rs), s2, a2, fresh2. cbn [run_sops]. rewrite (bind_Done _ _ _ _ _ E1), (bind_Done _ _ _ _ _ E2).
  split_and?; try done. by econstructor.
Qed.
End Calls.

(** ** Bounds *)
Section Bounds.
Context {T : Type} `{HD : Duplex T}.
Implicit Types s : BufferedStream T.

(** Putting a byte back where there is no room fails. *)
Lemma poke_full b s : ¬ can_poke s → poke_byte b s = Fail "poke called when buffer is full".
Proof.
  intros Hn. unfold can_poke in Hn. unfold poke_byte. rewrite !bind_gets.
  destruct (read_pos s) as [|p]; [|lia]. destruct (read_max s) as [|m]; [lia|]. done.
Qed.

(** Calls with lengths that fit; a byte may be put back, and a body started,
    at any time. *)
Definition sop_fits (op : sop) : Prop :=
  match op with SRead n => (0 < n)%nat | SWrite bs => fits bs | _ => True end.

Lemma flush_wf s : buffers_wf s → ∃ s', Buffer.flush s = Done (tt, s') ∧ buffers_wf s'.
Proof.
  intros [Hr [Hw Hcf]].
  destruct (flush_spec _ (in_frame_stable (bs_pending s) false) s Hw) as (s' & E & Hw' & _ & (_ & [Hr' _] & Hcf' & _));
    [by split|done|].
  exists s'. split; [done|]. split; [done|]. split; [done|congruence].
Qed.

Lemma run_writing_wf op s :
  ¬ reading op → buffers_wf s → sop_fits op → ∃ s', run_sop op s = Done (RUnit, s') ∧ buffers_wf s'.
Proof.
  intros Hop Hwf Hfit. destruct op as [|n|b|bs| | |]; try (by destruct Hop); cbn [run_sop].
  - destruct Hwf as [Hr [Hw Hcf]].
    destruct (write_spec _ (in_frame_stable (bs_pending s) false) bs s Hw) as (s' & E & Hw' & Hor); [by split|done|].
    exists s'. rewrite (bind_Done _ _ _ _ _ E). split; [done|].
    destruct Hor as [[_ (_ & [Hr' _] & Hcf' & _)]|(_ & _ & (_ & [Hr' _] & Hcf' & _))];
      (split; [done|]; split; [done|congruence]).
  - destruct (flush_wf s Hwf) as (s' & E & Hwf'). exists s'. by rewrite (bind_Done _ _ _ _ _ E).
  - destruct (flush_wf s Hwf) as (s' & E & Hwf'). exists (set_writing_chunked_body true s').
    by rewrite (bind_Done _ _ _ _ _ E).
  - destruct (flush_wf s Hwf) as (s1 & E1 & [Hr1 [Hw1 Hcf1]]).
    destruct (write_wrapped_if _ (in_frame_stable (bs_pending s1) false) (writing_chunked_body s1) last_chunk s1)
      as (s2 & E2 & (_ & [Hr2 _] & Hcf2 & _) & Hwb2 & Hwl2); [by split|].
    assert (E : Buffer.finish_response s = Done (tt, s2)).
    { unfold Buffer.finish_response. by rewrite (bind_Done _ _ _ _ _ E1), bind_gets. }
    exists (set_writing_chunked_body false s2). rewrite (bind_Done _ _ _ _ _ E). split; [done|]. split; [done|].
    split; [unfold write_wf; cbn; by rewrite Hwb2, Hwl2|cbn; congruence].
Qed.

Lemma run_sop_bounds op s :
  buffers_wf s → sop_fits op →
  match run_sop op s with
  | Done (_, s') => buffers_wf s'
  | Fail e => e = "poke called when buffer is full" ∧ ∃ b, op = SPoke b
  | Diverge => False
  end.
Proof.
  intros Hwf Hfit. assert (Hcases : reading op ∨ ¬ reading op) by (destruct op; cbn; auto).
  destruct Hcases as [Hop|Hop]; [|by destruct (run_writing_wf op s Hop Hwf Hfit) as (s' & -> & ?)].
  assert (Hok : ∀ fresh, legal fresh false [op] → (fresh = true → can_poke s) →
    match run_sop op s with Done (_, s') => buffers_wf s' | _ => False end).
  { intros fresh Hl Hf. destruct Hwf as [Hr Hw].
    destruct (run_reading _ out_wf_stable op [] fresh false s (bs_pending s) Hop Hl) as (r & s' & l' & fr & -> & _ & [Hr' _] & Hw' & _);
      [by split|done|by split]. }
  assert (Hres : match run_sop op s with Done (_, s') => buffers_wf s' | _ => False end →
    match run_sop op s with
    | Done (_, s') => buffers_wf s'
    | Fail e => e = "poke called when buffer is full" ∧ ∃ b, op = SPoke b
    | Diverge => False
    end) by (by destruct (run_sop op s) as [[]| |]).
  destruct (decide (0 < read_pos s ∨ read_max s = 0)%nat) as [Hc|Hc].
  - apply Hres, (Hok true); [by destruct op|done].
  - destruct op as [|n|b|bs| | |]; try done; try (by apply Hres, (Hok false)).
    cbn [run_sop]. rewrite (bind_Fail _ _ _ _ (poke_full b s Hc)). eauto.
Qed.
End Bounds.

(** ** The theorems *)

(** A stream of which nothing is in a body yet stands for the bytes that are
    to be read and one plain piece. *)
Definition start {T} `{Duplex T} (s : BufferedStream T) : Abs :=
  mkAbs (bs_pending s) (mkOut [] (sent (wrapped s) ++ buffered s) false true).

Lemma start_abstracts {T} `{Duplex T} (s : BufferedStream T) :
  buffers_wf s → writing_chunked_body s = false → abstracts s (start s) false.
Proof.
  intros [Hr Hw] Hk. split; [by split|]. split; [done|]. split; [done|]. split; [done|].
  exists [], (sent (wrapped s)), (sent (wrapped s)). rewrite Hk. split_and?; try done; [constructor|apply emits_verbatim].
Qed.

(** C9. [BufferedStream] implements the abstract stream: whatever sequence of
    reads, puts-back, writes, flushes and chunked bodies is made on it, with a
    byte put back only after a read and no body within a body, no call fails
    and each returns what the abstract stream may return.  At the end the
    bytes left to be read, in the buffer and beyond, are those of the abstract
    stream; the bytes sent start with the complete pieces, which the reference
    decoder gets back from the wire one by one, then carry the piece that is
    being written as far as it is not in the buffer; and after a flush or the
    end of a piece nothing is left in the buffer. *)
Theorem stream_refines {T} `{Duplex T} (s : BufferedStream T) ops :
  buffers_wf s → writing_chunked_body s = false → legal false false ops → fits (written ops) →
  ∃ rs s' a' w out body, run_sops ops s = Done (rs, s') ∧ abs_run (start s) ops rs a' ∧ buffers_wf s'
    ∧ bs_pending s' = abs_in a' ∧ writing_chunked_body s' = in_body (abs_out a')
    ∧ sent (wrapped s') = w ++ out
    ∧ decode_pieces (pieces (abs_out a')) (w ++ out) = Some (piece_bytes <$> pieces (abs_out a'), out)
    ∧ Emits (in_body (abs_out a')) body out ∧ body ++ buffered s' = current (abs_out a')
    ∧ (dirty (abs_out a') = false → buffered s' = []).
Proof.
  intros Hwf Hk Hl Hfit.
  destruct (run_sops_spec ops false s (start s) Hl) as (rs & s' & a' & fresh & E & Hr & [Hr' [Hl' _]] & Hw' & Hk' & Hd & Hc).
  - unfold has_room, fits in *. cbn. lia.
  - by apply start_abstracts.
  - destruct Hc as (w & out & body & Hon & Hs & HE & Hcur). exists rs, s', a', w, out, body.
    rewrite Hk' in HE. split_and?; try done. by apply on_wire_decodes.
Qed.

Lemma stream_refines_witness :
  let s := tcp_stream [lit "a"; lit "bc"] in
  let ops := [SReadByte; SPoke (chr "x"); SWrite (lit "head"); SBegin; SWrite (lit "hi"); SFlush; SRead 10;
              SWrite (lit "!"); SEnd; SWrite (lit "next")] in
  ∃ rs s' a' w out body, run_sops ops s = Done (rs, s') ∧ abs_run (start s) ops rs a' ∧ buffers_wf s'
    ∧ bs_pending s' = abs_in a' ∧ writing_chunked_body s' = in_body (abs_out a')
    ∧ sent (wrapped s') = w ++ out
    ∧ decode_pieces (pieces (abs_out a')) (w ++ out) = Some (piece_bytes <$> pieces (abs_out a'), out)
    ∧ Emits (in_body (abs_out a')) body out ∧ body ++ buffered s' = current (abs_out a')
    ∧ (dirty (abs_out a') = false → buffered s' = []).
Proof.
  intros s ops. apply stream_refines; [|reflexivity| |vm_compute; reflexivity].
  - split; [apply tcp_stream_wf; repeat constructor; discriminate|]. split; [apply new_write_wf|reflexivity].
  - cbn [legal ops]. split; [reflexivity|]. split; [reflexivity|]. split; [lia|exact I].
Defined.


