(* ===== verification/SerializationUtils.v ===== *)
(** * Header text utilities (src/libhttp/headers/serialization_utils.rs)

    Header-name normalisation, comma lists, quoted strings and parameters, in
    the two forms the library has: functions on strings and writers of bytes.
    The two forms are proved to agree, and quoting to be inverted by
    unquoting. *)

From S2P Require Import Prelude Strs Rfc2616 Io.

(** ** Header names *)

(** The loop of [normalise_header_name]: [c.to_ascii()] fails the task on a
    character that is not ASCII. *)
Fixpoint normalise_go (capitalise : bool) (name : str) : res str :=
  match name with
  | [] => Done []
  | c :: name' =>
      if c <? 128 then
        let c := if capitalise then ascii_to_upper c else ascii_to_lower c in
        match normalise_go (c =? 45) name' with
        | Done rest => Done (c :: rest)
        | Fail e => Fail e
        | Diverge => Diverge
        end
      else Fail "assertion failed: self.is_ascii()"
  end.
Definition normalise_header_name (name : str) : res str := normalise_go true name.

(** ** Comma lists *)
Definition comma_split (value : str) : list str := trim_left <$> split_char (chr ",") value.
(** The iterator version yields the same pieces. *)
Definition comma_split_iter (value : str) : list str := trim_left <$> split_char (chr ",") value.
Definition comma_join (values : list str) : str := connect (lit ", ") values.

(** ** Quoted strings *)
Definition needs_escape (c : Z) : bool := (c =? BACKSLASH) || (c =? DOUBLE_QUOTE).
(** The loop of [push_quoted_string]. *)
Definition escape (t : str) : str :=
  t ≫= λ c, if needs_escape c then [BACKSLASH; c] else [c].
Definition push_quoted_string (s t : str) : str :=
  s ++ [DOUBLE_QUOTE] ++ escape t ++ [DOUBLE_QUOTE].
Definition quoted_string (s : str) : str := push_quoted_string [] s.
Definition push_maybe_quoted_string (s t : str) : str :=
  if is_token t then s ++ t else push_quoted_string s t.
Definition maybe_quoted_string (s : str) : str :=
  if is_token s then s else quoted_string s.

Module unquote.
Inductive State : Type := Start | Normal | Escaping | End.
End unquote.

(** The loop of [unquote_string], one character at a time. *)
Fixpoint unquote_loop (state : unquote.State) (output : str) (s : str) : option str :=
  match s with
  | [] => match state with unquote.End => Some output | _ => None end
  | c :: s' =>
      match state with
      | unquote.Start => if c =? DOUBLE_QUOTE then unquote_loop unquote.Normal output s' else None
      | unquote.Normal =>
          if c =? BACKSLASH then unquote_loop unquote.Escaping output s'
          else if c =? DOUBLE_QUOTE then unquote_loop unquote.End output s'
          else unquote_loop unquote.Normal (output ++ [c]) s'
      | unquote.Escaping => unquote_loop unquote.Normal (output ++ [c]) s'
      | unquote.End => None
      end
  end.
(** [output.reserve(s.len() - 2)]: on a string of less than two bytes the
    [uint] subtraction wraps around and [reserve] fails the task; the other
    lengths are those of a string that is in memory already. *)
Definition unquote_string (s : str) : res (option str) :=
  if (str_len s <? 2)%nat then Fail "vector size is too large"
  else Done (unquote_loop unquote.Start [] s).
Definition maybe_unquote_string (s : str) : res (option str) :=
  if is_token s then Done (Some s) else unquote_string s.

(** ** Parameters *)
Definition push_parameter (s k v : str) : str :=
  push_maybe_quoted_string (s ++ k ++ [chr "="]) v.
Fixpoint push_parameters (s : str) (parameters : list (str * str)) : str :=
  match parameters with
  | [] => s
  | (k, v) :: ps => push_parameters (push_parameter (s ++ [chr ";"]) k v) ps
  end.

(** [push_quality]: [fmt3] is the standard library's [{:0.3f}] on the type of
    floats. *)
Definition push_quality {F64} (fmt3 : F64 → str) (s : str) (quality : option F64) : str :=
  match quality with
  | Some qvalue => s ++ lit ";q=" ++ fmt3 qvalue
  | None => s
  end.

(** ** [WriterUtil] *)
Section WriterUtil.
Context {W : Type} `{Writer W}.

Definition write_quoted_string (s : str) : M W unit :=
  writer_write [DOUBLE_QUOTE];;
  for_each (as_bytes s) (λ b,
    (if (b =? BACKSLASH) || (b =? DOUBLE_QUOTE) then writer_write [BACKSLASH] else mret tt);;
    writer_write [b]);;
  writer_write [DOUBLE_QUOTE].

Definition write_maybe_quoted_string (s : str) : M W unit :=
  if is_token s then writer_write (as_bytes s) else write_quoted_string s.

Definition write_parameter (k v : str) : M W unit :=
  writer_write (as_bytes k);;
  writer_write [chr "="];;
  write_maybe_quoted_string v.

Definition write_parameters (parameters : list (str * str)) : M W unit :=
  for_each parameters (λ '(k, v), writer_write [chr ";"];; write_parameter k v).

Definition write_quality {F64} (fmt3 : F64 → str) (quality : option F64) : M W unit :=
  match quality with
  | Some qvalue => writer_write (lit ";q=");; writer_write (as_bytes (fmt3 qvalue))
  | None => mret tt
  end.

Definition write_token (token : str) : M W unit :=
  assert (is_token token) "assertion failed: is_token(token)";;
  writer_write (as_bytes token).
End WriterUtil.

(** ** Header names: facts *)

Definition recase (capitalise : bool) (c : Z) : Z :=
  if capitalise then ascii_to_upper c else ascii_to_lower c.
(** The normal form, without the ASCII check. *)
Fixpoint normal_form (capitalise : bool) (name : str) : str :=
  match name with
  | [] => []
  | c :: name' => recase capitalise c :: normal_form (recase capitalise c =? 45) name'
  end.

Lemma normalise_go_ascii cap s :
  is_ascii s = true → normalise_go cap s = Done (normal_form cap s).
Proof.
  revert cap. induction s as [|c s IH]; intros cap Hs; [done|].
  simpl in Hs. apply andb_true_iff in Hs as [Hc Hs]. cbn [normalise_go]. rewrite Hc.
  fold (recase cap c). by rewrite (IH _ Hs).
Qed.

Lemma normalise_go_fail cap s :
  is_ascii s = false → normalise_go cap s = Fail "assertion failed: self.is_ascii()".
Proof.
  revert cap. induction s as [|c s IH]; intros cap Hs; [done|]. cbn [normalise_go].
  simpl in Hs. destruct (c <? 128); [|done]. by rewrite (IH _ Hs).
Qed.

Lemma recase_lower cap c : ascii_to_lower (recase cap c) = ascii_to_lower c.
Proof. destruct cap; [apply ascii_to_lower_upper | apply ascii_to_lower_idemp]. Qed.

Lemma recase_of_lower cap c : recase cap c = recase cap (ascii_to_lower c).
Proof.
  destruct cap; simpl; [by rewrite ascii_to_upper_lower | by rewrite ascii_to_lower_idemp].
Qed.

Lemma normal_form_lower cap s : to_ascii_lower (normal_form cap s) = to_ascii_lower s.
Proof.
  unfold to_ascii_lower. revert cap. induction s as [|c s IH]; intros cap; [done|].
  simpl. by rewrite recase_lower, IH.
Qed.

Lemma normal_form_of_lower cap s : normal_form cap s = normal_form cap (to_ascii_lower s).
Proof.
  unfold to_ascii_lower. revert cap. induction s as [|c s IH]; intros cap; [done|].
  simpl. by rewrite <-recase_of_lower, IH.
Qed.

Lemma ascii_lower_is_ascii s : is_ascii (to_ascii_lower s) = is_ascii s.
Proof.
  induction s as [|c s IH]; [done|]. rewrite to_ascii_lower_cons, !is_ascii_cons, IH. f_equal.
  unfold ascii_to_lower. case_match; lia.
Qed.

Lemma normal_form_ascii cap s : is_ascii (normal_form cap s) = is_ascii s.
Proof. by rewrite <-ascii_lower_is_ascii, normal_form_lower, ascii_lower_is_ascii. Qed.

Lemma normal_form_idemp cap s : normal_form cap (normal_form cap s) = normal_form cap s.
Proof. by rewrite normal_form_of_lower, normal_form_lower, <-normal_form_of_lower. Qed.

(** What [normalise_header_name] returns is in normal form. *)
Lemma normalise_result s t : normalise_header_name s = Done t → normal_form true t = t.
Proof.
  unfold normalise_header_name. destruct (is_ascii s) eqn:Hs.
  - rewrite normalise_go_ascii by done. intros [= <-]. apply normal_form_idemp.
  - by rewrite normalise_go_fail.
Qed.

(** Header names are compared without regard to case: two ASCII names have
    the same normal form exactly when they differ only in the case of letters;
    normalising a normal form changes nothing; and a name that is not ASCII
    fails the task. *)
Theorem normalise_header_name_correct s t :
  (is_ascii s = true → is_ascii t = true →
   normalise_header_name s = normalise_header_name t ↔ to_ascii_lower s = to_ascii_lower t)
  ∧ (∀ n, normalise_header_name s = Done n →
     normalise_header_name n = Done n ∧ to_ascii_lower n = to_ascii_lower s)
  ∧ (is_ascii s = false → normalise_header_name s = Fail "assertion failed: self.is_ascii()").
Proof.
  unfold normalise_header_name. split_and!.
  - intros Hs Ht. rewrite !normalise_go_ascii by done. split.
    + intros [= E]. by rewrite <-(normal_form_lower true s), E, normal_form_lower.
    + intros E. f_equal. by rewrite (normal_form_of_lower _ s), E, <-normal_form_of_lower.
  - intros n E. destruct (is_ascii s) eqn:Hs; [|by rewrite normalise_go_fail in E].
    rewrite normalise_go_ascii in E by done. injection E as <-.
    rewrite normalise_go_ascii by (by rewrite normal_form_ascii).
    by rewrite normal_form_idemp, normal_form_lower.
  - apply normalise_go_fail.
Qed.

Lemma normalise_header_name_correct_witness :
  normalise_header_name (lit "FOO-bar") = normalise_header_name (lit "foo-BAR")
  ↔ to_ascii_lower (lit "FOO-bar") = to_ascii_lower (lit "foo-BAR").
Proof. apply normalise_header_name_correct; reflexivity. Defined.

(** ** Comma lists: facts *)

(** A piece a comma list can carry: no comma, no white space in front. *)
Definition comma_piece (w : str) : bool :=
  forallb (λ c, negb (c =? chr ",")) w
  && match w with c :: _ => negb (is_whitespace c) | [] => true end.

Lemma trim_left_piece w : comma_piece w = true → trim_left w = w ∧ trim_left (32 :: w) = w.
Proof.
  intros [_ Hw]%andb_true_iff. split; [|simpl]; (destruct w as [|c w]; [done|]);
    simpl; apply negb_true_iff in Hw; by rewrite Hw.
Qed.

(** Splitting inverts joining: a non-empty list of pieces without commas
    and without leading white space, joined with [comma_join], is split by
    [comma_split] into the same pieces. *)
Theorem comma_split_join ws :
  ws ≠ [] → forallb comma_piece ws = true → comma_split (comma_join ws) = ws.
Proof.
  intros Hne Hws. unfold comma_split, comma_join.
  assert (∀ w ws, forallb comma_piece (w :: ws) = true → ∀ p, (p = [] ∨ p = [32]) →
    trim_left <$> split_char (chr ",") (p ++ connect (lit ", ") (w :: ws)) = w :: ws) as Hgen.
  { clear. intros w ws. revert w. induction ws as [|w' ws IH]; intros w Hws p Hp;
      cbn [forallb] in Hws; apply andb_true_iff in Hws as [Hw Hws];
      pose proof (trim_left_piece w Hw) as [Ht1 Ht2];
      pose proof Hw as [Hnc _]%andb_true_iff.
    - simpl connect. rewrite split_char_id.
      + destruct Hp as [-> | ->]; simpl; congruence.
      + destruct Hp as [-> | ->]; simpl; by rewrite Hnc.
    - change (connect (lit ", ") (w :: w' :: ws))
        with (w ++ chr "," :: [32] ++ connect (lit ", ") (w' :: ws)).
      rewrite app_assoc, split_char_app.
      + cbn [fmap list_fmap]. rewrite (IH w' Hws [32]) by (by right).
        destruct Hp as [-> | ->]; simpl; congruence.
      + destruct Hp as [-> | ->]; simpl; by rewrite Hnc. }
  destruct ws as [|w ws]; [done|]. apply (Hgen w ws Hws []). by left.
Qed.

Lemma comma_split_join_witness :
  comma_split (comma_join [lit "en;q=0.8"; lit "en_AU"; lit "text/html"])
  = [lit "en;q=0.8"; lit "en_AU"; lit "text/html"].
Proof. apply comma_split_join; [discriminate | reflexivity]. Defined.

(** ** Quoted strings: facts *)

Lemma escape_app s t : escape (s ++ t) = escape s ++ escape t.
Proof. apply bind_app. Qed.

Lemma escape_ascii s : is_ascii (escape s) = is_ascii s.
Proof.
  induction s as [|c s IH]; [done|].
  change (escape (c :: s)) with ((if needs_escape c then [BACKSLASH; c] else [c]) ++ escape s).
  rewrite is_ascii_app, is_ascii_cons, IH. f_equal.
  destruct (needs_escape c); unfold is_ascii; simpl; by rewrite andb_true_r.
Qed.

Lemma unquote_escape s out rest :
  unquote_loop unquote.Normal out (escape s ++ rest) = unquote_loop unquote.Normal (out ++ s) rest.
Proof.
  revert out. induction s as [|c s IH]; intros out; [by rewrite app_nil_r|].
  change (escape (c :: s)) with ((if needs_escape c then [BACKSLASH; c] else [c]) ++ escape s).
  unfold needs_escape. destruct (Z.eqb_spec c BACKSLASH) as [->|H1]; simpl.
  - by rewrite IH, <-app_assoc.
  - destruct (Z.eqb_spec c DOUBLE_QUOTE) as [->|H2]; simpl.
    + by rewrite IH, <-app_assoc.
    + rewrite (proj2 (Z.eqb_neq c BACKSLASH) H1), (proj2 (Z.eqb_neq c DOUBLE_QUOTE) H2).
      by rewrite IH, <-app_assoc.
Qed.

Lemma quoted_str_len body :
  (str_len ([DOUBLE_QUOTE] ++ body ++ [DOUBLE_QUOTE]) <? 2)%nat = false.
Proof.
  apply Nat.ltb_ge. unfold str_len. rewrite !as_bytes_app, !length_app.
  change (length (as_bytes [DOUBLE_QUOTE])) with 1%nat. lia.
Qed.

Lemma unquote_quoted s : unquote_string (quoted_string s) = Done (Some s).
Proof.
  unfold unquote_string, quoted_string, push_quoted_string.
  rewrite app_nil_l, quoted_str_len. simpl. by rewrite unquote_escape.
Qed.

Lemma quoted_not_token s : is_token (quoted_string s) = false.
Proof. reflexivity. Qed.

(** Quoting is inverted by unquoting, for every string: [unquote_string]
    returns the string that was quoted, and [maybe_unquote_string] the string
    that [maybe_quoted_string] wrote as a token or as a quoted string. *)
Theorem unquote_inverts_quote s :
  unquote_string (quoted_string s) = Done (Some s)
  ∧ maybe_unquote_string (maybe_quoted_string s) = Done (Some s).
Proof.
  split; [apply unquote_quoted|]. unfold maybe_unquote_string, maybe_quoted_string.
  destruct (is_token s) eqn:Hs; [by rewrite Hs|].
  by rewrite quoted_not_token, unquote_quoted.
Qed.

(** The grammar of quoted strings: a quotation mark, characters other than the
    backslash and the mark or pairs of a backslash and a character, a mark. *)
Inductive qdtext : str → str → Prop :=
  | qd_nil : qdtext [] []
  | qd_char c t s : needs_escape c = false → qdtext t s → qdtext (c :: t) (c :: s)
  | qd_pair c t s : qdtext t s → qdtext (BACKSLASH :: c :: t) (c :: s).

Lemma unquote_normal_sound n t : ∀ out r,
  (length t ≤ n)%nat → unquote_loop unquote.Normal out t = Some r →
  ∃ body s, t = body ++ [DOUBLE_QUOTE] ∧ qdtext body s ∧ r = out ++ s.
Proof.
  revert t. induction n as [|n IH]; intros t out r Hn E.
  { by destruct t; simpl in Hn; [|lia]. }
  destruct t as [|c t]; [done|]. simpl in E, Hn.
  destruct (Z.eqb_spec c BACKSLASH) as [->|H1].
  - destruct t as [|c t]; [done|]. simpl in E, Hn.
    apply IH in E as (body & s & -> & Hq & ->); [|lia].
    exists (BACKSLASH :: c :: body), (c :: s). split; [done|]. split; [by constructor|].
    by rewrite <-app_assoc.
  - destruct (Z.eqb_spec c DOUBLE_QUOTE) as [->|H2].
    + destruct t as [|? t]; [|done]. destruct (decide (r = out)) as [->|]; [|simplify_eq/=].
      exists [], []. rewrite app_nil_r. repeat split; constructor.
    + apply IH in E as (body & s & -> & Hq & ->); [|lia].
      exists (c :: body), (c :: s). split; [done|]. split; [|by rewrite <-app_assoc].
      constructor; [|done]. unfold needs_escape. lia.
Qed.

Lemma unquote_normal_complete body s out :
  qdtext body s → unquote_loop unquote.Normal out (body ++ [DOUBLE_QUOTE]) = Some (out ++ s).
Proof.
  intros Hq. revert out. induction Hq as [|c t s Hc Hq IH|c t s Hq IH]; intros out; simpl.
  - by rewrite app_nil_r.
  - unfold needs_escape in Hc. apply orb_false_iff in Hc as [Hc1 Hc2].
    by rewrite Hc1, Hc2, IH, <-app_assoc.
  - by rewrite IH, <-app_assoc.
Qed.

(** [unquote_string] decides the grammar: it returns [Some s] exactly on
    the quoted strings that denote [s]; it returns [None] on every other string
    of two bytes or more, and fails the task on the strings shorter than that,
    which the capacity it reserves does not allow for. *)
Theorem unquote_string_correct t :
  (∀ s, unquote_string t = Done (Some s) ↔
     ∃ body, t = [DOUBLE_QUOTE] ++ body ++ [DOUBLE_QUOTE] ∧ qdtext body s)
  ∧ ((∃ o, unquote_string t = Done o) ↔ (2 ≤ str_len t)%nat)
  ∧ ((∃ e, unquote_string t = Fail e) ↔ (str_len t < 2)%nat).
Proof.
  unfold unquote_string. split; [intros s; split|].
  - case_match; [done|]. intros [= E]. destruct t as [|c t]; [done|].
    simpl in E. destruct (Z.eqb_spec c DOUBLE_QUOTE) as [->|]; [|done].
    apply (unquote_normal_sound (length t)) in E as (body & s' & -> & Hq & ->); [|lia].
    by exists body.
  - intros (body & -> & Hq). rewrite quoted_str_len. simpl. f_equal.
    by apply (unquote_normal_complete body s []).
  - destruct (Nat.ltb_spec (str_len t) 2); split; split; intros; try lia; naive_solver.
Qed.

(** ** The byte writers agree with the string functions *)

Lemma utf8_bytes_high c b : 128 ≤ c → b ∈ utf8_encode c → 128 ≤ b.
Proof.
  intros Hc Hb. unfold utf8_encode in Hb. repeat case_match; set_unfold in Hb;
    destruct_or?; subst; Z.to_euclidean_division_equations; lia.
Qed.

Definition escape_byte (b : u8) : list u8 :=
  (if needs_escape b then [BACKSLASH] else []) ++ [b].

Lemma escape_bytes c :
  utf8_encode c ≫= escape_byte = as_bytes (if needs_escape c then [BACKSLASH; c] else [c]).
Proof.
  destruct (Z.ltb_spec c 128) as [Hc|Hc].
  - rewrite utf8_ascii by done. unfold escape_byte. cbn. destruct (needs_escape c); cbn;
      by rewrite utf8_ascii.
  - assert (needs_escape c = false) as ->
      by (unfold needs_escape, BACKSLASH, DOUBLE_QUOTE; lia).
    unfold as_bytes. cbn [mbind list_bind]. rewrite app_nil_r.
    assert (∀ l, (∀ b, b ∈ l → 128 ≤ b) → l ≫= escape_byte = l) as Hid;
      [|apply Hid; intros b; by apply utf8_bytes_high].
    induction l as [|b l IH]; intros Hl; [done|]. cbn [mbind list_bind].
    assert (128 ≤ b) by (apply Hl; left). unfold escape_byte at 1.
    assert (needs_escape b = false) as ->
      by (unfold needs_escape, BACKSLASH, DOUBLE_QUOTE; lia).
    simpl. f_equal. apply IH. intros b' Hb'. apply Hl. by right.
Qed.

Lemma escape_as_bytes s : as_bytes s ≫= escape_byte = as_bytes (escape s).
Proof.
  induction s as [|c s IH]; [done|].
  change (escape (c :: s)) with ((if needs_escape c then [BACKSLASH; c] else [c]) ++ escape s).
  rewrite as_bytes_cons, bind_app, escape_bytes, IH, as_bytes_app. done.
Qed.

Lemma push_parameters_app s ps :
  push_parameters s ps
  = s ++ ps ≫= λ '(k, v), [chr ";"] ++ k ++ [chr "="] ++ maybe_quoted_string v.
Proof.
  revert s. induction ps as [|[k v] ps IH]; intros s; simpl; [by rewrite app_nil_r|].
  rewrite IH. unfold push_parameter, push_maybe_quoted_string, maybe_quoted_string, quoted_string,
    push_quoted_string. destruct (is_token v); simpl; by rewrite <-!app_assoc.
Qed.

Section WriterFacts.
Context {W : Type} `{Writer W}.

Lemma write_quoted_string_writes s :
  Writes (W:=W) (write_quoted_string s) (as_bytes (quoted_string s)).
Proof.
  unfold quoted_string, push_quoted_string. rewrite !as_bytes_app, <-escape_as_bytes. cbn [app].
  apply (Writes_bind _ _ [DOUBLE_QUOTE]); [apply Writes_write|].
  apply Writes_bind; [|apply Writes_write].
  apply Writes_for_each. intros b. unfold escape_byte, needs_escape.
  apply Writes_bind; auto with http.
Qed.

Lemma write_maybe_quoted_string_writes s :
  Writes (W:=W) (write_maybe_quoted_string s) (as_bytes (maybe_quoted_string s)).
Proof.
  unfold write_maybe_quoted_string, maybe_quoted_string. destruct (is_token s);
    [apply Writes_write | apply write_quoted_string_writes].
Qed.

Lemma write_parameters_writes ps s :
  ∃ bs, Writes (W:=W) (write_parameters ps) bs ∧ as_bytes (push_parameters s ps) = as_bytes s ++ bs.
Proof.
  exists (ps ≫= λ '(k, v), [chr ";"] ++ as_bytes k ++ [chr "="] ++ as_bytes (maybe_quoted_string v)).
  split.
  - apply Writes_for_each. intros [k v]. apply Writes_bind; [apply Writes_write|].
    apply Writes_bind; [apply Writes_write|]. apply Writes_bind; [apply Writes_write|].
    apply write_maybe_quoted_string_writes.
  - rewrite push_parameters_app, as_bytes_app. f_equal.
    induction ps as [|[k v] ps IH]; [done|]. cbn [mbind list_bind].
    rewrite as_bytes_app, IH. f_equal. by rewrite !as_bytes_app.
Qed.
End WriterFacts.
