(* ===== verification/HeaderIter.v ===== *)
(** * The byte iterator over a header value (src/libhttp/headers/mod.rs)

    [HeaderValueByteIterator] stops at the end of a header, unfolds continued
    lines and lets its clients put one byte back.  The file holds the iterator,
    its parsing methods, and what they do on any byte source: the remaining
    value [vs] and what follows the header, [rest], are read off the stream by
    [unfold_value], and each method is specified on them. *)

From S2P Require Import Prelude Strs Rfc2616 Io SerializationUtils.

(** ** The iterator *)
Inductive HeaderValueByteIteratorState : Type := Normal | GotLF | Finished.

Record HeaderValueByteIterator (R : Type) : Type := mkIter {
  it_reader : R;
  next_byte : option u8;
  at_start : bool;
  it_state : HeaderValueByteIteratorState
}.
Arguments mkIter {R}.
Arguments it_reader {R}.
Arguments next_byte {R}.
Arguments at_start {R}.
Arguments it_state {R}.

Inductive ConsumeCommaLWSResult : Type := CommaConsumed | EndOfValue | ErrCommaNotFound.
#[global] Instance ConsumeCommaLWSResult_eq_dec : EqDecision ConsumeCommaLWSResult.
Proof. solve_decision. Defined.

(** The local enumerations of the quoted-string readers. *)
Module quoted.
Inductive State : Type := Start | Normal | Escaping.
End quoted.

Definition set_reader {R} (r : R) (it : HeaderValueByteIterator R) :=
  mkIter r (next_byte it) (at_start it) (it_state it).
Definition set_next_byte {R} (o : option u8) (it : HeaderValueByteIterator R) :=
  mkIter (it_reader it) o (at_start it) (it_state it).
Definition set_at_start {R} (b : bool) (it : HeaderValueByteIterator R) :=
  mkIter (it_reader it) (next_byte it) b (it_state it).
Definition set_state {R} (s : HeaderValueByteIteratorState) (it : HeaderValueByteIterator R) :=
  mkIter (it_reader it) (next_byte it) (at_start it) s.

Definition is_lws (b : u8) : bool := (b =? SP) || (b =? HT).

Module Iter.

Section Operations.
Context {R : Type} `{Reader R} (fuel : nat).

Definition new (reader : R) : HeaderValueByteIterator R := mkIter reader None true Normal.

(** The byte to look at: the one put back, or the next one of the reader. *)
Definition take_byte : M (HeaderValueByteIterator R) (option u8) :=
  nb ← gets next_byte;
  match nb with
  | Some b => modify (set_next_byte None);; mret (Some b)
  | None => zoom it_reader set_reader (read_byte_util fuel)
  end.

(** One round of the loop of [next]. *)
Definition next_body (_ : unit) : M (HeaderValueByteIterator R) (unit + option u8) :=
  ob ← take_byte;
  match ob with
  | None => modify (set_state Finished);; break None
  | Some b =>
      st ← gets it_state;
      match st with
      | Normal =>
          if (b =? SP) || (b =? HT) then
            start ← gets at_start;
            if (start : bool) then continue tt else break (Some b)
          else if b =? CR then continue tt
          else if b =? LF then modify (set_state GotLF);; continue tt
          else modify (set_at_start false);; break (Some b)
      | GotLF =>
          if (b =? SP) || (b =? HT) then modify (set_state Normal);; break (Some b)
          else modify (set_next_byte (Some b));; modify (set_state Finished);; break None
      | Finished => fail "internal error: entered unreachable code"
      end
  end.

Definition next : M (HeaderValueByteIterator R) (option u8) :=
  st ← gets it_state;
  match st with
  | Finished => mret None
  | _ => loop fuel next_body tt
  end.

(** [assert_eq!(self.next_byte, None); self.next_byte = Some(b);] *)
Definition put_back (b : u8) : M (HeaderValueByteIterator R) unit :=
  nb ← gets next_byte;
  assert (bool_decide (nb = None)) "assertion failed: self.next_byte == None";;
  modify (set_next_byte (Some b)).

Definition lws_body (gobbled : bool) : M (HeaderValueByteIterator R) (bool + bool) :=
  ob ← next;
  match ob with
  | Some b => if (b =? SP) || (b =? HT) then continue true
              else put_back b;; break gobbled
  | None => break gobbled
  end.

Definition consume_lws : M (HeaderValueByteIterator R) bool := loop fuel lws_body false.

Definition consume_optional_lws : M (HeaderValueByteIterator R) unit :=
  consume_lws;; mret tt.

Definition verify_consumed : M (HeaderValueByteIterator R) bool :=
  consume_optional_lws;;
  ob ← next;
  mret (bool_decide (ob = None)).

Definition some_if_consumed {T} (t : T) : M (HeaderValueByteIterator R) (option T) :=
  c ← verify_consumed;
  mret (if (c : bool) then Some t else None).

Definition collect_body (out : str) : M (HeaderValueByteIterator R) (str + str) :=
  ob ← next;
  match ob with
  | None => break out
  | Some b => continue (out ++ [b])
  end.

Definition collect_to_str : M (HeaderValueByteIterator R) str := loop fuel collect_body [].

Definition consume_comma_lws : M (HeaderValueByteIterator R) ConsumeCommaLWSResult :=
  consume_optional_lws;;
  ob ← next;
  match ob with
  | Some b => if b =? chr "," then consume_optional_lws;; mret CommaConsumed
              else mret ErrCommaNotFound
  | None => mret EndOfValue
  end.

Definition quoted_body (so : quoted.State * str) :
    M (HeaderValueByteIterator R) ((quoted.State * str) + option str) :=
  let '(state, output) := so in
  ob ← next;
  match ob with
  | None => break None
  | Some b =>
      match state with
      | quoted.Start => if b =? DOUBLE_QUOTE then continue (quoted.Normal, output)
                        else break None
      | quoted.Normal =>
          if b =? BACKSLASH then continue (quoted.Escaping, output)
          else if b =? DOUBLE_QUOTE then break (Some output)
          else continue (quoted.Normal, output ++ [b])
      | quoted.Escaping => continue (quoted.Normal, output ++ [b])
      end
  end.

Definition read_quoted_string (already_opened : bool) :
    M (HeaderValueByteIterator R) (option str) :=
  loop fuel quoted_body (if already_opened then quoted.Normal else quoted.Start, []).

Definition token_body (output : str) : M (HeaderValueByteIterator R) (str + str) :=
  ob ← next;
  match ob with
  | None => break output
  | Some b =>
      if is_separator b then put_back b;; break output
      else if is_token_item b then continue (output ++ [b])
      else continue output
  end.

Definition read_token : M (HeaderValueByteIterator R) (option str) :=
  output ← loop fuel token_body [];
  mret (if bool_decide (output = []) then None else Some output).

(** The token branch of [read_token_or_quoted_string]: after a separator the
    loop goes on. *)
Definition token_body2 (output : str) : M (HeaderValueByteIterator R) (str + str) :=
  ob ← next;
  match ob with
  | None => break output
  | Some b =>
      if is_separator b then put_back b;; continue output
      else if is_token_item b then continue (output ++ [b])
      else continue output
  end.

Definition token_branch : M (HeaderValueByteIterator R) (option str) :=
  output ← loop fuel token_body2 [];
  mret (if bool_decide (output = []) then None else Some output).

(** Its quoted-string branch: [escaping] tells the two states apart. *)
Definition quoted_body2 (eo : bool * str) :
    M (HeaderValueByteIterator R) ((bool * str) + option str) :=
  let '(escaping, output) := eo in
  ob ← next;
  match ob with
  | None => break None
  | Some b =>
      if negb escaping && (b =? BACKSLASH) then continue (true, output)
      else if negb escaping && (b =? DOUBLE_QUOTE) then break (Some output)
      else continue (false, output ++ [b])
  end.

Definition quoted_branch : M (HeaderValueByteIterator R) (option str) :=
  loop fuel quoted_body2 (false, []).

Definition read_token_or_quoted_string : M (HeaderValueByteIterator R) (option str) :=
  ob ← next;
  match ob with
  | Some b => if b =? DOUBLE_QUOTE then quoted_branch
              else modify (set_next_byte (Some b));; token_branch
  | None => mret None
  end.

Definition read_parameter (already_read_semicolon : bool) :
    M (HeaderValueByteIterator R) (option (str * str)) :=
  ok ← (if already_read_semicolon then mret true
        else ob ← next; mret (bool_decide (ob = Some (chr ";"))));
  if negb ok then mret None
  else
    consume_optional_lws;;
    okey ← read_token;
    match okey with
    | None => mret None
    | Some key =>
        consume_optional_lws;;
        ob ← next;
        if bool_decide (ob = Some (chr "=")) then
          consume_optional_lws;;
          ovalue ← read_token_or_quoted_string;
          match ovalue with
          | None => mret None
          | Some value => consume_optional_lws;; mret (Some (key, value))
          end
        else mret None
    end.

Definition parameters_body (result : list (str * str)) :
    M (HeaderValueByteIterator R) (list (str * str) + option (list (str * str))) :=
  ob ← next;
  match ob with
  | Some b =>
      if b =? chr ";" then
        op ← read_parameter true;
        match op with
        | Some parameter => continue (result ++ [parameter])
        | None => break None
        end
      else put_back b;; break (Some result)
  | None => break (Some result)
  end.

Definition read_parameters : M (HeaderValueByteIterator R) (option (list (str * str))) :=
  loop fuel parameters_body [].

(** [for _ in iter { }] *)
Definition drain_body (_ : unit) : M (HeaderValueByteIterator R) (unit + unit) :=
  ob ← next;
  match ob with Some _ => continue tt | None => break tt end.

Definition drain : M (HeaderValueByteIterator R) unit := loop fuel drain_body tt.

End Operations.
End Iter.

(** ** The value of a header, read off the stream *)

(** [unfold_value start lf l]: the bytes of the value at the front of [l] and
    what follows the header.  Leading white space is dropped while [start],
    CR is dropped, LF ends the header unless white space follows ([lf]: the
    last byte was an LF). *)
Fixpoint unfold_value (start lf : bool) (l : list u8) : list u8 * list u8 :=
  match l with
  | [] => ([], [])
  | b :: l' =>
      if lf then
        if is_lws b then let '(v, r) := unfold_value start false l' in (b :: v, r)
        else ([], l)
      else if is_lws b then
        if start then unfold_value start false l'
        else let '(v, r) := unfold_value start false l' in (b :: v, r)
      else if b =? CR then unfold_value start false l'
      else if b =? LF then unfold_value start true l'
      else let '(v, r) := unfold_value false false l' in (b :: v, r)
  end.

(** The bytes the iterator has still to look at. *)
Definition stream {R} `{ByteSource R} (it : HeaderValueByteIterator R) : list u8 :=
  option_list (next_byte it) ++ pending (it_reader it).

(** [Reads n it vs rest]: [it] has still [vs] to yield, [rest] follows the
    header, and at most [n] bytes are left to look at. *)
Definition Reads {R} `{ByteSource R} (n : nat) (it : HeaderValueByteIterator R)
    (vs rest : list u8) : Prop :=
  source_inv (it_reader it) ∧ (length (stream it) ≤ n)%nat ∧
  match it_state it with
  | Normal => unfold_value (at_start it) false (stream it) = (vs, rest)
  | GotLF => unfold_value (at_start it) true (stream it) = (vs, rest)
  | Finished => vs = [] ∧ stream it = rest ∧ next_byte it = head rest
  end.

(** Where the iterator is right after it has yielded [b]. *)
Definition Yielded {R} (it : HeaderValueByteIterator R) (b : u8) : Prop :=
  next_byte it = None ∧ it_state it = Normal ∧ b ≠ CR ∧ b ≠ LF.

(** Bytes that belong to a value: neither CR nor LF. *)
Definition is_text (b : u8) : Prop := b ≠ CR ∧ b ≠ LF.

Lemma unfold_value_shape start lf l v r :
  unfold_value start lf l = (v, r) → Forall is_text v ∧ r `suffix_of` l.
Proof.
  revert start lf v r. induction l as [|b l IH]; intros start lf v r E; simpl in E.
  { simplify_eq. done. }
  assert (Hb : ∀ s v' r', unfold_value s false l = (v', r') → is_text b →
    Forall is_text (b :: v') ∧ r' `suffix_of` (b :: l)).
  { intros s v' r' E' Hb'. destruct (IH _ _ _ _ E'). split; [by constructor | by apply suffix_cons_r]. }
  assert (Hl : is_lws b = true → is_text b)
    by (unfold is_lws, is_text, SP, HT, CR, LF; lia).
  assert (Hs : ∀ s f, unfold_value s f l = (v, r) → Forall is_text v ∧ r `suffix_of` (b :: l)).
  { intros s f E'. destruct (IH _ _ _ _ E'). split; [done | by apply suffix_cons_r]. }
  destruct lf.
  - destruct (is_lws b) eqn:Hw.
    + destruct (unfold_value start false l) as [v' r'] eqn:E'. simplify_eq. eauto.
    + simplify_eq. done.
  - destruct (is_lws b) eqn:Hw.
    + destruct start; [eauto|].
      destruct (unfold_value false false l) as [v' r'] eqn:E'. simplify_eq. eauto.
    + destruct (Z.eqb_spec b CR); [eauto|]. destruct (Z.eqb_spec b LF); [eauto|].
      destruct (unfold_value false false l) as [v' r'] eqn:E'. simplify_eq. eapply Hb; [done|by split].
Qed.

(** Text without line ends stands for itself. *)
Lemma unfold_value_text v l :
  Forall is_text v →
  unfold_value false false (v ++ l)
  = (v ++ (unfold_value false false l).1, (unfold_value false false l).2).
Proof.
  intros Hv. induction Hv as [|b v [H1 H2] Hv IH]; simpl; [by destruct (unfold_value _ _ l)|].
  rewrite IH, (proj2 (Z.eqb_neq _ _) H1), (proj2 (Z.eqb_neq _ _) H2). by destruct (is_lws b).
Qed.

(** White space before the value is dropped. *)
Lemma unfold_value_ws ws l :
  forallb is_lws ws = true → unfold_value true false (ws ++ l) = unfold_value true false l.
Proof.
  induction ws as [|w ws IH]; [done|]. simpl. intros [Hw Hws]%andb_true_iff. rewrite Hw. auto.
Qed.

Lemma unfold_value_first b l :
  is_lws b = false → is_text b → unfold_value true false (b :: l) = unfold_value false false (b :: l).
Proof.
  intros Hb [H1 H2]. simpl. by rewrite Hb, (proj2 (Z.eqb_neq _ _) H1), (proj2 (Z.eqb_neq _ _) H2).
Qed.

(** A continuation line: the white space it starts with and the text. *)
Definition fold_bytes (f : u8 * list u8) : list u8 := CR :: LF :: f.1 :: f.2.
Definition fold_value (f : u8 * list u8) : list u8 := f.1 :: f.2.
Definition fold_ok (f : u8 * list u8) : Prop := is_lws f.1 = true ∧ Forall is_text f.2.

(** A line end and white space stand for the white space; any other line end
    ends the header. *)
Lemma unfold_value_folds (folds : list (u8 * list u8)) c rest :
  is_lws c = false → Forall fold_ok folds →
  unfold_value false false ((folds ≫= fold_bytes) ++ [CR; LF; c] ++ rest)
  = (folds ≫= fold_value, c :: rest).
Proof.
  intros Hc Hfolds. induction Hfolds as [|[w line] folds [Hw Hline] Hfolds IH].
  - simpl. by rewrite Hc.
  - cbn [mbind list_bind]. unfold fold_bytes at 1. rewrite <-!app_assoc. cbn [fst snd app] in *.
    change (unfold_value false false (CR :: LF :: ?l)) with (unfold_value false true l).
    cbn [unfold_value]. rewrite Hw, unfold_value_text, IH by done. done.
Qed.

Lemma unfold_value_message ws v folds c rest :
  forallb is_lws ws = true → is_lws c = false →
  match v with b :: _ => is_lws b = false | [] => folds = [] end →
  Forall is_text v → Forall fold_ok folds →
  unfold_value true false
    (ws ++ v ++ (folds ≫= fold_bytes) ++ [CR; LF; c] ++ rest)
  = (v ++ (folds ≫= fold_value), c :: rest).
Proof.
  intros Hws Hc Hv Hvt Hfolds. rewrite unfold_value_ws by done. destruct v as [|b v].
  - subst folds. simpl. by rewrite Hc.
  - change ((b :: v) ++ ?l) with (b :: (v ++ l)). rewrite unfold_value_first by (done || by apply Forall_cons in Hvt as [? _]).
    change (b :: v ++ ?l) with ((b :: v) ++ l). by rewrite unfold_value_text, unfold_value_folds.
Qed.

(** ** What the methods do on a byte source *)
Section Specs.
Context {R : Type} `{ByteSource R}.
Implicit Types it : HeaderValueByteIterator R.

Lemma new_Reads (r : R) n :
  source_inv r → (length (pending r) ≤ n)%nat →
  Reads n (Iter.new r) (unfold_value true false (pending r)).1
                       (unfold_value true false (pending r)).2.
Proof. intros Hi Hn. split; [done|]. split; [done|]. simpl. by destruct (unfold_value _ _ _). Qed.

Lemma read_source fuel (r : R) :
  source_inv r → (0 < fuel)%nat →
  ∃ r', source_inv r' ∧
    match pending r with
    | [] => read_byte_util fuel r = Done (None, r') ∧ pending r' = []
    | b :: l => read_byte_util fuel r = Done (Some b, r') ∧ pending r' = l
    end.
Proof.
  intros Hi Hf. pose proof (read_byte_util_sim fuel r (pending r)) as E.
  rewrite read_byte_util_list in E by done. specialize (E (conj Hi eq_refl)).
  destruct (read_byte_util fuel r) as [[o r']| |], (pending r) as [|b l]; try done;
    destruct E as [-> [[Hi' Hp] _]]; by exists r'.
Qed.

Lemma take_byte_spec fuel it :
  source_inv (it_reader it) → (0 < fuel)%nat →
  ∃ r', source_inv r' ∧
    match stream it with
    | [] => Iter.take_byte fuel it = Done (None, mkIter r' None (at_start it) (it_state it))
            ∧ pending r' = []
    | b :: l => Iter.take_byte fuel it = Done (Some b, mkIter r' None (at_start it) (it_state it))
                ∧ pending r' = l
    end.
Proof.
  intros Hi Hf. unfold Iter.take_byte, stream. destruct it as [r [b|] start st]; cbn [next_byte] in *.
  - exists r. split; [done|]. done.
  - destruct (read_source fuel r Hi Hf) as (r' & Hi' & Hr'). exists r'. split; [done|].
    simpl. destruct (pending r) as [|b l]; destruct Hr' as [Er Hp']; (split; [|done]);
      rewrite bind_gets; unfold zoom, set_reader; cbn [it_reader next_byte]; by rewrite Er.
Qed.

Lemma Reads_weaken n m it vs rest : (n ≤ m)%nat → Reads n it vs rest → Reads m it vs rest.
Proof. intros Hm (Hi & Hn & E). split; [done|]. split; [lia|done]. Qed.

(** What one round of the loop of [next] does to an unfinished iterator. *)
Lemma next_body_spec n fuel it vs rest :
  (0 < fuel)%nat → it_state it ≠ Finished → Reads n it vs rest →
  ∃ o it', Iter.next_body fuel tt it = Done (o, it') ∧
    match o with
    | inl _ => (0 < n)%nat ∧ it_state it' ≠ Finished ∧ Reads (pred n) it' vs rest
               ∧ at_start it' = at_start it
    | inr None => vs = [] ∧ Reads n it' [] rest ∧ it_state it' = Finished ∧ at_start it' = at_start it
    | inr (Some b) => ∃ vs', vs = b :: vs' ∧ (0 < n)%nat ∧ Reads (pred n) it' vs' rest ∧ Yielded it' b
        ∧ at_start it' = at_start it && is_lws b
    end.
Proof.
  intros Hf Hst (Hi & Hn & E). destruct (take_byte_spec fuel it Hi Hf) as (r' & Hi' & Ht).
  unfold Iter.next_body. destruct (stream it) as [|b l] eqn:Hs; destruct Ht as [Et Hp].
  { rewrite (bind_Done _ _ _ _ _ Et), bind_modify. eexists _, _. split; [done|].
    assert (vs = [] ∧ rest = []) as [-> ->] by (by destruct (it_state it); simplify_eq/=).
    split_and?; [done| |done|done]. split; [done|]. unfold stream; simpl. rewrite Hp.
    simpl. split; [lia|done]. }
  rewrite (bind_Done _ _ _ _ _ Et), bind_gets. clear Et. simpl in Hn.
  destruct it as [r nb start st]; cbn [at_start it_state] in *. clear Hi Hs.
  assert (HR : ∀ start' st' v, match st' with
      | Normal => unfold_value start' false l = (v, rest)
      | GotLF => unfold_value start' true l = (v, rest)
      | Finished => False
      end → Reads (pred n) (mkIter r' None start' st') v rest).
  { intros start' st' v Hv. split; [done|]. split; unfold stream; simpl; rewrite Hp; [lia|by destruct st']. }
  change ((b =? SP) || (b =? HT)) with (is_lws b).
  destruct st; cbn [unfold_value] in E; [| |done]; destruct (is_lws b) eqn:Hb.
  - rewrite bind_gets. cbn [at_start]. destruct start.
    + eexists (inl tt), _. split_and?; [done|lia|done|by apply HR|done].
    + destruct (unfold_value false false l) as [v r0] eqn:El. injection E as <- <-.
      eexists (inr (Some b)), _. split; [done|]. exists v. split_and?; [done|lia|by apply HR| |done].
      split_and!; try done; unfold is_lws, SP, HT, CR, LF in *; lia.
  - destruct (Z.eqb_spec b CR).
    { eexists (inl tt), _. split_and?; [done|lia|done|by apply HR|done]. }
    destruct (Z.eqb_spec b LF).
    { rewrite bind_modify. eexists (inl tt), _. split_and?; [done|lia|done|by apply HR|done]. }
    destruct (unfold_value false false l) as [v r0] eqn:El. injection E as <- <-.
    rewrite bind_modify. eexists (inr (Some b)), _. split; [done|]. exists v.
    split_and?; [done|lia|by apply HR| |by destruct start]. by split_and!.
  - destruct (unfold_value start false l) as [v r0] eqn:El. injection E as <- <-.
    rewrite bind_modify. eexists (inr (Some b)), _. split; [done|]. exists v.
    split_and?; [done|lia|by apply HR| |by destruct start].
    split_and!; try done; unfold is_lws, SP, HT, CR, LF in *; lia.
  - injection E as <- <-. rewrite !bind_modify. eexists (inr None), _. split; [done|].
    split_and?; [done| |done|done]. split; [done|]. unfold stream; simpl. rewrite Hp. done.
Qed.

Lemma next_loop_spec fuel fuel' : ∀ n it vs rest,
  (0 < fuel)%nat → (n < fuel')%nat → it_state it ≠ Finished → Reads n it vs rest →
  ∃ it', loop fuel' (Iter.next_body fuel) tt it = Done (head vs, it') ∧
    match vs with
    | [] => Reads n it' [] rest ∧ it_state it' = Finished ∧ at_start it' = at_start it
    | b :: vs' => (0 < n)%nat ∧ Reads (pred n) it' vs' rest ∧ Yielded it' b
        ∧ at_start it' = at_start it && is_lws b
    end.
Proof.
  induction fuel' as [|fuel' IH]; intros n it vs rest Hf Hn Hst HR; [lia|].
  destruct (next_body_spec n fuel it vs rest Hf Hst HR) as (o & it1 & E & Ho).
  destruct o as [[]|[b|]].
  - rewrite (loop_continue _ _ _ _ _ _ E). destruct Ho as (Hn0 & Hst1 & HR1 & <-).
    destruct (IH (pred n) it1 vs rest) as (it' & E' & Ho'); [lia|lia|done|done|].
    exists it'. split; [done|]. destruct vs as [|b vs'].
    + destruct Ho' as [? ?]. split; [|done]. eapply Reads_weaken; [|done]. lia.
    + destruct Ho' as (? & ? & ?). split; [lia|]. split; [|done]. eapply Reads_weaken; [|done]. lia.
  - rewrite (loop_break _ _ _ _ _ _ E). destruct Ho as (vs' & -> & ?). by exists it1.
  - rewrite (loop_break _ _ _ _ _ _ E). destruct Ho as (-> & ?). by exists it1.
Qed.

(** [next] yields the next byte of the value; at its end it stays put. *)
Lemma next_spec n fuel it vs rest :
  (n < fuel)%nat → Reads n it vs rest →
  ∃ it', Iter.next fuel it = Done (head vs, it') ∧
    match vs with
    | [] => Reads n it' [] rest ∧ it_state it' = Finished ∧ at_start it' = at_start it
    | b :: vs' => (0 < n)%nat ∧ Reads (pred n) it' vs' rest ∧ Yielded it' b
        ∧ at_start it' = at_start it && is_lws b
    end.
Proof.
  intros Hn HR. unfold Iter.next. rewrite bind_gets. destruct (it_state it) eqn:Hst.
  3: { destruct HR as (Hi & Hl & E). rewrite Hst in E. destruct E as [-> E]. exists it.
       split; [done|]. split_and?; [|done|done]. split; [done|]. split; [done|]. by rewrite Hst. }
  all: apply next_loop_spec; [lia|lia|congruence|done].
Qed.

(** [After n it it' vs rest]: from [it] the iterator has come to [it'], which
    has still [vs] to yield; white space is no longer dropped in [it'] if it
    no longer was in [it]. *)
Definition After (n : nat) it it' (vs rest : list u8) : Prop :=
  Reads n it' vs rest ∧ (at_start it = false → at_start it' = false).

Lemma After_refl n it vs rest : Reads n it vs rest → After n it it vs rest.
Proof. by split. Qed.

Lemma After_trans n it1 it2 it3 vs rest :
  (at_start it1 = false → at_start it2 = false) → After n it2 it3 vs rest → After n it1 it3 vs rest.
Proof. intros H12 [HR H23]. split; auto. Qed.

Lemma After_weaken n m it it' vs rest : (n ≤ m)%nat → After n it it' vs rest → After m it it' vs rest.
Proof. intros Hm [HR Hs]. split; [by eapply Reads_weaken | done]. Qed.

Lemma next_some n fuel it b vs rest :
  (n < fuel)%nat → Reads n it (b :: vs) rest →
  ∃ it', Iter.next fuel it = Done (Some b, it') ∧ After (pred n) it it' vs rest ∧ (0 < n)%nat
    ∧ Yielded it' b ∧ (is_lws b = false → at_start it' = false).
Proof.
  intros Hn HR. destruct (next_spec n fuel it _ rest Hn HR) as (it' & E & H0' & HR' & HY & Hs).
  exists it'. split_and?; try done; [split; [done|]|]; intros E'; rewrite Hs, E'; [done|].
  by rewrite andb_false_r.
Qed.

Lemma next_none n fuel it rest :
  (n < fuel)%nat → Reads n it [] rest →
  ∃ it', Iter.next fuel it = Done (None, it') ∧ After n it it' [] rest ∧ it_state it' = Finished.
Proof.
  intros Hn HR. destruct (next_spec n fuel it [] rest Hn HR) as (it' & E & HR' & Hst & Hs).
  exists it'. split_and?; try done. split; [done|]. by rewrite Hs.
Qed.

(** The assertions of the source hold: a byte is put back only when none is. *)
Lemma put_back_ok it b : Yielded it b → Iter.put_back b it = Done (tt, set_next_byte (Some b) it).
Proof. intros (E & _). unfold Iter.put_back. rewrite bind_gets, E. done. Qed.

Lemma set_next_byte_Reads n it b vs rest :
  Yielded it b → at_start it = false → Reads n it vs rest →
  Reads (S n) (set_next_byte (Some b) it) (b :: vs) rest.
Proof.
  intros (E & Est & H1 & H2) Hs (Hi & Hn & HR). unfold stream in *. rewrite E, Est, Hs in *.
  split; [done|]. split; [simpl in *; lia|]. simpl. rewrite Est, Hs. simpl in HR. rewrite HR.
  rewrite (proj2 (Z.eqb_neq _ _) H1), (proj2 (Z.eqb_neq _ _) H2). by destruct (is_lws b).
Qed.

(** Taking a byte and putting it back. *)
Lemma next_put_back n fuel it b vs rest :
  (n < fuel)%nat → Reads n it (b :: vs) rest → at_start it = false ∨ is_lws b = false →
  ∃ it1 it', Iter.next fuel it = Done (Some b, it1) ∧ Iter.put_back b it1 = Done (tt, it')
    ∧ it' = set_next_byte (Some b) it1 ∧ After n it it' (b :: vs) rest ∧ at_start it' = false.
Proof.
  intros Hn HR Hb. destruct (next_some n fuel it b vs rest Hn HR) as (it1 & E & [HR1 Hs1] & H0' & HY & Hs).
  assert (Hs' : at_start it1 = false) by (destruct Hb; auto).
  exists it1, (set_next_byte (Some b) it1). split_and?; auto using put_back_ok.
  split; [|done]. eapply Reads_weaken; [|by apply set_next_byte_Reads]. lia.
Qed.

(** *** Loops over the value

    The loops of the source run an automaton over the bytes of the value:
    [step a b] says whether to go on, or to stop with a result, putting [b]
    back or not; [fin] is the result at the end of the value. *)
Section Scan.
Context {A B : Type} (step : A → u8 → A + B * bool) (fin : A → B).

Fixpoint scan (a : A) (vs : list u8) : B * list u8 :=
  match vs with
  | [] => (fin a, [])
  | b :: vs' =>
      match step a b with
      | inl a' => scan a' vs'
      | inr (r, true) => (r, vs)
      | inr (r, false) => (r, vs')
      end
  end.

Definition scan_body (fuel : nat) (a : A) : M (HeaderValueByteIterator R) (A + B) :=
  ob ← Iter.next fuel;
  match ob with
  | None => break (fin a)
  | Some b =>
      match step a b with
      | inl a' => continue a'
      | inr (r, true) => Iter.put_back b;; break r
      | inr (r, false) => break r
      end
  end.

(** A byte that is put back is not lost: it is no white space, or the
    iterator is past the start of the value. *)
Definition scan_safe it (vs : list u8) : Prop :=
  (∀ a b r, step a b = inr (r, true) → is_lws b = false) ∨
  ((∀ a b a', step a b = inl a' → is_lws b = false) ∧
   (at_start it = false ∨ ∀ b vs', vs = b :: vs' → is_lws b = false)).

Lemma loop_scan fuel body rest fuel' :
  (∀ a it, body a it = scan_body fuel a it) → ∀ n it vs a,
  (n < fuel)%nat → (n < fuel')%nat → scan_safe it vs → Reads n it vs rest →
  ∃ it', loop fuel' body a it = Done ((scan a vs).1, it') ∧ After n it it' (scan a vs).2 rest
    ∧ ((∀ a b, ∃ a', step a b = inl a') → it_state it' = Finished).
Proof.
  intros Hbody. induction fuel' as [|fuel' IH]; intros n it vs a Hn Hn' Hsafe HR; [lia|].
  rewrite loop_S, bind_unfold, Hbody. unfold scan_body. destruct vs as [|b vs]; cbn [scan].
  { destruct (next_none n fuel it rest Hn HR) as (it1 & E & HA & Hf). exists it1.
    rewrite (bind_Done _ _ _ _ _ E). done. }
  destruct (next_some n fuel it b vs rest Hn HR) as (it1 & E & HA1 & H0' & HY & Hs1).
  destruct (step a b) as [a'|[r [|]]] eqn:Hstep.
  - rewrite (bind_Done _ _ _ _ _ E), Hstep. destruct HA1 as [HR1 Hk1].
    destruct (IH (pred n) it1 vs a') as (it' & E' & HA & Hf); [lia|lia| |done|].
    + destruct Hsafe as [Hsafe|[Hc Hst]]; [by left|]. right. split; [done|]. left. eauto.
    + exists it'. split_and?; [exact E'| |done]. eapply After_trans; [done|].
      eapply After_weaken; [|done]. lia.
  - destruct (next_put_back n fuel it b vs rest Hn HR) as (it2 & it' & E2 & E' & _ & HA & _).
    { destruct Hsafe as [Hsafe|[Hc [?|Hst]]]; eauto. }
    exists it'. rewrite (bind_Done _ _ _ _ _ E2), Hstep, (bind_Done _ _ _ _ _ E').
    split_and?; [done|done|]. intros Hall. destruct (Hall a b) as [? ?]. congruence.
  - exists it1. rewrite (bind_Done _ _ _ _ _ E), Hstep. split_and?; [done| |].
    + eapply After_weaken; [|done]. lia.
    + intros Hall. destruct (Hall a b) as [? ?]. congruence.
Qed.
End Scan.

Ltac scan_body_eq step :=
  intros; unfold scan_body; apply bind_ext; intros [?|] ?; unfold step; cbn beta iota;
  repeat case_match; simplify_eq; done.

(** *** Linear white space *)
Fixpoint drop_lws (vs : list u8) : list u8 :=
  match vs with
  | [] => []
  | b :: vs' => if is_lws b then drop_lws vs' else vs
  end.

Definition lws_step (g : bool) (b : u8) : bool + bool * bool :=
  if (b =? SP) || (b =? HT) then inl true else inr (g, true).

Lemma lws_scan g vs :
  scan lws_step id g vs = (match vs with b :: _ => g || is_lws b | [] => g end, drop_lws vs).
Proof.
  revert g. induction vs as [|b vs IH]; intros g; [done|]. simpl. unfold lws_step.
  change ((b =? SP) || (b =? HT)) with (is_lws b). destruct (is_lws b).
  - rewrite IH, orb_true_r. by destruct vs.
  - by rewrite orb_false_r.
Qed.

Lemma consume_lws_spec n fuel it vs rest :
  (n < fuel)%nat → Reads n it vs rest →
  ∃ it', Iter.consume_lws fuel it = Done (match vs with b :: _ => is_lws b | [] => false end, it')
    ∧ After n it it' (drop_lws vs) rest.
Proof.
  intros Hn HR. pose proof (lws_scan false vs) as E.
  destruct (loop_scan lws_step id fuel (Iter.lws_body fuel) rest fuel) with n it vs false as (it' & E' & HA & _);
    [scan_body_eq lws_step|done|done| |done|by rewrite E in *; exists it'].
  left. intros a b r. unfold lws_step. change ((b =? SP) || (b =? HT)) with (is_lws b).
  by destruct (is_lws b).
Qed.

Lemma consume_optional_lws_spec n fuel it vs rest :
  (n < fuel)%nat → Reads n it vs rest →
  ∃ it', Iter.consume_optional_lws fuel it = Done (tt, it') ∧ After n it it' (drop_lws vs) rest.
Proof.
  intros Hn HR. destruct (consume_lws_spec n fuel it vs rest Hn HR) as (it' & E & HA).
  exists it'. unfold Iter.consume_optional_lws. by rewrite (bind_Done _ _ _ _ _ E).
Qed.

Lemma verify_consumed_spec n fuel it vs rest :
  (n < fuel)%nat → Reads n it vs rest →
  ∃ it', Iter.verify_consumed fuel it = Done (bool_decide (drop_lws vs = []), it')
    ∧ After n it it' (tail (drop_lws vs)) rest.
Proof.
  intros Hn HR. destruct (consume_optional_lws_spec n fuel it vs rest Hn HR) as (it1 & E & HR1 & Hk1).
  unfold Iter.verify_consumed. rewrite (bind_Done _ _ _ _ _ E).
  destruct (drop_lws vs) as [|b vs'].
  - destruct (next_none n fuel it1 rest Hn HR1) as (it' & E' & HA & _). exists it'.
    rewrite (bind_Done _ _ _ _ _ E'). split; [done|]. by eapply After_trans.
  - destruct (next_some n fuel it1 b vs' rest Hn HR1) as (it' & E' & HA & _). exists it'.
    rewrite (bind_Done _ _ _ _ _ E'). split; [done|]. eapply After_trans; [done|].
    eapply After_weaken; [|done]. lia.
Qed.

Lemma some_if_consumed_spec {T} (t : T) n fuel it vs rest :
  (n < fuel)%nat → Reads n it vs rest →
  ∃ it', Iter.some_if_consumed fuel t it
         = Done (if bool_decide (drop_lws vs = []) then Some t else None, it')
    ∧ After n it it' (tail (drop_lws vs)) rest.
Proof.
  intros Hn HR. destruct (verify_consumed_spec n fuel it vs rest Hn HR) as (it' & E & HA).
  exists it'. unfold Iter.some_if_consumed. by rewrite (bind_Done _ _ _ _ _ E).
Qed.

Lemma consume_comma_lws_spec n fuel it vs rest :
  (n < fuel)%nat → Reads n it vs rest →
  ∃ it', match drop_lws vs with
    | [] => Iter.consume_comma_lws fuel it = Done (EndOfValue, it') ∧ After n it it' [] rest
    | b :: vs' =>
        if b =? chr ","
        then Iter.consume_comma_lws fuel it = Done (CommaConsumed, it')
             ∧ After (pred n) it it' (drop_lws vs') rest ∧ (0 < n)%nat
        else Iter.consume_comma_lws fuel it = Done (ErrCommaNotFound, it') ∧ After n it it' vs' rest
    end.
Proof.
  intros Hn HR. destruct (consume_optional_lws_spec n fuel it vs rest Hn HR) as (it1 & E & HR1 & Hk1).
  unfold Iter.consume_comma_lws. rewrite (bind_Done _ _ _ _ _ E).
  destruct (drop_lws vs) as [|b vs'].
  - destruct (next_none n fuel it1 rest Hn HR1) as (it' & E' & HA & _). exists it'.
    rewrite (bind_Done _ _ _ _ _ E'). split; [done|]. by eapply After_trans.
  - destruct (next_some n fuel it1 b vs' rest Hn HR1) as (it2 & E' & [HR2 Hk2] & H0' & _).
    rewrite (bind_Done _ _ _ _ _ E'). destruct (b =? chr ",").
    + destruct (consume_optional_lws_spec (pred n) fuel it2 vs' rest) as (it' & E3 & HA); [lia|done|].
      exists it'. rewrite (bind_Done _ _ _ _ _ E3). split; [done|]. split; [|lia].
      eapply After_trans; [|done]. auto.
    + exists it2. split; [done|]. eapply (After_weaken (pred n)); [lia|]. split; auto.
Qed.

(** *** Collecting the value *)
Definition collect_step (out : str) (b : u8) : str + str * bool := inl (out ++ [b]).

Lemma collect_scan out vs : scan collect_step id out vs = (out ++ vs, []).
Proof.
  revert out. induction vs as [|b vs IH]; intros out; simpl; [by rewrite app_nil_r|].
  by rewrite IH, <-app_assoc.
Qed.

Lemma collect_to_str_spec n fuel it vs rest :
  (n < fuel)%nat → Reads n it vs rest →
  ∃ it', Iter.collect_to_str fuel it = Done (vs, it') ∧ After n it it' [] rest
    ∧ it_state it' = Finished.
Proof.
  intros Hn HR. pose proof (collect_scan [] vs) as E.
  destruct (loop_scan collect_step id fuel (Iter.collect_body fuel) rest fuel) with n it vs (@nil Z)
    as (it' & E' & HA & Hf);
    [scan_body_eq collect_step|done|done|by left|done|].
  rewrite E in *. exists it'. split_and?; [done|done|]. apply Hf. intros o b. by eexists.
Qed.

Definition drain_step (_ : unit) (b : u8) : unit + unit * bool := inl tt.

Lemma drain_spec n fuel it vs rest :
  (n < fuel)%nat → Reads n it vs rest →
  ∃ it', Iter.drain fuel it = Done (tt, it') ∧ After n it it' [] rest ∧ it_state it' = Finished.
Proof.
  intros Hn HR. assert (E : scan drain_step (λ _, tt) tt vs = (tt, []))
    by (clear HR; induction vs as [|b vs IH]; [done|]; apply IH).
  destruct (loop_scan drain_step (λ _, tt) fuel (Iter.drain_body fuel) rest fuel) with n it vs tt
    as (it' & E' & HA & Hf);
    [scan_body_eq drain_step|done|done|by left|done|].
  rewrite E in *. exists it'. split_and?; [done|done|]. apply Hf. intros [] b. by eexists.
Qed.

(** *** Quoted strings *)
Definition quoted_step (so : quoted.State * str) (b : u8) :
    (quoted.State * str) + option str * bool :=
  let '(state, output) := so in
  match state with
  | quoted.Start => if b =? DOUBLE_QUOTE then inl (quoted.Normal, output) else inr (None, false)
  | quoted.Normal =>
      if b =? BACKSLASH then inl (quoted.Escaping, output)
      else if b =? DOUBLE_QUOTE then inr (Some output, false)
      else inl (quoted.Normal, output ++ [b])
  | quoted.Escaping => inl (quoted.Normal, output ++ [b])
  end.

Definition quoted_scan (so : quoted.State * str) (vs : list u8) : option str * list u8 :=
  scan quoted_step (λ _, None) so vs.

Lemma quoted_scan_escape s out more :
  quoted_scan (quoted.Normal, out) (escape s ++ DOUBLE_QUOTE :: more) = (Some (out ++ s), more).
Proof.
  revert out. induction s as [|c s IH]; intros out.
  { rewrite app_nil_r. done. }
  change (escape (c :: s)) with ((if needs_escape c then [BACKSLASH; c] else [c]) ++ escape s).
  unfold quoted_scan in *. unfold needs_escape.
  destruct (Z.eqb_spec c BACKSLASH) as [->|H1]; [|destruct (Z.eqb_spec c DOUBLE_QUOTE) as [->|H2]];
    cbn [orb app].
  - simpl. by rewrite IH, <-app_assoc.
  - simpl. by rewrite IH, <-app_assoc.
  - cbn [scan]. unfold quoted_step at 1.
    rewrite (proj2 (Z.eqb_neq _ _) H1), (proj2 (Z.eqb_neq _ _) H2). by rewrite IH, <-app_assoc.
Qed.

Lemma quoted_step_safe it vs : scan_safe quoted_step it vs.
Proof. left. intros [[] o] b r; simpl; repeat case_match; by intros [=]. Qed.

Lemma read_quoted_string_spec n fuel it vs rest opened :
  (n < fuel)%nat → Reads n it vs rest →
  let res := quoted_scan (if opened : bool then quoted.Normal else quoted.Start, []) vs in
  ∃ it', Iter.read_quoted_string fuel opened it = Done (res.1, it') ∧ After n it it' res.2 rest.
Proof.
  intros Hn HR.
  destruct (loop_scan quoted_step (λ _, None) fuel (Iter.quoted_body fuel) rest fuel) with n it vs
    (if opened : bool then quoted.Normal else quoted.Start, @nil Z) as (it' & E' & HA & _);
    [|done|done|apply quoted_step_safe|done|by exists it'].
  intros [st o] ?. unfold Iter.quoted_body, scan_body. apply bind_ext. intros [b|] t; [|done].
  unfold quoted_step. by repeat case_match.
Qed.

(** The inner loop of [read_token_or_quoted_string] is [read_quoted_string]
    after the opening quote. *)
Lemma quoted_branch_loop fuel fuel' e out it :
  loop fuel' (Iter.quoted_body2 fuel) (e, out) it
  = loop fuel' (Iter.quoted_body fuel) (if e : bool then quoted.Escaping else quoted.Normal, out) it.
Proof.
  revert e out it. induction fuel' as [|fuel' IH]; intros e out it; [done|].
  rewrite !loop_S. unfold Iter.quoted_body2, Iter.quoted_body. rewrite !bind_assoc.
  apply bind_ext. intros [b|] t; [|by destruct e].
  destruct e; cbn [negb andb]; [apply (IH false)|].
  destruct (b =? BACKSLASH); [apply (IH true)|].
  destruct (b =? DOUBLE_QUOTE); [done|]. apply (IH false).
Qed.

Lemma quoted_branch_eq fuel it : Iter.quoted_branch fuel it = Iter.read_quoted_string fuel true it.
Proof. apply (quoted_branch_loop fuel fuel false []). Qed.

(** *** Tokens *)
Definition token_step (output : str) (b : u8) : str + str * bool :=
  if is_separator b then inr (output, true)
  else if is_token_item b then inl (output ++ [b]) else inl output.

(** The bytes before the first separator, and the rest. *)
Fixpoint split_token (vs : list u8) : list u8 * list u8 :=
  match vs with
  | [] => ([], [])
  | b :: vs' => if is_separator b then ([], vs)
                else let '(t, r) := split_token vs' in
                     (if is_token_item b then b :: t else t, r)
  end.

Lemma token_scan out vs :
  scan token_step id out vs = (out ++ (split_token vs).1, (split_token vs).2).
Proof.
  revert out. induction vs as [|b vs IH]; intros out; simpl; [by rewrite app_nil_r|].
  unfold token_step at 1. destruct (is_separator b); [by rewrite app_nil_r|].
  destruct (split_token vs) as [t r] eqn:Et. destruct (is_token_item b); rewrite IH; [|done].
  simpl. by rewrite <-app_assoc.
Qed.

Lemma split_token_app tok more :
  Forall (λ b, is_token_item b = true) tok →
  match more with b :: _ => is_separator b = true | [] => True end →
  split_token (tok ++ more) = (tok, more).
Proof.
  intros Ht Hm. induction tok as [|b tok IH].
  - destruct more as [|b more]; [done|]. simpl. by rewrite Hm.
  - apply Forall_cons in Ht as [Hb Ht]. simpl.
    rewrite (token_item_not_separator b), IH by done. by rewrite Hb.
Qed.

Definition non_empty (s : str) : option str := if bool_decide (s = []) then None else Some s.

Lemma lws_separator b : is_lws b = true → is_separator b = true.
Proof. unfold is_lws. intros H1. apply orb_true_iff in H1 as [->%Z.eqb_eq| ->%Z.eqb_eq]; reflexivity. Qed.

Lemma read_token_spec n fuel it vs rest :
  (n < fuel)%nat → Reads n it vs rest →
  (at_start it = false ∨ ∀ b vs', vs = b :: vs' → is_lws b = false) →
  ∃ it', Iter.read_token fuel it = Done (non_empty (split_token vs).1, it')
    ∧ After n it it' (split_token vs).2 rest.
Proof.
  intros Hn HR Hst. pose proof (token_scan [] vs) as E.
  destruct (loop_scan token_step id fuel (Iter.token_body fuel) rest fuel) with n it vs (@nil Z)
    as (it' & E' & HA & _); [scan_body_eq token_step|done|done| |done|].
  - right. split; [|done]. intros a b a'. unfold token_step.
    destruct (is_separator b) eqn:Hb; [done|]. intros _. destruct (is_lws b) eqn:Hl; [|done].
    by rewrite lws_separator in Hb.
  - rewrite E in *. exists it'. unfold Iter.read_token. by rewrite (bind_Done _ _ _ _ _ E').
Qed.

(** A token at the front of the value: past it, no white space is dropped. *)
Lemma token_body_scan fuel a it : Iter.token_body fuel a it = scan_body token_step id fuel a it.
Proof. revert a it. scan_body_eq token_step. Qed.

Lemma read_token_started n fuel it tok more rest :
  (n < fuel)%nat → tok ≠ [] → Forall (λ b, is_token_item b = true) tok →
  match more with b :: _ => is_separator b = true | [] => True end →
  Reads n it (tok ++ more) rest →
  ∃ it', Iter.read_token fuel it = Done (Some tok, it') ∧ Reads n it' more rest
    ∧ at_start it' = false.
Proof.
  intros Hn Ht0 Ht Hm HR. destruct tok as [|b tok]; [done|]. apply Forall_cons in Ht as [Hb Ht].
  assert (Hsep : is_separator b = false) by (by apply token_item_not_separator).
  destruct (next_some n fuel it b (tok ++ more) rest Hn HR) as (it1 & E & [HR1 _] & H0' & _ & Hs1).
  assert (Hs : at_start it1 = false).
  { apply Hs1. destruct (is_lws b) eqn:Hl; [|done]. by rewrite lws_separator in Hsep. }
  destruct fuel as [|f]; [lia|].
  destruct (loop_scan token_step id (S f) (Iter.token_body (S f)) rest f) with (pred n) it1 (tok ++ more) [b]
    as (it' & E' & [HR' Hk'] & _); [apply token_body_scan|lia|lia| |done|].
  { right. split; [|by left]. intros a c a'. unfold token_step.
    destruct (is_separator c) eqn:Hc; [done|]. intros _. destruct (is_lws c) eqn:Hl; [|done].
    by rewrite lws_separator in Hc. }
  rewrite token_scan, split_token_app in * by done. cbn [fst snd] in *.
  exists it'. split_and?; [|by eapply Reads_weaken; [|done]; lia|auto].
  unfold Iter.read_token. rewrite bind_unfold, (loop_continue _ _ _ _ [b] it1), E'; [done|].
  unfold Iter.token_body. rewrite (bind_Done _ _ _ _ _ E). cbn beta iota. by rewrite Hsep, Hb.
Qed.

(** *** Tokens or quoted strings

    The token branch puts a separator back and goes on: the next [next]
    returns the same separator.  So the loop only ends on a value without
    separators. *)
Lemma token_loop_end fuel rest fuel' : ∀ n it vs out,
  (n < fuel)%nat → (n < fuel')%nat → Reads n it vs rest → existsb is_separator vs = false →
  ∃ it', loop fuel' (Iter.token_body2 fuel) out it = Done (out ++ (split_token vs).1, it')
    ∧ After n it it' [] rest.
Proof.
  induction fuel' as [|fuel' IH]; intros n it vs out Hn Hn' HR Hsep; [lia|].
  destruct vs as [|b vs].
  { destruct (next_none n fuel it rest Hn HR) as (it1 & E & HA & _). exists it1. split; [|done].
    eapply loop_break. unfold Iter.token_body2. rewrite (bind_Done _ _ _ _ _ E). simpl.
    by rewrite app_nil_r. }
  simpl in Hsep. apply orb_false_iff in Hsep as [Hb Hsep].
  destruct (next_some n fuel it b vs rest Hn HR) as (it1 & E & [HR1 Hk1] & H0' & _).
  destruct (IH (pred n) it1 vs (if is_token_item b then out ++ [b] else out)) as (it' & E' & HA);
    [lia|lia|done|done|].
  exists it'. split; [|eapply After_trans; [done|]; eapply After_weaken; [|done]; lia].
  rewrite (loop_continue _ _ _ _ (if is_token_item b then out ++ [b] else out) it1), E'.
  - cbn [split_token]. rewrite Hb. destruct (split_token vs) as [t r], (is_token_item b); [|done].
    simpl. by rewrite <-app_assoc.
  - unfold Iter.token_body2. rewrite (bind_Done _ _ _ _ _ E). cbn beta iota. rewrite Hb.
    by destruct (is_token_item b).
Qed.

Lemma token_loop_stuck fuel rest fuel' : ∀ n it vs out,
  (n < fuel)%nat → Reads n it vs rest → existsb is_separator vs = true →
  (at_start it = false ∨ ∀ b vs', vs = b :: vs' → is_lws b = false) →
  loop fuel' (Iter.token_body2 fuel) out it = Diverge.
Proof.
  induction fuel' as [|fuel' IH]; intros n it vs out Hn HR Hsep Hst; [done|].
  destruct vs as [|b vs]; [done|]. destruct (is_separator b) eqn:Hb.
  - destruct (next_put_back n fuel it b vs rest Hn HR) as (it1 & it' & E & E' & _ & [HR' _] & Hs);
      [by destruct Hst; eauto|].
    rewrite (loop_continue _ _ _ _ out it').
    + eapply IH; [done|done|by simpl; rewrite Hb|by left].
    + unfold Iter.token_body2. rewrite (bind_Done _ _ _ _ _ E). cbn beta iota. rewrite Hb.
      by rewrite (bind_Done _ _ _ _ _ E').
  - simpl in Hsep. rewrite Hb in Hsep. cbn [orb] in Hsep.
    destruct (next_some n fuel it b vs rest Hn HR) as (it1 & E & [HR1 Hk1] & H0' & _ & Hs1).
    rewrite (loop_continue _ _ _ _ (if is_token_item b then out ++ [b] else out) it1).
    + eapply IH; [|done|done|left]; [lia|]. apply Hs1. destruct (is_lws b) eqn:Hl; [|done].
      by rewrite lws_separator in Hb.
    + unfold Iter.token_body2. rewrite (bind_Done _ _ _ _ _ E). cbn beta iota. rewrite Hb.
      by destruct (is_token_item b).
Qed.

(** What [read_token_or_quoted_string] does with the value [vs]. *)
Definition token_or_quoted (vs : list u8) : res (option str * list u8) :=
  match vs with
  | [] => Done (None, [])
  | b :: vs' =>
      if b =? DOUBLE_QUOTE then Done (quoted_scan (quoted.Normal, []) vs')
      else if existsb is_separator vs then Diverge
      else Done (non_empty (split_token vs).1, [])
  end.

Lemma read_token_or_quoted_string_spec n fuel it vs rest :
  (n < fuel)%nat → Reads n it vs rest →
  (at_start it = false ∨ ∀ b vs', vs = b :: vs' → is_lws b = false) →
  match token_or_quoted vs with
  | Done (o, vs') => ∃ it', Iter.read_token_or_quoted_string fuel it = Done (o, it')
                     ∧ After n it it' vs' rest
  | _ => Iter.read_token_or_quoted_string fuel it = Diverge
  end.
Proof.
  intros Hn HR Hst. unfold token_or_quoted, Iter.read_token_or_quoted_string.
  destruct vs as [|b vs].
  { destruct (next_none n fuel it rest Hn HR) as (it1 & E & HA & _). exists it1.
    by rewrite (bind_Done _ _ _ _ _ E). }
  destruct (Z.eqb_spec b DOUBLE_QUOTE) as [->|Hb].
  - destruct (next_some n fuel it _ vs rest Hn HR) as (it1 & E & [HR1 Hk1] & H0' & _).
    destruct (read_quoted_string_spec (pred n) fuel it1 vs rest true) as (it' & E' & HA); [lia|done|].
    destruct (quoted_scan (quoted.Normal, []) vs) as [o vs']. exists it'.
    rewrite (bind_Done _ _ _ _ _ E). split; [by rewrite <-quoted_branch_eq in E'|].
    eapply After_trans; [done|]. eapply After_weaken; [|done]. lia.
  - destruct (next_put_back n fuel it b vs rest Hn HR) as (it1 & it' & E & _ & -> & [HR' Hk'] & Hs);
      [by destruct Hst; eauto|].
    rewrite (bind_Done _ _ _ _ _ E). cbn beta iota. rewrite (proj2 (Z.eqb_neq _ _) Hb), bind_modify.
    unfold Iter.token_branch. destruct (existsb is_separator (b :: vs)) eqn:Hsep.
    + rewrite bind_unfold. erewrite token_loop_stuck; [done|done|done|done|by left].
    + destruct (token_loop_end fuel rest fuel n _ _ [] Hn Hn HR' Hsep) as (it2 & E2 & HA).
      exists it2. rewrite (bind_Done _ _ _ _ _ E2). split; [done|]. by eapply After_trans.
Qed.

(** *** Parameters, against the same parser on the value alone *)
Definition value_next : M (list u8) (option u8) := λ vs, Done (head vs, tail vs).
Definition value_token : M (list u8) (option str) :=
  λ vs, Done (non_empty (split_token vs).1, (split_token vs).2).

Definition value_parameter : M (list u8) (option (str * str)) :=
  modify drop_lws;;
  okey ← value_token;
  match okey with
  | None => mret None
  | Some key =>
      modify drop_lws;;
      ob ← value_next;
      if bool_decide (ob = Some (chr "=")) then
        modify drop_lws;;
        ovalue ← token_or_quoted;
        match ovalue with
        | None => mret None
        | Some value => modify drop_lws;; mret (Some (key, value))
        end
      else mret None
  end.

Definition value_parameters_body (result : list (str * str)) :
    M (list u8) (list (str * str) + option (list (str * str))) :=
  ob ← value_next;
  match ob with
  | Some b =>
      if b =? chr ";" then
        op ← value_parameter;
        match op with
        | Some parameter => continue (result ++ [parameter])
        | None => break None
        end
      else modify (cons b);; break (Some result)
  | None => break (Some result)
  end.

(** An iterator past the start of its value, and the value. *)
Definition at_value n rest it (vs : list u8) : Prop := Reads n it vs rest ∧ at_start it = false.

Lemma After_at_value n it it' vs rest :
  at_start it = false → After n it it' vs rest → at_value n rest it' vs.
Proof. intros H1 [H2 H3]. split; auto. Qed.

Section ParameterSim.
Context (n fuel : nat) (rest : list u8) (Hfuel : (n < fuel)%nat).

Lemma next_sim : msim (at_value n rest) (at_value n rest) (Iter.next fuel) value_next.
Proof using Hfuel.
  intros it vs [HR Hs]. unfold value_next. destruct vs as [|b vs].
  - destruct (next_none n fuel it rest Hfuel HR) as (it' & -> & HA & _).
    split; [done | by eapply After_at_value].
  - destruct (next_some n fuel it b vs rest Hfuel HR) as (it' & -> & HA & _).
    split; [done|]. eapply After_at_value, After_weaken; [done| |done]. lia.
Qed.

Lemma consume_optional_lws_sim :
  msim (at_value n rest) (at_value n rest) (Iter.consume_optional_lws fuel) (modify drop_lws).
Proof using Hfuel.
  intros it vs [HR Hs]. destruct (consume_optional_lws_spec n fuel it vs rest Hfuel HR) as (it' & -> & HA).
  split; [done | by eapply After_at_value].
Qed.

Lemma read_token_sim : msim (at_value n rest) (at_value n rest) (Iter.read_token fuel) value_token.
Proof using Hfuel.
  intros it vs [HR Hs]. destruct (read_token_spec n fuel it vs rest Hfuel HR) as (it' & -> & HA);
    [by left|]. split; [done | by eapply After_at_value].
Qed.

Lemma read_token_or_quoted_string_sim :
  msim (at_value n rest) (at_value n rest) (Iter.read_token_or_quoted_string fuel) token_or_quoted.
Proof using Hfuel.
  intros it vs [HR Hs].
  pose proof (read_token_or_quoted_string_spec n fuel it vs rest Hfuel HR (or_introl Hs)) as E.
  destruct (token_or_quoted vs) as [[o vs']| |] eqn:Et.
  - destruct E as (it' & -> & HA). split; [done | by eapply After_at_value].
  - unfold token_or_quoted in Et. by repeat case_match.
  - by rewrite E.
Qed.

Lemma read_parameter_sim :
  msim (at_value n rest) (at_value n rest) (Iter.read_parameter fuel true) value_parameter.
Proof using Hfuel.
  unfold Iter.read_parameter, value_parameter.
  intros it vs HP. rewrite bind_ret. cbn [negb]. revert it vs HP.
  eapply msim_bind; [apply consume_optional_lws_sim|intros _].
  eapply msim_bind; [apply read_token_sim|intros [key|]]; [|apply msim_ret].
  eapply msim_bind; [apply consume_optional_lws_sim|intros _].
  eapply msim_bind; [apply next_sim|intros ob]. apply msim_if; intros _; [|apply msim_ret].
  eapply msim_bind; [apply consume_optional_lws_sim|intros _].
  eapply msim_bind; [apply read_token_or_quoted_string_sim|intros [v|]]; [|apply msim_ret].
  eapply msim_bind; [apply consume_optional_lws_sim|intros _]. apply msim_ret.
Qed.

Lemma read_parameters_sim :
  msim (at_value n rest) (at_value n rest)
    (Iter.read_parameters fuel) (loop fuel value_parameters_body []).
Proof using Hfuel.
  apply msim_loop. intros result. unfold Iter.parameters_body, value_parameters_body.
  intros it vs [HR Hs]. destruct vs as [|b vs].
  { pose proof (next_sim it [] (conj HR Hs)) as E. unfold value_next in *. simpl in E.
    destruct (Iter.next fuel it) as [[o it']| |] eqn:En; [|done|done]. destruct E as [-> HQ].
    rewrite (bind_Done _ _ _ _ _ En). done. }
  unfold value_next. rewrite (bind_Done _ _ (b :: vs) (Some b) vs) by done.
  destruct (b =? chr ";") eqn:Hb.
  - pose proof (next_sim it (b :: vs) (conj HR Hs)) as E. unfold value_next in E. simpl in E.
    destruct (Iter.next fuel it) as [[o it']| |] eqn:En; [|done|done]. destruct E as [-> HQ].
    rewrite (bind_Done _ _ _ _ _ En). cbn beta iota. rewrite Hb. clear HR En. revert it' vs HQ.
    eapply msim_bind; [apply read_parameter_sim|]. intros [p|]; apply msim_ret.
  - destruct (next_put_back n fuel it b vs rest Hfuel HR) as (it1 & it' & E & E' & _ & HA & Hs'); [by left|].
    rewrite (bind_Done _ _ _ _ _ E). cbn beta iota. rewrite Hb, (bind_Done _ _ _ _ _ E').
    rewrite bind_modify. split; [done|]. by split; [apply HA|].
Qed.
End ParameterSim.
End Specs.

(** ** Parameters on the value *)

(** Text that survives the wire: ASCII without CR and LF (the readers turn
    each byte into a character, so the encoding of any other character does
    not come back as that character). *)
Definition ascii_text (s : str) : Prop := Forall (λ c, 0 ≤ c < 128 ∧ is_text c) s.

(** Parameters that can be read back: names are tokens, values are not empty,
    and every value but the last is written as a quoted string. *)
Fixpoint params_ok (ps : list (str * str)) : Prop :=
  match ps with
  | [] => True
  | (k, v) :: ps' =>
      (k ≠ [] ∧ Forall (λ b, is_token_item b = true) k) ∧ (v ≠ [] ∧ ascii_text v)
      ∧ (ps' ≠ [] → is_token v = false) ∧ params_ok ps'
  end.

Definition param_text (kv : str * str) : str :=
  [chr ";"] ++ kv.1 ++ [chr "="] ++ maybe_quoted_string kv.2.

Lemma drop_lws_token k more :
  k ≠ [] → Forall (λ b, is_token_item b = true) k → drop_lws (k ++ more) = k ++ more.
Proof.
  destruct k as [|b k]; [done|]. intros _ [Hb _]%Forall_cons. simpl.
  destruct (is_lws b) eqn:Hl; [|done].
  apply lws_separator in Hl. by rewrite token_item_not_separator in Hl.
Qed.

Lemma token_no_separator k :
  Forall (λ b, is_token_item b = true) k → existsb is_separator k = false.
Proof.
  induction 1 as [|b k Hb Hk IH]; [done|]. simpl. by rewrite token_item_not_separator.
Qed.

Lemma value_parameter_read k v more :
  k ≠ [] → Forall (λ b, is_token_item b = true) k → v ≠ [] → ascii_text v →
  (is_token v = true → more = []) → drop_lws more = more →
  value_parameter (k ++ [chr "="] ++ maybe_quoted_string v ++ more) = Done (Some (k, v), more).
Proof.
  intros Hk0 Hk Hv0 Hv Hq Hmore. unfold value_parameter.
  rewrite bind_modify, drop_lws_token by done. unfold value_token at 1.
  rewrite bind_unfold, split_token_app; [|done|reflexivity]. cbn [fst snd].
  unfold non_empty. rewrite bool_decide_false by done.
  rewrite bind_modify. cbn [drop_lws app is_lws]. change (is_lws (chr "=")) with false. cbn iota.
  unfold value_next. rewrite bind_unfold. cbn [head tail]. rewrite bool_decide_true by done.
  rewrite bind_modify. unfold maybe_quoted_string. destruct (is_token v) eqn:Ht.
  - rewrite (Hq eq_refl) in *.
    assert (Hvt : Forall (λ b, is_token_item b = true) v).
    { apply is_token_Forall; [|done]. eapply Forall_impl; [exact Hv|]. simpl. lia. }
    rewrite drop_lws_token by done. rewrite app_nil_r, bind_unfold.
    unfold token_or_quoted. destruct v as [|b v]; [done|].
    destruct (Z.eqb_spec b DOUBLE_QUOTE) as [->|]; [by apply Forall_cons in Hvt as [? _]|].
    assert (Es := split_token_app (b :: v) [] Hvt I). rewrite app_nil_r in Es.
    by rewrite token_no_separator, Es.
  - unfold quoted_string, push_quoted_string. cbn [app drop_lws is_lws].
    change (is_lws DOUBLE_QUOTE) with false. cbn iota. rewrite bind_unfold. unfold token_or_quoted.
    rewrite Z.eqb_refl, <-app_assoc. cbn [app]. rewrite quoted_scan_escape.
    rewrite bind_modify, Hmore. done.
Qed.

(** What may follow the parameters: nothing, or, when all the values are
    written as quoted strings, the comma of a list. *)
Definition params_end (ps : list (str * str)) (more : list u8) : Prop :=
  match more with
  | [] => True
  | b :: _ => b = chr "," ∧ Forall (λ kv, is_token kv.2 = false) ps
  end.

Lemma value_parameters_read fuel ps more result :
  params_ok ps → params_end ps more → (length ps < fuel)%nat →
  loop fuel value_parameters_body result ((ps ≫= param_text) ++ more) = Done (Some (result ++ ps), more).
Proof.
  revert fuel result. induction ps as [|[k v] ps IH]; intros fuel result Hok Hend Hf;
    (destruct fuel as [|fuel]; [simpl in Hf; lia|]).
  { rewrite app_nil_r. eapply loop_break. destruct more as [|b more]; [done|].
    by destruct Hend as [-> _]. }
  destruct Hok as ((Hk0 & Hk) & (Hv0 & Hv) & Hq & Hok).
  rewrite (loop_continue _ _ _ _ (result ++ [(k, v)]) ((ps ≫= param_text) ++ more)).
  - rewrite IH; [by rewrite <-app_assoc | done | | simpl in Hf; lia].
    destruct more; [done|]. destruct Hend as [-> Hall]. split; [done|].
    by apply Forall_cons in Hall as [_ ?].
  - assert (E : (((k, v) :: ps) ≫= param_text) ++ more
                = chr ";" :: (k ++ [chr "="] ++ maybe_quoted_string v ++ ((ps ≫= param_text) ++ more)))
      by (cbn [mbind list_bind]; unfold param_text; cbn [fst snd app]; by rewrite <-!app_assoc).
    rewrite E. unfold value_parameters_body, value_next. rewrite bind_unfold. cbn [head tail].
    rewrite Z.eqb_refl, bind_unfold. rewrite value_parameter_read; try done.
    + intros Ht. destruct ps as [|kv ps]; [|by rewrite Hq in Ht].
      destruct more; [done|]. destruct Hend as [_ [Hv' _]%Forall_cons]. simpl in Hv'. by rewrite Ht in Hv'.
    + destruct ps as [|[k' v'] ps]; [|done]. destruct more; [done|]. by destruct Hend as [-> _].
Qed.

(** ** Fuel: more fuel does not change a result *)
Section Mono.
Context {R : Type} `{Reader R} (fuel fuel' : nat) (Hle : (fuel ≤ fuel')%nat).

Lemma read_byte_util_mle : mle (read_byte_util (R:=R) fuel) (read_byte_util fuel').
Proof using Hle. apply mle_loop; [done|]. intros []. apply mle_refl. Qed.

Lemma next_mle : mle (Iter.next (R:=R) fuel) (Iter.next fuel').
Proof using Hle.
  apply mle_bind; [apply mle_refl|]. intros []; [| |apply mle_refl];
    (apply mle_loop; [done|]; intros []; apply mle_bind; [|intros; apply mle_refl];
     apply mle_bind; [apply mle_refl|]; intros [b|]; [apply mle_refl|];
     apply mle_zoom, read_byte_util_mle).
Qed.

Lemma read_token_or_quoted_string_mle :
  mle (Iter.read_token_or_quoted_string (R:=R) fuel) (Iter.read_token_or_quoted_string fuel').
Proof using Hle.
  apply mle_bind; [apply next_mle|]. intros [b|]; [|apply mle_refl]. apply mle_if.
  - apply mle_loop; [done|]. intros [e o]. apply mle_bind; [apply next_mle|intros; apply mle_refl].
  - apply mle_bind; [apply mle_refl|]. intros _. apply mle_bind; [|intros; apply mle_refl].
    apply mle_loop; [done|]. intros o. apply mle_bind; [apply next_mle|intros; apply mle_refl].
Qed.
End Mono.

(** ** Safety: the assertions of the source hold *)
Section Safe.
Context {R : Type} `{ByteSource R} (fuel : nat).
Implicit Types it : HeaderValueByteIterator R.

Definition iter_ok it : Prop := source_inv (it_reader it).
(** After [next]: if a byte was returned, none is waiting. *)
Definition next_ok (o : option u8) it : Prop := iter_ok it ∧ (o ≠ None → next_byte it = None).

Lemma take_byte_safe st :
  safe (λ it, iter_ok it ∧ it_state it = st) (Iter.take_byte fuel)
    (λ o it, iter_ok it ∧ it_state it = st ∧ next_byte it = None).
Proof.
  intros it [Hi Hst]. unfold Iter.take_byte. rewrite bind_gets. destruct (next_byte it) as [b|] eqn:Hb.
  - rewrite bind_modify. by split_and!.
  - unfold zoom. pose proof (read_byte_util_sim fuel (it_reader it) (pending (it_reader it))) as E.
    specialize (E (conj Hi eq_refl)).
    destruct (read_byte_util fuel (it_reader it)) as [[o r]|e|] eqn:Er; [|destruct fuel|done].
    + destruct (read_byte_util fuel (pending (it_reader it))) as [[o' l]| |]; try done.
      destruct E as (-> & [[Hr _] _]). by split_and!.
    + done.
    + rewrite read_byte_util_list in E by lia. by destruct (pending (it_reader it)).
Qed.

Lemma next_body_safe :
  safe (λ it, iter_ok it ∧ it_state it ≠ Finished) (Iter.next_body fuel tt)
    (λ r it, match r with
             | inl _ => iter_ok it ∧ it_state it ≠ Finished
             | inr o => next_ok o it
             end).
Proof.
  intros it [Hi Hst]. pose proof (take_byte_safe (it_state it) it (conj Hi eq_refl)) as E.
  unfold Iter.next_body. destruct (Iter.take_byte fuel it) as [[o it1]|e|] eqn:Et; [|done|by rewrite bind_unfold, Et].
  rewrite (bind_Done _ _ _ _ _ Et). destruct E as (Hi1 & Hst1 & Hn1).
  destruct o as [b|]; [|by rewrite bind_modify]. rewrite bind_gets, Hst1.
  unfold next_ok, iter_ok. destruct (it_state it) eqn:Es; [| |done].
  - destruct ((b =? SP) || (b =? HT)); [rewrite bind_gets; destruct (at_start it1)|];
      [by simpl; rewrite Hst1 | done |].
    destruct (b =? CR); [by simpl; rewrite Hst1|]. by destruct (b =? LF).
  - by destruct ((b =? SP) || (b =? HT)).
Qed.

Lemma next_safe : safe iter_ok (Iter.next fuel) next_ok.
Proof.
  intros it Hi. unfold Iter.next. rewrite bind_gets. destruct (it_state it) eqn:Hst.
  3: done.
  all: apply (safe_loop fuel (Iter.next_body fuel) (λ _ it, iter_ok it ∧ it_state it ≠ Finished));
    [intros []; apply next_body_safe | split; [done|congruence]].
Qed.

(** A method that starts with [next]. *)
Lemma bind_next_safe {A} (k : option u8 → M (HeaderValueByteIterator R) A) Q :
  safe iter_ok (k None) Q →
  (∀ b, safe (λ it, iter_ok it ∧ next_byte it = None) (k (Some b)) Q) →
  safe iter_ok (Iter.next fuel ≫= k) Q.
Proof.
  intros HN HS. eapply safe_bind; [apply next_safe|].
  intros [b|] it [Hi Hn]; [apply HS; split; auto | by apply HN].
Qed.

Lemma put_back_safe b :
  safe (λ it, iter_ok it ∧ next_byte it = None) (Iter.put_back b) (λ _, iter_ok).
Proof. intros it [Hi Hn]. unfold Iter.put_back. rewrite bind_gets, Hn. done. Qed.

(** The end of a path through a method: put a byte back or not, and return. *)
Lemma put_back_ret_safe {A} b (a : A) :
  safe (λ it, iter_ok it ∧ next_byte it = None) (Iter.put_back b;; mret a) (λ _, iter_ok).
Proof. eapply safe_bind; [apply put_back_safe|]. intros u. by apply safe_ret. Qed.

Lemma ret_safe {A} (a : A) (φ : HeaderValueByteIterator R → Prop) :
  safe (λ it, iter_ok it ∧ φ it) (mret a) (λ _, iter_ok).
Proof. apply safe_ret. intros it Hit. apply Hit. Qed.

Lemma ret_safe' {A} (a : A) : safe iter_ok (mret a) (λ _, iter_ok).
Proof. by apply safe_ret. Qed.

(** A loop that keeps [iter_ok]. *)
Lemma iter_loop_safe {A B} n (body : A → M (HeaderValueByteIterator R) (A + B)) a :
  (∀ a, safe iter_ok (body a) (λ _, iter_ok)) → safe iter_ok (loop n body a) (λ _, iter_ok).
Proof.
  intros Hb. apply (safe_loop n body (λ _, iter_ok)). intros a'.
  eapply safe_weaken; [| |apply Hb]; [done|]. by intros [].
Qed.

Lemma iter_bind_safe {A B} (m : M (HeaderValueByteIterator R) A) (k : A → M _ B) :
  safe iter_ok m (λ _, iter_ok) → (∀ a, safe iter_ok (k a) (λ _, iter_ok)) →
  safe iter_ok (m ≫= k) (λ _, iter_ok).
Proof. intros Hm Hk. by eapply safe_bind. Qed.

Lemma drop_next_byte {A} (m : M (HeaderValueByteIterator R) A) Q φ :
  safe iter_ok m Q → safe (λ it, iter_ok it ∧ φ it) m Q.
Proof. apply safe_weaken; [intros it Hit; apply Hit|done]. Qed.
End Safe.

(** Walk through a method that is made of [next], [put_back] and returns. *)
Ltac iter_safe :=
  intros; repeat first
    [ apply ret_safe' | apply ret_safe | apply put_back_ret_safe
    | apply bind_next_safe; [|intros ?] | apply iter_loop_safe; intros ?
    | apply iter_bind_safe; [|intros ?] | apply safe_if; intros _
    | match goal with |- safe _ (match ?x with _ => _ end) _ => destruct x end ].

Section SafeMethods.
Context {R : Type} `{ByteSource R} (fuel : nat).
Abbreviation safely m := (safe (iter_ok (R:=R)) m (λ _, iter_ok)).

Lemma consume_lws_safe : safely (Iter.consume_lws fuel).
Proof. iter_safe. Qed.

Lemma consume_optional_lws_safe : safely (Iter.consume_optional_lws fuel).
Proof. apply iter_bind_safe; [apply consume_lws_safe|]. iter_safe. Qed.

Lemma verify_consumed_safe : safely (Iter.verify_consumed fuel).
Proof. apply iter_bind_safe; [apply consume_optional_lws_safe|]. iter_safe. Qed.

Lemma some_if_consumed_safe {T} (t : T) : safely (Iter.some_if_consumed fuel t).
Proof. apply iter_bind_safe; [apply verify_consumed_safe|]. iter_safe. Qed.

Lemma collect_to_str_safe : safely (Iter.collect_to_str fuel).
Proof. iter_safe. Qed.

Lemma drain_safe : safely (Iter.drain fuel).
Proof. iter_safe. Qed.

Lemma consume_comma_lws_safe : safely (Iter.consume_comma_lws fuel).
Proof.
  apply iter_bind_safe; [apply consume_optional_lws_safe|]. intros _. iter_safe.
  apply drop_next_byte, iter_bind_safe; [apply consume_optional_lws_safe|]. iter_safe.
Qed.

Lemma read_quoted_string_safe opened : safely (Iter.read_quoted_string fuel opened).
Proof. apply iter_loop_safe. intros [st o]. iter_safe. Qed.

Lemma read_token_safe : safely (Iter.read_token fuel).
Proof. iter_safe. Qed.

Lemma read_token_or_quoted_string_safe : safely (Iter.read_token_or_quoted_string fuel).
Proof.
  apply bind_next_safe; [iter_safe|]. intros b. apply safe_if; intros _.
  - apply drop_next_byte. apply iter_loop_safe. intros [e o]. iter_safe.
  - apply drop_next_byte, iter_bind_safe; [by intros it Hit|]. intros _. iter_safe.
Qed.

Lemma read_parameter_safe semi : safely (Iter.read_parameter fuel semi).
Proof.
  apply iter_bind_safe; [iter_safe|]. intros ok. apply safe_if; intros _; [iter_safe|].
  apply iter_bind_safe; [apply consume_optional_lws_safe|]. intros _.
  apply iter_bind_safe; [apply read_token_safe|]. intros [key|]; [|iter_safe].
  apply iter_bind_safe; [apply consume_optional_lws_safe|]. intros _.
  apply iter_bind_safe; [eapply safe_weaken; [| |apply next_safe]; [done|by intros ? ? []]|].
  intros ob. apply safe_if; intros _; [|iter_safe].
  apply iter_bind_safe; [apply consume_optional_lws_safe|]. intros _.
  apply iter_bind_safe; [apply read_token_or_quoted_string_safe|]. intros [v|]; [|iter_safe].
  apply iter_bind_safe; [apply consume_optional_lws_safe|]. iter_safe.
Qed.

Lemma read_parameters_safe : safely (Iter.read_parameters fuel).
Proof.
  apply iter_loop_safe. intros result. apply bind_next_safe; [iter_safe|]. intros b.
  apply safe_if; intros _; [|iter_safe].
  apply drop_next_byte, iter_bind_safe; [apply read_parameter_safe|]. iter_safe.
Qed.

(** A token that has been read is ASCII. *)
Lemma read_token_ascii : rets (Iter.read_token (R:=R) fuel)
  (λ o, match o with Some s => is_ascii s = true | None => True end).
Proof.
  apply (rets_bind _ _ (λ s, is_ascii s = true)).
  - apply (rets_loop fuel _ (λ s, is_ascii s = true)); [|done]. intros s Hs. unfold Iter.token_body.
    apply rets_seq. intros [b|]; [|by apply rets_ret].
    destruct (is_separator b); [apply rets_seq; intros _; by apply rets_ret|].
    destruct (is_token_item b) eqn:Hb; apply rets_ret; [|done].
    rewrite is_ascii_app, Hs. apply is_ascii_Forall. repeat constructor. by apply token_item_ascii.
  - intros s Hs. apply rets_ret. by case_bool_decide.
Qed.
End SafeMethods.

(** The same for a method that calls the others. *)
Ltac value_safe :=
  intros; repeat first
    [ apply collect_to_str_safe | apply read_token_safe | apply read_parameters_safe
    | apply read_quoted_string_safe | apply some_if_consumed_safe | apply consume_comma_lws_safe
    | apply drain_safe
    | apply ret_safe' | apply ret_safe | apply bind_next_safe; [|intros ?]
    | apply iter_loop_safe; intros ? | apply iter_bind_safe; [|intros ?]
    | apply safe_if; intros _
    | match goal with |- safe _ (match ?x with _ => _ end) _ => destruct x end
    | apply drop_next_byte ].

(** ** The theorems *)

(** The value of a header folded over several lines, on any byte source:
    white space before the value is dropped, each line end followed by white
    space stands for that white space, and the iteration stops at the line end
    that is not: [collect_to_str] returns the value, the first byte of the
    next line is in [next_byte] and nothing after it has been read. *)
Theorem collect_to_str_folded {R} `{ByteSource R} (r : R) fuel ws v (folds : list (u8 * list u8)) c rest :
  source_inv r → (length (pending r) < fuel)%nat →
  pending r = ws ++ v ++ (folds ≫= fold_bytes) ++ [CR; LF; c] ++ rest →
  forallb is_lws ws = true → is_lws c = false →
  match v with b :: _ => is_lws b = false | [] => folds = [] end →
  Forall is_text v → Forall fold_ok folds →
  ∃ it, Iter.collect_to_str fuel (Iter.new r)
        = Done (v ++ (folds ≫= fold_value), it)
    ∧ next_byte it = Some c ∧ pending (it_reader it) = rest.
Proof.
  intros Hi Hf Hp Hws Hc Hv Hvt Hfolds.
  pose proof (new_Reads r (length (pending r)) Hi ltac:(lia)) as HR.
  rewrite (f_equal (unfold_value true false) Hp), unfold_value_message in HR by done.
  destruct (collect_to_str_spec _ fuel _ _ _ Hf HR) as (it' & E' & HA & Hfin).
  exists it'. split; [done|]. destruct HA as [(_ & _ & HE) _]. rewrite Hfin in HE. destruct HE as (_ & HE & Hnb).
  unfold stream in HE. rewrite Hnb in *. by simplify_eq/=.
Qed.

Lemma collect_to_str_folded_witness :
  ∃ it, Iter.collect_to_str 40 (Iter.new (mkTcp [lit " te"; lit "xt"; [CR]; [LF; SP]; lit "more"; [CR; LF]; lit "Host"] [] None))
        = Done (lit "text" ++ [(SP, lit "more")] ≫= fold_value, it)
    ∧ next_byte it = Some (chr "H") ∧ pending (it_reader it) = lit "ost".
Proof.
  eapply (collect_to_str_folded _ 40 [SP] (lit "text") [(SP, lit "more")] (chr "H") (lit "ost"));
    try reflexivity.
  - vm_compute. repeat constructor; discriminate.
  - vm_compute. lia.
  - vm_compute. repeat constructor; discriminate.
  - repeat constructor; vm_compute; discriminate.
Defined.

(** C28. The assertions that a byte is put back only when none is waiting
    (marked in the source as still to be verified) and the [unreachable!()] of
    [next] never fail: whatever the fuel, the state of the iterator and the
    bytes of the source, none of the methods fails the task. *)
Theorem iterator_never_fails {R} `{ByteSource R} (it : HeaderValueByteIterator R) fuel e :
  source_inv (it_reader it) →
  Iter.next fuel it ≠ Fail e ∧ Iter.consume_lws fuel it ≠ Fail e
  ∧ Iter.consume_comma_lws fuel it ≠ Fail e ∧ Iter.verify_consumed fuel it ≠ Fail e
  ∧ Iter.collect_to_str fuel it ≠ Fail e
  ∧ (∀ b, Iter.read_quoted_string fuel b it ≠ Fail e) ∧ Iter.read_token fuel it ≠ Fail e
  ∧ Iter.read_token_or_quoted_string fuel it ≠ Fail e
  ∧ (∀ b, Iter.read_parameter fuel b it ≠ Fail e) ∧ Iter.read_parameters fuel it ≠ Fail e.
Proof.
  intros Hi.
  assert (Hs : ∀ A (m : M (HeaderValueByteIterator R) A) Q, safe iter_ok m Q → m it ≠ Fail e).
  { intros A m Q Hm E. specialize (Hm it Hi). by rewrite E in Hm. }
  split_and?; intros; eapply Hs; auto using next_safe, consume_lws_safe, consume_comma_lws_safe,
    verify_consumed_safe, collect_to_str_safe, read_quoted_string_safe, read_token_safe,
    read_token_or_quoted_string_safe, read_parameter_safe, read_parameters_safe.
Qed.

Lemma iterator_never_fails_witness :
  Iter.read_parameters 30 (mkIter (mkTcp [lit ";a="; [DOUBLE_QUOTE]; lit "b c"] [] None) None false Normal)
  ≠ Fail "assertion failed: self.next_byte == None".
Proof.
  apply (iterator_never_fails (R:=TcpStream)). vm_compute. repeat constructor; discriminate.
Defined.

(** A token followed by a separator sends [read_token_or_quoted_string]
    into an endless loop: with the separator put back the loop goes round
    again instead of stopping, so the call returns for no amount of fuel. *)
Theorem read_token_or_quoted_string_diverges {R} `{ByteSource R}
    (it : HeaderValueByteIterator R) n tok sep more rest fuel :
  Reads n it (tok ++ sep :: more) rest → at_start it = false →
  tok ≠ [] → Forall (λ b, is_token_item b = true) tok → is_separator sep = true →
  Iter.read_token_or_quoted_string fuel it = Diverge.
Proof.
  intros HR Hs Ht0 Ht Hsep.
  eapply mle_Diverge; [apply (read_token_or_quoted_string_mle fuel (S (max fuel n))); lia|].
  pose proof (read_token_or_quoted_string_spec n (S (max fuel n)) it _ rest ltac:(lia) HR (or_introl Hs)) as E.
  unfold token_or_quoted in E. destruct tok as [|b tok]; [done|]. cbn [app] in E.
  apply Forall_cons in Ht as [Hb Ht].
  destruct (Z.eqb_spec b DOUBLE_QUOTE) as [->|Hne]; [done|].
  replace (existsb is_separator (b :: tok ++ sep :: more)) with true in E; [done|].
  symmetry. apply existsb_exists. exists sep. split; [|done].
  right. apply in_or_app. right. by left.
Qed.

(** The value of [Content-Type: text/html;charset=utf-8;q=1] at [utf-8]. *)
Lemma read_token_or_quoted_string_diverges_witness :
  Iter.read_token_or_quoted_string 1000
    (mkIter (lit "utf-8;q=1" ++ [CR; LF; CR; LF]) None false Normal) = Diverge.
Proof.
  eapply (read_token_or_quoted_string_diverges (R:=list u8) _ 13 (lit "utf-8") (chr ";") (lit "q=1") [CR; LF]);
    try reflexivity; [|discriminate|repeat constructor].
  split; [exact I|]. split; [vm_compute; lia|reflexivity].
Defined.

(** A string written as a quoted string is read back by
    [read_quoted_string], and the iterator is then right behind it. *)
Theorem quoted_string_read_back {R} `{ByteSource R} (it : HeaderValueByteIterator R) n fuel s more rest :
  (n < fuel)%nat → is_ascii s = true →
  Reads n it (as_bytes (quoted_string s) ++ more) rest →
  ∃ it', Iter.read_quoted_string fuel false it = Done (Some s, it') ∧ Reads n it' more rest.
Proof.
  intros Hn Hs HR.
  assert (Hq : as_bytes (quoted_string s) = DOUBLE_QUOTE :: escape s ++ [DOUBLE_QUOTE]).
  { change (quoted_string s) with ([DOUBLE_QUOTE] ++ escape s ++ [DOUBLE_QUOTE]).
    rewrite !as_bytes_app, (as_bytes_ascii (escape s)) by (by rewrite escape_ascii). done. }
  rewrite Hq in HR. cbn [app] in HR. rewrite <-app_assoc in HR.
  destruct (read_quoted_string_spec n fuel it _ rest false Hn HR) as (it' & E & HA).
  exists it'. cbn zeta in *.
  assert (Eq : quoted_scan (quoted.Start, []) (DOUBLE_QUOTE :: escape s ++ [DOUBLE_QUOTE] ++ more) = (Some s, more))
    by apply (quoted_scan_escape s [] more).
  rewrite Eq in *. split; [done|]. apply HA.
Qed.

Lemma quoted_string_read_back_witness :
  ∃ it', Iter.read_quoted_string 20 false
      (mkIter (as_bytes (quoted_string (lit "a\b")) ++ lit ", c" ++ [CR; LF; CR]) None true Normal)
    = Done (Some (lit "a\b"), it') ∧ Reads (R:=list u8) 12 it' (lit ", c") [CR].
Proof.
  apply (quoted_string_read_back (R:=list u8)); [lia|reflexivity|].
  split; [exact I|]. split; [vm_compute; lia|reflexivity].
Defined.

Lemma param_text_bytes ps :
  params_ok ps → as_bytes (push_parameters [] ps) = ps ≫= param_text.
Proof.
  intros Hok. rewrite push_parameters_app. cbn [app].
  induction ps as [|[k v] ps IH]; [done|]. destruct Hok as ((_ & Hk) & (_ & Hv) & _ & Hok).
  cbn [mbind list_bind]. rewrite as_bytes_app, (IH Hok). f_equal.
  apply as_bytes_ascii. unfold param_text. cbn [fst snd]. rewrite !is_ascii_app.
  assert (is_ascii k = true) as ->.
  { apply is_ascii_Forall. eapply Forall_impl; [exact Hk|]. intros b. apply token_item_ascii. }
  assert (Hva : is_ascii v = true).
  { apply is_ascii_Forall. eapply Forall_impl; [exact Hv|]. simpl. lia. }
  unfold maybe_quoted_string. destruct (is_token v); [by rewrite Hva|].
  unfold quoted_string, push_quoted_string. by rewrite !is_ascii_app, escape_ascii, Hva.
Qed.

Lemma unfold_value_length start lf l : (length (unfold_value start lf l).1 ≤ length l)%nat.
Proof.
  revert start lf. induction l as [|b l IH]; intros start lf; [done|]. simpl.
  pose proof (IH start false). pose proof (IH start true). pose proof (IH false false).
  repeat case_match; simplify_eq/=; lia.
Qed.

Lemma Reads_length {R} `{ByteSource R} n (it : HeaderValueByteIterator R) vs rest :
  Reads n it vs rest → (length vs ≤ n)%nat.
Proof.
  intros (_ & Hn & E). pose proof (unfold_value_length (at_start it) false (stream it)) as H1.
  pose proof (unfold_value_length (at_start it) true (stream it)) as H2.
  destruct (it_state it); [rewrite E in H1 | rewrite E in H2 | destruct E as [-> _]]; simpl in *; lia.
Qed.

Lemma param_text_length ps : (length ps ≤ length (ps ≫= param_text))%nat.
Proof.
  induction ps as [|[k v] ps IH]; [done|]. cbn [mbind list_bind length].
  rewrite length_app. unfold param_text at 1. simpl. lia.
Qed.

Lemma read_parameters_read {R} `{ByteSource R} (it : HeaderValueByteIterator R) n fuel ps more rest :
  (n < fuel)%nat → params_ok ps → params_end ps more → at_start it = false →
  Reads n it ((ps ≫= param_text) ++ more) rest →
  ∃ it', Iter.read_parameters fuel it = Done (Some ps, it') ∧ at_value n rest it' more.
Proof.
  intros Hn Hok Hend Hs HR. pose proof (Reads_length _ _ _ _ HR) as Hl.
  rewrite length_app in Hl. pose proof (param_text_length ps).
  eapply (msim_Done _ _ _ _ it ((ps ≫= param_text) ++ more) (Some ps) more (read_parameters_sim n fuel rest Hn)).
  - by split.
  - rewrite value_parameters_read; [done|done|done|lia].
Qed.

(** Parameters written by [push_parameters] are read back in order by
    [read_parameters], up to the end of the value, if the names are tokens,
    the values are ASCII text, not empty, and only the last one is a token
    (before another parameter a bare token would be followed by [;]). *)
Theorem parameters_read_back {R} `{ByteSource R} (it : HeaderValueByteIterator R) n fuel ps rest :
  (n < fuel)%nat → params_ok ps → at_start it = false →
  Reads n it (as_bytes (push_parameters [] ps)) rest →
  ∃ it', Iter.read_parameters fuel it = Done (Some ps, it') ∧ Reads n it' [] rest.
Proof.
  intros Hn Hok Hs HR. rewrite param_text_bytes, <-(app_nil_r (ps ≫= param_text)) in HR by done.
  destruct (read_parameters_read it n fuel ps [] rest Hn Hok I Hs HR) as (it' & E & [HR' _]).
  by exists it'.
Qed.

Lemma parameters_read_back_witness :
  let ps := [(lit "title", lit "a b"); (lit "charset", lit "utf-8")] in
  ∃ it', Iter.read_parameters 40
      (mkIter (as_bytes (push_parameters [] ps) ++ [CR; LF; CR]) None false Normal)
    = Done (Some ps, it') ∧ Reads (R:=list u8) 35 it' [] [CR].
Proof.
  apply (parameters_read_back (R:=list u8)); [lia| |reflexivity|].
  - vm_compute. repeat first [discriminate | reflexivity | exact I | intros x | constructor].
    by destruct x.
  - split; [exact I|]. split; [vm_compute; lia|reflexivity].
Defined.
