(* ===== verification/HeaderValues.v ===== *)
(** * Typed header values (src/libhttp/headers)

    [HeaderConvertible] is the trait of the same name; its instances are the
    types of header values the library has.  [WireFormat] is what a type
    promises to the header parser and to the writers: what it writes is its
    [http_value], and reading that back gives the value.  Comma lists have the
    promise when their elements have it in the form [ListItem]. *)

From S2P Require Import Prelude Strs Rfc2616 Method Io SerializationUtils HeaderIter.

Class HeaderConvertible (T : Type) := {
  from_stream {R} `{Reader R} (fuel : nat) : M (HeaderValueByteIterator R) (option T);
  to_stream {W} `{Writer W} (x : T) : M W unit;
  http_value : T → str
}.

(** The default [to_stream]. *)
Definition default_to_stream {T W} `{Writer W} (value : T → str) (x : T) : M W unit :=
  writer_write (as_bytes (value x)).

(** ** Comma lists: [HeaderConvertible for ~[T]] *)
Section CommaList.
Context {T : Type} `{HeaderConvertible T}.

Definition list_from_body {R} `{Reader R} (fuel : nat) (result : list T) :
    M (HeaderValueByteIterator R) (list T + option (list T)) :=
  oh ← from_stream fuel;
  match oh with
  | None => break None
  | Some h =>
      c ← Iter.consume_comma_lws fuel;
      match c with
      | CommaConsumed => continue (result ++ [h])
      | EndOfValue => break (Some (result ++ [h]))
      | ErrCommaNotFound => break None
      end
  end.
Definition list_from_stream {R} `{Reader R} (fuel : nat) :
    M (HeaderValueByteIterator R) (option (list T)) :=
  loop fuel (list_from_body fuel) [].

Definition list_to_stream {W} `{Writer W} (xs : list T) : M W unit :=
  for_each (imap pair xs) (λ '(i, item),
    (if bool_decide (i ≠ 0%nat) then writer_write (lit ", ") else mret tt);;
    to_stream item).

Definition list_http_value (xs : list T) : str :=
  foldl (λ out '(i, item),
    (if bool_decide (i ≠ 0%nat) then out ++ lit ", " else out) ++ http_value item)
    [] (imap pair xs).

(** The types declared [CommaListHeaderConvertible] get this instance. *)
#[global] Instance comma_list : HeaderConvertible (list T) | 10 := {
  from_stream R _ := list_from_stream;
  to_stream W _ := list_to_stream;
  http_value := list_http_value
}.
End CommaList.

(** ** [~str], [uint], [Method] *)
Record header_str : Type := HeaderStr { str_value : str }.
#[global] Instance header_str_eq_dec : EqDecision header_str.
Proof. solve_decision. Defined.
Definition str_from_stream {R} `{Reader R} (fuel : nat) :
    M (HeaderValueByteIterator R) (option header_str) :=
  s ← Iter.collect_to_str fuel; mret (Some (HeaderStr s)).
Definition str_to_stream {W} `{Writer W} (s : header_str) : M W unit :=
  writer_write (as_bytes (str_value s)).
#[global] Instance str_convertible : HeaderConvertible header_str := {
  from_stream R _ := str_from_stream;
  to_stream W _ := str_to_stream;
  http_value := str_value
}.

Definition uint_from_stream {R} `{Reader R} (fuel : nat) :
    M (HeaderValueByteIterator R) (option uint) :=
  s ← Iter.collect_to_str fuel; mret (uint_from_str s).
Definition uint_to_stream {W} `{Writer W} : uint → M W unit :=
  default_to_stream uint_to_str.
#[global] Instance uint_convertible : HeaderConvertible uint := {
  from_stream R _ := uint_from_stream;
  to_stream W _ := uint_to_stream;
  http_value := uint_to_str
}.

Definition Method_from_stream {R} `{Reader R} (fuel : nat) :
    M (HeaderValueByteIterator R) (option Method) :=
  os ← Iter.read_token fuel;
  match os with
  | Some s => call (from_str_or_new s)
  | None => mret None
  end.
Definition Method_to_stream {W} `{Writer W} : Method → M W unit :=
  default_to_stream to_str.
#[global] Instance Method_convertible : HeaderConvertible Method := {
  from_stream R _ := Method_from_stream;
  to_stream W _ := Method_to_stream;
  http_value := to_str
}.

(** ** [Url] and [Tm]: the types and their conversions are [extra]'s *)
Class UrlOps := {
  Url : Type;
  url_from_str : str → option Url;
  url_to_str : Url → str
}.
Definition Url_from_stream `{UrlOps} {R} `{Reader R} (fuel : nat) :
    M (HeaderValueByteIterator R) (option Url) :=
  s ← Iter.collect_to_str fuel; mret (url_from_str s).
Definition Url_to_stream `{UrlOps} {W} `{Writer W} : Url → M W unit :=
  default_to_stream url_to_str.
#[global] Instance Url_convertible `{UrlOps} : HeaderConvertible Url := {
  from_stream R _ := Url_from_stream;
  to_stream W _ := Url_to_stream;
  http_value := url_to_str
}.

Class TimeOps := {
  Tm : Type;
  strptime : str → str → Result Tm str;
  strftime : Tm → str → str;
  to_utc : Tm → Tm
}.
(** The fields of [extra::time::Tm], for the places that build one with a
    struct literal; the value they make is a parameter there. *)
Record TmFields : Type := mkTm {
  tm_sec : Z; tm_min : Z; tm_hour : Z; tm_mday : Z; tm_mon : Z; tm_year : Z;
  tm_wday : Z; tm_yday : Z; tm_isdst : Z; tm_gmtoff : Z; tm_zone : str; tm_nsec : Z
}.
Definition rfc1123_format : str := lit "%a, %d %b %Y %T %Z".
Definition rfc850_format : str := lit "%A, %d-%b-%y %T %Z".
Definition asctime_format : str := lit "%c".
Definition http_date_format : str := lit "%a, %d %b %Y %T GMT".
Definition tm_from_str `{TimeOps} (value : str) : option Tm :=
  match strptime value rfc1123_format with
  | Ok time => Some time
  | Err _ =>
      match strptime value rfc850_format with
      | Ok time => Some time
      | Err _ =>
          match strptime value asctime_format with
          | Ok time => Some time
          | Err _ => None
          end
      end
  end.
Definition Tm_from_stream `{TimeOps} {R} `{Reader R} (fuel : nat) :
    M (HeaderValueByteIterator R) (option Tm) :=
  value ← Iter.collect_to_str fuel; mret (tm_from_str value).
Definition Tm_to_stream `{TimeOps} {W} `{Writer W} (t : Tm) : M W unit :=
  writer_write (as_bytes (strftime (to_utc t) http_date_format)).
Definition Tm_http_value `{TimeOps} (t : Tm) : str :=
  strftime (to_utc t) http_date_format.
#[global] Instance Tm_convertible `{TimeOps} : HeaderConvertible Tm := {
  from_stream R _ := Tm_from_stream;
  to_stream W _ := Tm_to_stream;
  http_value := Tm_http_value
}.

(** ** src/libhttp/headers/connection.rs *)
Inductive Connection : Type := Token (s : str) | Close.
#[global] Instance Connection_eq_dec : EqDecision Connection.
Proof. solve_decision. Defined.
Definition Connection_to_str (c : Connection) : str :=
  match c with Token s => s | Close => lit "close" end.
Definition Connection_from_stream {R} `{Reader R} (fuel : nat) :
    M (HeaderValueByteIterator R) (option Connection) :=
  os ← Iter.read_token fuel;
  match os with
  | None => mret None
  | Some s =>
      s ← call (normalise_header_name s);
      mret (Some (if bool_decide (s = lit "Close") then Close else Token s))
  end.
Definition Connection_to_stream {W} `{Writer W} (c : Connection) : M W unit :=
  writer_write (match c with Close => lit "close" | Token s => as_bytes s end).
Definition Connection_http_value (c : Connection) : str :=
  match c with Close => lit "close" | Token s => s end.
#[global] Instance Connection_convertible : HeaderConvertible Connection := {
  from_stream R _ := Connection_from_stream;
  to_stream W _ := Connection_to_stream;
  http_value := Connection_http_value
}.

(** ** src/libhttp/headers/transfer_encoding.rs *)
Inductive TransferCoding : Type :=
  | Chunked
  | TransferExtension (token : str) (parameters : list (str * str)).
#[global] Instance TransferCoding_eq_dec : EqDecision TransferCoding.
Proof. solve_decision. Defined.
Definition TransferCoding_from_stream {R} `{Reader R} (fuel : nat) :
    M (HeaderValueByteIterator R) (option TransferCoding) :=
  otoken ← Iter.read_token fuel;
  match otoken with
  | None => mret None
  | Some token =>
      let token := to_ascii_lower token in
      if bool_decide (token = lit "chunked") then mret (Some Chunked)
      else
        ops ← Iter.read_parameters fuel;
        mret (match ops with
              | Some parameters => Some (TransferExtension token parameters)
              | None => None
              end)
  end.
Definition TransferCoding_to_stream {W} `{Writer W} (c : TransferCoding) : M W unit :=
  match c with
  | Chunked => writer_write (lit "chunked")
  | TransferExtension token parameters => write_token token;; write_parameters parameters
  end.
Definition TransferCoding_http_value (c : TransferCoding) : str :=
  match c with
  | Chunked => lit "chunked"
  | TransferExtension token parameters => push_parameters token parameters
  end.
#[global] Instance TransferCoding_convertible : HeaderConvertible TransferCoding := {
  from_stream R _ := TransferCoding_from_stream;
  to_stream W _ := TransferCoding_to_stream;
  http_value := TransferCoding_http_value
}.

(** ** src/libhttp/headers/host.rs *)
Record Host : Type := mkHost { host_name : str; host_port : option u16 }.
#[global] Instance Host_eq_dec : EqDecision Host.
Proof. solve_decision. Defined.
Definition Host_to_str (h : Host) : str :=
  match host_port h with
  | Some port => host_name h ++ [chr ":"] ++ uint_to_str port
  | None => host_name h
  end.
Definition Host_from_str (s : str) : Host :=
  let hi := splitn1 (chr ":") s in
  mkHost hi.1 (match hi.2 with Some name => u16_from_str name | None => None end).
Definition Host_from_stream {R} `{Reader R} (fuel : nat) :
    M (HeaderValueByteIterator R) (option Host) :=
  s ← Iter.collect_to_str fuel; mret (Some (Host_from_str s)).
Definition Host_to_stream {W} `{Writer W} : Host → M W unit :=
  default_to_stream Host_to_str.
#[global] Instance Host_convertible : HeaderConvertible Host := {
  from_stream R _ := Host_from_stream;
  to_stream W _ := Host_to_stream;
  http_value := Host_to_str
}.

(** ** src/libhttp/headers/etag.rs *)
Record EntityTag : Type := mkEntityTag { weak : bool; opaque_tag : str }.
#[global] Instance EntityTag_eq_dec : EqDecision EntityTag.
Proof. solve_decision. Defined.
Definition weak_etag (opaque_tag : str) : EntityTag := mkEntityTag true opaque_tag.
Definition strong_etag (opaque_tag : str) : EntityTag := mkEntityTag false opaque_tag.
Definition EntityTag_to_str (t : EntityTag) : str :=
  if weak t then push_quoted_string (lit "W/") (opaque_tag t) else quoted_string (opaque_tag t).
Definition EntityTag_from_stream {R} `{Reader R} (fuel : nat) :
    M (HeaderValueByteIterator R) (option EntityTag) :=
  ob ← Iter.next fuel;
  oweak ← match ob with
          | Some b =>
              if (b =? chr "W") || (b =? chr "w") then
                ob1 ← Iter.next fuel;
                if bool_decide (ob1 ≠ Some (chr "/")) then mret None
                else
                  ob2 ← Iter.next fuel;
                  mret (if bool_decide (ob2 ≠ Some DOUBLE_QUOTE) then None else Some true)
              else if b =? DOUBLE_QUOTE then mret (Some false)
              else mret None
          | None => mret None
          end;
  match oweak with
  | None => mret None
  | Some weak =>
      otag ← Iter.read_quoted_string fuel true;
      match otag with
      | None => mret None
      | Some tag => Iter.some_if_consumed fuel (mkEntityTag weak tag)
      end
  end.
Definition EntityTag_to_stream {W} `{Writer W} (t : EntityTag) : M W unit :=
  (if weak t then writer_write (lit "W/") else mret tt);;
  write_quoted_string (opaque_tag t).
#[global] Instance EntityTag_convertible : HeaderConvertible EntityTag := {
  from_stream R _ := EntityTag_from_stream;
  to_stream W _ := EntityTag_to_stream;
  http_value := EntityTag_to_str
}.

(** ** src/libhttp/headers/content_type.rs *)
Record MediaType : Type := mkMediaType {
  type_ : str;
  subtype : str;
  parameters : list (str * str)
}.
#[global] Instance MediaType_eq_dec : EqDecision MediaType.
Proof. solve_decision. Defined.
Definition MediaType_to_str (m : MediaType) : str :=
  push_parameters (type_ m ++ [chr "/"] ++ subtype m) (parameters m).
Definition MediaType_from_stream {R} `{Reader R} (fuel : nat) :
    M (HeaderValueByteIterator R) (option MediaType) :=
  otype ← Iter.read_token fuel;
  match otype with
  | None => mret None
  | Some type_ =>
      ob ← Iter.next fuel;
      if bool_decide (ob ≠ Some (chr "/")) then mret None
      else
        osub ← Iter.read_token fuel;
        match osub with
        | None => mret None
        | Some subtype =>
            ops ← Iter.read_parameters fuel;
            match ops with
            | Some parameters =>
                Iter.some_if_consumed fuel (mkMediaType type_ subtype parameters)
            | None => mret None
            end
        end
  end.
Definition MediaType_to_stream {W} `{Writer W} (m : MediaType) : M W unit :=
  write_token (type_ m);;
  writer_write [chr "/"];;
  write_token (subtype m);;
  write_parameters (parameters m).
#[global] Instance MediaType_convertible : HeaderConvertible MediaType := {
  from_stream R _ := MediaType_from_stream;
  to_stream W _ := MediaType_to_stream;
  http_value := MediaType_to_str
}.

(** ** src/libhttp/headers/accept_ranges.rs *)
Inductive RangeUnit : Type := Bytes | OtherRangeUnit (s : str).
#[global] Instance RangeUnit_eq_dec : EqDecision RangeUnit.
Proof. solve_decision. Defined.
Inductive AcceptableRanges : Type := RangeUnits (us : list RangeUnit) | NoAcceptableRanges.
#[global] Instance AcceptableRanges_eq_dec : EqDecision AcceptableRanges.
Proof. solve_decision. Defined.
Definition range_unit_text (u : RangeUnit) : str :=
  match u with Bytes => lit "bytes" | OtherRangeUnit ru => ru end.
Definition ranges_body {R} `{Reader R} (fuel : nat) (range_units : list RangeUnit) :
    M (HeaderValueByteIterator R) (list RangeUnit + AcceptableRanges) :=
  otoken ← Iter.read_token fuel;
  match otoken with
  | Some token =>
      let token := to_ascii_lower token in
      if bool_decide (token = lit "bytes") then continue (range_units ++ [Bytes])
      else if bool_decide (token = lit "none" ∧ range_units = []) then break NoAcceptableRanges
      else continue (range_units ++ [OtherRangeUnit token])
  | None => break (RangeUnits range_units)
  end.
Definition AcceptableRanges_from_stream {R} `{Reader R} (fuel : nat) :
    M (HeaderValueByteIterator R) (option AcceptableRanges) :=
  a ← loop fuel (ranges_body fuel) []; mret (Some a).
Definition AcceptableRanges_to_stream {W} `{Writer W} (a : AcceptableRanges) : M W unit :=
  match a with
  | NoAcceptableRanges => writer_write (lit "none")
  | RangeUnits range_units =>
      for_each range_units (λ ru,
        match ru with
        | Bytes => writer_write (lit "bytes")
        | OtherRangeUnit ru => writer_write (as_bytes ru)
        end)
  end.
Definition AcceptableRanges_http_value (a : AcceptableRanges) : str :=
  match a with
  | NoAcceptableRanges => lit "none"
  | RangeUnits range_units =>
      foldl (λ result ru,
        match ru with
        | Bytes => result ++ lit "bytes"
        | OtherRangeUnit ru => result ++ ru
        end) [] range_units
  end.
#[global] Instance AcceptableRanges_convertible : HeaderConvertible AcceptableRanges := {
  from_stream R _ := AcceptableRanges_from_stream;
  to_stream W _ := AcceptableRanges_to_stream;
  http_value := AcceptableRanges_http_value
}.

(** ** Reading a value never fails the task *)
Class SafeRead (T : Type) `{HeaderConvertible T} := {
  read_safe R (HR : Reader R) (HS : ByteSource R) fuel :
    safe (iter_ok (R:=R)) (from_stream (T:=T) fuel) (λ _, iter_ok)
}.

#[global] Instance str_safe : SafeRead header_str.
Proof. constructor. value_safe. Qed.
#[global] Instance uint_safe : SafeRead uint.
Proof. constructor. value_safe. Qed.
#[global] Instance Url_safe `{UrlOps} : SafeRead Url.
Proof. constructor. value_safe. Qed.
#[global] Instance Tm_safe `{TimeOps} : SafeRead Tm.
Proof. constructor. value_safe. Qed.
#[global] Instance Host_safe : SafeRead Host.
Proof. constructor. value_safe. Qed.
#[global] Instance TransferCoding_safe : SafeRead TransferCoding.
Proof. constructor. value_safe. Qed.
#[global] Instance MediaType_safe : SafeRead MediaType.
Proof. constructor. value_safe. Qed.
#[global] Instance AcceptableRanges_safe : SafeRead AcceptableRanges.
Proof. constructor. value_safe. Qed.
#[global] Instance EntityTag_safe : SafeRead EntityTag.
Proof. constructor. value_safe. Qed.
#[global] Instance comma_list_safe {T} `{SafeRead T} : SafeRead (list T).
Proof.
  constructor. intros R HR HS fuel. apply iter_loop_safe. intros xs.
  apply iter_bind_safe; [apply read_safe|]. value_safe.
Qed.

(** A call on a token: it needs the token to be ASCII. *)
Lemma token_call_safe {R A B} `{ByteSource R} fuel (f : str → res A) (k : A → B) :
  (∀ s, is_ascii s = true → ∃ a, f s = Done a) →
  safe (iter_ok (R:=R))
    (os ← Iter.read_token fuel; match os with None => mret None | Some s => a ← call (f s); mret (Some (k a)) end)
    (λ _, iter_ok).
Proof.
  intros Hf. eapply safe_bind; [apply (safe_rets _ _ _ _ (read_token_safe fuel) (read_token_ascii fuel))|].
  intros [s|]; [|by intros it [? _]]. intros it [Hi Ha]. destruct (Hf s Ha) as [a E].
  rewrite bind_unfold. unfold call. by rewrite E.
Qed.
#[global] Instance Connection_safe : SafeRead Connection.
Proof.
  constructor. intros R HR HS fuel.
  apply (token_call_safe fuel normalise_header_name (λ s, if bool_decide (s = lit "Close") then Close else Token s)).
  intros s Hs. eexists. by apply normalise_go_ascii.
Qed.
#[global] Instance Method_safe : SafeRead Method.
Proof.
  constructor. intros R HR HS fuel.
  eapply safe_bind; [apply (safe_rets _ _ _ _ (read_token_safe fuel) (read_token_ascii fuel))|].
  intros [s|]; [|by intros it [? _]]. intros it [Hi Ha]. unfold call.
  destruct (from_str_or_new_ascii s Ha) as [m E]. by rewrite E.
Qed.

(** ** What a type promises *)

(** Text that may stand as a header value: ASCII, without line ends, not
    starting with white space. *)
Definition value_text (s : str) : Prop :=
  ascii_text s ∧ match s with b :: _ => is_lws b = false | [] => True end.

(** A value is written as its [http_value], and read back from it, with the
    whole value consumed. *)
Class WireFormat (T : Type) `{HeaderConvertible T} := {
  wire_ok : T → Prop;
  wire_text x : wire_ok x → value_text (http_value x);
  wire_write {W} `{Writer W} x : wire_ok x → Writes (W:=W) (to_stream x) (as_bytes (http_value x));
  wire_read {R} `{ByteSource R} x (it : HeaderValueByteIterator R) n fuel rest :
    wire_ok x → (n < fuel)%nat → Reads n it (http_value x) rest →
    ∃ it', from_stream fuel it = Done (Some x, it') ∧ Reads n it' [] rest
}.

(** An element of a comma list: reading stops at the comma. *)
Definition list_end (more : list u8) : Prop :=
  match more with [] => True | b :: _ => b = chr "," end.
Class ListItem (T : Type) `{HeaderConvertible T} := {
  item_ok : T → Prop;
  item_text x : item_ok x → value_text (http_value x) ∧ http_value x ≠ [];
  item_write {W} `{Writer W} x : item_ok x → Writes (W:=W) (to_stream x) (as_bytes (http_value x));
  item_read {R} `{ByteSource R} x (it : HeaderValueByteIterator R) n fuel more rest :
    item_ok x → (n < fuel)%nat → list_end more → Reads n it (http_value x ++ more) rest →
    ∃ it', from_stream fuel it = Done (Some x, it') ∧ Reads n it' more rest
}.

(** *** Shared facts *)
Lemma ascii_text_bytes s : ascii_text s → as_bytes s = s.
Proof.
  intros Hs. apply as_bytes_ascii, is_ascii_Forall. eapply Forall_impl; [exact Hs|]. simpl. lia.
Qed.

Lemma token_text s : Forall (λ b, is_token_item b = true) s → value_text s.
Proof.
  intros Hs. assert (Hc : ∀ b, is_token_item b = true → (0 ≤ b < 128 ∧ is_text b) ∧ is_lws b = false).
  { intros b Hb. pose proof (token_item_range b Hb).
    unfold is_text, is_lws, CR, LF, SP, HT. split; [split; [lia|lia]|lia]. }
  split; [|destruct s as [|b s]; [done|apply Forall_cons in Hs as [Hb _]; by apply Hc]].
  eapply Forall_impl; [exact Hs|]. intros b Hb. by apply Hc.
Qed.

Lemma token_is_token s : Forall (λ b, is_token_item b = true) s → is_token s = true.
Proof.
  intros Hs. apply is_token_Forall; [|done]. eapply Forall_impl; [exact Hs|].
  intros b Hb. pose proof (token_item_range b Hb). lia.
Qed.

Lemma list_end_separator more :
  list_end more → match more with b :: _ => is_separator b = true | [] => True end.
Proof. destruct more; [done|]. by intros ->. Qed.

(** A type whose [from_stream] converts the collected string. *)
Lemma collect_read {R T} `{ByteSource R} (f : str → T) s (it : HeaderValueByteIterator R) n fuel rest :
  (n < fuel)%nat → Reads n it s rest →
  ∃ it', (v ← Iter.collect_to_str fuel; mret (f v)) it = Done (f s, it') ∧ Reads n it' [] rest.
Proof.
  intros Hn HR. destruct (collect_to_str_spec n fuel it s rest Hn HR) as (it' & E & [HR' _] & _).
  exists it'. by rewrite (bind_Done _ _ _ _ _ E).
Qed.

(** *** The instances *)
#[global] Program Instance str_wire : WireFormat header_str := {
  wire_ok s := value_text (str_value s)
}.
Next Obligation. done. Qed.
Next Obligation. intros. apply Writes_write. Qed.
Next Obligation. intros R ? ? [s] it n fuel rest _ Hn HR. by apply (collect_read (λ v, Some (HeaderStr v)) s). Qed.

Lemma digits_text s : Forall (λ c, 48 ≤ c ≤ 57) s → value_text s.
Proof.
  intros Hs. split; [eapply Forall_impl; [exact Hs|]|].
  - intros c. unfold is_text, CR, LF. simpl. lia.
  - destruct s as [|c s]; [done|]. apply Forall_cons in Hs as [Hc _]. unfold is_lws, SP, HT. lia.
Qed.

#[global] Program Instance uint_wire : WireFormat uint := {
  wire_ok n := 0 ≤ n < 2 ^ 64
}.
Next Obligation. intros n Hn. apply digits_text. by apply uint_to_str_digits. Qed.
Next Obligation. intros. apply Writes_write. Qed.
Next Obligation.
  intros R ? ? x it n fuel rest Hx Hn HR.
  destruct (collect_read uint_from_str (uint_to_str x) it n fuel rest Hn HR) as (it' & E & HR').
  exists it'. split; [|done]. cbn [from_stream uint_convertible]. unfold uint_from_stream. rewrite E.
  unfold uint_from_str. by rewrite unsigned_from_to_str.
Qed.

(** A host name has no colon. *)
#[global] Program Instance Host_wire : WireFormat Host := {
  wire_ok h := value_text (host_name h) ∧ forallb (λ c, negb (c =? chr ":")) (host_name h) = true
               ∧ match host_port h with Some p => 0 ≤ p < 2 ^ 16 | None => True end
}.
Next Obligation.
  intros [name port] (Ht & _ & Hp). unfold http_value, Host_convertible, Host_to_str. simpl in *.
  destruct port as [p|]; [|done]. destruct (digits_text (uint_to_str p)) as [Hd _].
  { apply uint_to_str_digits. lia. }
  destruct Ht as [Ht Hf]. split.
  - apply Forall_app. split; [done|]. apply Forall_cons. split; [|done]. vm_compute. repeat split; discriminate.
  - by destruct name.
Qed.
Next Obligation. intros. apply Writes_write. Qed.
Next Obligation.
  intros R ? ? [name port] it n fuel rest (Ht & Hc & Hp) Hn HR.
  destruct (collect_read (λ v, Some (Host_from_str v)) _ it n fuel rest Hn HR) as (it' & E & HR').
  exists it'. split; [|done]. cbn [from_stream Host_convertible]. unfold Host_from_stream. rewrite E.
  unfold http_value, Host_convertible, Host_to_str, Host_from_str. cbn [host_name host_port] in *.
  destruct port as [p|].
  - cbn [app]. rewrite splitn1_app by done. cbn [fst snd]. unfold u16_from_str.
    by rewrite unsigned_from_to_str by lia.
  - by rewrite splitn1_id.
Qed.

Lemma quoted_string_text s : ascii_text s → ascii_text (escape s ++ [DOUBLE_QUOTE]).
Proof.
  intros Hs. apply Forall_app. split; [|by repeat constructor].
  induction Hs as [|c s Hc Hs IH]; [constructor|].
  change (escape (c :: s)) with ((if needs_escape c then [BACKSLASH; c] else [c]) ++ escape s).
  apply Forall_app. split; [|done]. destruct (needs_escape c); repeat constructor; by try apply Hc.
Qed.

(** The end of a value: [some_if_consumed] accepts. *)
Lemma some_if_consumed_read {R T} `{ByteSource R} (t : T) (it : HeaderValueByteIterator R) n fuel rest :
  (n < fuel)%nat → Reads n it [] rest →
  ∃ it', Iter.some_if_consumed fuel t it = Done (Some t, it') ∧ Reads n it' [] rest.
Proof.
  intros Hn HR. destruct (some_if_consumed_spec t n fuel it [] rest Hn HR) as (it' & E & [HR' _]).
  by exists it'.
Qed.

(** The opaque tag, after its opening quote. *)
Lemma etag_tail_read {R T} `{ByteSource R} (f : str → T) s (it : HeaderValueByteIterator R) n fuel rest :
  (n < fuel)%nat → Reads n it (escape s ++ [DOUBLE_QUOTE]) rest →
  ∃ it', (otag ← Iter.read_quoted_string fuel true;
          match otag with
          | None => mret None
          | Some tag => Iter.some_if_consumed fuel (f tag)
          end) it = Done (Some (f s), it') ∧ Reads n it' [] rest.
Proof.
  intros Hn HR. destruct (read_quoted_string_spec n fuel it _ rest true Hn HR) as (it1 & E & HA).
  cbn zeta in *. rewrite quoted_scan_escape in *. destruct HA as [HR1 _].
  rewrite (bind_Done _ _ _ _ _ E). by apply some_if_consumed_read.
Qed.

#[global] Program Instance EntityTag_wire : WireFormat EntityTag := {
  wire_ok t := ascii_text (opaque_tag t)
}.
Next Obligation.
  intros [w t] Ht%quoted_string_text. unfold http_value, EntityTag_convertible, EntityTag_to_str.
  destruct w; (split; [|done]); repeat (apply Forall_cons; split; [vm_compute; repeat split; discriminate|]); done.
Qed.
Next Obligation.
  intros W ? [w t] Ht. unfold to_stream, EntityTag_convertible, EntityTag_to_stream, http_value,
    EntityTag_to_str. cbn [weak opaque_tag]. destruct w.
  - change (push_quoted_string (lit "W/") t) with (lit "W/" ++ quoted_string t).
    rewrite as_bytes_app. apply Writes_bind; [apply Writes_write | apply write_quoted_string_writes].
  - apply (Writes_bind _ _ []); [apply Writes_ret | apply write_quoted_string_writes].
Qed.
Next Obligation.
  intros R ? ? [w t] it n fuel rest Ht Hn HR. cbn [from_stream EntityTag_convertible http_value] in *.
  unfold EntityTag_from_stream. unfold EntityTag_to_str in HR. cbn [weak opaque_tag] in HR. destruct w.
  - change (push_quoted_string (lit "W/") t) with (chr "W" :: chr "/" :: DOUBLE_QUOTE :: (escape t ++ [DOUBLE_QUOTE])) in HR.
    destruct (next_some n fuel it _ _ rest Hn HR) as (it1 & E1 & [HR1 _] & Hn1 & _).
    destruct (next_some (pred n) fuel it1 _ _ rest ltac:(lia) HR1) as (it2 & E2 & [HR2 _] & Hn2 & _).
    destruct (next_some (pred (pred n)) fuel it2 _ _ rest ltac:(lia) HR2) as (it3 & E3 & [HR3 _] & Hn3 & _).
    rewrite (bind_Done _ _ _ _ _ E1). cbn beta iota. rewrite Z.eqb_refl. cbn [orb].
    rewrite !bind_assoc, (bind_Done _ _ _ _ _ E2). rewrite bool_decide_false by (intros Hx; by apply Hx).
    rewrite !bind_assoc, (bind_Done _ _ _ _ _ E3). rewrite bind_ret.
    rewrite bool_decide_false by (intros Hx; by apply Hx).
    apply (etag_tail_read (mkEntityTag true)); [done|]. eapply Reads_weaken; [|done]. lia.
  - change (quoted_string t) with (DOUBLE_QUOTE :: (escape t ++ [DOUBLE_QUOTE])) in HR.
    destruct (next_some n fuel it _ _ rest Hn HR) as (it1 & E1 & [HR1 _] & Hn1 & _).
    rewrite (bind_Done _ _ _ _ _ E1). cbn beta iota.
    change ((DOUBLE_QUOTE =? chr "W") || (DOUBLE_QUOTE =? chr "w")) with false. cbn iota.
    rewrite Z.eqb_refl, bind_ret. apply (etag_tail_read (mkEntityTag false)); [done|].
    eapply Reads_weaken; [|done]. lia.
Qed.

Lemma push_parameters_text s ps : push_parameters s ps = s ++ (ps ≫= param_text).
Proof.
  rewrite push_parameters_app. f_equal. induction ps as [|[k v] ps IH]; [done|].
  cbn [mbind list_bind]. by rewrite IH.
Qed.

Lemma params_text_ascii ps : params_ok ps → ascii_text (ps ≫= param_text).
Proof.
  induction ps as [|[k v] ps IH]; [constructor|]. intros ((_ & Hk) & (_ & Hv) & _ & Hok).
  cbn [mbind list_bind]. apply Forall_app. split; [|by apply IH].
  unfold param_text. cbn [fst snd app]. apply Forall_cons. split; [vm_compute; repeat split; discriminate|].
  apply Forall_app. split; [by apply token_text|].
  apply Forall_cons. split; [vm_compute; repeat split; discriminate|].
  unfold maybe_quoted_string. destruct (is_token v); [done|].
  apply Forall_cons. split; [vm_compute; repeat split; discriminate|]. by apply quoted_string_text.
Qed.

Lemma write_parameters_text {W} `{Writer W} ps :
  Writes (W:=W) (write_parameters ps) (as_bytes (ps ≫= param_text)).
Proof.
  destruct (write_parameters_writes (W:=W) ps []) as (bs & Hw & E). cbn [as_bytes app] in E.
  rewrite push_parameters_text in E. cbn [app] in E. change (as_bytes [] ++ bs) with bs in E. by rewrite E.
Qed.

Definition token_ok (s : str) : Prop := s ≠ [] ∧ Forall (λ b, is_token_item b = true) s.

#[global] Program Instance MediaType_wire : WireFormat MediaType := {
  wire_ok m := token_ok (type_ m) ∧ token_ok (subtype m) ∧ params_ok (parameters m)
}.
Next Obligation.
  intros [ty sub ps] ((Ht0 & Ht) & (_ & Hs) & Hps). unfold http_value, MediaType_convertible, MediaType_to_str.
  cbn [type_ subtype parameters] in *. rewrite push_parameters_text. apply token_text in Ht as [Ht Hf].
  split; [|by destruct ty]. rewrite <-!app_assoc. apply Forall_app. split; [done|].
  apply Forall_cons. split; [vm_compute; repeat split; discriminate|].
  apply Forall_app. split; [by apply token_text | by apply params_text_ascii].
Qed.
Next Obligation.
  intros W ? [ty sub ps] ((Ht0 & Ht) & (_ & Hs) & Hps).
  unfold to_stream, MediaType_convertible, MediaType_to_stream, http_value, MediaType_to_str.
  cbn [type_ subtype parameters] in *. rewrite push_parameters_text, <-!app_assoc, !as_bytes_app.
  apply Writes_bind; [apply Writes_assert; [by apply token_is_token|apply Writes_write]|].
  apply (Writes_bind _ _ [chr "/"]); [apply Writes_write|].
  apply Writes_bind; [apply Writes_assert; [by apply token_is_token|apply Writes_write]|].
  apply write_parameters_text.
Qed.
Next Obligation.
  intros R ? ? [ty sub ps] it n fuel rest ((Ht0 & Ht) & (Hs0 & Hs) & Hps) Hn HR.
  cbn [from_stream MediaType_convertible http_value] in *. unfold MediaType_from_stream.
  unfold MediaType_to_str in HR. cbn [type_ subtype parameters] in *.
  rewrite push_parameters_text, <-!app_assoc in HR.
  destruct (read_token_started n fuel it ty (chr "/" :: sub ++ ps ≫= param_text) rest Hn Ht0 Ht eq_refl HR) as (it1 & E1 & HR1 & _).
  rewrite (bind_Done _ _ _ _ _ E1). cbn beta iota.
  destruct (next_some n fuel it1 _ _ rest Hn HR1) as (it2 & E2 & [HR2 _] & Hn2 & _ & Hs2).
  rewrite (bind_Done _ _ _ _ _ E2). rewrite bool_decide_false by (intros Hx; by apply Hx).
  destruct (read_token_spec (pred n) fuel it2 _ rest ltac:(lia) HR2 (or_introl (Hs2 eq_refl))) as (it3 & E3 & [HR3 Hk3]).
  assert (Hsep : match ps ≫= param_text with b :: _ => is_separator b = true | [] => True end)
    by (by destruct ps as [|[k v] ps]).

  rewrite split_token_app in * by done. cbn [fst snd] in *. unfold non_empty in E3.
  rewrite bool_decide_false in E3 by done. rewrite (bind_Done _ _ _ _ _ E3). cbn beta iota.
  rewrite <-(app_nil_r (ps ≫= param_text)) in HR3.
  destruct (read_parameters_read it3 (pred n) fuel ps [] rest ltac:(lia) Hps I (Hk3 (Hs2 eq_refl)) HR3) as (it4 & E4 & [HR4 _]).
  rewrite (bind_Done _ _ _ _ _ E4). cbn beta iota.
  apply some_if_consumed_read; [done|]. eapply Reads_weaken; [|done]. lia.
Qed.

(** *** List elements *)
#[global] Program Instance Method_item : ListItem Method := {
  item_ok m := canonical m = true ∧ token_ok (to_str m)
}.
Next Obligation. intros m [_ [H0 Ht]]. split; [by apply token_text|done]. Qed.
Next Obligation. intros. apply Writes_write. Qed.
Next Obligation.
  intros R ? ? m it n fuel more rest [Hc [Ht0 Ht]] Hn Hm HR.
  destruct (read_token_started n fuel it (to_str m) more rest Hn Ht0 Ht (list_end_separator _ Hm) HR) as (it' & E & HR' & _).
  exists it'. split; [|done]. cbn [from_stream Method_convertible]. unfold Method_from_stream.
  rewrite (bind_Done _ _ _ _ _ E). unfold call. by rewrite from_str_or_new_to_str.
Qed.

(** A connection token is in normal form and is not [Close]. *)
#[global] Program Instance Connection_item : ListItem Connection := {
  item_ok c := match c with
               | Close => True
               | Token s => token_ok s ∧ normal_form true s = s ∧ s ≠ lit "Close"
               end
}.
Next Obligation.
  intros [s|] Hc; simpl in *.
  - destruct Hc as ((Hs0 & Hs) & _). split; [by apply token_text|done].
  - split; [|done]. by apply token_text; repeat constructor.
Qed.
Next Obligation. intros W ? [s|] Hc; apply Writes_write. Qed.
Next Obligation.
  intros R ? ? c it n fuel more rest Hc Hn Hm HR.
  assert (∃ tok, http_value c = tok ∧ token_ok tok ∧
    normalise_header_name tok = Done (match c with Close => lit "Close" | Token s => s end)) as (tok & Etok & [Ht0 Ht] & En).
  { destruct c as [s|]; simpl in Hc.
    - destruct Hc as (Hs & Hnf & _). exists s. split; [done|]. split; [done|].
      unfold normalise_header_name. rewrite normalise_go_ascii; [by rewrite Hnf|].
      apply is_ascii_Forall. eapply Forall_impl; [apply Hs|]. intros b. apply token_item_ascii.
    - exists (lit "close"). split; [done|]. split; [|done]. split; [done|repeat constructor]. }
  rewrite Etok in HR.
  destruct (read_token_started n fuel it tok more rest Hn Ht0 Ht (list_end_separator _ Hm) HR) as (it' & E & HR' & _).
  exists it'. split; [|done]. cbn [from_stream Connection_convertible]. unfold Connection_from_stream.
  rewrite (bind_Done _ _ _ _ _ E), bind_unfold. unfold call. rewrite En. destruct c as [s|].
  - rewrite bool_decide_false; [done|]. by destruct Hc as (_ & _ & ?).
  - done.
Qed.

(** A transfer extension in a list has only quoted parameter values. *)
#[global] Program Instance TransferCoding_item : ListItem TransferCoding := {
  item_ok c := match c with
               | Chunked => True
               | TransferExtension token ps =>
                   token_ok token ∧ to_ascii_lower token = token ∧ token ≠ lit "chunked"
                   ∧ params_ok ps ∧ Forall (λ kv, is_token kv.2 = false) ps
               end
}.
Next Obligation.
  intros [|token ps] Hc; cbn [http_value TransferCoding_convertible TransferCoding_http_value].
  - split; [|done]. by apply token_text; repeat constructor.
  - destruct Hc as ((Ht0 & Ht) & _ & _ & Hps & _). rewrite push_parameters_text.
    apply token_text in Ht as [Ht Hf]. split; [|by destruct token]. split; [|by destruct token].
    apply Forall_app. split; [done | by apply params_text_ascii].
Qed.
Next Obligation.
  intros W ? [|token ps] Hc; [apply Writes_write|]. destruct Hc as ((Ht0 & Ht) & _).
  cbn [to_stream TransferCoding_convertible TransferCoding_to_stream http_value TransferCoding_http_value].
  rewrite push_parameters_text, as_bytes_app.
  apply Writes_bind; [apply Writes_assert; [by apply token_is_token|apply Writes_write]|].
  apply write_parameters_text.
Qed.
Next Obligation.
  intros R ? ? c it n fuel more rest Hc Hn Hm HR. cbn [from_stream TransferCoding_convertible].
  unfold TransferCoding_from_stream. destruct c as [|token ps].
  - destruct (read_token_started n fuel it (lit "chunked") more rest Hn ltac:(done)
      ltac:(repeat constructor) (list_end_separator _ Hm) HR) as (it' & E & HR' & _).
    exists it'. by rewrite (bind_Done _ _ _ _ _ E).
  - destruct Hc as ((Ht0 & Ht) & Hl & Hne & Hps & Hq).
    cbn [http_value TransferCoding_convertible TransferCoding_http_value] in HR.
    rewrite push_parameters_text, <-app_assoc in HR.
    assert (Hsep : match (ps ≫= param_text) ++ more with b :: _ => is_separator b = true | [] => True end)
      by (destruct ps as [|[k v] ps]; [by apply list_end_separator|done]).
    destruct (read_token_started n fuel it token _ rest Hn Ht0 Ht Hsep HR) as (it1 & E1 & HR1 & Hs1).
    rewrite (bind_Done _ _ _ _ _ E1). cbn beta iota zeta. rewrite Hl, bool_decide_false by done.
    destruct (read_parameters_read it1 n fuel ps more rest Hn Hps) as (it' & E & [HR' _]);
      [by destruct more|done|done|].
    exists it'. by rewrite (bind_Done _ _ _ _ _ E).
Qed.

(** *** Comma lists *)
Section CommaListLaws.
Context {T : Type} `{ListItem T}.

Lemma imap_pair_from {A} (xs : list A) k : imap (λ i, pair (k + i)%nat) xs = zip (seq k (length xs)) xs.
Proof.
  revert k. induction xs as [|x xs IH]; intros k; [done|]. simpl. rewrite Nat.add_0_r. f_equal.
  rewrite <-IH. apply imap_ext. intros i y _. simpl. f_equal. lia.
Qed.

(** The elements after the first, each behind a comma. *)
Definition tail_text (xs : list T) : str := xs ≫= λ x, lit ", " ++ http_value x.

Lemma connect_cons (x : T) xs :
  connect (lit ", ") (http_value <$> x :: xs) = http_value x ++ tail_text xs.
Proof.
  revert x. induction xs as [|y xs IH]; intros x; [symmetry; apply app_nil_r|].
  change (connect (lit ", ") (http_value <$> x :: y :: xs))
    with (http_value x ++ lit ", " ++ connect (lit ", ") (http_value <$> y :: xs)).
  by rewrite IH.
Qed.

(** [http_value] of a list joins the values of its elements. *)
Lemma list_http_value_connect (xs : list T) :
  list_http_value xs = connect (lit ", ") (http_value <$> xs).
Proof.
  unfold list_http_value. change (imap pair xs) with (imap (λ i, pair (0 + i)%nat) xs).
  rewrite (imap_pair_from xs 0). destruct xs as [|x xs]; [done|].
  assert (Hgo : ∀ xs k out, (0 < k)%nat →
    foldl (λ out '(i, item), (if bool_decide (i ≠ 0%nat) then out ++ lit ", " else out) ++ http_value item)
      out (zip (seq k (length xs)) xs)
    = out ++ tail_text xs).
  { clear. induction xs as [|x xs IH]; intros k out Hk; [by rewrite app_nil_r|].
    cbn [length seq zip zip_with foldl]. rewrite IH by lia. rewrite bool_decide_true by lia.
    unfold tail_text. cbn [mbind list_bind]. by rewrite <-!app_assoc. }
  cbn [length seq zip zip_with foldl]. rewrite Hgo, connect_cons by lia. done.
Qed.

Lemma tail_text_ascii (xs : list T) : Forall item_ok xs → ascii_text (tail_text xs).
Proof.
  induction 1 as [|x xs Hx Hxs IH]; [constructor|].
  destruct (item_text x Hx) as [[Hxt _] _].
  change (tail_text (x :: xs)) with ((lit ", " ++ http_value x) ++ tail_text xs).
  apply Forall_app. split; [|done]. apply Forall_app. split; [|done].
  do 2 (apply Forall_cons; split; [vm_compute; repeat split; discriminate|]). constructor.
Qed.

Lemma list_to_stream_writes {W} `{Writer W} (xs : list T) :
  Forall item_ok xs → Writes (W:=W) (list_to_stream xs) (as_bytes (list_http_value xs)).
Proof.
  intros Hxs. rewrite list_http_value_connect. unfold list_to_stream.
  change (imap pair xs) with (imap (λ i, pair (0 + i)%nat) xs). rewrite (imap_pair_from xs 0).
  destruct Hxs as [|x xs Hx Hxs]; [apply Writes_ret|]. rewrite connect_cons, as_bytes_app.
  cbn [length seq zip zip_with for_each]. rewrite bool_decide_false by lia.
  apply Writes_bind; [apply (Writes_bind _ _ []); [apply Writes_ret | by apply item_write]|].
  assert (Hk : (0 < 1)%nat) by lia. revert Hk. generalize 1%nat.
  induction Hxs as [|y ys Hy Hys IH]; intros k Hk; [apply Writes_ret|].
  change (tail_text (y :: ys)) with ((lit ", " ++ http_value y) ++ tail_text ys).
  cbn [length seq zip zip_with for_each]. rewrite bool_decide_true by lia. rewrite !as_bytes_app.
  apply Writes_bind; [|apply IH; lia].
  apply Writes_bind; [apply Writes_write | by apply item_write].
Qed.

Lemma list_read_loop {R} `{ByteSource R} fuel rest (xs : list T) : ∀ fuel' n x it result,
  Forall item_ok (x :: xs) → (n < fuel)%nat → (length xs < fuel')%nat →
  Reads n it (http_value x ++ tail_text xs) rest →
  ∃ it', loop fuel' (list_from_body (R:=R) fuel) result it = Done (Some (result ++ x :: xs), it')
    ∧ Reads n it' [] rest.
Proof.
  induction xs as [|y xs IH]; intros fuel' n x it result [Hx Hxs]%Forall_cons Hn Hf HR;
    (destruct fuel' as [|fuel']; [simpl in Hf; lia|]).
  - destruct (item_read x it n fuel [] rest Hx Hn I HR) as (it1 & E1 & HR1).
    destruct (consume_comma_lws_spec n fuel it1 [] rest Hn HR1) as (it' & E' & [HR' _]).
    exists it'. split; [|done]. eapply loop_break. unfold list_from_body.
    by rewrite (bind_Done _ _ _ _ _ E1), (bind_Done _ _ _ _ _ E').
  - change (tail_text (y :: xs)) with (chr "," :: SP :: (http_value y ++ tail_text xs)) in HR.
    destruct (item_read x it n fuel (chr "," :: SP :: (http_value y ++ tail_text xs)) rest Hx Hn eq_refl HR) as (it1 & E1 & HR1).
    destruct (consume_comma_lws_spec n fuel it1 _ rest Hn HR1) as (it2 & Hc).
    cbn [drop_lws] in Hc. change (is_lws (chr ",")) with false in Hc. cbn iota in Hc.
    rewrite Z.eqb_refl in Hc. destruct Hc as (E2 & [HR2 _] & Hpos).
    apply Forall_cons in Hxs as [Hy Hxs']. destruct (item_text y Hy) as [[_ Hyf] Hy0].
    assert (Ed : drop_lws (SP :: http_value y ++ tail_text xs) = http_value y ++ tail_text xs).
    { cbn [drop_lws]. change (is_lws SP) with true. cbn iota.
      destruct (http_value y) as [|b bs]; [done|]. cbn [app drop_lws]. by rewrite Hyf. }
    rewrite Ed in HR2.
    destruct (IH fuel' (pred n) y it2 (result ++ [x])) as (it' & E' & HR');
      [by constructor|lia|simpl in Hf; lia|done|].
    exists it'. split; [|eapply Reads_weaken; [|done]; lia].
    rewrite (loop_continue _ _ _ _ (result ++ [x]) it2).
    + by rewrite E', <-app_assoc.
    + unfold list_from_body. by rewrite (bind_Done _ _ _ _ _ E1), (bind_Done _ _ _ _ _ E2).
Qed.

Lemma tail_text_length (xs : list T) : (length xs ≤ length (tail_text xs))%nat.
Proof.
  induction xs as [|x xs IH]; [done|].
  change (tail_text (x :: xs)) with ((lit ", " ++ http_value x) ++ tail_text xs).
  rewrite length_app. simpl. lia.
Qed.

#[global] Program Instance comma_list_wire : WireFormat (list T) := {
  wire_ok xs := xs ≠ [] ∧ Forall item_ok xs
}.
Next Obligation.
  intros [|x xs] [Hne Hxs]; [done|]. cbn [http_value comma_list].
  rewrite list_http_value_connect, connect_cons. apply Forall_cons in Hxs as [Hx Hxs].
  destruct (item_text x Hx) as [[Hxt Hxf] Hx0]. split.
  - apply Forall_app. split; [done | by apply tail_text_ascii].
  - by destruct (http_value x).
Qed.
Next Obligation. intros W ? xs [_ Hxs]. by apply list_to_stream_writes. Qed.
Next Obligation.
  intros R ? ? [|x xs] it n fuel rest [Hne Hxs] Hn HR; [done|].
  cbn [http_value comma_list] in HR. rewrite list_http_value_connect, connect_cons in HR.
  pose proof (Reads_length _ _ _ _ HR) as Hl. rewrite length_app in Hl.
  pose proof (tail_text_length xs).
  apply (list_read_loop fuel rest xs fuel n x it []); [done|done|lia|done].
Qed.
End CommaListLaws.

(** ** Accept-Ranges *)
Definition range_unit_of (token : str) : RangeUnit :=
  if bool_decide (to_ascii_lower token = lit "bytes") then Bytes
  else OtherRangeUnit (to_ascii_lower token).

Lemma http_value_ranges us :
  http_value (RangeUnits us) = us ≫= range_unit_text.
Proof.
  cbn [http_value AcceptableRanges_convertible AcceptableRanges_http_value].
  assert (Hgo : ∀ us out, foldl (λ result ru, match ru with
    | Bytes => result ++ lit "bytes" | OtherRangeUnit ru => result ++ ru end) out us
    = out ++ (us ≫= range_unit_text)); [|apply Hgo].
  clear. induction us as [|u us IH]; intros out; [by rewrite app_nil_r|].
  cbn [foldl mbind list_bind]. rewrite IH, app_assoc. by destruct u.
Qed.

(** No range unit, one, or [none] do survive. *)
Definition unit_ok (u : RangeUnit) : Prop :=
  match u with
  | Bytes => True
  | OtherRangeUnit s => token_ok s ∧ to_ascii_lower s = s ∧ s ≠ lit "bytes" ∧ s ≠ lit "none"
  end.

Lemma unit_ok_token u : unit_ok u → token_ok (range_unit_text u)
  ∧ to_ascii_lower (range_unit_text u) ≠ lit "none" ∧ range_unit_of (range_unit_text u) = u.
Proof.
  destruct u as [|s]; intros Hu; simpl.
  - split; [split; [done|repeat constructor]|done].
  - destruct Hu as (Ht & Hl & Hb & Hn). split; [done|]. rewrite Hl. split; [done|].
    unfold range_unit_of. by rewrite Hl, bool_decide_false.
Qed.

(** The round of the loop that reads a unit. *)
Lemma ranges_body_unit {R} `{ByteSource R} fuel token (it it1 : HeaderValueByteIterator R) :
  Iter.read_token fuel it = Done (Some token, it1) → to_ascii_lower token ≠ lit "none" →
  ranges_body fuel [] it = Done (inl [range_unit_of token], it1).
Proof.
  intros E Hnone. unfold ranges_body. rewrite (bind_Done _ _ _ _ _ E). cbn beta iota zeta.
  unfold range_unit_of. destruct (decide (to_ascii_lower token = lit "bytes")) as [Hb|Hb];
    [by rewrite !bool_decide_true by done|].
  rewrite !bool_decide_false by (done || by intros [? _]). done.
Qed.

Definition ranges_ok (a : AcceptableRanges) : Prop :=
  match a with
  | NoAcceptableRanges | RangeUnits [] => True
  | RangeUnits [u] => unit_ok u
  | RangeUnits _ => False
  end.

#[global] Program Instance AcceptableRanges_wire : WireFormat AcceptableRanges := {
  wire_ok := ranges_ok
}.
Next Obligation.
  intros [[|u [|]]|] Ha; [| |done|apply token_text; repeat constructor]; [by split; [constructor|]|].
  rewrite http_value_ranges. cbn [mbind list_bind]. rewrite app_nil_r.
  by apply token_text, unit_ok_token.
Qed.
Next Obligation.
  intros W ? a Ha. destruct a as [us|]; [|apply Writes_write]. rewrite http_value_ranges.
  cbn [to_stream AcceptableRanges_convertible AcceptableRanges_to_stream].
  destruct us as [|u [|]]; [apply Writes_ret| |done]. cbn [mbind list_bind for_each].
  rewrite as_bytes_app. apply Writes_bind; [|apply Writes_ret]. destruct u; apply Writes_write.
Qed.
Next Obligation.
  intros R ? ? a it n fuel rest Ha Hn HR. cbn [from_stream AcceptableRanges_convertible].
  unfold AcceptableRanges_from_stream. destruct a as [[|u [|]]|]; [| |done|].
  - destruct (read_token_spec n fuel it [] rest Hn HR) as (it1 & E1 & [HR1 _]); [by right|].
    exists it1. split; [|done]. destruct fuel as [|fuel]; [lia|].
    rewrite bind_unfold, (loop_break _ _ _ _ (RangeUnits []) it1); [done|].
    unfold ranges_body. by rewrite (bind_Done _ _ _ _ _ E1).
  - rewrite http_value_ranges in HR. cbn [mbind list_bind] in HR.
    destruct (unit_ok_token u Ha) as ([Ht0 Ht] & Hnone & Hu).
    destruct (read_token_started n fuel it _ [] rest Hn Ht0 Ht I HR) as (it1 & E1 & HR1 & Hs1).
    destruct (read_token_spec n fuel it1 [] rest Hn HR1) as (it2 & E2 & [HR2 _]); [by left|].
    exists it2. split; [|done]. pose proof (Reads_length _ _ _ _ HR) as Hl.
    assert (0 < length (range_unit_text u))%nat by (destruct (range_unit_text u); [done|simpl; lia]).
    rewrite length_app in Hl. destruct fuel as [|[|fuel]]; [lia|lia|].
    rewrite bind_unfold, (loop_continue _ _ _ _ [u] it1),
      (loop_break _ _ _ _ (RangeUnits [u]) it2); [done| |].
    + unfold ranges_body. by rewrite (bind_Done _ _ _ _ _ E2).
    + by rewrite (ranges_body_unit _ _ _ _ E1 Hnone), Hu.
  - destruct (read_token_started n fuel it (lit "none") [] rest Hn ltac:(done)
      ltac:(repeat constructor) I HR) as (it1 & E1 & HR1 & _).
    exists it1. split; [|done]. destruct fuel as [|fuel]; [lia|].
    rewrite bind_unfold, (loop_break _ _ _ _ NoAcceptableRanges it1); [done|].
    unfold ranges_body. by rewrite (bind_Done _ _ _ _ _ E1).
Qed.

(** A list of range units does not survive: it is written with nothing
    between the units, and of a list that is received only the first unit is
    read, on any byte source (the loop stops at the comma it does not skip). *)
Theorem accept_ranges_list_lost {R} `{ByteSource R} (it : HeaderValueByteIterator R)
    n fuel us token more rest :
  (n < fuel)%nat → (1 < fuel)%nat → token_ok token → to_ascii_lower token ≠ lit "none" →
  Reads n it (token ++ chr "," :: more) rest →
  http_value (RangeUnits us) = us ≫= range_unit_text
  ∧ ∃ it', from_stream fuel it = Done (Some (RangeUnits [range_unit_of token]), it')
      ∧ Reads n it' (chr "," :: more) rest.
Proof.
  intros Hn Hf [Ht0 Ht] Hnone HR. split; [apply http_value_ranges|].
  destruct (read_token_started n fuel it token (chr "," :: more) rest Hn Ht0 Ht eq_refl HR) as (it1 & E1 & HR1 & Hs1).
  destruct (read_token_spec n fuel it1 _ rest Hn HR1 (or_introl Hs1)) as (it2 & E2 & [HR2 _]).
  exists it2. split; [|done]. cbn [from_stream AcceptableRanges_convertible].
  unfold AcceptableRanges_from_stream. rewrite bind_unfold.
  destruct fuel as [|[|fuel]]; [lia|lia|].
  rewrite (loop_continue _ _ _ _ [range_unit_of token] it1).
  - rewrite (loop_break _ _ _ _ (RangeUnits [range_unit_of token]) it2); [done|].
    unfold ranges_body. by rewrite (bind_Done _ _ _ _ _ E2).
  - by apply ranges_body_unit.
Qed.

Lemma accept_ranges_list_lost_witness :
  http_value (RangeUnits [Bytes; OtherRangeUnit (lit "lines")])
    = [Bytes; OtherRangeUnit (lit "lines")] ≫= range_unit_text
  ∧ ∃ it', from_stream 20 (Iter.new (lit "bytes, lines" ++ [CR; LF; CR; LF]))
      = Done (Some (RangeUnits [range_unit_of (lit "bytes")]), it')
    ∧ Reads (R:=list u8) 16 it' (chr "," :: lit " lines") [CR; LF].
Proof.
  apply (accept_ranges_list_lost (R:=list u8)); [lia|lia| |vm_compute; discriminate|].
  - split; [discriminate|repeat constructor].
  - split; [exact I|]. split; [vm_compute; lia|reflexivity].
Defined.
