(* ===== verification/Headers.v ===== *)
(** * Headers and header collections (src/libhttp/headers/mod.rs)

    The [headers_mod!] macro turns a table of header names and value types
    into an enumeration of headers, a collection with one optional field per
    row, an iterator over it, and the parser and writer of header lines.  The
    file models the code of the macro for any table, and the two tables the
    library has.  A value of a row is a [HeaderValue] of the row's kind; the
    fields of a collection are a list, in the order of the table. *)

From Stdlib Require Import Sorted.
From S2P Require Import Prelude Strs Rfc2616 Method Io SerializationUtils HeaderIter HeaderValues.

Inductive HeaderLineErr : Type :=
  | EndOfFile | EndOfHeaders | MalformedHeaderValue | MalformedHeaderSyntax.
#[global] Instance HeaderLineErr_eq_dec : EqDecision HeaderLineErr.
Proof. solve_decision. Defined.

(** The value types that occur in the tables. *)
Inductive kind : Type :=
  | KStr | KUint | KTm | KUrl | KConnections | KTransferCodings | KMethods | KHost
  | KMediaType | KEntityTag | KAcceptableRanges.
#[global] Instance kind_eq_dec : EqDecision kind.
Proof. solve_decision. Defined.

(** A row: the name written, the (normalised) name recognised, the type. *)
Record row : Type := Row { output_name : string; input_name : string; row_kind : kind }.
Definition table : Type := list row.

(** ** Values of the table types *)
Section Values.
Context `{UrlOps} `{TimeOps}.

Inductive HeaderValue : Type :=
  | VStr (s : header_str)
  | VUint (n : uint)
  | VTm (t : Tm)
  | VUrl (u : Url)
  | VConnections (cs : list Connection)
  | VTransferCodings (ts : list TransferCoding)
  | VMethods (ms : list Method)
  | VHost (h : Host)
  | VMediaType (m : MediaType)
  | VEntityTag (t : EntityTag)
  | VAcceptableRanges (a : AcceptableRanges).

Definition kind_of (v : HeaderValue) : kind :=
  match v with
  | VStr _ => KStr | VUint _ => KUint | VTm _ => KTm | VUrl _ => KUrl
  | VConnections _ => KConnections | VTransferCodings _ => KTransferCodings
  | VMethods _ => KMethods | VHost _ => KHost | VMediaType _ => KMediaType
  | VEntityTag _ => KEntityTag | VAcceptableRanges _ => KAcceptableRanges
  end.

Definition read_as {R T} `{Reader R} `{HeaderConvertible T} (inject : T → HeaderValue) (fuel : nat) :
    M (HeaderValueByteIterator R) (option HeaderValue) :=
  ov ← from_stream fuel;
  mret (inject <$> ov).

(** [HeaderConvertible::from_stream], at the type of the row. *)
Definition value_of_kind {R} `{Reader R} (k : kind) (fuel : nat) :
    M (HeaderValueByteIterator R) (option HeaderValue) :=
  match k with
  | KStr => read_as VStr fuel
  | KUint => read_as VUint fuel
  | KTm => read_as VTm fuel
  | KUrl => read_as VUrl fuel
  | KConnections => read_as VConnections fuel
  | KTransferCodings => read_as VTransferCodings fuel
  | KMethods => read_as VMethods fuel
  | KHost => read_as VHost fuel
  | KMediaType => read_as VMediaType fuel
  | KEntityTag => read_as VEntityTag fuel
  | KAcceptableRanges => read_as VAcceptableRanges fuel
  end.

Definition value_to_stream {W} `{Writer W} (v : HeaderValue) : M W unit :=
  match v with
  | VStr x => to_stream x
  | VUint x => to_stream x
  | VTm x => to_stream x
  | VUrl x => to_stream x
  | VConnections x => to_stream x
  | VTransferCodings x => to_stream x
  | VMethods x => to_stream x
  | VHost x => to_stream x
  | VMediaType x => to_stream x
  | VEntityTag x => to_stream x
  | VAcceptableRanges x => to_stream x
  end.

Definition value_http_value (v : HeaderValue) : str :=
  match v with
  | VStr x => http_value x
  | VUint x => http_value x
  | VTm x => http_value x
  | VUrl x => http_value x
  | VConnections x => http_value x
  | VTransferCodings x => http_value x
  | VMethods x => http_value x
  | VHost x => http_value x
  | VMediaType x => http_value x
  | VEntityTag x => http_value x
  | VAcceptableRanges x => http_value x
  end.

(** ** The enumeration of headers *)
Inductive Header : Type :=
  | Known (i : nat) (v : HeaderValue)
  | ExtensionHeader (key value : str).

(** The value has the type of its row. *)
Definition well_typed (tbl : table) (h : Header) : Prop :=
  match h with
  | Known i v => ∃ r, tbl !! i = Some r ∧ row_kind r = kind_of v
  | ExtensionHeader _ _ => True
  end.

Section Table.
Context (tbl : table).

Definition row_output (i : nat) : str :=
  match tbl !! i with Some r => lit (output_name r) | None => [] end.

Definition header_name (h : Header) : str :=
  match h with Known i _ => row_output i | ExtensionHeader name _ => name end.
Definition header_value (h : Header) : str :=
  match h with Known _ v => value_http_value v | ExtensionHeader _ value => value end.

Definition write_header {W} `{Writer W} (h : Header) : M W unit :=
  match h with
  | ExtensionHeader name value =>
      writer_write (as_bytes (name ++ lit ": " ++ value));;
      writer_write [CR; LF]
  | Known i v =>
      writer_write (row_output i ++ lit ": ");;
      value_to_stream v;;
      writer_write [CR; LF]
  end.

(** The row whose input name is [name], from row [i] on. *)
Fixpoint find_row (name : str) (i : nat) (rows : table) : option (nat * row) :=
  match rows with
  | [] => None
  | r :: rows' => if bool_decide (name = lit (input_name r)) then Some (i, r)
                  else find_row name (S i) rows'
  end.

Definition value_from_stream {R} `{Reader R} (fuel : nat) (name : str) :
    M (HeaderValueByteIterator R) (option Header) :=
  match find_row name 0 tbl with
  | Some (i, r) => ov ← value_of_kind (row_kind r) fuel; mret (Known i <$> ov)
  | None => value ← Iter.collect_to_str fuel; mret (Some (ExtensionHeader name value))
  end.

(** ** [header_enum_from_stream] *)
Inductive name_state : Type := Start | ReadingName | NameFinished | GotCR.

(** One round of the name loop; [inr (Ok name)] is the [break] at the colon. *)
Definition name_body {R} `{Reader R} (fuel : nat) (sn : name_state * str) :
    M R ((name_state * str) + Result str HeaderLineErr) :=
  let '(state, header_name) := sn in
  ob ← read_byte_util fuel;
  match ob with
  | None => break (Err EndOfFile)
  | Some b =>
      let start := match state with Start => true | _ => false end in
      let reading := match state with Start | ReadingName => true | _ => false end in
      let lf_ends := match state with Start | GotCR => true | _ => false end in
      if reading && is_token_item b then continue (ReadingName, header_name ++ [b])
      else if start && (b =? CR) then continue (GotCR, header_name)
      else if lf_ends && (b =? LF) then break (Err EndOfHeaders)
      else if b =? SP then continue (NameFinished, header_name)
      else if b =? COLON then break (Ok header_name)
      else break (Err MalformedHeaderSyntax)
  end.

(** The value, on an iterator over the reader, up to the end of the line. *)
Definition header_of_iter {R} `{Reader R} (fuel : nat) (header_name : str) :
    M (HeaderValueByteIterator R) (option Header * option u8) :=
  name ← call (normalise_header_name header_name);
  header ← value_from_stream fuel name;
  Iter.drain fuel;;
  nb ← gets next_byte;
  mret (header, nb).

Definition header_line_value {R} `{Reader R} (fuel : nat) (header_name : str) :
    M R (Result Header HeaderLineErr * option u8) := λ reader,
  match header_of_iter fuel header_name (Iter.new reader) with
  | Done ((Some h, nb), iter) => Done ((Ok h, nb), it_reader iter)
  | Done ((None, nb), iter) => Done ((Err MalformedHeaderValue, nb), it_reader iter)
  | Fail e => Fail e
  | Diverge => Diverge
  end.

Definition header_enum_from_stream {R} `{Reader R} (fuel : nat) :
    M R (Result Header HeaderLineErr * option u8) :=
  rn ← loop fuel (name_body fuel) (Start, []);
  match rn with
  | Err e => mret (Err e, None)
  | Ok header_name => header_line_value fuel header_name
  end.
End Table.

(** ** Header collections *)

(** [TreeMap<~str, ~str>]: an association list sorted by key, with the order
    of [~str], which is that of the bytes. *)
Fixpoint bytes_lt (a b : list u8) : bool :=
  match a, b with
  | _, [] => false
  | [], _ :: _ => true
  | x :: a', y :: b' => if x <? y then true else if y <? x then false else bytes_lt a' b'
  end.
Definition key_lt (a b : str) : bool := bytes_lt (as_bytes a) (as_bytes b).
Fixpoint tree_insert (k v : str) (m : list (str * str)) : list (str * str) :=
  match m with
  | [] => [(k, v)]
  | (k', v') :: m' =>
      if key_lt k k' then (k, v) :: m
      else if key_lt k' k then (k', v') :: tree_insert k v m'
      else (k, v) :: m'
  end.

Record HeaderCollection : Type := mkCollection {
  fields : list (option HeaderValue);
  extensions : list (str * str)
}.

Definition collection_new (tbl : table) : HeaderCollection := mkCollection (replicate (length tbl) None) [].

Definition collection_insert (header : Header) (c : HeaderCollection) : HeaderCollection :=
  match header with
  | Known i value => mkCollection (<[i := Some value]> (fields c)) (extensions c)
  | ExtensionHeader key value => mkCollection (fields c) (tree_insert key value (extensions c))
  end.

(** The value of a field: [self.connection] and so on. *)
Definition collection_get (i : nat) (c : HeaderCollection) : option HeaderValue := mjoin (fields c !! i).

Record HeaderCollectionIterator : Type := mkCollIter {
  pos : nat;
  coll : HeaderCollection;
  ext_iter : option (list (str * str))
}.

Definition coll_iter (c : HeaderCollection) : HeaderCollectionIterator := mkCollIter 0 c None.

Definition coll_next_body (num_headers : nat) (_ : unit) :
    M HeaderCollectionIterator (unit + option Header) :=
  modify (λ it, mkCollIter (pos it + 1) (coll it) (ext_iter it));;
  p ← gets (λ it, pos it - 1)%nat;
  c ← gets coll;
  if (p <? num_headers)%nat then
    match collection_get p c with
    | Some v => break (Some (Known p v))
    | None => continue tt
    end
  else if (p =? num_headers)%nat then
    modify (λ it, mkCollIter (pos it) (coll it) (Some (extensions (coll it))));;
    continue tt
  else
    e ← gets ext_iter;
    match e with
    | None => fail "called `Option::get_mut_ref()` on a `None` value"
    | Some [] => break None
    | Some ((k, v) :: rest) =>
        modify (λ it, mkCollIter (pos it) (coll it) (Some rest));;
        break (Some (ExtensionHeader k v))
    end.
Definition coll_next (num_headers fuel : nat) : M HeaderCollectionIterator (option Header) :=
  loop fuel (coll_next_body num_headers) tt.

(** [write_all]: the loop over the iterator writes as it goes. *)
Definition write_all_body (tbl : table) {W} `{Writer W} (fuel : nat) (it : HeaderCollectionIterator) :
    M W (HeaderCollectionIterator + unit) :=
  r ← call (coll_next (length tbl) fuel it);
  let '(oh, it') := (r : option Header * HeaderCollectionIterator) in
  match oh with
  | Some h => write_header tbl h;; continue it'
  | None => break tt
  end.
Definition write_all (tbl : table) {W} `{Writer W} (fuel : nat) (c : HeaderCollection) : M W unit :=
  loop fuel (write_all_body tbl fuel) (coll_iter c);;
  writer_write [CR; LF].
End Values.

(** ** The two tables *)
Definition request_table : table := [
  Row "Cache-Control" "Cache-Control" KStr;
  Row "Connection" "Connection" KConnections;
  Row "Date" "Date" KTm;
  Row "Pragma" "Pragma" KStr;
  Row "Trailer" "Trailer" KStr;
  Row "Transfer-Encoding" "Transfer-Encoding" KTransferCodings;
  Row "Upgrade" "Upgrade" KStr;
  Row "Via" "Via" KStr;
  Row "Warning" "Warning" KStr;
  Row "Accept" "Accept" KStr;
  Row "Accept-Charset" "Accept-Charset" KStr;
  Row "Accept-Encoding" "Accept-Encoding" KStr;
  Row "Accept-Language" "Accept-Language" KStr;
  Row "Authorization" "Authorization" KStr;
  Row "Expect" "Expect" KStr;
  Row "From" "From" KStr;
  Row "Host" "Host" KHost;
  Row "If-Match" "If-Match" KStr;
  Row "If-Modified-Since" "If-Modified-Since" KTm;
  Row "If-None-Match" "If-None-Match" KStr;
  Row "If-Range" "If-Range" KStr;
  Row "If-Unmodified-Since" "If-Unmodified-Since" KTm;
  Row "Max-Forwards" "Max-Forwards" KUint;
  Row "Proxy-Authorization" "Proxy-Authorization" KStr;
  Row "Range" "Range" KStr;
  Row "Referer" "Referer" KStr;
  Row "TE" "Te" KStr;
  Row "User-Agent" "User-Agent" KStr;
  Row "Allow" "Allow" KMethods;
  Row "Content-Encoding" "Content-Encoding" KStr;
  Row "Content-Language" "Content-Language" KStr;
  Row "Content-Length" "Content-Length" KUint;
  Row "Content-Location" "Content-Location" KStr;
  Row "Content-MD5" "Content-Md5" KStr;
  Row "Content-Range" "Content-Range" KStr;
  Row "Content-Type" "Content-Type" KMediaType;
  Row "Expires" "Expires" KTm;
  Row "Last-Modified" "Last-Modified" KTm
].

Definition response_table : table := [
  Row "Cache-Control" "Cache-Control" KStr;
  Row "Connection" "Connection" KConnections;
  Row "Date" "Date" KTm;
  Row "Pragma" "Pragma" KStr;
  Row "Trailer" "Trailer" KStr;
  Row "Transfer-Encoding" "Transfer-Encoding" KTransferCodings;
  Row "Upgrade" "Upgrade" KStr;
  Row "Via" "Via" KStr;
  Row "Warning" "Warning" KStr;
  Row "Accept-Patch" "Accept-Patch" KStr;
  Row "Accept-Ranges" "Accept-Ranges" KAcceptableRanges;
  Row "Age" "Age" KStr;
  Row "ETag" "Etag" KEntityTag;
  Row "Location" "Location" KUrl;
  Row "Proxy-Authenticate" "Proxy-Authenticate" KStr;
  Row "Retry-After" "Retry-After" KStr;
  Row "Server" "Server" KStr;
  Row "Vary" "Vary" KStr;
  Row "WWW-Authenticate" "Www-Authenticate" KStr;
  Row "Allow" "Allow" KMethods;
  Row "Content-Encoding" "Content-Encoding" KStr;
  Row "Content-Language" "Content-Language" KStr;
  Row "Content-Length" "Content-Length" KUint;
  Row "Content-Location" "Content-Location" KStr;
  Row "Content-MD5" "Content-Md5" KStr;
  Row "Content-Range" "Content-Range" KStr;
  Row "Content-Type" "Content-Type" KMediaType;
  Row "Expires" "Expires" KStr;
  Row "Last-Modified" "Last-Modified" KTm
].

(** Positions of the fields the library and the example servers use. *)
Module request.
Definition connection : nat := 1.
Definition transfer_encoding : nat := 5.
Definition host : nat := 16.
Definition content_length : nat := 31.
End request.
Module response.
Definition connection : nat := 1.
Definition date : nat := 2.
Definition transfer_encoding : nat := 5.
Definition accept_ranges : nat := 10.
Definition etag : nat := 12.
Definition server : nat := 16.
Definition vary : nat := 17.
Definition allow : nat := 19.
Definition content_length : nat := 22.
Definition content_type : nat := 26.
Definition last_modified : nat := 28.
End response.

(** ** Facts about the tables *)

(** Every name written is a token whose normal form is the name recognised,
    and no name is recognised twice. *)
Definition row_ok (r : row) : bool :=
  is_token (lit (output_name r)) && bool_decide (lit (output_name r) ≠ [])
  && bool_decide (normal_form true (lit (output_name r)) = lit (input_name r)).
Definition table_ok (tbl : table) : bool :=
  forallb row_ok tbl && bool_decide (NoDup (input_name <$> tbl)).

Lemma tables_ok tbl : tbl = request_table ∨ tbl = response_table → table_ok tbl = true.
Proof. by intros [-> | ->]; vm_compute. Qed.

Lemma lit_inj s t : lit s = lit t → s = t.
Proof.
  unfold lit. revert t. induction s as [|a s IH]; intros [|b t] E; try done. simpl in E.
  injection E as Ha E. f_equal; [|by apply IH].
  unfold chr in Ha. apply N2Z.inj in Ha.
  rewrite <-(Ascii.ascii_N_embedding a), <-(Ascii.ascii_N_embedding b). by f_equal.
Qed.

Lemma find_row_lookup tbl i r k :
  NoDup (input_name <$> tbl) → tbl !! i = Some r →
  find_row (lit (input_name r)) k tbl = Some ((k + i)%nat, r).
Proof.
  revert i k. induction tbl as [|r' tbl IH]; intros i k Hnd Hi; [done|].
  apply NoDup_cons in Hnd as [Hr' Hnd]. cbn [find_row]. destruct i as [|i]; simpl in Hi.
  - simplify_eq. rewrite bool_decide_true by done. by rewrite Nat.add_0_r.
  - rewrite bool_decide_false.
    + rewrite (IH i (S k)) by done. by rewrite Nat.add_succ_r.
    + intros E%lit_inj. apply Hr'. rewrite <-E. apply list_elem_of_fmap. exists r.
      split; [done|]. by eapply list_elem_of_lookup_2.
Qed.

Lemma find_row_none tbl name k :
  name ∉ ((λ r, lit (input_name r)) <$> tbl) → find_row name k tbl = None.
Proof.
  revert k. induction tbl as [|r tbl IH]; intros k Hn; [done|]. rewrite fmap_cons, not_elem_of_cons in Hn.
  destruct Hn as [H1 H2]. cbn [find_row]. rewrite bool_decide_false by done. by apply IH.
Qed.

(** ** Reading and writing header lines *)
Section Lines.
Context `{UrlOps} `{TimeOps}.

(** The values that survive: those of [WireFormat], at each type ([Url] and
    [Tm] are the standard library's). *)
Definition value_ok (v : HeaderValue) : Prop :=
  match v with
  | VStr x => wire_ok x
  | VUint x => wire_ok x
  | VConnections x => wire_ok x
  | VTransferCodings x => wire_ok x
  | VMethods x => wire_ok x
  | VHost x => wire_ok x
  | VMediaType x => wire_ok x
  | VEntityTag x => wire_ok x
  | VAcceptableRanges x => wire_ok x
  | VTm _ | VUrl _ => False
  end.

Lemma value_ok_text v : value_ok v → value_text (value_http_value v).
Proof.
  destruct v as [x|x|x|x|x|x|x|x|x|x|x]; intros Hv; try done; exact (wire_text x Hv).
Qed.

Lemma value_ok_write {W} `{Writer W} v :
  value_ok v → Writes (W:=W) (value_to_stream v) (as_bytes (value_http_value v)).
Proof.
  destruct v as [x|x|x|x|x|x|x|x|x|x|x]; intros Hv; try done; exact (wire_write x Hv).
Qed.

Lemma read_as_read {R T} `{ByteSource R} `{WireFormat T} (inject : T → HeaderValue) x
    (it : HeaderValueByteIterator R) n fuel rest :
  wire_ok x → (n < fuel)%nat → Reads n it (http_value x) rest →
  ∃ it', read_as inject fuel it = Done (Some (inject x), it') ∧ Reads n it' [] rest.
Proof.
  intros Hx Hn HR. destruct (wire_read x it n fuel rest Hx Hn HR) as (it' & E & HR').
  exists it'. unfold read_as. by rewrite (bind_Done _ _ _ _ _ E).
Qed.

Lemma value_ok_read {R} `{ByteSource R} v (it : HeaderValueByteIterator R) n fuel rest :
  value_ok v → (n < fuel)%nat → Reads n it (value_http_value v) rest →
  ∃ it', value_of_kind (kind_of v) fuel it = Done (Some v, it') ∧ Reads n it' [] rest.
Proof.
  destruct v as [x|x|x|x|x|x|x|x|x|x|x]; intros Hv Hn HR; try done;
    exact (read_as_read _ x it n fuel rest Hv Hn HR).
Qed.

(** Headers that can be written and read back with a table. *)
Definition header_ok (tbl : table) (h : Header) : Prop :=
  well_typed tbl h ∧
  match h with
  | Known i v => value_ok v
  | ExtensionHeader name value =>
      token_ok name ∧ normal_form true name = name
      ∧ (name ∉ (λ r, lit (input_name r)) <$> tbl) ∧ value_text value
  end.

Definition line_of (tbl : table) (h : Header) : list u8 :=
  header_name tbl h ++ lit ": " ++ header_value h ++ [CR; LF].

Lemma row_ok_token r :
  row_ok r = true → token_ok (lit (output_name r))
    ∧ normal_form true (lit (output_name r)) = lit (input_name r).
Proof.
  unfold row_ok. intros [[Ht Hn]%andb_true_iff Hf]%andb_true_iff.
  apply bool_decide_eq_true in Hn, Hf. split; [|done]. split; [done|].
  apply is_token_Forall; [|done]. apply Forall_fmap, Forall_true. intros a. apply chr_ascii.
Qed.

(** The name and the value of such a header, as the parser will see them. *)
Lemma header_ok_spec tbl h :
  table_ok tbl = true → header_ok tbl h →
  token_ok (header_name tbl h) ∧ value_text (header_value h)
  ∧ (∀ R (HR : Reader R) (HS : ByteSource R) (it : HeaderValueByteIterator R) n fuel rest, (n < fuel)%nat →
     Reads n it (header_value h) rest →
     ∃ it', value_from_stream tbl fuel (normal_form true (header_name tbl h)) it = Done (Some h, it')
       ∧ Reads n it' [] rest).
Proof.
  unfold table_ok. intros [Hrows Hnd]%andb_true_iff [Hwt Hok]. apply bool_decide_eq_true in Hnd.
  destruct h as [i v|name value]; simpl in *.
  - destruct Hwt as (r & Hr & Hk). unfold row_output. rewrite Hr.
    apply forallb_Forall in Hrows. rewrite Forall_lookup in Hrows.
    destruct (row_ok_token r (Hrows i r Hr)) as [Htok Hnf].
    split_and?; [done|by apply value_ok_text|]. intros R ? ? it n fuel rest Hn HR.
    destruct (value_ok_read v it n fuel rest Hok Hn HR) as (it' & E & HR').
    exists it'. split; [|done]. unfold value_from_stream.
    rewrite Hnf, (find_row_lookup tbl i r 0) by done. cbn iota beta. rewrite Nat.add_0_l, Hk.
    by rewrite (bind_Done _ _ _ _ _ E).
  - destruct Hok as (Ht & Hnf & Hnot & Hv). split_and?; [done|done|].
    intros R ? ? it n fuel rest Hn HR.
    destruct (collect_read (λ s, Some (ExtensionHeader name s)) value it n fuel rest Hn HR) as (it' & E & HR').
    exists it'. split; [|done]. unfold value_from_stream. by rewrite Hnf, find_row_none.
Qed.

Lemma token_bytes s : token_ok s → as_bytes s = s.
Proof. intros [_ Ht]. by apply ascii_text_bytes, token_text. Qed.

(** Headers that can be written: the values of the standard library's types
    are as well, and extension headers always. *)
Definition writable_value (v : HeaderValue) : Prop :=
  match v with VTm _ | VUrl _ => True | _ => value_ok v end.
Definition header_writable (tbl : table) (h : Header) : Prop :=
  well_typed tbl h ∧ match h with Known _ v => writable_value v | ExtensionHeader _ _ => True end.
Definition wire_line (tbl : table) (h : Header) : list u8 :=
  as_bytes (header_name tbl h ++ lit ": " ++ header_value h) ++ [CR; LF].

Lemma header_ok_writable tbl h : header_ok tbl h → header_writable tbl h.
Proof.
  intros [Hwt Hok]. split; [done|]. destruct h as [i v|]; [|done]. by destruct v.
Qed.

Lemma wire_line_ok tbl h : table_ok tbl = true → header_ok tbl h → wire_line tbl h = line_of tbl h.
Proof.
  intros Htbl Hh. destruct (header_ok_spec tbl h Htbl Hh) as (Hname & [Hval _] & _).
  unfold wire_line, line_of. rewrite !as_bytes_app, token_bytes, (ascii_text_bytes (header_value h)) by done.
  by rewrite <-!app_assoc.
Qed.

Lemma writable_value_write {W} `{Writer W} v :
  writable_value v → Writes (W:=W) (value_to_stream v) (as_bytes (value_http_value v)).
Proof.
  destruct v as [x|x|x|x|x|x|x|x|x|x|x]; intros Hv; try (exact (value_ok_write _ Hv)); apply Writes_write.
Qed.

Lemma write_header_bytes {W} `{Writer W} tbl h :
  table_ok tbl = true → header_writable tbl h → Writes (W:=W) (write_header tbl h) (wire_line tbl h).
Proof.
  intros Htbl [Hwt Hh]. unfold wire_line, write_header. destruct h as [i v|name value]; cbn [header_name header_value].
  - destruct Hwt as (r & Hr & _).
    assert (Hname : as_bytes (row_output tbl i) = row_output tbl i).
    { unfold table_ok in Htbl. apply andb_true_iff in Htbl as [Hrows%forallb_Forall _]. rewrite Forall_lookup in Hrows.
      unfold row_output. rewrite Hr. apply token_bytes. by destruct (row_ok_token r (Hrows i r Hr)). }
    rewrite !as_bytes_app, Hname. rewrite <-!app_assoc, (app_assoc (row_output tbl i)).
    apply Writes_bind; [apply Writes_write|]. apply Writes_bind; [by apply writable_value_write|apply Writes_write].
  - apply Writes_bind; apply Writes_write.
Qed.

Lemma write_header_writes {W} `{Writer W} tbl h :
  table_ok tbl = true → header_ok tbl h → Writes (W:=W) (write_header tbl h) (line_of tbl h).
Proof.
  intros Htbl Hh. rewrite <-wire_line_ok by done. by apply write_header_bytes, header_ok_writable.
Qed.

(** The name loop reads a token up to the colon. *)
Lemma name_loop_read {R} `{ByteSource R} fuel l name : ∀ fuel' st acc (r : R),
  (0 < fuel)%nat → (length name < fuel')%nat → source_inv r →
  Forall (λ b, is_token_item b = true) name → (st = Start ∨ st = ReadingName) →
  pending r = name ++ COLON :: l →
  ∃ r', loop fuel' (name_body fuel) (st, acc) r = Done (Ok (acc ++ name), r')
    ∧ source_inv r' ∧ pending r' = l.
Proof.
  induction name as [|b name IH]; intros fuel' st acc r Hf Hl Hi Ht Hst Hp;
    (destruct fuel' as [|fuel']; [simpl in Hl; lia|]);
    destruct (read_source fuel r Hi Hf) as (r' & Hi' & Hr); rewrite Hp in Hr; destruct Hr as [E Hp'].
  - exists r'. rewrite app_nil_r. split; [|done]. eapply loop_break. unfold name_body.
    rewrite (bind_Done _ _ _ _ _ E). by destruct Hst as [-> | ->].
  - apply Forall_cons in Ht as [Hb Ht].
    destruct (IH fuel' ReadingName (acc ++ [b]) r') as (r2 & E2 & Hi2 & Hp2);
      [done|simpl in Hl; lia|done|done|by right|done|].
    exists r2. split; [|done]. rewrite (loop_continue _ _ _ _ (ReadingName, acc ++ [b]) r').
    + by rewrite E2, <-app_assoc.
    + unfold name_body. rewrite (bind_Done _ _ _ _ _ E). cbn beta iota zeta. rewrite Hb.
      by destruct Hst as [-> | ->].
Qed.

(** The value of a line, up to the byte after its end. *)
Lemma header_line_value_read {R} `{ByteSource R} tbl h fuel (r : R) rest :
  table_ok tbl = true → header_ok tbl h → source_inv r → (length (pending r) < fuel)%nat →
  unfold_value true false (pending r) = (header_value h, rest) →
  ∃ r', header_line_value tbl fuel (header_name tbl h) r = Done ((Ok h, head rest), r')
    ∧ source_inv r' ∧ pending r' = tail rest.
Proof.
  intros Htbl Hh Hi Hf E. destruct (header_ok_spec tbl h Htbl Hh) as (Hname & _ & Hread).
  pose proof (new_Reads r (length (pending r)) Hi ltac:(lia)) as HR. rewrite E in HR.
  destruct (Hread R _ _ _ _ fuel rest Hf HR) as (it1 & E1 & HR1).
  destruct (drain_spec _ fuel it1 [] rest Hf HR1) as (it2 & E2 & [HR2 _] & Hfin).
  destruct HR2 as (Hi2 & _ & HE). rewrite Hfin in HE. destruct HE as (_ & HE & Hnb).
  exists (it_reader it2). split_and?; [|done|].
  - unfold header_line_value, header_of_iter.
    rewrite bind_unfold. unfold call, normalise_header_name. rewrite normalise_go_ascii.
    + cbn beta iota. rewrite (bind_Done _ _ _ _ _ E1), (bind_Done _ _ _ _ _ E2), bind_gets.
      by rewrite Hnb.
    + apply is_ascii_Forall. eapply Forall_impl; [apply Hname|]. intros b. apply token_item_ascii.
  - unfold stream in HE. rewrite Hnb in HE. destruct rest as [|c rest]; simpl in *; [done|].
    by injection HE.
Qed.

(** A line whose value unfolds to the value of [h], whatever follows it. *)
Lemma header_enum_read {R} `{ByteSource R} tbl h fuel (r : R) l rest :
  table_ok tbl = true → header_ok tbl h → source_inv r → (length (pending r) < fuel)%nat →
  pending r = header_name tbl h ++ COLON :: l → unfold_value true false l = (header_value h, rest) →
  ∃ r', header_enum_from_stream tbl fuel r = Done ((Ok h, head rest), r')
    ∧ source_inv r' ∧ pending r' = tail rest.
Proof.
  intros Htbl Hh Hi Hf Hp El. destruct (header_ok_spec tbl h Htbl Hh) as ([Hn0 Hname] & _).
  rewrite Hp, length_app in Hf. simpl in Hf.
  destruct (name_loop_read fuel l (header_name tbl h) fuel Start [] r) as (r1 & E1 & Hi1 & Hp1);
    [lia|lia|done|done|by left|done|].
  destruct (header_line_value_read tbl h fuel r1 rest Htbl Hh Hi1) as (r' & E' & Hr');
    [rewrite Hp1; lia|by rewrite Hp1|].
  exists r'. split; [|done]. unfold header_enum_from_stream. by rewrite (bind_Done _ _ _ _ _ E1).
Qed.

(** The first byte of a name, after which the last byte can be put back. *)
Lemma read_byte_fresh {R} `{HS : ByteSource R} fuel (r : R) :
  source_inv r → (0 < fuel)%nat →
  ∃ r', read_byte_util fuel r = Done (head (pending r), r')
    ∧ source_inv r' ∧ source_fresh r' ∧ pending r' = tail (pending r).
Proof.
  intros Hi Hf. destruct (msim_Done _ _ _ _ r (pending r) (head (pending r)) (tail (pending r))
    (read_byte_util_sim fuel)) as (r' & E & [[Hi' Hp'] Hf']); [done| |by exists r'].
  rewrite read_byte_util_list by done. by destruct (pending r).
Qed.

(** After a line has been read, its last byte can be put back. *)
Lemma header_enum_read_fresh {R} {HR : Reader R} {HS : ByteSource R} tbl h fuel (r : R) l rest :
  table_ok tbl = true → header_ok tbl h → source_inv r → (length (pending r) < fuel)%nat →
  pending r = header_name tbl h ++ COLON :: l → unfold_value true false l = (header_value h, rest) →
  ∃ r', header_enum_from_stream tbl fuel r = Done ((Ok h, head rest), r')
    ∧ source_inv r' ∧ source_fresh r' ∧ pending r' = tail rest.
Proof.
  intros Htbl Hh Hi Hf Hp El. destruct (header_ok_spec tbl h Htbl Hh) as ([Hn0 Hname] & _).
  destruct (read_byte_fresh fuel r Hi ltac:(lia)) as (r0 & E0 & Hi0 & Hf0 & Hp0).
  destruct (header_name tbl h) as [|b name] eqn:En; [done|].
  rewrite Hp in E0, Hp0. cbn [app head tail] in E0, Hp0.
  apply Forall_cons in Hname as [Hb Hname]. rewrite Hp in Hf. simpl in Hf. rewrite length_app in Hf. simpl in Hf.
  destruct fuel as [|fuel]; [lia|].
  assert (Eb : name_body (S fuel) (Start, []) r = Done (inl (ReadingName, [b]), r0)).
  { unfold name_body. rewrite (bind_Done _ _ _ _ _ E0). cbn beta iota zeta. by rewrite Hb. }
  destruct (name_loop_read (H2:=fresh_source HS) (S fuel) l name fuel ReadingName [b] r0) as (r1 & E1 & Hi1 & Hp1);
    [lia|lia|done|done|by right|done|].
  destruct (header_line_value_read (H2:=fresh_source HS) tbl h (S fuel) r1 rest Htbl Hh Hi1) as (r' & E' & [Hi' Hf'] & Hp');
    [rewrite Hp1; lia|by rewrite Hp1|].
  exists r'. split; [|done]. unfold header_enum_from_stream.
  rewrite En in E'. rewrite (bind_Done _ _ _ _ _ (eq_trans (loop_continue _ _ _ _ _ _ Eb) E1)). exact E'.
Qed.

(** The empty line, and the end of input. *)
Lemma header_enum_end {R} {HR : Reader R} {HS : ByteSource R} tbl fuel (r : R) rest :
  source_inv r → (2 < fuel)%nat → pending r = CR :: LF :: rest →
  ∃ r', header_enum_from_stream tbl fuel r = Done ((Err EndOfHeaders, None), r')
    ∧ source_inv r' ∧ pending r' = rest.
Proof.
  intros Hi Hf Hp. destruct fuel as [|[|fuel]]; [lia..|].
  destruct (read_byte_fresh (S (S fuel)) r Hi ltac:(lia)) as (r1 & E1 & Hi1 & _ & Hp1).
  destruct (read_byte_fresh (S (S fuel)) r1 Hi1 ltac:(lia)) as (r2 & E2 & Hi2 & _ & Hp2).
  rewrite Hp in E1, Hp1. cbn in E1, Hp1. rewrite Hp1 in E2, Hp2. cbn in E2, Hp2.
  exists r2. split; [|done]. unfold header_enum_from_stream.
  assert (Eb : name_body (S (S fuel)) (Start, []) r = Done (inl (GotCR, []), r1))
    by (unfold name_body; by rewrite (bind_Done _ _ _ _ _ E1)).
  assert (Ec : name_body (S (S fuel)) (GotCR, []) r1 = Done (inr (Err EndOfHeaders), r2))
    by (unfold name_body; by rewrite (bind_Done _ _ _ _ _ E2)).
  by rewrite (bind_Done _ _ _ _ _ (eq_trans (loop_continue _ _ _ _ _ _ Eb) (loop_break _ _ _ _ _ _ Ec))).
Qed.

Lemma header_enum_eof {R} {HR : Reader R} {HS : ByteSource R} tbl fuel (r : R) :
  source_inv r → (0 < fuel)%nat → pending r = [] →
  ∃ r', header_enum_from_stream tbl fuel r = Done ((Err EndOfFile, None), r').
Proof.
  intros Hi Hf Hp. destruct (read_byte_fresh fuel r Hi Hf) as (r1 & E1 & _). rewrite Hp in E1.
  exists r1. destruct fuel as [|fuel]; [lia|]. unfold header_enum_from_stream.
  assert (Eb : name_body (S fuel) (Start, []) r = Done (inr (Err EndOfFile), r1))
    by (unfold name_body; by rewrite (bind_Done _ _ _ _ _ E1)).
  by rewrite (bind_Done _ _ _ _ _ (loop_break _ _ _ _ _ _ Eb)).
Qed.

(** ** What the parser returns, on any input

    A known header has a value of the type of its row, and the tokens of a
    Connection header are in normal form. *)
Definition normal_connection (c : Connection) : Prop :=
  match c with Close => True | Token s => normal_form true s = s end.
Definition value_normal (v : HeaderValue) : Prop :=
  match v with VConnections cs => Forall normal_connection cs | _ => True end.
Definition header_read tbl (h : Header) : Prop :=
  well_typed tbl h ∧ match h with Known _ v => value_normal v | ExtensionHeader _ _ => True end.

Lemma connections_read {R} `{Reader R} fuel :
  rets (list_from_stream (T:=Connection) (R:=R) fuel)
    (λ o, match o with Some cs => Forall normal_connection cs | None => True end).
Proof.
  apply (rets_loop fuel _ (Forall normal_connection)); [|done]. intros cs Hcs. unfold list_from_body.
  eapply (rets_bind _ _ (λ o, match o with Some c => normal_connection c | None => True end)).
  - apply rets_seq. intros [s|]; [|by apply rets_ret].
    apply (rets_bind _ _ (λ t, normal_form true t = t)).
    + intros st t st'. unfold call. destruct (normalise_header_name s) eqn:E; [|done|done].
      intros [= <- <-]. by eapply normalise_result.
    + intros t Ht. apply rets_ret. by case_bool_decide.
  - intros [c|] Hc; [|by apply rets_ret]. apply rets_seq. intros []; apply rets_ret; [..|done];
      apply Forall_app; auto.
Qed.

Lemma value_of_kind_read {R} `{Reader R} k fuel :
  rets (value_of_kind (R:=R) k fuel)
    (λ o, match o with Some v => kind_of v = k ∧ value_normal v | None => True end).
Proof.
  destruct k; try (apply rets_seq; intros [x|]; by apply rets_ret).
  eapply rets_bind; [apply connections_read|]. intros [cs|] Hcs; by apply rets_ret.
Qed.

Lemma find_row_sound name rows : ∀ i j r, find_row name i rows = Some (j, r) → rows !! (j - i)%nat = Some r ∧ (i ≤ j)%nat.
Proof.
  induction rows as [|r0 rows IH]; intros i j r; [done|]. cbn [find_row]. case_bool_decide.
  - intros [= <- <-]. by rewrite Nat.sub_diag.
  - intros [E Hle]%IH. split; [|lia]. by replace (j - i)%nat with (S (j - S i)) by lia.
Qed.

Lemma value_from_stream_read {R} `{Reader R} tbl fuel name :
  rets (value_from_stream (R:=R) tbl fuel name) (λ o, match o with Some h => header_read tbl h | None => True end).
Proof.
  unfold value_from_stream. destruct (find_row name 0 tbl) as [[i r]|] eqn:Er.
  - eapply rets_bind; [apply value_of_kind_read|]. intros [v|] Hv; apply rets_ret; [|done].
    apply find_row_sound in Er as [Hr _]. rewrite Nat.sub_0_r in Hr. destruct Hv as [Hk Hn].
    split; [|done]. exists r. by rewrite Hk.
  - apply rets_seq. intros s. by apply rets_ret.
Qed.

Lemma header_enum_read_any {R} `{Reader R} tbl fuel :
  rets (header_enum_from_stream (R:=R) tbl fuel) (λ r, match r.1 with Ok h => header_read tbl h | Err _ => True end).
Proof.
  apply rets_seq. intros [name|e]; [|by apply rets_ret]. intros r a r'. unfold header_line_value.
  assert (Hit : rets (header_of_iter (R:=R) tbl fuel name) (λ o, match o.1 with Some h => header_read tbl h | None => True end)).
  { apply rets_seq. intros n. eapply rets_bind; [apply value_from_stream_read|]. intros o Ho.
    apply rets_seq. intros _. apply rets_seq. intros nb. by apply rets_ret. }
  destruct (header_of_iter tbl fuel name (Iter.new r)) as [[[[h|] nb] it]| |] eqn:E; try done.
  - apply Hit in E. by intros [= <- <-].
  - by intros [= <- <-].
Qed.

(** ** Reading a header never fails the task, on any input *)
Lemma read_byte_util_safe {R} {HR : Reader R} {HS : ByteSource R} fuel :
  safe source_inv (read_byte_util (R:=R) fuel) (λ _ r, source_inv r ∧ source_fresh r).
Proof.
  intros r Hi. destruct fuel as [|fuel]; [done|].
  destruct (read_byte_fresh (S fuel) r Hi) as (r' & E & Hi' & Hf' & _); [lia|]. by rewrite E.
Qed.

Lemma value_from_stream_safe {R} {HR : Reader R} {HS : ByteSource R} tbl fuel name :
  safe (iter_ok (R:=R)) (value_from_stream tbl fuel name) (λ _, iter_ok).
Proof.
  unfold value_from_stream. destruct (find_row name 0 tbl) as [[i r]|]; [|value_safe].
  apply iter_bind_safe; [|value_safe].
  destruct (row_kind r); (apply iter_bind_safe; [apply read_safe|value_safe]).
Qed.

Lemma header_line_value_safe {R} {HR : Reader R} {HS : ByteSource R} tbl fuel name :
  is_ascii name = true → safe source_inv (header_line_value (R:=R) tbl fuel name) (λ _, source_inv).
Proof.
  intros Hn r Hi. unfold header_line_value.
  assert (Hs : safe (iter_ok (R:=R)) (header_of_iter tbl fuel name) (λ _, iter_ok)).
  { unfold header_of_iter. apply iter_bind_safe.
    - intros it Hit. unfold call, normalise_header_name. by rewrite normalise_go_ascii.
    - intros n. apply iter_bind_safe; [apply value_from_stream_safe|]. intros h.
      apply iter_bind_safe; [apply drain_safe|]. intros _. apply iter_bind_safe; [by intros it Hit|]. value_safe. }
  specialize (Hs (Iter.new r) Hi). by destruct (header_of_iter tbl fuel name (Iter.new r)) as [[[[h|] nb] it]| |].
Qed.

(** The name is ASCII, and after the name loop a byte has been read. *)
Lemma name_loop_safe {R} {HR : Reader R} {HS : ByteSource R} fuel :
  safe source_inv (loop fuel (name_body (R:=R) fuel) (Start, []))
    (λ r s, (source_inv s ∧ source_fresh s) ∧ match r with Ok name => is_ascii name = true | Err _ => True end).
Proof.
  intros s Hs. apply (safe_loop fuel (name_body fuel) (λ sn s, source_inv s ∧ is_ascii sn.2 = true)); [|done].
  clear s Hs. intros [st name]. apply safe_pure. cbn [snd]. intros Hname.
  eapply safe_bind; [apply read_byte_util_safe|]. intros [b|]; [|by apply safe_ret; intros s ?].
  assert (Hb : is_token_item b = true → is_ascii (name ++ [b]) = true).
  { intros Hb. rewrite is_ascii_app, Hname. apply is_ascii_Forall. repeat constructor. by apply token_item_ascii. }
  repeat (apply safe_if; let Hif := fresh "Hif" in intros Hif); apply safe_ret; intros s [Hi Hf]; simpl; try done.
  split; [done|]. apply Hb. by apply andb_true_iff in Hif as [_ ?].
Qed.

Lemma header_enum_safe {R} {HR : Reader R} {HS : ByteSource R} tbl fuel :
  safe source_inv (header_enum_from_stream (R:=R) tbl fuel) (λ _ s, source_inv s ∧ source_fresh s).
Proof.
  eapply safe_bind; [apply name_loop_safe|]. intros [name|e].
  - apply safe_pure. intros Hn. apply (header_line_value_safe (HS:=fresh_source HS) tbl fuel name Hn).
  - apply safe_ret. by intros s [? _].
Qed.

(** The value of a line: followed by another line, or by the end of input. *)
Lemma header_value_line tbl h c rest :
  table_ok tbl = true → header_ok tbl h → is_lws c = false →
  unfold_value true false (SP :: header_value h ++ [CR; LF] ++ c :: rest) = (header_value h, c :: rest).
Proof.
  intros Htbl Hh Hc. destruct (header_ok_spec tbl h Htbl Hh) as (_ & [Hval Hfirst] & _).
  pose proof (unfold_value_message [SP] (header_value h) [] c rest) as E.
  cbn [mbind list_bind app] in E. rewrite app_nil_r in E. apply E; try done.
  - by destruct (header_value h).
  - eapply Forall_impl; [exact Hval|]. by intros b [_ ?].
Qed.

Lemma header_value_eof tbl h :
  table_ok tbl = true → header_ok tbl h →
  unfold_value true false (SP :: header_value h ++ [CR; LF]) = (header_value h, []).
Proof.
  intros Htbl Hh. destruct (header_ok_spec tbl h Htbl Hh) as (_ & [Hval Hfirst] & _).
  change (unfold_value true false (SP :: ?l)) with (unfold_value true false l).
  destruct (header_value h) as [|b v]; [done|].
  apply Forall_cons in Hval as [Hb Hval]. cbn [app]. rewrite unfold_value_first by (done || apply Hb).
  change (b :: v ++ ?l) with ((b :: v) ++ l). rewrite unfold_value_text; [by rewrite app_nil_r|].
  constructor; [apply Hb|]. eapply Forall_impl; [exact Hval|]. by intros c [_ ?].
Qed.
End Lines.


(** URLs kept as text and dates as numbers of seconds, for the examples. *)
Definition text_urls : UrlOps :=
  {| Url := header_str; url_from_str s := Some (HeaderStr s); url_to_str := str_value |}.
Definition second_times : TimeOps :=
  {| Tm := uint;
     strptime s _ := match uint_from_str s with Some n => Ok n | None => Err s end;
     strftime n _ := uint_to_str n;
     to_utc n := n |}.


(** ** Iterating over a collection and writing it *)
Section Collections.
Context `{UrlOps} `{TimeOps}.

Fixpoint known_from (k : nat) (fs : list (option HeaderValue)) : list Header :=
  match fs with
  | [] => []
  | Some v :: fs' => Known k v :: known_from (S k) fs'
  | None :: fs' => known_from (S k) fs'
  end.
Lemma known_from_length fs k : (length (known_from k fs) ≤ length fs)%nat.
Proof.
  revert k. induction fs as [|[v|] fs IH]; intros k; simpl; [done| |]; specialize (IH (S k)); lia.
Qed.
Definition extension (kv : str * str) : Header := ExtensionHeader kv.1 kv.2.
(** The headers of a collection: the fields that are set, in the order of the
    table, then the extensions, in the order of their names. *)
Definition headers_of (c : HeaderCollection) : list Header :=
  known_from 0 (fields c) ++ (extension <$> extensions c).

(** The headers an iterator has still to return. *)
Definition remaining (n : nat) (it : HeaderCollectionIterator) : list Header :=
  if decide (pos it ≤ n)%nat
  then known_from (pos it) (drop (pos it) (fields (coll it))) ++ (extension <$> extensions (coll it))
  else extension <$> default [] (ext_iter it).
Definition coll_wf (n : nat) (it : HeaderCollectionIterator) : Prop :=
  length (fields (coll it)) = n ∧ ((n < pos it)%nat → ext_iter it ≠ None).

(** One round of the iterator's loop. *)
Lemma coll_next_body_spec n it :
  coll_wf n it →
  ∃ o it', coll_next_body n tt it = Done (o, it') ∧ coll_wf n it' ∧
    match o with
    | inl _ => remaining n it' = remaining n it ∧ (pos it ≤ n)%nat ∧ pos it' = S (pos it)
    | inr None => remaining n it = [] ∧ remaining n it' = []
    | inr (Some h) => remaining n it = h :: remaining n it'
    end.
Proof.
  intros [Hlen Hext]. destruct it as [p c e]. cbn [pos coll ext_iter] in *. unfold coll_next_body.
  rewrite bind_modify, !bind_gets. cbn [pos coll ext_iter]. rewrite Nat.add_sub.
  unfold remaining. cbn [pos coll ext_iter].
  destruct (Nat.ltb_spec p n) as [Hp|Hp].
  - destruct (lookup_lt_is_Some_2 (fields c) p ltac:(lia)) as [o Ho].
    assert (Hget : collection_get p c = o) by (unfold collection_get; by rewrite Ho).
    rewrite Hget, (drop_S _ _ _ Ho). rewrite (decide_True _ _ (P:=(p ≤ n)%nat)) by lia.
    destruct o as [v|].
    + eexists (inr (Some (Known p v))), _. split; [done|]. split; [split; [done|cbn; lia]|].
      cbn [pos coll]. rewrite decide_True by lia. cbn [known_from app]. by rewrite Nat.add_1_r.
    + eexists (inl tt), _. split; [done|]. split; [split; [done|cbn; lia]|].
      cbn [pos coll]. rewrite decide_True by lia. rewrite Nat.add_1_r. split_and!; [done|lia|done].
  - destruct (Nat.eqb_spec p n) as [->|Hne].
    + rewrite bind_modify. eexists (inl tt), _. split; [done|]. split; [split; [done|done]|].
      cbn [pos coll ext_iter]. rewrite decide_False by lia. rewrite decide_True by lia.
      rewrite drop_ge by lia. split_and!; [done|lia|lia].
    + rewrite bind_gets. cbn [ext_iter]. rewrite (decide_False _ _ (P:=(p ≤ n)%nat)) by lia.
      destruct e as [[|[k v] l]|]; [..|by destruct Hext; [lia|]].
      * eexists (inr None), _. split; [done|]. split; [by split|]. cbn [pos ext_iter].
        by rewrite decide_False by lia.
      * rewrite bind_modify. eexists (inr (Some (ExtensionHeader k v))), _. split; [done|].
        split; [by split|]. cbn [pos ext_iter]. by rewrite decide_False by lia.
Qed.

Lemma coll_next_spec n fuel it :
  coll_wf n it → (n + 2 - pos it ≤ fuel)%nat → (0 < fuel)%nat →
  ∃ it', coll_next n fuel it = Done (head (remaining n it), it') ∧ coll_wf n it'
    ∧ remaining n it' = tail (remaining n it).
Proof.
  unfold coll_next. revert it. induction fuel as [|fuel IH]; intros it Hwf Hf H0'; [lia|].
  destruct (coll_next_body_spec n it Hwf) as (o & it1 & E & Hwf1 & Ho). destruct o as [[]|[h|]].
  - destruct Ho as (Hr & Hp & Hp1). rewrite (loop_continue _ _ _ _ _ _ E).
    destruct (IH it1) as (it' & E' & ?); [done|lia|lia|]. rewrite <-Hr. by exists it'.
  - rewrite (loop_break _ _ _ _ _ _ E), Ho. by exists it1.
  - rewrite (loop_break _ _ _ _ _ _ E). destruct Ho as [-> Ho]. by exists it1.
Qed.

Lemma write_all_loop {W} `{Writer W} tbl fuel fuel' it :
  table_ok tbl = true → coll_wf (length tbl) it → Forall (header_writable tbl) (remaining (length tbl) it) →
  (length tbl + 2 ≤ fuel)%nat → (length (remaining (length tbl) it) < fuel')%nat →
  Writes (W:=W) (loop fuel' (write_all_body tbl fuel) it) (remaining (length tbl) it ≫= wire_line tbl).
Proof.
  intros Htbl. remember (remaining (length tbl) it) as hs eqn:Ehs. revert it fuel' Ehs.
  induction hs as [|h hs IH]; intros it fuel' Ehs Hwf Hok Hf Hf'; symmetry in Ehs;
    (destruct fuel' as [|fuel']; [simpl in Hf'; lia|]);
    destruct (coll_next_spec (length tbl) fuel it Hwf) as (it' & E & Hwf' & Hr); [lia|lia| |lia|lia|];
    rewrite Ehs in E, Hr; simpl in Hr.
  - exists []. split; [done|]. intros w. rewrite loop_S. unfold write_all_body.
    rewrite bind_assoc, bind_unfold. unfold call. by rewrite E.
  - apply Forall_cons in Hok as [Hh Hok].
    destruct (IH it' fuel') as (bs & Hbs & HW); [by rewrite Hr|done|done|done|simpl in Hf'; lia|].
    destruct (write_header_bytes (W:=W) tbl h Htbl Hh) as (bh & Hbh & HWh).
    exists (bh ++ bs). split; [by rewrite concat_app, Hbh, Hbs|].
    intros w. rewrite loop_S, for_each_app, !bind_unfold.
    assert (Eb : write_all_body tbl fuel it w = (write_header tbl h;; continue it') w).
    { unfold write_all_body. rewrite bind_unfold. unfold call. by rewrite E. }
    rewrite Eb, bind_unfold, HWh.
    destruct (for_each bh writer_write w) as [[[] w1]| |]; [|done|done]. rewrite <-HW. done.
Qed.

Lemma write_all_writes {W} `{Writer W} tbl fuel c :
  table_ok tbl = true → length (fields c) = length tbl → Forall (header_writable tbl) (headers_of c) →
  (length tbl + length (extensions c) + 2 ≤ fuel)%nat →
  Writes (W:=W) (write_all tbl fuel c) ((headers_of c ≫= wire_line tbl) ++ [CR; LF]).
Proof.
  intros Htbl Hlen Hok Hf.
  assert (Er : remaining (length tbl) (coll_iter c) = headers_of c).
  { unfold remaining. cbn [coll_iter pos coll]. by rewrite decide_True by lia. }
  pose proof (known_from_length (fields c) 0) as Hl.
  apply Writes_bind; [|apply Writes_write]. rewrite <-Er. apply write_all_loop; [done|..].
  - split; [done|]. cbn. lia.
  - by rewrite Er.
  - lia.
  - rewrite Er. unfold headers_of. rewrite length_app, length_fmap. lia.
Qed.

(** Inserting in the sorted association list. *)
Fixpoint assoc (k : str) (m : list (str * str)) : option str :=
  match m with
  | [] => None
  | (k', v) :: m' => if bool_decide (as_bytes k = as_bytes k') then Some v else assoc k m'
  end.

Lemma bytes_lt_irrefl a : bytes_lt a a = false.
Proof. induction a as [|x a IH]; [done|]. simpl. by rewrite Z.ltb_irrefl. Qed.

Lemma bytes_lt_total a b : bytes_lt a b = false → bytes_lt b a = false → a = b.
Proof.
  revert b. induction a as [|x a IH]; intros [|y b] H1 H2; try done. simpl in *.
  destruct (Z.ltb_spec x y), (Z.ltb_spec y x); try done. f_equal; [lia|auto].
Qed.

Lemma bytes_lt_trans a b c : bytes_lt a b = true → bytes_lt b c = true → bytes_lt a c = true.
Proof.
  revert b c. induction a as [|x a IH]; intros [|y b] [|z c] H1 H2; try done. simpl in *.
  destruct (Z.ltb_spec x y), (Z.ltb_spec y z), (Z.ltb_spec x z), (Z.ltb_spec z x),
    (Z.ltb_spec y x), (Z.ltb_spec z y); try done; try lia. eauto.
Qed.

Definition keys_sorted (m : list (str * str)) : Prop :=
  StronglySorted (λ a b, key_lt a.1 b.1 = true) m.

Lemma tree_insert_Forall P k v m :
  P (k, v) → Forall P m → Forall P (tree_insert k v m).
Proof.
  intros Hk Hm. induction Hm as [|[k' v'] m Hk' Hm IH]; simpl; [by repeat constructor|].
  repeat case_match; by repeat constructor.
Qed.

Lemma key_lt_Forall k k' (m : list (str * str)) :
  key_lt k k' = true → Forall (λ b, key_lt k' b.1 = true) m → Forall (λ b, key_lt k b.1 = true) m.
Proof.
  intros Hk Hm. eapply Forall_impl; [exact Hm|]. intros [k2 v2]. simpl. by apply bytes_lt_trans.
Qed.

Lemma key_eq k k' : key_lt k k' = false → key_lt k' k = false → as_bytes k = as_bytes k'.
Proof. intros H1 H2. by apply bytes_lt_total. Qed.

Lemma tree_insert_sorted k v m : keys_sorted m → keys_sorted (tree_insert k v m).
Proof.
  unfold keys_sorted. induction 1 as [|[k' v'] m Hm IH Hk']; simpl; [by repeat constructor|].
  destruct (key_lt k k') eqn:E1; [|destruct (key_lt k' k) eqn:E2].
  - constructor; [by constructor|]. constructor; [done|]. by eapply key_lt_Forall.
  - constructor; [done|]. apply tree_insert_Forall; [done|]. done.
  - constructor; [done|]. simpl in *. eapply Forall_impl; [exact Hk'|]. intros [k2 v2]. simpl.
    unfold key_lt. by rewrite (key_eq k k' E1 E2).
Qed.

Lemma assoc_tree_insert k v k' m :
  assoc k' (tree_insert k v m)
  = if bool_decide (as_bytes k' = as_bytes k) then Some v else assoc k' m.
Proof.
  induction m as [|[k2 v2] m IH]; simpl; [done|].
  destruct (key_lt k k2) eqn:E1; [done|]. destruct (key_lt k2 k) eqn:E2; simpl.
  - rewrite IH. case_bool_decide as Hb2; [|done]. rewrite bool_decide_false; [done|].
    intros Hb. unfold key_lt in E2. by rewrite <-Hb, Hb2, bytes_lt_irrefl in E2.
  - rewrite (key_eq k k2 E1 E2). by destruct (bool_decide (as_bytes k' = as_bytes k2)).
Qed.
End Collections.

(** C27. [write_all] writes each header of the collection once: the fields
    that are set in the order of the table, then the extensions, each on a
    line of its own, and an empty line at the end; and the iterator it runs
    never fails its [get_mut_ref]. *)
Theorem write_all_correct `{UrlOps} `{TimeOps} {W} `{ByteSink W} tbl (c : HeaderCollection) (w : W) fuel :
  tbl = request_table ∨ tbl = response_table → length (fields c) = length tbl →
  Forall (header_writable tbl) (headers_of c) →
  (length tbl + length (extensions c) + 2 ≤ fuel)%nat →
  ∃ w', write_all tbl fuel c w = Done (tt, w')
    ∧ sent w' = sent w ++ (headers_of c ≫= wire_line tbl) ++ [CR; LF].
Proof.
  intros Htbl%tables_ok Hlen Hok Hf. by apply Writes_sink, write_all_writes.
Qed.

Lemma write_all_correct_witness :
  let c := mkCollection (H:=text_urls) (H0:=second_times)
             (<[request.content_length := Some (VUint 12)]> (replicate 38 None)) [(lit "X-A", lit "b")] in
  ∃ w', write_all request_table 50 c (mkMemWriter []) = Done (tt, w')
    ∧ sent w' = sent (mkMemWriter []) ++ (headers_of c ≫= wire_line request_table) ++ [CR; LF].
Proof.
  intros c. apply (write_all_correct (H:=text_urls) (H0:=second_times)); [by left|reflexivity| |vm_compute; lia].
  assert (headers_of c = [Known 31 (VUint 12); ExtensionHeader (lit "X-A") (lit "b")]) as -> by reflexivity.
  apply Forall_cons. split; [|apply Forall_cons; split; [|constructor]]; [|split; exact I].
  split; [by eexists|]. unfold writable_value, value_ok. cbn [wire_ok uint_wire]. lia.
Defined.

(** A collection is a map from header names to values: after an insertion
    the header is there, replacing one of the same name, every other header is
    as before, and the extensions stay sorted. *)
Theorem collection_insert_correct `{UrlOps} `{TimeOps} (c : HeaderCollection) i v k s :
  (i < length (fields c))%nat → keys_sorted (extensions c) →
  (collection_get i (collection_insert (Known i v) c) = Some v
   ∧ (∀ j, j ≠ i → collection_get j (collection_insert (Known i v) c) = collection_get j c)
   ∧ extensions (collection_insert (Known i v) c) = extensions c)
  ∧ (assoc k (extensions (collection_insert (ExtensionHeader k s) c)) = Some s
     ∧ (∀ k', as_bytes k' ≠ as_bytes k →
          assoc k' (extensions (collection_insert (ExtensionHeader k s) c)) = assoc k' (extensions c))
     ∧ fields (collection_insert (ExtensionHeader k s) c) = fields c
     ∧ keys_sorted (extensions (collection_insert (ExtensionHeader k s) c))).
Proof.
  intros Hi Hs. unfold collection_get, collection_insert. cbn [fields extensions]. split_and?.
  - by rewrite list_lookup_insert_eq.
  - intros j Hj. by rewrite list_lookup_insert_ne.
  - done.
  - rewrite assoc_tree_insert. by rewrite bool_decide_true.
  - intros k' Hk'. rewrite assoc_tree_insert. by rewrite bool_decide_false.
  - done.
  - by apply tree_insert_sorted.
Qed.

Lemma collection_insert_correct_witness :
  let c := mkCollection (H:=text_urls) (H0:=second_times) (replicate 38 None) [(lit "X-A", lit "b")] in
  collection_get 31 (collection_insert (Known 31 (VUint 12)) c) = Some (VUint 12)
  ∧ keys_sorted (extensions (collection_insert (ExtensionHeader (lit "X-B") (lit "c")) c)).
Proof.
  intros c.
  destruct (collection_insert_correct (H:=text_urls) (H0:=second_times) c 31 (VUint 12) (lit "X-B") (lit "c"))
    as [(H1 & _) (_ & _ & _ & H2)]; [vm_compute; lia|repeat constructor|].
  exact (conj H1 H2).
Defined.

(** At the end of the input there is no byte after the header: the last
    line is read and returned as a valid header with no next byte. *)
Theorem header_line_at_eof `{UrlOps} `{TimeOps} {R} `{ByteSource R} tbl h (r : R) fuel :
  tbl = request_table ∨ tbl = response_table → header_ok tbl h →
  source_inv r → (length (pending r) < fuel)%nat → pending r = line_of tbl h →
  ∃ r', header_enum_from_stream tbl fuel r = Done ((Ok h, None), r') ∧ pending r' = [].
Proof.
  intros Htbl%tables_ok Hh Hi Hf Hp.
  destruct (header_enum_read tbl h fuel r (SP :: header_value h ++ [CR; LF]) [] Htbl Hh Hi Hf Hp)
    as (r' & E & _ & Hp'); [by apply (header_value_eof tbl)|]. by exists r'.
Qed.

Lemma header_line_at_eof_witness :
  let h := Known (H:=text_urls) (H0:=second_times) response.content_length (VUint 5) in
  let r := mkMemReader (lit "Content-Length: 5" ++ [CR; LF]) 0 in
  ∃ r', header_enum_from_stream (H:=text_urls) (H0:=second_times) response_table 40 r = Done ((Ok h, None), r')
    ∧ pending r' = [].
Proof.
  intros h r. apply (header_line_at_eof (H:=text_urls) (H0:=second_times) response_table h r 40);
    [by right| |vm_compute; lia|vm_compute; lia|reflexivity].
  split; [by eexists|]. cbn [value_ok wire_ok uint_wire h]. lia.
Defined.
