(* ===== verification/Status.v ===== *)
(** * Status codes (src/libhttp/codegen/status.rs)

    The code generator holds the table of status codes and writes the module
    [http::status] from it.  The file models the table, the identifiers made
    from the reason phrases, and the functions of the generated module: its
    enumeration has one constructor per entry, named by the entry's
    identifier, and every [match] it has is one arm per entry, in order. *)

From S2P Require Import Prelude Strs.

(** ** The generator's table *)
Record Entry : Type := mkEntry { e_code : uint; e_reason : str; e_comment : option string }.
#[global] Instance Entry_eq_dec : EqDecision Entry.
Proof. solve_decision. Defined.
Inductive HeadingOrStatus : Type := Left (heading : string) | Right (status : Entry).
Definition StatusC (code : uint) (reason comment : string) : HeadingOrStatus :=
  Right (mkEntry code (lit reason) (Some comment)).
Definition StatusN (code : uint) (reason : string) : HeadingOrStatus :=
  Right (mkEntry code (lit reason) None).

Fixpoint camel_go (capitalise : bool) (msg : str) : res str :=
  match msg with
  | [] => Done []
  | c :: msg' =>
      if c <? 128 then
        let c := if capitalise then ascii_to_upper c else ascii_to_lower c in
        let capitalise := c =? chr " " in
        match camel_go capitalise msg' with
        | Done result => Done (if capitalise then result else c :: result)
        | Fail e => Fail e
        | Diverge => Diverge
        end
      else Fail "assertion failed: self.is_ascii()"
  end.
Definition camel_case (msg : str) : res str :=
  camel_go true (replace_char (chr "'") [] (replace_char (chr "-") [chr " "] msg)).

Definition entries : list HeadingOrStatus := [
  Left "1xx Informational";
  StatusN 100 "Continue";
  StatusN 101 "Switching Protocols";
  StatusC 102 "Processing" "WebDAV; RFC 2518";
  Left "2xx Success";
  StatusN 200 "OK";
  StatusN 201 "Created";
  StatusN 202 "Accepted";
  StatusC 203 "Non-Authoritative Information" "since HTTP/1.1";
  StatusN 204 "No Content";
  StatusN 205 "Reset Content";
  StatusN 206 "Partial Content";
  StatusC 207 "Multi-Status" "WebDAV; RFC 4918";
  StatusC 208 "Already Reported" "WebDAV; RFC 5842";
  StatusC 226 "IM Used" "RFC 3229";
  Left "3xx Redirection";
  StatusN 300 "Multiple Choices";
  StatusN 301 "Moved Permanently";
  StatusN 302 "Found";
  StatusC 303 "See Other" "since HTTP/1.1";
  StatusN 304 "Not Modified";
  StatusC 305 "Use Proxy" "since HTTP/1.1";
  StatusN 306 "Switch Proxy";
  StatusC 307 "Temporary Redirect" "since HTTP/1.1";
  StatusC 308 "Permanent Redirect" "approved as experimental RFC: http://tools.ietf.org/html/draft-reschke-http-status-308";
  Left "4xx Client Error";
  StatusN 400 "Bad Request";
  StatusN 401 "Unauthorized";
  StatusN 402 "Payment Required";
  StatusN 403 "Forbidden";
  StatusN 404 "Not Found";
  StatusN 405 "Method Not Allowed";
  StatusN 406 "Not Acceptable";
  StatusN 407 "Proxy Authentication Required";
  StatusN 408 "Request Timeout";
  StatusN 409 "Conflict";
  StatusN 410 "Gone";
  StatusN 411 "Length Required";
  StatusN 412 "Precondition Failed";
  StatusN 413 "Request Entity Too Large";
  StatusN 414 "Request-URI Too Long";
  StatusN 415 "Unsupported Media Type";
  StatusN 416 "Requested Range Not Satisfiable";
  StatusN 417 "Expectation Failed";
  StatusC 418 "I'm a teapot" "RFC 2324";
  StatusN 419 "Authentication Timeout";
  StatusC 422 "Unprocessable Entity" "WebDAV; RFC 4918";
  StatusC 423 "Locked" "WebDAV; RFC 4918";
  StatusC 424 "Failed Dependency" "WebDAV; RFC 4918";
  StatusC 424 "Method Failure" "WebDAV";
  StatusC 425 "Unordered Collection" "Internet draft";
  StatusC 426 "Upgrade Required" "RFC 2817";
  StatusC 428 "Precondition Required" "RFC 6585";
  StatusC 429 "Too Many Requests" "RFC 6585";
  StatusC 431 "Request Header Fields Too Large" "RFC 6585";
  StatusC 451 "Unavailable For Legal Reasons" "Internet draft";
  Left "5xx Server Error";
  StatusN 500 "Internal Server Error";
  StatusN 501 "Not Implemented";
  StatusN 502 "Bad Gateway";
  StatusN 503 "Service Unavailable";
  StatusN 504 "Gateway Timeout";
  StatusN 505 "HTTP Version Not Supported";
  StatusC 506 "Variant Also Negotiates" "RFC 2295";
  StatusC 507 "Insufficient Storage" "WebDAV; RFC 4918";
  StatusC 508 "Loop Detected" "WebDAV; RFC 5842";
  StatusC 510 "Not Extended" "RFC 2774";
  StatusC 511 "Network Authentication Required" "RFC 6585"
].

(** The entries without the headings, which only become comments. *)
Definition statuses : list Entry :=
  omap (λ e, match e with Right s => Some s | Left _ => None end) entries.
(** [ident]: the constructor's name; [camel_case] returns on every reason of
    the table. *)
Definition ident (e : Entry) : str :=
  match camel_case (e_reason e) with Done s => s | _ => [] end.

(** *** The layout of the generated text

    [longest_ident] and [longest_reason] are set before any text is written;
    [repeat] of a [uint] that wrapped around would fail on the size of the
    string. *)
Definition longest_ident : uint :=
  Z.of_nat (max_list_with (λ e, match e with Left _ => 0%nat | Right s => str_len (ident s) end) entries).
Definition longest_reason : uint :=
  Z.of_nat (max_list_with (λ e, match e with Left _ => 0%nat | Right s => str_len (e_reason s) end) entries).
Definition spaces (n : uint) : res str :=
  if n <? 2 ^ 63 then Done (replicate (Z.to_nat n) (chr " ")) else Fail "vector size is too large".
Definition padded_ident (e : Entry) : res str :=
  match spaces (wrap64 (longest_ident - Z.of_nat (str_len (ident e)))) with
  | Done s => Done (ident e ++ s)
  | Fail m => Fail m
  | Diverge => Diverge
  end.
Definition reason_padding_spaces (e : Entry) : res str :=
  spaces (wrap64 (longest_reason - Z.of_nat (str_len (e_reason e)))).

(** ** The generated module *)
Inductive Status : Type :=
  | Registered (name : str)
  | UnregisteredStatus (code : u16) (reason : str).
#[global] Instance Status_eq_dec : EqDecision Status.
Proof. solve_decision. Defined.

(** The arm of a [match] on the constructors. *)
Definition find_entry (p : Entry → bool) : option Entry := List.find p statuses.
Definition by_ident (name : str) : option Entry :=
  find_entry (λ e, bool_decide (ident e = name)).

Definition code (s : Status) : u16 :=
  match s with
  | Registered name => match by_ident name with Some e => e_code e | None => 0 end
  | UnregisteredStatus code _ => code
  end.
Definition reason (s : Status) : str :=
  match s with
  | Registered name => match by_ident name with Some e => e_reason e | None => [] end
  | UnregisteredStatus _ reason => reason
  end.
Definition from_code_and_reason (status : u16) (reason : str) : Status :=
  let reason_lower := to_ascii_lower reason in
  match find_entry (λ e, (status =? e_code e)
                         && bool_decide (reason_lower = to_ascii_lower (e_reason e))) with
  | Some e => Registered (ident e)
  | None => UnregisteredStatus status reason
  end.
Definition to_str (s : Status) : str := uint_to_str (code s) ++ [chr " "] ++ reason s.
(** [fmt::Default] and [fmt::Unsigned]: what is written to the formatter. *)
Definition fmt_Default (s : Status) : str := uint_to_str (code s) ++ [chr " "] ++ reason s.
Definition fmt_Unsigned (s : Status) : str := uint_to_str (code s).
Definition to_i64 (s : Status) : option Z := Some (code s).
Definition to_u64 (s : Status) : option u64 := Some (code s).
(** The arms written for [from_u64]: an entry whose code is already in
    [matched_numbers] gets none. *)
Fixpoint u64_arms (matched_numbers : list uint) (es : list Entry) : list Entry :=
  match es with
  | [] => []
  | e :: es' =>
      if decide (e_code e ∈ matched_numbers) then u64_arms matched_numbers es'
      else e :: u64_arms (e_code e :: matched_numbers) es'
  end.
Definition from_u64 (n : u64) : option Status :=
  Registered ∘ ident <$> List.find (λ e, n =? e_code e) (u64_arms [] statuses).
Definition from_i64 (n : Z) : option Status := if n <? 0 then None else from_u64 n.

(** The constructors the library uses. *)
Definition status_Ok : Status := Registered (lit "Ok").
Definition BadRequest : Status := Registered (lit "BadRequest").
Definition RequestUriTooLong : Status := Registered (lit "RequestUriTooLong").
Definition HttpVersionNotSupported : Status := Registered (lit "HttpVersionNotSupported").

(** ** Facts *)
(** Each entry is found under its identifier and under its code and reason. *)
Lemma statuses_checked :
  Forall (λ e, by_ident (ident e) = Some e
               ∧ from_code_and_reason (e_code e) (e_reason e) = Registered (ident e)
               ∧ camel_case (e_reason e) = Done (ident e)) statuses.
Proof. apply (bool_decide_unpack _). vm_compute. exact I. Qed.

Lemma status_checked e :
  e ∈ statuses → by_ident (ident e) = Some e
    ∧ from_code_and_reason (e_code e) (e_reason e) = Registered (ident e).
Proof.
  intros He. destruct (proj1 (Forall_forall _ _) statuses_checked e He) as (H1 & H2 & _).
  exact (conj H1 H2).
Qed.

#[local] Opaque statuses.

Lemma find_entry_Some p e : find_entry p = Some e → e ∈ statuses ∧ p e = true.
Proof.
  unfold find_entry. intros E. apply List.find_some in E as [He Hp].
  split; [|exact Hp]. apply list_elem_of_In. exact He.
Qed.

(** The values of the type: a constructor of the enumeration, or a code and a
    reason that no entry has. *)
Definition valid (s : Status) : Prop :=
  match s with
  | Registered name => ∃ e, e ∈ statuses ∧ name = ident e
  | UnregisteredStatus c r =>
      ∀ e, e ∈ statuses → c = e_code e → to_ascii_lower r ≠ to_ascii_lower (e_reason e)
  end.

Lemma from_code_and_reason_valid s : valid s → from_code_and_reason (code s) (reason s) = s.
Proof.
  destruct s as [name|c' r']; cbn [valid code reason].
  - intros (e & He & ->). destruct (status_checked e He) as [-> E]. exact E.
  - intros Hno. unfold from_code_and_reason. cbn zeta.
    destruct (find_entry _) as [e|] eqn:E; [|done].
    apply find_entry_Some in E as [He [Hc Hr]%andb_true_iff]. apply Z.eqb_eq in Hc.
    apply bool_decide_eq_true in Hr. by destruct (Hno e He Hc).
Qed.

(** C29. A status is determined by its code and reason: building it again from
    them gives the same status; and whatever code and reason come in, the
    status built has that code and, up to case, that reason. *)
Theorem status_round_trip s c r :
  (valid s → from_code_and_reason (code s) (reason s) = s)
  ∧ valid (from_code_and_reason c r) ∧ code (from_code_and_reason c r) = c
  ∧ to_ascii_lower (reason (from_code_and_reason c r)) = to_ascii_lower r.
Proof.
  split; [apply from_code_and_reason_valid|].
  unfold from_code_and_reason. cbn zeta. destruct (find_entry _) as [e|] eqn:E.
  - apply find_entry_Some in E as [He [Hc Hr]%andb_true_iff]. apply Z.eqb_eq in Hc as ->.
    apply bool_decide_eq_true in Hr. cbn [valid code reason].
    destruct (status_checked e He) as [-> _]. split; [by exists e|done].
  - split; [|done]. intros e He -> Hr. unfold find_entry in E.
    apply (List.find_none _ _) with (x := e) in E; [|by apply list_elem_of_In].
    by rewrite Z.eqb_refl, Hr, bool_decide_true in E.
Qed.

#[local] Transparent statuses.

Lemma teapot_valid : valid (Registered (lit "ImATeapot")).
Proof.
  exists (mkEntry 418 (lit "I'm a teapot") (Some "RFC 2324")).
  split; [|vm_compute; reflexivity]. apply (bool_decide_unpack _). vm_compute. exact I.
Qed.

Lemma status_round_trip_witness :
  let s := Registered (lit "ImATeapot") in from_code_and_reason (code s) (reason s) = s.
Proof.
  exact (proj1 (status_round_trip (Registered (lit "ImATeapot")) 0 []) teapot_valid).
Defined.

(** A status whose line can be read back: a code of at most three digits and a
    reason in ASCII without a line break; the registered ones are so. *)
Definition status_text (s : Status) : Prop :=
  0 ≤ code s < 1000 ∧ is_ascii (reason s) = true ∧ (13 ∉ reason s).

Lemma registered_text e : e ∈ statuses → status_text (Registered (ident e)).
Proof.
  intros He. assert (Hall : Forall (λ e, (0 ≤ e_code e < 1000) ∧ is_ascii (e_reason e) = true ∧ (13 ∉ e_reason e)) statuses)
    by (apply (bool_decide_unpack _); vm_compute; exact I).
  unfold status_text. cbn [code reason]. destruct (status_checked e He) as [-> _].
  exact (proj1 (Forall_forall _ _) Hall e He).
Qed.

(** What evaluation of the table shows. *)
Lemma arms_statuses : Forall (λ e, e ∈ statuses) (u64_arms [] statuses).
Proof. apply (bool_decide_unpack _). vm_compute. exact I. Qed.
Lemma arms_all_codes : Forall (λ c, c ∈ e_code <$> u64_arms [] statuses) (e_code <$> statuses).
Proof. apply (bool_decide_unpack _). vm_compute. exact I. Qed.
Lemma idents_NoDup : NoDup (ident <$> statuses).
Proof. apply (bool_decide_unpack _). vm_compute. exact I. Qed.
Lemma arms_NoDup : NoDup (e_code <$> u64_arms [] statuses).
Proof. apply (bool_decide_unpack _). vm_compute. exact I. Qed.
Lemma from_u64_statuses :
  Forall (λ e, ident e ≠ lit "MethodFailure" → from_u64 (e_code e) = Some (Registered (ident e))) statuses.
Proof. apply (bool_decide_unpack _). vm_compute. exact I. Qed.
Lemma from_u64_424 : from_u64 424 = Some (Registered (lit "FailedDependency")).
Proof. vm_compute. reflexivity. Qed.

#[local] Opaque statuses u64_arms.

Lemma from_u64_Some n s : from_u64 n = Some s → valid s ∧ code s = n.
Proof.
  unfold from_u64. intros Hs. destruct (List.find _ _) as [e|] eqn:E; [|discriminate].
  injection Hs as <-. apply List.find_some in E as [He Hn]. apply Z.eqb_eq in Hn as ->.
  apply list_elem_of_In in He. apply (proj1 (Forall_forall _ _) arms_statuses) in He.
  cbn [valid code compose]. destruct (status_checked e He) as [-> _].
  split; [by exists e | reflexivity].
Qed.

Lemma from_u64_None n : from_u64 n = None ↔ n ∉ e_code <$> statuses.
Proof.
  unfold from_u64. rewrite fmap_None. split.
  - intros Hno Hin. apply (proj1 (Forall_forall _ _) arms_all_codes) in Hin.
    apply list_elem_of_fmap in Hin as (e & -> & He). apply list_elem_of_In in He.
    apply (List.find_none _ _ Hno) in He. by rewrite Z.eqb_refl in He.
  - intros Hno. destruct (List.find _ _) as [e|] eqn:E; [|reflexivity]. exfalso. apply Hno.
    apply List.find_some in E as [He Hn]. apply Z.eqb_eq in Hn as ->. apply list_elem_of_fmap.
    exists e. split; [reflexivity|]. apply (proj1 (Forall_forall _ _) arms_statuses).
    by apply list_elem_of_In.
Qed.

(** The module that is generated is well formed and its conversion from
    numbers is right: no identifier is used twice and no code has two arms;
    [from_u64] returns a constructor with the code it was given, [None] for a
    number that is no code of the table, and gives back every constructor from
    its code except [MethodFailure], whose code 424 means [FailedDependency]. *)
Theorem from_u64_correct n :
  NoDup (ident <$> statuses) ∧ NoDup (e_code <$> u64_arms [] statuses)
  ∧ (∀ s, from_u64 n = Some s → valid s ∧ code s = n)
  ∧ (from_u64 n = None ↔ n ∉ e_code <$> statuses)
  ∧ (∀ e, e ∈ statuses → ident e ≠ lit "MethodFailure" →
       from_u64 (e_code e) = Some (Registered (ident e)))
  ∧ from_u64 424 = Some (Registered (lit "FailedDependency")).
Proof.
  split; [exact idents_NoDup|]. split; [exact arms_NoDup|]. split; [apply from_u64_Some|].
  split; [apply from_u64_None|]. split; [|exact from_u64_424].
  exact (proj1 (Forall_forall _ _) from_u64_statuses).
Qed.

(** The arms of the generated [match]es line up: the padded identifiers have
    all the same length, and so have the reasons with their padding; no
    subtraction underflows. *)
Lemma padding_aligns e :
  e ∈ statuses →
  ∃ p q, padded_ident e = Done p ∧ reason_padding_spaces e = Done q
    ∧ ident e `prefix_of` p ∧ Z.of_nat (length p) = longest_ident
    ∧ Z.of_nat (length (e_reason e ++ q)) = longest_reason.
Proof.
  assert (Hall : forallb (λ e, match padded_ident e, reason_padding_spaces e with
      | Done p, Done q => bool_decide (take (length (ident e)) p = ident e) && (Z.of_nat (length p) =? longest_ident)
          && (Z.of_nat (length (e_reason e ++ q)) =? longest_reason)
      | _, _ => false end) statuses = true) by (vm_compute; reflexivity).
  apply forallb_Forall in Hall. rewrite Forall_forall in Hall. intros He. specialize (Hall e He). cbn beta in Hall.
  destruct (padded_ident e) as [p| |]; [|done|done]. destruct (reason_padding_spaces e) as [q| |]; [|done|done].
  apply andb_true_iff in Hall as [[Ht%bool_decide_eq_true Hp%Z.eqb_eq]%andb_true_iff Hq%Z.eqb_eq].
  exists p, q. split; [reflexivity|]. split; [reflexivity|]. split; [rewrite <-Ht; apply prefix_take|]. exact (conj Hp Hq).
Qed.
