(* ===== verification/Branchify.v ===== *)
(** * The generated method reader (src/libhttp/codegen/branchify.rs, read_method.rs)

    [branchify] turns a list of options into a tree of bytes, and
    [generate_branchified_method] writes a nest of [match]es that walks it.
    The file models the tree and what the written code does when it runs, and
    instantiates it as read_method.rs does. *)

From S2P Require Import Prelude Strs Rfc2616 Method Io.
#[local] Set Warnings "-register-all".

(** ** The tree *)
Inductive ParseBranch : Type :=
  mkBranch (matches : list u8) (result : option str) (children : list ParseBranch).
Definition matches (b : ParseBranch) : list u8 := let 'mkBranch m _ _ := b in m.
Definition result (b : ParseBranch) : option str := let 'mkBranch _ r _ := b in r.
Definition children (b : ParseBranch) : list ParseBranch := let 'mkBranch _ _ c := b in c.
Definition new_branch : ParseBranch := mkBranch [] None [].

(** The first child whose first byte is [c], split off from its siblings. *)
Fixpoint find_child (c : u8) (bs : list ParseBranch) :
    option (list ParseBranch * ParseBranch * list ParseBranch) :=
  match bs with
  | [] => None
  | b :: bs' =>
      if bool_decide (head (matches b) = Some c) then Some ([], b, bs')
      else match find_child c bs' with
           | Some (pre, b', post) => Some (b :: pre, b', post)
           | None => None
           end
  end.

Definition first_case (case_sensitive : bool) (c : Z) : u8 :=
  if case_sensitive then wrap8 c else ascii_to_upper c.
Definition sub_matches (case_sensitive : bool) (c : Z) : list u8 :=
  let first := first_case case_sensitive c in
  if case_sensitive then [first]
  else
    let second := ascii_to_lower c in
    if first =? second then [first] else [first; second].

(** The inner function, on the branch it was given; without case sensitivity
    [to_ascii] fails on a character that is not ASCII. *)
Fixpoint go_down_moses (case_sensitive : bool) (chariter : str) (res_name : str)
    (branch : ParseBranch) : res ParseBranch :=
  match chariter with
  | c :: chariter' =>
      if negb case_sensitive && (128 <=? c) then Fail "assertion failed: self.is_ascii()"
      else
        let first := first_case case_sensitive c in
        match find_child first (children branch) with
        | Some (pre, next_branch, post) =>
            match go_down_moses case_sensitive chariter' res_name next_branch with
            | Done b => Done (mkBranch (matches branch) (result branch) (pre ++ b :: post))
            | Fail e => Fail e
            | Diverge => Diverge
            end
        | None =>
            let subbranch := mkBranch (sub_matches case_sensitive c) None [] in
            match go_down_moses case_sensitive chariter' res_name subbranch with
            | Done b => Done (mkBranch (matches branch) (result branch) (children branch ++ [b]))
            | Fail e => Fail e
            | Diverge => Diverge
            end
        end
  | [] =>
      match result branch with
      | None => Done (mkBranch (matches branch) (Some res_name) (children branch))
      | Some _ => Fail "assertion failed: branch.result.is_none()"
      end
  end.

Fixpoint add_options (case_sensitive : bool) (options : list (str * str)) (root : ParseBranch) :
    res ParseBranch :=
  match options with
  | [] => Done root
  | (key, name) :: options' =>
      match go_down_moses case_sensitive key name root with
      | Done root' => add_options case_sensitive options' root'
      | Fail e => Fail e
      | Diverge => Diverge
      end
  end.
Definition branchify (options : list (str * str)) (case_sensitive : bool) : res (list ParseBranch) :=
  match add_options case_sensitive options new_branch with
  | Done root => Done (children root)
  | Fail e => Fail e
  | Diverge => Diverge
  end.

(** ** What the generated code does *)
Section Generated.
Context {R A : Type}.
(** The pieces of code the generator is given: the call that reads a byte, the
    terminator, the length limit, the test for valid bytes, the expression for
    an unknown value and what a result's identifier stands for. *)
Context (read_call : M R (option u8)) (end_ : u8) (max_len : nat) (is_valid : u8 → bool)
        (unknown : str → A) (value : str → A).

(** A [match] of the nest returns from the function or falls through with the
    prefix read so far and the byte that left the tree. *)
Inductive outcome : Type := Return (r : option A) | Through (s : str) (b : u8).

(** The arms for the children, then those of [r] for the branch itself; the
    terminator of these is written as [SP]. *)
Fixpoint run_branch (branch : ParseBranch) (prefix : str) : M R outcome :=
  ob ← read_call;
  match ob with
  | None => mret (Return None)
  | Some b =>
      (fix arms (bs : list ParseBranch) : M R outcome :=
         match bs with
         | child :: bs' =>
             if existsb (Z.eqb b) (matches child) then run_branch child (prefix ++ [b])
             else arms bs'
         | [] =>
             if b =? SP then
               mret (Return (Some (match result branch with
                                   | Some name => value name
                                   | None => unknown prefix
                                   end)))
             else if is_valid b then mret (Through prefix b)
             else mret (Return None)
         end) (children branch)
  end.

(** The outermost [match], which has no arm for the terminator. *)
Fixpoint run_arms (b : u8) (bs : list ParseBranch) : M R outcome :=
  match bs with
  | child :: bs' =>
      if existsb (Z.eqb b) (matches child) then run_branch child [b] else run_arms b bs'
  | [] => if is_valid b then mret (Through [] b) else mret (Return None)
  end.

(** The loop for values that left the tree. *)
Definition rest_body (s : str) : M R (str + option A) :=
  ob ← read_call;
  match ob with
  | None => break None
  | Some b =>
      if b =? end_ then break (Some (unknown s))
      else if is_valid b then
        if (str_len s =? max_len)%nat then break None else continue (s ++ [b])
      else break None
  end.

Definition run_method (fuel : nat) (branches : list ParseBranch) : M R (option A) :=
  ob ← read_call;
  o ← (match ob with None => mret (Return None) | Some b => run_arms b branches end);
  match o with
  | Return r => mret r
  | Through s next_byte => loop fuel rest_body (s ++ [next_byte])
  end.
End Generated.

(** ** src/libhttp/codegen/read_method.rs *)
Definition MAX_METHOD_LEN : nat := 64.
Definition method_options : list (str * str) := [
  (lit "CONNECT", lit "Connect"); (lit "DELETE", lit "Delete"); (lit "GET", lit "Get");
  (lit "HEAD", lit "Head"); (lit "OPTIONS", lit "Options"); (lit "PATCH", lit "Patch");
  (lit "POST", lit "Post"); (lit "PUT", lit "Put"); (lit "TRACE", lit "Trace")
].
(** What the identifiers of the generated file name: it imports the
    constructors of [Method]. *)
Definition method_ident (name : str) : Method :=
  if decide (name = lit "Connect") then Connect
  else if decide (name = lit "Delete") then Delete
  else if decide (name = lit "Get") then Get
  else if decide (name = lit "Head") then Head
  else if decide (name = lit "Options") then Options
  else if decide (name = lit "Patch") then Patch
  else if decide (name = lit "Post") then Post
  else if decide (name = lit "Put") then Put
  else Trace.
Definition method_branches : list ParseBranch :=
  match branchify method_options true with Done bs => bs | _ => [] end.
Definition read_method {R} (read_byte : M R (option u8)) (fuel : nat) : M R (option Method) :=
  run_method read_byte SP MAX_METHOD_LEN is_token_item ExtensionMethod method_ident fuel
    method_branches.

(** ** The tree holds the options *)

Definition child_for (c : u8) (bs : list ParseBranch) : option ParseBranch :=
  List.find (λ ch, existsb (Z.eqb c) (matches ch)) bs.
(** The node a key leads to, and the result there. *)
Fixpoint follow (b : ParseBranch) (key : str) : option ParseBranch :=
  match key with
  | [] => Some b
  | c :: key' => match child_for c (children b) with
                 | Some ch => follow ch key'
                 | None => None
                 end
  end.
Definition lookup_key (b : ParseBranch) (key : str) : option str :=
  match follow b key with Some n => result n | None => None end.

Section Tree.
Context (P : u8 → Prop).

(** A case-sensitive tree over the bytes in [P]: each child has one byte, and
    siblings have different bytes. *)
Inductive tree_ok : ParseBranch → Prop :=
  | tree_ok_intro m r cs :
      Forall (λ c, ∃ x, matches c = [x] ∧ P x) cs → NoDup (matches <$> cs) → Forall tree_ok cs →
      tree_ok (mkBranch m r cs).

Lemma find_child_Some c cs pre b post :
  find_child c cs = Some (pre, b, post) → cs = pre ++ b :: post ∧ head (matches b) = Some c.
Proof.
  revert pre b post. induction cs as [|b' cs IH]; intros pre b post E; [done|]. simpl in E.
  case_bool_decide as Hb; [by simplify_eq|].
  destruct (find_child c cs) as [[[pre' b''] post']|]; [|done]. simplify_eq.
  destruct (IH _ _ _ eq_refl) as [-> ?]. done.
Qed.

Lemma find_child_None c cs b : find_child c cs = None → b ∈ cs → head (matches b) ≠ Some c.
Proof.
  induction cs as [|b' cs IH]; [by intros _ ?%not_elem_of_nil|]. simpl. intros E Hb.
  case_bool_decide as Hc; [done|]. destruct (find_child c cs) as [[[? ?] ?]|]; [done|].
  apply elem_of_cons in Hb as [->|Hb]; auto.
Qed.

(** Finding a child by its byte, among siblings with different bytes. *)
Lemma child_for_app c cs1 cs2 :
  child_for c (cs1 ++ cs2) = match child_for c cs1 with Some b => Some b | None => child_for c cs2 end.
Proof.
  induction cs1 as [|b cs1 IH]; [done|]. unfold child_for in *. simpl.
  by destruct (existsb (Z.eqb c) (matches b)).
Qed.

Lemma child_for_cons c x b cs :
  matches b = [x] → child_for c (b :: cs) = if c =? x then Some b else child_for c cs.
Proof. intros E. unfold child_for. simpl. rewrite E. simpl. by rewrite orb_false_r. Qed.

Lemma child_for_none c cs :
  Forall (λ b, ∃ x, matches b = [x] ∧ P x) cs → [c] ∉ matches <$> cs → child_for c cs = None.
Proof.
  induction 1 as [|b cs (x & Hx & _) Hcs IH]; intros Hc; [done|].
  rewrite fmap_cons, not_elem_of_cons in Hc. destruct Hc as [H1 H2].
  rewrite (child_for_cons c x) by done. rewrite Hx in H1.
  destruct (Z.eqb_spec c x) as [->|]; [done|]. by apply IH.
Qed.

(** Replacing a child by one with the same byte. *)
Lemma child_for_replace c c' pre b b' post :
  Forall (λ b, ∃ x, matches b = [x] ∧ P x) (pre ++ b :: post) → NoDup (matches <$> (pre ++ b :: post)) →
  matches b = [c] → matches b' = [c] →
  child_for c' (pre ++ b' :: post) = if c' =? c then Some b' else child_for c' (pre ++ b :: post).
Proof.
  intros Hall Hnd Hb Hb'. rewrite !child_for_app, !(child_for_cons c' c) by done.
  destruct (Z.eqb_spec c' c) as [->|]; [|done].
  rewrite child_for_none; [done|by apply Forall_app in Hall as [? _]|].
  rewrite fmap_app, fmap_cons, Hb in Hnd. apply NoDup_app in Hnd as (_ & Hno & _).
  intros Hin. apply (Hno [c] Hin). left.
Qed.

Lemma lookup_key_cons b c key :
  lookup_key b (c :: key) = match child_for c (children b) with
                            | Some ch => lookup_key ch key
                            | None => None
                            end.
Proof. unfold lookup_key. simpl. by destruct (child_for c (children b)). Qed.

(** [b'] is [b] with the result [name] for [key]. *)
Definition adds (key name : str) (b b' : ParseBranch) : Prop :=
  ∀ k, lookup_key b' k = if bool_decide (k = key) then Some name else lookup_key b k.

Lemma replace_child m r pre b b' post c key name :
  tree_ok (mkBranch m r (pre ++ b :: post)) → matches b = [c] → matches b' = [c] → tree_ok b' →
  adds key name b b' →
  tree_ok (mkBranch m r (pre ++ b' :: post))
  ∧ adds (c :: key) name (mkBranch m r (pre ++ b :: post)) (mkBranch m r (pre ++ b' :: post)).
Proof.
  intros Hb Hm Hm' Hok' Hl. inversion Hb as [? ? ? Hone Hnd Hok]; subst. split.
  - constructor.
    + apply Forall_app in Hone as [Ho1 [(x & Hx & HP) Ho3]%Forall_cons]. apply Forall_app.
      split; [done|]. constructor; [|done]. exists x. split; [congruence|done].
    + by rewrite fmap_app, fmap_cons, Hm', <-Hm, <-fmap_cons, <-fmap_app.
    + apply Forall_app in Hok as [Hpre [_ Hpost]%Forall_cons]. apply Forall_app. split; [done|].
      by constructor.
  - intros [|c' k]; [done|]. rewrite !lookup_key_cons. cbn [children].
    rewrite (child_for_replace c c' pre b b' post) by done.
    destruct (Z.eqb_spec c' c) as [->|Hne]; [|by rewrite bool_decide_false by congruence].
    rewrite (child_for_replace c c pre b b post), Z.eqb_refl, Hl by done.
    destruct (decide (k = key)) as [->|Hk];
      [by rewrite !bool_decide_true | by rewrite !bool_decide_false by congruence].
Qed.

Lemma add_child m r cs b' c key name :
  tree_ok (mkBranch m r cs) → find_child c cs = None → matches b' = [c] → P c → tree_ok b' →
  adds key name (mkBranch [c] None []) b' →
  tree_ok (mkBranch m r (cs ++ [b'])) ∧ adds (c :: key) name (mkBranch m r cs) (mkBranch m r (cs ++ [b'])).
Proof.
  intros Hb Ef Hm HP Hok' Hl. inversion Hb as [? ? ? Hone Hnd Hok]; subst.
  assert (Hno : [c] ∉ matches <$> cs).
  { intros (b & Hb2 & Hin)%list_elem_of_fmap. apply (find_child_None c cs b Ef Hin). by rewrite <-Hb2. }
  split.
  - constructor.
    + apply Forall_app. split; [done|]. constructor; [by exists c|constructor].
    + rewrite fmap_app. apply NoDup_app. split_and!; [done| |apply NoDup_singleton].
      intros y Hy Hin. apply list_elem_of_singleton in Hin as ->. by rewrite Hm in Hy.
    + apply Forall_app. split; [done|]. by constructor.
  - intros [|c' k]; [done|]. rewrite !lookup_key_cons. cbn [children].
    rewrite child_for_app, (child_for_cons c' c) by done.
    destruct (Z.eqb_spec c' c) as [->|Hne].
    + rewrite child_for_none, Hl by done. destruct (decide (k = key)) as [->|Hk];
        [by rewrite !bool_decide_true|]. rewrite !bool_decide_false by congruence. by destruct k.
    + rewrite bool_decide_false by congruence. by destruct (child_for c' cs).
Qed.

(** Adding an option: the assertion holds if the key has no result yet, and
    the key, and no other, gets the result. *)
Lemma go_down_moses_ok key name : ∀ b,
  tree_ok b → Forall (λ c, is_u8 c ∧ P c) key → lookup_key b key = None →
  ∃ b', go_down_moses true key name b = Done b' ∧ matches b' = matches b ∧ tree_ok b'
    ∧ adds key name b b'.
Proof.
  induction key as [|c key IH]; intros b Hb Hkey Hlook.
  - destruct b as [m r cs]. cbn in Hlook. simpl. rewrite Hlook. eexists. split; [done|].
    split; [done|]. split; [inversion Hb; by constructor|]. intros [|c k]; [done|].
    by rewrite !lookup_key_cons.
  - apply Forall_cons in Hkey as [[Hu Hc] Hkey]. destruct b as [m r cs].
    inversion Hb as [? ? ? Hone Hnd Hok]; subst. cbn [go_down_moses negb andb children matches result].
    assert (Hfirst : first_case true c = c) by (unfold first_case; by apply wrap8_small).
    rewrite Hfirst. rewrite lookup_key_cons in Hlook. cbn [children] in Hlook.
    destruct (find_child c cs) as [[[pre b] post]|] eqn:Ef.
    + apply find_child_Some in Ef as [-> Hh].
      assert (Hbm : matches b = [c]).
      { apply Forall_app in Hone as [_ [(x & Hx & _) _]%Forall_cons]. rewrite Hx in *. by injection Hh as ->. }
      rewrite (child_for_replace c c pre b b post), Z.eqb_refl in Hlook by done.
      pose proof Hok as [_ [Hbok _]%Forall_cons]%Forall_app.
      destruct (IH b Hbok Hkey Hlook) as (b' & E & Hm & Hb' & Hl). rewrite E.
      eexists. split; [done|]. split; [done|]. apply (replace_child m r pre b); congruence || done.
    + destruct (IH (mkBranch [c] None [])) as (b' & E & Hm & Hb' & Hl);
        [by constructor; [constructor|constructor|constructor]|done|by destruct key|].
      unfold sub_matches. rewrite Hfirst. cbn iota zeta. rewrite E.
      eexists. split; [done|]. split; [done|]. by apply add_child.
Qed.

Lemma add_options_ok options : ∀ b,
  tree_ok b → Forall (λ kv, Forall (λ c, is_u8 c ∧ P c) kv.1) options → NoDup (fst <$> options) →
  (∀ kv, kv ∈ options → lookup_key b kv.1 = None) →
  ∃ b', add_options true options b = Done b' ∧ tree_ok b' ∧
    ∀ k v, lookup_key b' k = Some v ↔ (k, v) ∈ options ∨ lookup_key b k = Some v.
Proof.
  induction options as [|[k0 v0] options IH]; intros b Hb Hkeys Hnd Hnew.
  { exists b. split; [done|]. split; [done|]. intros k v. split; [by right|].
    by intros [?%not_elem_of_nil|]. }
  apply Forall_cons in Hkeys as [Hk0 Hkeys]. rewrite fmap_cons in Hnd. apply NoDup_cons in Hnd as [Hnot Hnd].
  destruct (go_down_moses_ok k0 v0 b Hb Hk0) as (b1 & E1 & _ & Hb1 & Hl1).
  { apply (Hnew (k0, v0)). left. }
  destruct (IH b1 Hb1 Hkeys Hnd) as (b' & E' & Hb' & Hl').
  { intros [k v] Hin. rewrite Hl1. cbn [fst].
    rewrite bool_decide_false; [apply (Hnew (k, v)); by right|].
    intros ->. apply Hnot. apply list_elem_of_fmap. by exists (k0, v). }
  exists b'. simpl. rewrite E1. split; [done|]. split; [done|]. intros k v. rewrite Hl', Hl1, elem_of_cons.
  case_bool_decide as Hk; [subst k|].
  - specialize (Hnew (k0, v0) ltac:(left)). simpl in Hnew. rewrite Hnew.
    split; [intros [?|[= ->]]; auto|]. intros [[[= ->]|?]|?]; auto; congruence.
  - split; [intros [?|?]; auto|]. intros [[[= ? ?]|?]|?]; auto; congruence.
Qed.
End Tree.

(** C25. The tree holds exactly the options: for a list of options with
    different keys made of bytes, [branchify] does not fail its assertion, and
    following a key through the tree ends at a node with result [name] if and
    only if the list has the option [key => name]. *)
Theorem branchify_correct options :
  Forall (λ kv, Forall is_u8 kv.1) options → NoDup (fst <$> options) →
  ∃ branches, branchify options true = Done branches
    ∧ ∀ key name, key ≠ [] →
        lookup_key (mkBranch [] None branches) key = Some name ↔ (key, name) ∈ options.
Proof.
  intros Hkeys Hnd.
  destruct (add_options_ok (λ _, True) options new_branch) as (root & E & _ & Hl).
  - repeat constructor.
  - eapply Forall_impl; [exact Hkeys|]. intros kv Hkv. eapply Forall_impl; [exact Hkv|]. done.
  - done.
  - by intros [[|c k] v] _.
  - exists (children root). unfold branchify. rewrite E. split; [done|]. intros key name Hne.
    destruct key as [|c key]; [done|]. rewrite lookup_key_cons. cbn [children].
    rewrite <-lookup_key_cons, Hl. split; [by intros [?|?] | by left].
Qed.

Lemma branchify_correct_witness :
  ∃ branches, branchify method_options true = Done branches
    ∧ ∀ key name, key ≠ [] →
        lookup_key (mkBranch [] None branches) key = Some name ↔ (key, name) ∈ method_options.
Proof.
  apply branchify_correct.
  - vm_compute. repeat constructor; discriminate.
  - apply (bool_decide_unpack _). vm_compute. exact I.
Defined.

(** ** Running the generated code *)
Section Running.
Context {R A : Type} (Rel : R → list u8 → Prop).
Context (read_call : M R (option u8)) (max_len : nat) (is_valid : u8 → bool).
Context (unknown : str → A) (value : str → A).
(** The reader delivers the bytes of a list one by one. *)
Hypothesis read_call_ok : ∀ r l, Rel r l →
  ∃ r', read_call r = Done (head l, r') ∧ Rel r' (tail l).
Hypothesis SP_invalid : is_valid SP = false.

Abbreviation run := (run_branch read_call is_valid unknown value).
Abbreviation valid_token := (Forall (λ b, is_valid b = true ∧ is_u8 b ∧ b < 128)).
(** What follows a token: the end of input or a byte that is not valid. *)
Definition ends_token (l : list u8) : Prop :=
  match l with [] => True | b :: _ => is_valid b = false end.

Definition node_value (n : ParseBranch) (s : str) : A :=
  match result n with Some name => value name | None => unknown s end.

(** The arms of a branch, with the child chosen by [child_for]. *)
Lemma run_branch_eq m r cs prefix s :
  run (mkBranch m r cs) prefix s
  = (ob ← read_call;
     match ob with
     | None => mret (Return None)
     | Some b =>
         match child_for b cs with
         | Some ch => run ch (prefix ++ [b])
         | None =>
             if b =? SP then mret (Return (Some (node_value (mkBranch m r cs) prefix)))
             else if is_valid b then mret (Through prefix b) else mret (Return None)
         end
     end) s.
Proof.
  cbn [run_branch]. apply bind_ext. intros [b|] t; [|done]. cbn [children].
  unfold node_value. cbn [result]. generalize (match r with Some name => value name | None => unknown prefix end).
  intros v. induction cs as [|c cs IH]; [done|]. unfold child_for in *. simpl.
  by destruct (existsb (Z.eqb b) (matches c)).
Qed.

(** A token either leads to a node, and the answer depends on what follows it,
    or leaves the tree at one of its bytes. *)
Lemma run_branch_token tok l : ∀ b prefix r,
  tree_ok (λ c, is_valid c = true) b → Forall (λ c, is_valid c = true) tok → ends_token l →
  Rel r (tok ++ l) →
  match follow b tok with
  | Some n => ∃ r', run b prefix r
        = Done (Return (match l with
                        | c :: _ => if c =? SP then Some (node_value n (prefix ++ tok)) else None
                        | [] => None
                        end), r') ∧ Rel r' (tail l)
  | None => ∃ t c t' r', tok = t ++ c :: t' ∧ follow b t ≠ None
        ∧ run b prefix r = Done (Through (prefix ++ t) c, r') ∧ Rel r' (t' ++ l)
  end.
Proof.
  induction tok as [|c tok IH]; intros b prefix r Hb Htok Hl HR;
    destruct b as [m rs cs]; inversion Hb as [? ? ? Hone Hnd Hok]; subst;
    rewrite ?run_branch_eq; destruct (read_call_ok r _ HR) as (r1 & E & HR1); simpl in E, HR1.
  - exists r1. split; [|done]. rewrite (bind_Done _ _ _ _ _ E). rewrite app_nil_r.
    destruct l as [|c l]; [done|]. cbn [head]. simpl in Hl.
    rewrite (child_for_none (λ c, is_valid c = true)); [|done|].
    + destruct (c =? SP); [done|]. by rewrite Hl.
    + intros (b & Hb2 & Hin)%list_elem_of_fmap. rewrite Forall_forall in Hone.
      destruct (Hone b Hin) as (x & Hx & HP). rewrite Hx in Hb2. injection Hb2 as ->. congruence.
  - apply Forall_cons in Htok as [Hc Htok]. cbn [follow children]. 
    destruct (child_for c cs) as [ch|] eqn:Ech.
    + assert (Hch : tree_ok (λ c, is_valid c = true) ch).
      { apply List.find_some in Ech as [Hin%list_elem_of_In _]. rewrite Forall_forall in Hok. auto. }
      specialize (IH ch (prefix ++ [c]) r1 Hch Htok Hl HR1). rewrite <-app_assoc in IH. cbn [app] in IH.
      destruct (follow ch tok) as [n|].
      * destruct IH as (r' & E' & HR'). exists r'. split; [|done].
        rewrite (bind_Done _ _ _ _ _ E). cbn [head]. by rewrite Ech.
      * destruct IH as (t & c' & t' & r' & -> & Hf & E' & HR'). exists (c :: t), c', t', r'.
        split; [done|]. split; [by cbn [follow children]; rewrite Ech|]. split; [|done]. rewrite (bind_Done _ _ _ _ _ E). cbn [head].
        rewrite Ech, E'. by rewrite <-app_assoc.
    + exists [], c, tok, r1. split; [done|]. split; [done|]. split; [|done].
      rewrite (bind_Done _ _ _ _ _ E). cbn [head]. rewrite Ech, Hc, app_nil_r.
      destruct (Z.eqb_spec c SP) as [->|]; [by rewrite SP_invalid in Hc|done].
Qed.

(** The loop for the rest of a token that is in no branch. *)
Lemma rest_loop tok l : ∀ fuel s r,
  Forall (λ c, is_valid c = true ∧ c < 128) tok → ends_token l → Forall (λ c, c < 128) s →
  (length tok < fuel)%nat → (length s ≤ max_len)%nat → Rel r (tok ++ l) →
  ∃ o r', loop fuel (rest_body read_call SP max_len is_valid unknown) s r = Done (o, r')
    ∧ o = (match l with
           | c :: _ => if (c =? SP) && (length (s ++ tok) <=? max_len)%nat then Some (unknown (s ++ tok)) else None
           | [] => None
           end)
    ∧ (o ≠ None → Rel r' (tail l)).
Proof.
  induction tok as [|c tok IH]; intros fuel s r Htok Hl Hs Hf Hlen HR;
    (destruct fuel as [|fuel]; [simpl in Hf; lia|]);
    destruct (read_call_ok r _ HR) as (r1 & E & HR1); simpl in E, HR1.
  - rewrite app_nil_r. destruct l as [|c l]; cbn [head] in E.
    + exists None, r1. split; [|done]. eapply loop_break. unfold rest_body. by rewrite (bind_Done _ _ _ _ _ E).
    + simpl in Hl. eexists _, r1. split; [|split; [reflexivity|by intros _]].
      eapply loop_break. unfold rest_body. rewrite (bind_Done _ _ _ _ _ E). cbn beta iota.
      destruct (c =? SP); simpl; [|by rewrite Hl].
      destruct (Nat.leb_spec (length s) max_len); [done|lia].
  - apply Forall_cons in Htok as [[Hc Hc'] Htok].
    assert (Hstr : str_len s = length s).
    { unfold str_len. rewrite as_bytes_ascii; [done|]. by apply is_ascii_Forall. }
    assert (Hne : (c =? SP) = false) by (apply Z.eqb_neq; intros ->; congruence).
    destruct (decide (length s = max_len)) as [Hmax|Hmax].
    + exists None, r1. split_and!; [|destruct l as [|c' l]; [done|]|done].
      * eapply loop_break. unfold rest_body. rewrite (bind_Done _ _ _ _ _ E). cbn beta iota.
        rewrite Hne, Hc, Hstr, Hmax, Nat.eqb_refl. done.
      * rewrite length_app. simpl. destruct (Nat.leb_spec (length s + S (length tok)) max_len); [lia|].
        by rewrite andb_false_r.
    + destruct (IH fuel (s ++ [c]) r1) as (o & r' & E' & Ho & HR');
        [done|done|apply Forall_app; split; [done|by repeat constructor]|simpl in Hf; lia
        |rewrite length_app; simpl; lia|done|].
      exists o, r'. rewrite <-app_assoc in Ho. split_and!; [|done|done].
      rewrite (loop_continue _ _ _ _ (s ++ [c]) r1); [done|]. unfold rest_body.
      rewrite (bind_Done _ _ _ _ _ E). cbn beta iota. rewrite Hne, Hc, Hstr.
      by rewrite (proj2 (Nat.eqb_neq _ _) Hmax).
Qed.

Definition root_of (branches : list ParseBranch) : ParseBranch := mkBranch [] None branches.

Lemma run_arms_eq b bs : run_arms read_call is_valid unknown value b bs
  = match child_for b bs with
    | Some ch => run ch [b]
    | None => if is_valid b then mret (Through [] b) else mret (Return None)
    end.
Proof.
  induction bs as [|c bs IH]; [done|]. unfold child_for in *. simpl.
  by destruct (existsb (Z.eqb b) (matches c)).
Qed.

(** The length of the longest key in the tree. *)
Fixpoint depth (b : ParseBranch) : nat :=
  let 'mkBranch _ _ cs := b in foldr (λ c a, Nat.max (S (depth c)) a) 0%nat cs.

Lemma depth_child c cs ch m rs :
  child_for c cs = Some ch → (depth ch < depth (mkBranch m rs cs))%nat.
Proof.
  unfold child_for. simpl. induction cs as [|b cs IH]; simpl; [done|].
  destruct (existsb (Z.eqb c) (matches b)); [intros [= ->]; lia|]. intros E. specialize (IH E). lia.
Qed.

Lemma follow_depth key : ∀ b, follow b key ≠ None → (length key ≤ depth b)%nat.
Proof.
  induction key as [|c key IH]; intros [m rs cs]; simpl; [lia|].
  destruct (child_for c cs) as [ch|] eqn:E; [|done]. intros Hf%IH.
  pose proof (depth_child c cs ch m rs E). simpl in *. lia.
Qed.

(** The whole function: a token that is not empty and is followed by a space
    gives the value of its option, or the unknown value if it has none and is
    not too long; anything else gives [None]. *)
Definition method_answer (branches : list ParseBranch) (tok l : list u8) : option A :=
  match l with
  | c :: _ =>
      if (c =? SP) && bool_decide (tok ≠ []) && (length tok <=? max_len)%nat
      then Some (match lookup_key (root_of branches) tok with
                 | Some name => value name
                 | None => unknown tok
                 end)
      else None
  | [] => None
  end.

(** After the first byte: inside the tree ... *)
Lemma run_method_in branches c tok l n ch r r' fuel :
  read_call r = Done (Some c, r') → child_for c branches = Some ch → follow ch tok = Some n →
  tree_ok (λ c, is_valid c = true) ch → Forall (λ c, is_valid c = true) tok → ends_token l →
  (length (c :: tok) ≤ max_len)%nat → Rel r' (tok ++ l) →
  ∃ r2, run_method read_call SP max_len is_valid unknown value fuel branches r
        = Done (method_answer branches (c :: tok) l, r2) ∧ Rel r2 (tail l).
Proof.
  intros E Ech Ef Hok Htok Hl Hlen HR.
  pose proof (run_branch_token tok l ch [c] r' Hok Htok Hl HR) as Hrun. rewrite Ef in Hrun.
  destruct Hrun as (r2 & E2 & HR2). exists r2. split; [|done].
  unfold run_method. rewrite (bind_Done _ _ _ _ _ E). cbn beta iota. rewrite run_arms_eq, Ech.
  rewrite (bind_Done _ _ _ _ _ E2). unfold method_answer. rewrite bool_decide_true by done.
  rewrite (proj2 (Nat.leb_le _ _) Hlen). destruct l as [|b l]; [done|]. rewrite !andb_true_r.
  destruct (b =? SP); [|done]. unfold lookup_key, node_value. cbn [follow children root_of app].
  by rewrite Ech, Ef.
Qed.

(** ... and out of it, at the byte [c] after [t]. *)
Lemma run_method_out branches b t c t' l r r1 r2 fuel :
  read_call r = Done (Some b, r1) →
  run_arms read_call is_valid unknown value b branches r1 = Done (Through t c, r2) →
  follow (root_of branches) (t ++ c :: t') = None → (length t < max_len)%nat →
  Forall (λ c, is_valid c = true ∧ c < 128) (t ++ c :: t') → ends_token l →
  (length (t ++ c :: t') < fuel)%nat → Rel r2 (t' ++ l) →
  ∃ r3, run_method read_call SP max_len is_valid unknown value fuel branches r
        = Done (method_answer branches (t ++ c :: t') l, r3)
    ∧ (method_answer branches (t ++ c :: t') l ≠ None → Rel r3 (tail l)).
Proof.
  intros E E1 Ef Ht Htok Hl Hfuel HR.
  pose proof Htok as [Htok1 [Hc Htok2]%Forall_cons]%Forall_app. rewrite length_app in Hfuel. simpl in Hfuel.
  destruct (rest_loop t' l fuel (t ++ [c]) r2) as (o & r3 & E3 & Ho & HR3); try done.
  - apply Forall_app. split; [|repeat constructor; apply Hc]. eapply Forall_impl; [exact Htok1|]. by intros ? [_ ?].
  - lia.
  - rewrite length_app. simpl. lia.
  - exists r3. rewrite <-app_assoc in Ho. cbn [app] in Ho.
    assert (Ea : method_answer branches (t ++ c :: t') l = o).
    { rewrite Ho. unfold method_answer, lookup_key. rewrite Ef, bool_decide_true by (by destruct t).
      by destruct l; rewrite ?andb_true_r. }
    rewrite Ea. split; [|done]. unfold run_method. rewrite (bind_Done _ _ _ _ _ E). cbn beta iota.
    by rewrite (bind_Done _ _ _ _ _ E1).
Qed.

Lemma run_method_spec branches tok l fuel r :
  tree_ok (λ c, is_valid c = true) (root_of branches) → (depth (root_of branches) < max_len)%nat →
  Forall (λ c, is_valid c = true ∧ c < 128) tok → ends_token l → (length tok < fuel)%nat →
  Rel r (tok ++ l) →
  ∃ r', run_method read_call SP max_len is_valid unknown value fuel branches r
        = Done (method_answer branches tok l, r')
    ∧ (method_answer branches tok l ≠ None → Rel r' (tail l)).
Proof.
  intros Hok Hdepth Htok Hl Hfuel HR. destruct (read_call_ok r _ HR) as (r1 & E & HR1).
  inversion Hok as [? ? ? Hone _ Hsub]; subst. destruct tok as [|b tok]; cbn [app head tail] in *.
  - exists r1. assert (Ha : method_answer branches [] l = None).
    { unfold method_answer. destruct l; [done|]. by rewrite bool_decide_false, andb_false_r by auto. }
    rewrite Ha. split; [|done]. unfold run_method. rewrite (bind_Done _ _ _ _ _ E).
    destruct l as [|c l]; [done|]. cbn [head]. simpl in Hl. rewrite run_arms_eq.
    rewrite (child_for_none (λ c, is_valid c = true)), Hl; [done|done|].
    intros (x & Hx & Hin)%list_elem_of_fmap. rewrite Forall_forall in Hone.
    destruct (Hone x Hin) as (y & Hy & HP). rewrite Hy in Hx. injection Hx as ->. congruence.
  - pose proof Htok as [Hb Htok']%Forall_cons.
    assert (Hv : Forall (λ c, is_valid c = true) tok)
      by (eapply Forall_impl; [exact Htok'|]; by intros ? [? _]).
    destruct (child_for b branches) as [ch|] eqn:Ech.
    + assert (Hch : tree_ok (λ c, is_valid c = true) ch).
      { apply List.find_some in Ech as [Hin%list_elem_of_In _]. rewrite Forall_forall in Hsub. auto. }
      assert (Hlen : ∀ t, follow ch t ≠ None → (length (b :: t) < max_len)%nat).
      { intros t Hf. eapply Nat.le_lt_trans; [apply (follow_depth (b :: t) (root_of branches))|done].
        cbn [follow children root_of]. by rewrite Ech. }
      destruct (follow ch tok) as [n|] eqn:Ef.
      * destruct (run_method_in branches b tok l n ch r r1 fuel E Ech Ef Hch Hv Hl) as (r2 & E2 & HR2); [|done|by exists r2].
        apply Nat.lt_le_incl, Hlen. by rewrite Ef.
      * pose proof (run_branch_token tok l ch [b] r1 Hch Hv Hl HR1) as Hrun. rewrite Ef in Hrun.
        destruct Hrun as (t & c & t' & r2 & -> & Hft & E2 & HR2).
        apply (run_method_out branches b (b :: t) c t' l r r1 r2 fuel E); try done.
        -- by rewrite run_arms_eq, Ech.
        -- cbn [follow children root_of app]. by rewrite Ech.
        -- by apply Hlen.
    + apply (run_method_out branches b [] b tok l r r1 r1 fuel E); try done.
      * rewrite run_arms_eq, Ech. destruct Hb as [-> _]. done.
      * cbn [follow children root_of app]. by rewrite Ech.
      * simpl. lia.
Qed.

(** The parser only reads: it keeps what reading keeps. *)
Lemma run_branch_safe (P : R → Prop) n : ∀ b prefix,
  safe P read_call (λ _, P) → (depth b < n)%nat → safe P (run b prefix) (λ _, P).
Proof.
  induction n as [|n IH]; intros [m rs cs] prefix Hrd Hn; [lia|].
  intros r Hr. rewrite run_branch_eq. revert r Hr. apply (safe_bind _ _ _ (λ _, P)); [done|].
  intros [b|]; [|by apply safe_ret]. destruct (child_for b cs) as [ch|] eqn:Ech.
  - apply IH; [done|]. pose proof (depth_child b cs ch m rs Ech). lia.
  - repeat (apply safe_if; intros _); by apply safe_ret.
Qed.

Lemma run_method_safe (P : R → Prop) fuel branches :
  safe P read_call (λ _, P) →
  safe P (run_method read_call SP max_len is_valid unknown value fuel branches) (λ _, P).
Proof.
  intros Hrd. apply (safe_bind _ _ _ (λ _, P)); [done|]. intros ob. apply (safe_bind _ _ _ (λ _, P)).
  - destruct ob as [b|]; [|by apply safe_ret]. induction branches as [|c bs IH].
    + cbn [run_arms]. apply safe_if; intros _; by apply safe_ret.
    + cbn [run_arms]. apply safe_if; intros _; [apply (run_branch_safe P (S (depth c))); [done|lia]|done].
  - intros [o|s b]; [by apply safe_ret|]. apply (safe_loop fuel _ (λ _, P)). intros s'.
    apply (safe_bind _ _ _ (λ _, P)); [done|]. intros [c|]; [|by apply safe_ret].
    repeat (apply safe_if; intros _); by apply safe_ret.
Qed.
End Running.

(** ** The method reader *)
Lemma method_tree :
  add_options true method_options new_branch = Done (root_of method_branches).
Proof. vm_compute. reflexivity. Qed.

Lemma method_tree_ok :
  tree_ok (λ c, is_token_item c = true) (root_of method_branches)
  ∧ ∀ k v, lookup_key (root_of method_branches) k = Some v ↔ (k, v) ∈ method_options.
Proof.
  destruct (add_options_ok (λ c, is_token_item c = true) method_options new_branch) as (b' & E & Hok & Hl).
  - repeat constructor.
  - vm_compute. repeat constructor; discriminate.
  - apply (bool_decide_unpack _). vm_compute. exact I.
  - by apply Forall_forall; repeat constructor.
  - rewrite method_tree in E. injection E as <-. split; [done|]. intros k v. rewrite Hl.
    split; [intros [?|Hk]; [done|] | by left]. by destruct k.
Qed.

(** The value the reader gives to a token is the one [from_str_or_new] gives. *)
Lemma method_value tok :
  is_ascii tok = true →
  from_str_or_new tok
  = Done (Some (match lookup_key (root_of method_branches) tok with
                | Some name => method_ident name
                | None => ExtensionMethod tok
                end)).
Proof.
  intros Ha. destruct (lookup_key (root_of method_branches) tok) as [name|] eqn:El.
  - apply method_tree_ok in El. unfold method_options in El.
    repeat (apply elem_of_cons in El as [[= -> ->]|El]; [vm_compute; reflexivity|]).
    by apply not_elem_of_nil in El.
  - unfold from_str_or_new. rewrite Ha. cbn [negb].
    repeat (rewrite decide_False; [|intros ->; vm_compute in El; discriminate]). done.
Qed.

(** What [read_method] does with a token and what follows it. *)
Lemma read_method_spec {R} (Rel : R → list u8 → Prop) (read_byte : M R (option u8)) r tok l fuel :
  (∀ r l, Rel r l → ∃ r', read_byte r = Done (head l, r') ∧ Rel r' (tail l)) →
  Forall (λ c, is_token_item c = true) tok →
  match l with [] => True | b :: _ => is_token_item b = false end →
  (length tok < fuel)%nat → Rel r (tok ++ l) →
  ∃ o r', read_method read_byte fuel r = Done (o, r') ∧
    if bool_decide (head l = Some SP ∧ tok ≠ []) && (length tok <=? 64)%nat
    then from_str_or_new tok = Done o ∧ Rel r' (tail l)
    else o = None.
Proof.
  intros Hrd Htok Hl Hfuel HR.
  destruct (run_method_spec Rel read_byte MAX_METHOD_LEN is_token_item ExtensionMethod method_ident
    Hrd eq_refl method_branches tok l fuel r (proj1 method_tree_ok)) as (r' & E & Hr'); try done.
  - apply Nat.ltb_lt. vm_compute. reflexivity.
  - eapply Forall_impl; [exact Htok|]. intros c Hc. split; [done|]. by apply token_item_ascii.
  - eexists _, r'. split; [exact E|]. unfold method_answer in *. destruct l as [|c l].
    { by rewrite bool_decide_false by (by intros [? _]). }
    cbn [head]. change 64%nat with MAX_METHOD_LEN in *.
    destruct (Z.eqb_spec c SP) as [->|Hne];
      [|rewrite (bool_decide_false (_ ∧ _)) by (intros [[= ?] _]; done); done].
    destruct (decide (tok = [])) as [->|Ht0];
      [by rewrite !bool_decide_false by naive_solver|].
    rewrite !bool_decide_true in * by done. destruct (length tok <=? MAX_METHOD_LEN)%nat; [|done].
    split; [|by apply Hr']. apply method_value. apply is_ascii_Forall.
    eapply Forall_impl; [exact Htok|]. intros b. apply token_item_ascii.
Qed.

(** C26. The generated [read_method], whatever the reader, reads a method the
    way [from_str_or_new] interprets its name: on a token of 1 to 64 bytes
    followed by a space it returns that method and has consumed the token and
    the space; on an empty or longer token, or one that ends in anything else
    or in the end of input, it returns [None]. *)
Theorem read_method_correct {R} (Rel : R → list u8 → Prop) (read_byte : M R (option u8)) r tok l fuel :
  (∀ r l, Rel r l → ∃ r', read_byte r = Done (head l, r') ∧ Rel r' (tail l)) →
  Forall (λ c, is_token_item c = true) tok →
  match l with [] => True | b :: _ => is_token_item b = false end →
  (length tok < fuel)%nat → Rel r (tok ++ l) →
  ∃ o r', read_method read_byte fuel r = Done (o, r') ∧
    if bool_decide (head l = Some SP ∧ tok ≠ []) && (length tok <=? 64)%nat
    then from_str_or_new tok = Done o ∧ Rel r' (tail l)
    else o = None.
Proof. apply read_method_spec. Qed.

Lemma read_method_correct_witness :
  ∃ o r', read_method (λ l : list u8, Done (head l, tail l)) 70 (lit "PATCHES /x") = Done (o, r') ∧
    if bool_decide (head (lit " /x") = Some SP ∧ lit "PATCHES" ≠ []) && (length (lit "PATCHES") <=? 64)%nat
    then from_str_or_new (lit "PATCHES") = Done o ∧ r' = tail (lit " /x")
    else o = None.
Proof.
  apply (read_method_correct eq); [|repeat constructor|reflexivity|simpl; lia|reflexivity].
  intros r l ->. by eexists.
Defined.
