(* ===== verification/Codegen.v ===== *)
(** * The code generator (src/libhttp/codegen)

    The program that is run before the library is compiled: [main] of
    codegen.rs, which picks a generator by its arguments, and the text that
    branchify.rs, read_method.rs and status.rs write.  What the written
    programs do is in Branchify and Status; here is how their text comes to be
    in its file, byte by byte, and that its braces match.

    In a literal of this file a circumflex stands for a quotation mark, which
    none of the texts contains. *)

From S2P Require Import Prelude Strs Rfc2616 Method Io Branchify Status.

(** A literal: a circumflex stands for a quotation mark. *)
Definition src (s : string) : str := replace_char (chr "^") [DOUBLE_QUOTE] (lit s).

(** ** Text *)

(** [WriterExtensions::write_str]. *)
Definition write_str {W} `{Writer W} (msg : str) : M W unit := writer_write (as_bytes msg).

(** [" ".repeat(n)]. *)
Definition blanks (n : nat) : str := replicate n (chr " ").

(** ** branchify.rs: [generate_branchified_method] *)
Section Branchified.
Context {W : Type} `{Writer W}.
(** [unknown] with its [{}] replaced. *)
Context (read_call end_ max_len valid : str) (unknown : str → str).

(** The closure [w]: a line at the given indentation. *)
Definition w_line (indent : nat) (s : str) : M W unit :=
  writer_write (as_bytes (blanks (indent * 4)));;
  writer_write (as_bytes s);;
  writer_write [LF].

(** The arm that ends the value: the result of the branch, or the prefix as an
    unknown value. *)
Definition result_text (result : option str) (next_prefix : str) : str :=
  match result with
  | Some r => src "    Some(b) if b == SP => return Some(" ++ r ++ src "),"
  | None => src "    Some(b) if b == SP => return Some(" ++ unknown (src "~^" ++ next_prefix ++ src "^") ++ src "),"
  end.

(** The inner function [r]. *)
Fixpoint write_branch (branch : ParseBranch) (prefix : str) (indent : nat) : M W unit :=
  for_each (matches branch) (λ c,
    let next_prefix := prefix ++ [c] in
    w_line indent (src "Some(b) if b == '" ++ [c] ++ src "' as u8 => match " ++ read_call ++ src " {");;
    (fix go (bs : list ParseBranch) : M W unit :=
       match bs with
       | [] => mret tt
       | b :: bs' => write_branch b next_prefix (indent + 1);; go bs'
       end) (children branch);;
    w_line indent (result_text (result branch) next_prefix);;
    w_line indent (src "    Some(b) if " ++ valid ++ src " => (^" ++ next_prefix ++ src "^, b),");;
    w_line indent (src "    _ => return None,");;
    w_line indent (src "},")).

Definition generate_branchified_method (branches : list ParseBranch) (indent : nat) : M W unit :=
  w_line indent (src "let (s, next_byte) = match " ++ read_call ++ src " {");;
  for_each branches (λ b, write_branch b [] (indent + 1));;
  w_line indent (src "    Some(b) if " ++ valid ++ src " => (^^, b),");;
  w_line indent (src "    _ => return None,");;
  w_line indent (src "};");;
  w_line indent (src "// OK, that didn't pan out. Let's read the rest and see what we get.");;
  w_line indent (src "let mut s = s.to_owned();");;
  w_line indent (src "s.push_char(next_byte as char);");;
  w_line indent (src "loop {");;
  w_line indent (src "    match " ++ read_call ++ src " {");;
  w_line indent (src "        Some(b) if b == " ++ end_ ++ src " => return Some(" ++ unknown (src "s") ++ src "),");;
  w_line indent (src "        Some(b) if " ++ valid ++ src " => {");;
  w_line indent (src "            if s.len() == " ++ max_len ++ src " {");;
  w_line indent (src "                // Too long; bad request");;
  w_line indent (src "                return None;");;
  w_line indent (src "            }");;
  w_line indent (src "            s.push_char(b as char);");;
  w_line indent (src "        },");;
  w_line indent (src "        _ => return None,");;
  w_line indent (src "    }");;
  w_line indent (src "}").
End Branchified.

(** ** read_method.rs *)
Definition read_method_head : str :=
  src "// This automatically generated file is included in request.rs." ++ [LF]
  ++ src "{" ++ [LF]
  ++ src "    use method::{Connect, Delete, Get, Head, Options, Patch, Post, Put, Trace, ExtensionMethod};" ++ [LF]
  ++ src "    use server::request::MAX_METHOD_LEN;" ++ [LF]
  ++ src "    use rfc2616::{SP, is_token_item};" ++ [LF] ++ [LF].
Definition read_method_generate {W} `{Writer W} : M W unit :=
  writer_write (as_bytes read_method_head);;
  branches ← call (branchify method_options true);
  generate_branchified_method (src "self.stream.read_byte()") (src "SP") (src "MAX_METHOD_LEN")
    (src "is_token_item(b)") (λ s, src "ExtensionMethod(" ++ s ++ src ")") branches 1;;
  writer_write (as_bytes (src "}" ++ [LF])).

(** ** status.rs: [generate] *)
Section StatusText.
Context {W : Type} `{Writer W}.

(** A line of a literal. *)
Definition ln (s : string) : str := src s ++ [LF].

(** One of the loops over the entries: a heading becomes a comment, at the
    given indentation. *)
Definition write_entries (indent : nat) (arm : Entry → M W unit) : M W unit :=
  for_each entries (λ entry,
    match entry with
    | Left heading => write_str ([LF] ++ blanks indent ++ src "// " ++ src heading ++ [LF])
    | Right status => arm status
    end).

(** The constructors. *)
Definition constructor_arm (status : Entry) : M W unit :=
  match e_comment status with
  | None => write_str (blanks 4 ++ ident status ++ src "," ++ [LF])
  | Some comment => write_str (blanks 4 ++ ident status ++ src ",  // " ++ src comment ++ [LF])
  end.
(** The arms of [code], [reason] and [from_code_and_reason]. *)
Definition code_arm (status : Entry) : M W unit :=
  p ← call (padded_ident status);
  write_str (blanks 12 ++ p ++ src " => " ++ uint_to_str (e_code status) ++ src "," ++ [LF]).
Definition reason_arm (status : Entry) : M W unit :=
  p ← call (padded_ident status);
  write_str (blanks 12 ++ p ++ src " => ~^" ++ e_reason status ++ src "^," ++ [LF]).
Definition from_arm (status : Entry) : M W unit :=
  q ← call (reason_padding_spaces status);
  write_str (blanks 12 ++ src "(" ++ uint_to_str (e_code status) ++ src ", ^" ++ to_ascii_lower (e_reason status)
    ++ src "^)" ++ q ++ src " => " ++ ident status ++ src "," ++ [LF]).

(** The last loop, with the set of the numbers that have an arm. *)
Fixpoint write_u64_arms (matched_numbers : list uint) (es : list HeadingOrStatus) : M W unit :=
  match es with
  | [] => mret tt
  | Left heading :: es' =>
      write_str ([LF] ++ blanks 12 ++ src "// " ++ src heading ++ [LF]);; write_u64_arms matched_numbers es'
  | Right status :: es' =>
      if decide (e_code status ∈ matched_numbers) then write_u64_arms matched_numbers es'
      else
        write_str (blanks 12 ++ uint_to_str (e_code status) ++ src " => " ++ ident status ++ src "," ++ [LF]);;
        write_u64_arms (e_code status :: matched_numbers) es'
  end.

Definition status_generate : M W unit :=
  write_str (ln "// This file is automatically generated file is used as http::status." ++ [LF]
    ++ ln "use std::fmt;" ++ ln "use std::ascii::StrAsciiExt;" ++ [LF]
    ++ ln "/// HTTP status code" ++ ln "#[deriving(Eq)]" ++ ln "pub enum Status {");;
  write_entries 4 constructor_arm;;
  write_str ([LF] ++ ln "    UnregisteredStatus(u16, ~str)," ++ ln "}" ++ [LF] ++ ln "impl Status {" ++ [LF]
    ++ ln "    /// Get the status code" ++ ln "    pub fn code(&self) -> u16 {" ++ ln "        match *self {");;
  write_entries 12 code_arm;;
  write_str ([LF] ++ ln "            UnregisteredStatus(code, _)   => code," ++ ln "        }" ++ ln "    }" ++ [LF]
    ++ ln "    /// Get the reason phrase" ++ ln "    pub fn reason(&self) -> ~str {" ++ ln "        match *self {");;
  write_entries 12 reason_arm;;
  write_str ([LF] ++ ln "            UnregisteredStatus(_, ref reason) => (*reason).clone()," ++ ln "        }" ++ ln "    }" ++ [LF]
    ++ ln "    /// Get a status from the code and reason"
    ++ ln "    pub fn from_code_and_reason(status: u16, reason: ~str) -> Status {"
    ++ ln "        let reason_lower = reason.to_ascii_lower();"
    ++ ln "        match (status, reason_lower.as_slice()) {");;
  write_entries 12 from_arm;;
  write_str ([LF] ++ ln "            (_, _) => UnregisteredStatus(status, reason)," ++ ln "        }" ++ ln "    }" ++ ln "}" ++ [LF]
    ++ ln "impl ToStr for Status {"
    ++ ln "    /// Produce the HTTP status message incorporating both code and message,"
    ++ ln "    /// e.g. `ImATeapot.to_str() == ^418 I'm a teapot^`"
    ++ [HT] ++ ln "fn to_str(&self) -> ~str {"
    ++ [HT; HT] ++ ln "format!(^{} {}^, self.code().to_str(), self.reason())"
    ++ [HT] ++ ln "}" ++ ln "}" ++ [LF]
    ++ ln "impl fmt::Default for Status {" ++ ln "    fn fmt(s: &Status, f: &mut fmt::Formatter) {"
    ++ ln "        write!(f.buf, ^{} {}^, s.code(), s.reason());" ++ ln "    }" ++ ln "}" ++ [LF]
    ++ ln "impl fmt::Unsigned for Status {" ++ ln "    fn fmt(s: &Status, f: &mut fmt::Formatter) {"
    ++ ln "        fmt::Unsigned::fmt(&s.code(), f);" ++ ln "    }" ++ ln "}" ++ [LF; LF]
    ++ ln "impl ToPrimitive for Status {" ++ [LF]
    ++ ln "    /// Equivalent to `Some(self.code() as i64)`" ++ ln "    fn to_i64(&self) -> Option<i64> {"
    ++ ln "        Some(self.code() as i64)" ++ ln "    }" ++ [LF]
    ++ ln "    /// Equivalent to `Some(self.code() as u64)`" ++ ln "    fn to_u64(&self) -> Option<u64> {"
    ++ ln "        Some(self.code() as u64)" ++ ln "    }" ++ ln "}" ++ [LF]
    ++ ln "impl FromPrimitive for Status {"
    ++ ln "    /// Get a *registered* status code from the number of its status code." ++ ln "    ///"
    ++ ln "    /// This will return None if an unknown (or negative, which are invalid) code is passed." ++ ln "    ///"
    ++ ln "    /// For example, `from_i64(200)` will return `OK`."
    ++ ln "    fn from_i64(n: i64) -> Option<Status> {" ++ ln "        if n < 0 {" ++ ln "            None"
    ++ ln "        } else {" ++ ln "            FromPrimitive::from_u64(n as u64)" ++ ln "        }" ++ ln "    }" ++ [LF]
    ++ ln "    /// Get a *registered* status code from the number of its status code." ++ ln "    ///"
    ++ ln "    /// This will return None if an unknown code is passed." ++ ln "    ///"
    ++ ln "    /// For example, `from_u64(200)` will return `OK`."
    ++ ln "    fn from_u64(n: u64) -> Option<Status> {" ++ ln "        Some(match n {");;
  write_u64_arms [] entries;;
  write_str ([LF] ++ ln "            _   => { return None }" ++ ln "        })" ++ ln "    }" ++ src "}").
End StatusText.

(** ** codegen.rs *)

(** Paths and the file system are the standard library's: a path made from an
    argument, a name pushed onto a path, and whether a file can be opened for
    writing. *)
Class PathOps := {
  Path : Type;
  path_eq_dec :: EqDecision Path;
  path_from_str : str → option Path;
  path_push : Path → str → Path;
  can_open : Path → bool
}.

Section Driver.
Context `{PathOps}.

(** The world of the program: the files, the directories it made, the console
    and the exit status. *)
Record World : Type := mkWorld {
  files : list (Path * list u8);
  directories : list Path;
  console : str;
  exit_status : Z
}.
(** The content of a file is the last that was written. *)
Definition file_content (p : Path) (w : World) : option (list u8) :=
  snd <$> List.find (λ f, bool_decide (f.1 = p)) (files w).
Definition println (s : str) : M World unit :=
  modify (λ w, mkWorld (files w) (directories w) (console w ++ s ++ [LF]) (exit_status w)).
Definition set_exit_status (n : Z) : M World unit :=
  modify (λ w, mkWorld (files w) (directories w) (console w) n).
Definition make_dir (p : Path) : M World unit :=
  modify (λ w, mkWorld (files w) (directories w ++ [p]) (console w) (exit_status w)).

(** [get_writer], and the use of the writer it returns: the file is truncated
    when it is opened. *)
Definition with_writer (output_dir : Path) (filename : str) (m : M MemWriter unit) : M World unit := λ w,
  let output_file := path_push output_dir filename in
  if can_open output_file then
    match m (mkMemWriter []) with
    | Done (_, writer) =>
        Done (tt, mkWorld ((output_file, mw_buf writer) :: files w) (directories w) (console w) (exit_status w))
    | Fail e => Fail e
    | Diverge => Diverge
    end
  else Fail "Unable to write file".

Definition main (args : list str) : M World unit :=
  match args with
  | [] =>
      println (src "usage: codegen [read_method|status].rs");;
      set_exit_status 1
  | [_; what; dir] =>
      match path_from_str dir with
      | None => fail "called `Option::unwrap()` on a `None` value"
      | Some output_dir =>
          make_dir output_dir;;
          if bool_decide (what = src "read_method.rs") then with_writer output_dir (src "read_method.rs") read_method_generate
          else if bool_decide (what = src "status.rs") then with_writer output_dir (src "status.rs") status_generate
          else
            println (src "unknown thing-to-generate '" ++ what ++ src "'");;
            set_exit_status 1
      end
  | program :: _ =>
      println (src "usage: " ++ program ++ src " [read_method|status].rs");;
      set_exit_status 1
  end.
End Driver.

(** ** The braces of the text *)

(** The depth after the braces of a text, [None] where one closes too many. *)
Fixpoint depth (d : nat) (l : list u8) : option nat :=
  match l with
  | [] => Some d
  | b :: l' =>
      if b =? chr "{" then depth (S d) l'
      else if b =? chr "}" then match d with O => None | S d' => depth d' l' end
      else depth d l'
  end.
Definition brace (b : u8) : bool := (b =? chr "{") || (b =? chr "}").
Definition plain (s : str) : bool := forallb (λ b, negb (brace b)) (as_bytes s).

Lemma depth_app d l1 l2 : depth d (l1 ++ l2) = depth d l1 ≫= λ d', depth d' l2.
Proof.
  revert d. induction l1 as [|b l1 IH]; intros d; [done|]. simpl.
  destruct (b =? chr "{"); [done|]. destruct (b =? chr "}"); [by destruct d|done].
Qed.

Lemma depth_plain d s : plain s = true → depth d (as_bytes s) = Some d.
Proof.
  unfold plain. induction (as_bytes s) as [|b l IH]; [done|]. simpl. unfold brace at 1.
  destruct (b =? chr "{"); [done|]. by destruct (b =? chr "}").
Qed.

Lemma plain_app s t : plain (s ++ t) = plain s && plain t.
Proof. unfold plain. by rewrite as_bytes_app, forallb_app. Qed.

Lemma plain_blanks n : plain (blanks n) = true.
Proof.
  unfold blanks. induction n as [|n IH]; [done|].
  change (plain ([chr " "] ++ replicate n (chr " ")) = true). by rewrite plain_app, IH.
Qed.

Section Balance.
Context {W : Type} `{Writer W}.

(** The method only writes, and its text takes the depth from [k] to [k']
    above any depth. *)
Definition nests (k k' : nat) (m : M W unit) : Prop :=
  ∃ text, Writes m text ∧ ∀ d, depth (k + d) text = Some (k' + d)%nat.

Lemma nests_ret k : nests k k (mret tt).
Proof. exists []. split; [apply Writes_ret|done]. Qed.

Lemma nests_bind k1 k2 k3 m1 m2 : nests k1 k2 m1 → nests k2 k3 m2 → nests k1 k3 (m1;; m2).
Proof.
  intros (t1 & W1 & D1) (t2 & W2 & D2). exists (t1 ++ t2). split; [by apply Writes_bind|].
  intros d. rewrite depth_app, D1. apply D2.
Qed.

Lemma nests_for_each {A} k (xs : list A) (f : A → M W unit) :
  Forall (λ x, nests k k (f x)) xs → nests k k (for_each xs f).
Proof. induction 1 as [|x xs Hx Hxs IH]; [apply nests_ret|]. by apply (nests_bind k k k). Qed.

Lemma nests_line k k' indent s :
  (∀ d, depth (k + d) (as_bytes s) = Some (k' + d)%nat) → nests k k' (w_line indent s).
Proof.
  intros Hs. exists (as_bytes (blanks (indent * 4)) ++ as_bytes s ++ [LF]). split.
  - apply Writes_bind; [apply Writes_write|]. apply Writes_bind; apply Writes_write.
  - intros d. rewrite depth_app, (depth_plain _ _ (plain_blanks _)). simpl. by rewrite depth_app, Hs.
Qed.

(** A line without braces, one that opens a brace at its end, one that starts
    with a closing brace. *)
Lemma nests_plain k indent s : plain s = true → nests k k (w_line indent s).
Proof. intros Hs. apply nests_line. intros d. by apply depth_plain. Qed.

Lemma nests_open k indent s t : plain t = true → s = t ++ src " {" → nests k (S k) (w_line indent s).
Proof.
  intros Ht ->. apply nests_line. intros d. by rewrite as_bytes_app, depth_app, depth_plain.
Qed.

Lemma nests_close k indent s : (∀ d, depth (S d) (as_bytes s) = Some d) → nests (S k) k (w_line indent s).
Proof. intros Hs. apply nests_line. intros d. apply Hs. Qed.
End Balance.

(** The bytes and the results of a tree have no braces. *)
Inductive plain_branch : ParseBranch → Prop :=
  plain_branch_intro m r cs :
    Forall (λ c, plain [c] = true) m → match r with Some s => plain s = true | None => True end →
    Forall plain_branch cs → plain_branch (mkBranch m r cs).

Section BranchifiedText.
Context {W : Type} `{Writer W} (read_call end_ max_len valid : str) (unknown : str → str).
Context (Hread : plain read_call = true) (Hend : plain end_ = true) (Hmax : plain max_len = true)
        (Hvalid : plain valid = true) (Hunknown : ∀ s, plain s = true → plain (unknown s) = true).

Lemma write_branch_nests : ∀ branch prefix indent k,
  plain_branch branch → plain prefix = true →
  nests (W:=W) k k (write_branch read_call valid unknown branch prefix indent).
Proof using Hread Hvalid Hunknown.
  fix IH 1. intros [m r cs] prefix indent k Hb Hp. inversion Hb as [? ? ? Hm Hr Hcs]; subst. cbn [write_branch matches].
  apply nests_for_each. eapply Forall_impl; [exact Hm|]. intros c Hc. cbn beta zeta.
  assert (Hnp : plain (prefix ++ [c]) = true) by (by rewrite plain_app, Hp, Hc).
  apply (nests_bind k (S k) k).
  { eapply nests_open; [|rewrite !app_assoc; reflexivity]. by rewrite !plain_app, Hc, Hread. }
  apply (nests_bind (S k) (S k) k).
  { cbn [children]. clear Hb Hr Hm. revert Hcs. generalize cs. fix IHcs 1. intros [|b bs] Hcs; [apply nests_ret|].
    apply Forall_cons in Hcs as [Hb Hbs]. apply (nests_bind (S k) (S k) (S k)); [by apply IH|by apply IHcs]. }
  apply (nests_bind (S k) (S k) k).
  { apply nests_plain. unfold result_text. cbn [result]. destruct r as [s|]; rewrite !plain_app; [by rewrite Hr|].
    rewrite Hunknown; [done|]. by rewrite !plain_app, Hp, Hc. }
  apply (nests_bind (S k) (S k) k); [apply nests_plain; by rewrite !plain_app, Hvalid, Hp, Hc|].
  apply (nests_bind (S k) (S k) k); [by apply nests_plain|]. by apply nests_close.
Qed.

(** The text of a generated parser has matching braces, whatever the
    tree: for branches, results and pieces of code without braces of their
    own, [generate_branchified_method] only writes, and in what it writes, at
    any indentation, every brace that is opened is closed and none is closed
    that was not opened. *)
Theorem parser_text_balanced branches indent :
  Forall plain_branch branches →
  ∃ text, Writes (W:=W) (generate_branchified_method read_call end_ max_len valid unknown branches indent) text
    ∧ ∀ d, depth d text = Some d.
Proof using Hread Hend Hmax Hvalid Hunknown.
  intros Hb. change (nests (W:=W) 0 0 (generate_branchified_method read_call end_ max_len valid unknown branches indent)).
  assert (Hopen : ∀ k s t, plain t = true → s = t ++ src " {" → nests (W:=W) k (S k) (w_line indent s))
    by (intros; by eapply nests_open).
  unfold generate_branchified_method.
  apply (nests_bind 0 1 0); [eapply Hopen; [|rewrite !app_assoc; reflexivity]; by rewrite !plain_app, Hread|].
  apply (nests_bind 1 1 0).
  { apply nests_for_each. eapply Forall_impl; [exact Hb|]. intros b Hb'. by apply write_branch_nests. }
  apply (nests_bind 1 1 0); [apply nests_plain; by rewrite !plain_app, Hvalid|].
  apply (nests_bind 1 1 0); [by apply nests_plain|]. apply (nests_bind 1 0 0); [by apply nests_close|].
  do 3 (apply (nests_bind 0 0 0); [by apply nests_plain|]).
  apply (nests_bind 0 1 0); [by apply (Hopen 0%nat _ (src "loop"))|].
  apply (nests_bind 1 2 0); [eapply Hopen; [|rewrite !app_assoc; reflexivity]; by rewrite !plain_app, Hread|].
  apply (nests_bind 2 2 0); [apply nests_plain; by rewrite !plain_app, Hend, Hunknown|].
  apply (nests_bind 2 3 0).
  { apply (Hopen 2%nat _ (src "        Some(b) if " ++ valid ++ src " =>")); [by rewrite !plain_app, Hvalid|].
    rewrite <-!app_assoc. reflexivity. }
  apply (nests_bind 3 4 0); [eapply Hopen; [|rewrite !app_assoc; reflexivity]; by rewrite !plain_app, Hmax|].
  do 2 (apply (nests_bind 4 4 0); [by apply nests_plain|]). apply (nests_bind 4 3 0); [by apply nests_close|].
  apply (nests_bind 3 3 0); [by apply nests_plain|]. apply (nests_bind 3 2 0); [by apply nests_close|].
  apply (nests_bind 2 2 0); [by apply nests_plain|]. apply (nests_bind 2 1 0); [by apply nests_close|].
  by apply nests_close.
Qed.
End BranchifiedText.

Lemma parser_text_balanced_witness :
  ∃ text, Writes (W:=MemWriter)
      (generate_branchified_method (src "self.stream.read_byte()") (src "SP") (src "MAX_METHOD_LEN") (src "is_token_item(b)")
         (λ s, src "ExtensionMethod(" ++ s ++ src ")") method_branches 1) text
    ∧ ∀ d, depth d text = Some d.
Proof.
  apply parser_text_balanced; [reflexivity|reflexivity|reflexivity|reflexivity| |].
  - intros s Hs. rewrite !plain_app, Hs. reflexivity.
  - assert (E : method_branches = ltac:(let t := eval vm_compute in method_branches in exact t)) by (vm_compute; reflexivity).
    rewrite E. repeat first [reflexivity|exact I|constructor].
Defined.

(** ** The arms of the text of status.rs *)

(** What is before and after the arrow of an arm. *)
Fixpoint split_arrow (s : str) : option (str * str) :=
  match s with
  | [] => None
  | c :: s' =>
      if bool_decide (take 4 s = src " => ") then Some ([], drop 4 s)
      else '(p, b) ← split_arrow s'; Some (c :: p, b)
  end.
(** White space off both ends of the pattern. *)
Definition trim (s : str) : str := reverse (trim_left (reverse (trim_left s))).
Definition arms (text : str) : list (str * str) :=
  omap (λ line, '(p, b) ← split_arrow line; Some (trim p, b)) (split_char LF text).


(** ** The program *)
Lemma read_method_text : ∃ w, read_method_generate (mkMemWriter []) = Done (tt, w) ∧ depth 0 (mw_buf w) = Some 0%nat.
Proof.
  assert (E : read_method_generate (mkMemWriter []) =
    ltac:(let t := eval vm_compute in (read_method_generate (mkMemWriter [])) in exact t)) by (vm_compute; reflexivity).
  eexists. split; [exact E|]. vm_compute. reflexivity.
Qed.

Lemma status_text : ∃ w, status_generate (mkMemWriter []) = Done (tt, w) ∧ depth 0 (mw_buf w) = Some 0%nat.
Proof.
  assert (E : status_generate (mkMemWriter []) =
    ltac:(let t := eval vm_compute in (status_generate (mkMemWriter [])) in exact t)) by (vm_compute; reflexivity).
  eexists. split; [exact E|]. vm_compute. reflexivity.
Qed.

Section Main.
Context `{PathOps}.

(** The generators and their names. *)
Definition generator (what : str) (m : M MemWriter unit) : Prop :=
  what = src "read_method.rs" ∧ m = read_method_generate ∨ what = src "status.rs" ∧ m = status_generate.

Lemma main_generates program what dir output_dir m w :
  generator what m → path_from_str dir = Some output_dir →
  main [program; what; dir] w = (make_dir output_dir;; with_writer output_dir what m) w.
Proof.
  intros Hg Hd. unfold main. rewrite Hd. apply bind_ext. intros [] t.
  destruct Hg as [[-> ->]|[-> ->]]; [by rewrite bool_decide_true|]. by rewrite bool_decide_false, bool_decide_true by done.
Qed.

(** C40. The code generator as a program.  Given the name of one of the two
    files and a directory it writes that file there, with the whole text of
    its generator, whose braces match, in place of what it held, and touches
    no other file; when the file cannot be opened the task fails.  Any other
    name, and any other number of arguments, ends in the exit status 1 with
    every file as it was. *)
Theorem codegen_main_correct program what dir output_dir w :
  path_from_str dir = Some output_dir →
  (∀ m, generator what m →
     (can_open (path_push output_dir what) = true →
      ∃ w' writer, main [program; what; dir] w = Done (tt, w') ∧ m (mkMemWriter []) = Done (tt, writer)
        ∧ file_content (path_push output_dir what) w' = Some (mw_buf writer) ∧ depth 0 (mw_buf writer) = Some 0%nat
        ∧ (∀ p, p ≠ path_push output_dir what → file_content p w' = file_content p w)
        ∧ exit_status w' = exit_status w)
     ∧ (can_open (path_push output_dir what) = false → main [program; what; dir] w = Fail "Unable to write file"))
  ∧ ((∀ m, ¬ generator what m) → ∃ w', main [program; what; dir] w = Done (tt, w') ∧ exit_status w' = 1 ∧ files w' = files w)
  ∧ ∀ args, length args ≠ 3%nat → ∃ w', main args w = Done (tt, w') ∧ exit_status w' = 1 ∧ files w' = files w.
Proof.
  intros Hd. split; [|split].
  - intros m Hg. rewrite (main_generates program what dir output_dir m w Hg Hd). unfold make_dir. rewrite bind_modify.
    unfold with_writer. split; intros Ho; rewrite Ho; [|done].
    assert (∃ writer, m (mkMemWriter []) = Done (tt, writer) ∧ depth 0 (mw_buf writer) = Some 0%nat) as (writer & Em & Hb)
      by (destruct Hg as [[_ ->]|[_ ->]]; [apply read_method_text|apply status_text]).
    rewrite Em. eexists _, writer. split; [reflexivity|]. split; [reflexivity|]. unfold file_content. cbn [files List.find fst].
    split; [by rewrite bool_decide_true|]. split; [exact Hb|]. split; [|reflexivity].
    intros p Hp. by rewrite bool_decide_false by congruence.
  - intros Hno. unfold main. rewrite Hd. unfold make_dir. rewrite bind_modify.
    rewrite bool_decide_false by (intros ->; apply (Hno read_method_generate); by left).
    rewrite bool_decide_false by (intros ->; apply (Hno status_generate); by right).
    unfold println. rewrite bind_modify. by eexists.
  - intros args Hl. unfold main. destruct args as [|a [|b [|c [|d args]]]]; try done;
      unfold println; rewrite bind_modify; by eexists.
Qed.
End Main.

(** Paths as texts; a name is pushed after a slash. *)
Definition text_paths : PathOps := {|
  Path := str;
  path_from_str s := Some s;
  path_push p s := p ++ [chr "/"] ++ s;
  can_open _ := true
|}.

Lemma codegen_main_correct_witness :
  let w : World (H:=text_paths) := mkWorld [] [] [] 0 in
  ∃ w' writer, main (H:=text_paths) [src "codegen"; src "read_method.rs"; src "generated"] w = Done (tt, w')
    ∧ read_method_generate (mkMemWriter []) = Done (tt, writer)
    ∧ file_content (src "generated/read_method.rs" : Path (PathOps:=text_paths)) w' = Some (mw_buf writer).
Proof.
  intros w.
  destruct (codegen_main_correct (H:=text_paths) (src "codegen") (src "read_method.rs") (src "generated") (src "generated") w eq_refl)
    as [Hg _].
  destruct (Hg read_method_generate (or_introl (conj eq_refl eq_refl))) as [Ho _].
  destruct (Ho eq_refl) as (w' & writer & E & Em & Hf & _). exists w', writer. split; [exact E|]. split; [exact Em|exact Hf].
Defined.
