(* ===== verification/ParserText.v ===== *)
(** * The text of the method parser, read as the program it is
    (src/libhttp/codegen/branchify.rs, src/libhttp/codegen/read_method.rs)

    Codegen models how branchify.rs writes the text of a parser, Branchify what
    the parser does.  This file joins the two: a reader of the written text
    gives the nest of [match]es it stands for, an interpreter runs the nest as
    Rust does, trying the arms of a [match] in order, and for every tree the
    run of the text is the run of the tree.

    In a literal of this file a circumflex stands for a quotation mark. *)

From S2P Require Import Prelude Strs Rfc2616 Method Io Branchify Codegen.
#[local] Set Warnings "-register-all".

(** ** The language of the text *)

(** An arm of a [match] on the byte read. *)
Inductive arm : Type :=
  (** [Some(b) if b == 'c' as u8 => match self.stream.read_byte() { ... },] *)
  | ArmByte (c : u8) (arms : list arm)
  (** [Some(b) if b == SP => return Some(expr),] *)
  | ArmEnd (expr : str)
  (** [Some(b) if is_token_item(b) => (^prefix^, b),] *)
  | ArmValid (prefix : str)
  (** [_ => return None,] *)
  | ArmOther.

(** The program: the arms of the outermost [match], and the expression that
    the loop after it returns. *)
Record method_code : Type := mkCode { code_arms : list arm; code_unknown : str }.

(** ** The reader *)
Fixpoint strip_prefix (p s : str) : option str :=
  match p, s with
  | [], _ => Some s
  | c :: p', d :: s' => if c =? d then strip_prefix p' s' else None
  | _ :: _, [] => None
  end.
Definition strip_suffix (q s : str) : option str := reverse <$> strip_prefix (reverse q) (reverse s).
(** What stands between two texts. *)
Definition between (p q s : str) : option str := strip_prefix p s ≫= strip_suffix q.

Inductive text_line : Type :=
  | LineByte (c : u8) | LineEnd (expr : str) | LineValid (prefix : str) | LineOther | LineClose.

Definition read_line (l : str) : option text_line :=
  if bool_decide (l = src "_ => return None,") then Some LineOther
  else if bool_decide (head l = Some (chr "}")) then Some LineClose
  else match between (src "Some(b) if b == '") (src "' as u8 => match self.stream.read_byte() {") l with
       | Some [c] => Some (LineByte c)
       | Some _ => None
       | None =>
           match between (src "Some(b) if b == SP => return Some(") (src "),") l with
           | Some expr => Some (LineEnd expr)
           | None => LineValid <$> between (src "Some(b) if is_token_item(b) => (^") (src "^, b),") l
           end
       end.

(** The arms up to the line that closes them, which is left. *)
Fixpoint read_arms (fuel : nat) (ls : list str) : option (list arm * list str) :=
  match fuel, ls with
  | S f, l :: ls' =>
      match read_line l with
      | Some LineClose => Some ([], ls)
      | Some (LineByte c) =>
          '(body, ls1) ← read_arms f ls';
          match ls1 with
          | close :: ls2 =>
              if bool_decide (close = src "},") then '(more, r) ← read_arms f ls2; Some (ArmByte c body :: more, r)
              else None
          | [] => None
          end
      | Some (LineEnd e) => '(more, r) ← read_arms f ls'; Some (ArmEnd e :: more, r)
      | Some (LineValid p) => '(more, r) ← read_arms f ls'; Some (ArmValid p :: more, r)
      | Some LineOther => '(more, r) ← read_arms f ls'; Some (ArmOther :: more, r)
      | None => None
      end
  | _, _ => None
  end.

(** The statements after the [match], up to the [return] of the loop and from
    it on. *)
Definition loop_before : list str :=
  [src "};"; src "// OK, that didn't pan out. Let's read the rest and see what we get.";
   src "let mut s = s.to_owned();"; src "s.push_char(next_byte as char);"; src "loop {";
   src "match self.stream.read_byte() {"].
Definition loop_after : list str :=
  [src "Some(b) if is_token_item(b) => {"; src "if s.len() == MAX_METHOD_LEN {"; src "// Too long; bad request";
   src "return None;"; src "}"; src "s.push_char(b as char);"; src "},"; src "_ => return None,"; src "}"; src "}"].

(** The body of a method, from its lines, and what follows it. *)
Definition read_code (ls : list str) : option (method_code * list str) :=
  match ls with
  | l :: ls1 =>
      if bool_decide (l = src "let (s, next_byte) = match self.stream.read_byte() {") then
        '(arms, ls2) ← read_arms (length ls1) ls1;
        if bool_decide (take 6 ls2 = loop_before) then
          match drop 6 ls2 with
          | l3 :: ls3 =>
              e ← between (src "Some(b) if b == SP => return Some(") (src "),") l3;
              if bool_decide (take 10 ls3 = loop_after) then Some (mkCode arms e, drop 10 ls3) else None
          | [] => None
          end
        else None
      else None
  | [] => None
  end.

(** The lines of a text, without their indentation. *)
Definition text_lines (text : list u8) : list str := trim_left <$> split_char LF text.

(** ** The interpreter *)
Section Interpreter.
Context {R : Type} (read_byte : M R (option u8)).

(** An expression: the constructor [ExtensionMethod] on a literal or on the
    variable [s], or the name of another constructor. *)
Definition eval_expr (s : str) (e : str) : Method :=
  match between (src "ExtensionMethod(") (src ")") e with
  | Some arg =>
      match between (src "~^") (src "^") arg with
      | Some literal => ExtensionMethod literal
      | None => if bool_decide (arg = src "s") then ExtensionMethod s else method_ident e
      end
  | None => method_ident e
  end.

(** The first arm that applies. *)
Fixpoint run_arm (a : arm) (ob : option u8) : option (M R (outcome (A:=Method))) :=
  match a with
  | ArmByte c arms =>
      if bool_decide (ob = Some c) then
        Some (ob' ← read_byte;
              (fix run_match (arms : list arm) : M R outcome :=
                 match arms with
                 | [] => fail "non-exhaustive patterns"
                 | a' :: arms' => default (run_match arms') (run_arm a' ob')
                 end) arms)
      else None
  | ArmEnd e => if bool_decide (ob = Some SP) then Some (mret (Return (Some (eval_expr [] e)))) else None
  | ArmValid prefix =>
      b ← ob;
      if is_token_item b then Some (mret (Through prefix b)) else None
  | ArmOther => Some (mret (Return None))
  end.
Fixpoint run_match (arms : list arm) (ob : option u8) : M R outcome :=
  match arms with
  | [] => fail "non-exhaustive patterns"
  | a :: arms' => default (run_match arms' ob) (run_arm a ob)
  end.

(** The loop after the [match]. *)
Definition run_rest (e : str) (s : str) : M R (str + option Method) :=
  ob ← read_byte;
  match ob with
  | Some b =>
      if b =? SP then break (Some (eval_expr s e))
      else if is_token_item b then
        if (str_len s =? MAX_METHOD_LEN)%nat then break None else continue (s ++ [b])
      else break None
  | None => break None
  end.

Definition run_code (code : method_code) (fuel : nat) : M R (option Method) :=
  ob ← read_byte;
  o ← run_match (code_arms code) ob;
  match o with
  | Return r => mret r
  | Through s next_byte => loop fuel (run_rest (code_unknown code)) (s ++ [next_byte])
  end.
End Interpreter.

(** ** The program that is written for a tree *)
Definition value_expr (result : option str) (prefix : str) : str :=
  match result with
  | Some name => name
  | None => src "ExtensionMethod(" ++ (src "~^" ++ prefix ++ src "^") ++ src ")"
  end.
Fixpoint arms_of (branch : ParseBranch) (prefix : str) : list arm :=
  let 'mkBranch ms r cs := branch in
  (λ c, ArmByte c ((cs ≫= λ b, arms_of b (prefix ++ [c]))
                   ++ [ArmEnd (value_expr r (prefix ++ [c])); ArmValid (prefix ++ [c]); ArmOther])) <$> ms.

Definition byte_line (c : u8) : str := src "Some(b) if b == '" ++ [c] ++ src "' as u8 => match self.stream.read_byte() {".
Definition end_line (expr : str) : str := src "Some(b) if b == SP => return Some(" ++ expr ++ src "),".
Definition valid_line (prefix : str) : str := src "Some(b) if is_token_item(b) => (^" ++ prefix ++ src "^, b),".
Fixpoint lines_of (branch : ParseBranch) (prefix : str) : list str :=
  let 'mkBranch ms r cs := branch in
  ms ≫= λ c, byte_line c :: (cs ≫= λ b, lines_of b (prefix ++ [c]))
    ++ [end_line (value_expr r (prefix ++ [c])); valid_line (prefix ++ [c]); src "_ => return None,"; src "},"].

(** The bytes and results that make a text: letters of tokens, without the
    apostrophe, which would end the literal of a byte. *)
Definition letter (c : u8) : bool := is_token_item c && negb (c =? chr "'").
Inductive branch_ok : ParseBranch → Prop :=
  branch_ok_intro ms r cs :
    forallb letter ms = true → match r with Some name => forallb letter name = true | None => True end →
    Forall branch_ok cs → branch_ok (mkBranch ms r cs).

(** *** Its lines are read as its arms *)
Lemma strip_prefix_app p s : strip_prefix p (p ++ s) = Some s.
Proof. induction p as [|c p IH]; [done|]. simpl. by rewrite Z.eqb_refl. Qed.

Lemma strip_suffix_app q s : strip_suffix q (s ++ q) = Some s.
Proof. unfold strip_suffix. rewrite reverse_app, strip_prefix_app. simpl. by rewrite reverse_involutive. Qed.

Lemma between_app p q s : between p q (p ++ s ++ q) = Some s.
Proof. unfold between. rewrite strip_prefix_app. apply strip_suffix_app. Qed.

(** A line that starts with [Some] is neither of the fixed ones. *)
Lemma read_line_some l :
  read_line (src "Some" ++ l) =
  match between (src "Some(b) if b == '") (src "' as u8 => match self.stream.read_byte() {") (src "Some" ++ l) with
  | Some [c] => Some (LineByte c)
  | Some _ => None
  | None =>
      match between (src "Some(b) if b == SP => return Some(") (src "),") (src "Some" ++ l) with
      | Some expr => Some (LineEnd expr)
      | None => LineValid <$> between (src "Some(b) if is_token_item(b) => (^") (src "^, b),") (src "Some" ++ l)
      end
  end.
Proof.
  unfold read_line. rewrite !bool_decide_false; [done|..]; intros E; [by vm_compute in E|].
  apply (f_equal head) in E. by vm_compute in E.
Qed.

Lemma read_line_byte c : read_line (byte_line c) = Some (LineByte c).
Proof.
  change (byte_line c) with (src "Some" ++ drop 4 (byte_line c)). rewrite read_line_some.
  change (src "Some" ++ drop 4 (byte_line c)) with (byte_line c). unfold byte_line. by rewrite between_app.
Qed.

Lemma read_line_end e : read_line (end_line e) = Some (LineEnd e).
Proof.
  change (end_line e) with (src "Some" ++ drop 4 (end_line e)). rewrite read_line_some.
  change (src "Some" ++ drop 4 (end_line e)) with (end_line e). unfold end_line. by rewrite between_app.
Qed.

Lemma read_line_valid p : read_line (valid_line p) = Some (LineValid p).
Proof.
  change (valid_line p) with (src "Some" ++ drop 4 (valid_line p)). rewrite read_line_some.
  change (src "Some" ++ drop 4 (valid_line p)) with (valid_line p). unfold valid_line. by rewrite between_app.
Qed.

(** [ls] is read as [arms], up to [r], with fuel for each of its lines. *)
Definition reads (ls : list str) (arms : list arm) (r : list str) : Prop :=
  ∀ f, (length ls ≤ f)%nat → read_arms f ls = Some (arms, r).

Lemma reads_close l ls : read_line l = Some LineClose → reads (l :: ls) [] (l :: ls).
Proof. intros E [|f] Hf; simpl in Hf; [lia|]. cbn [read_arms]. by rewrite E. Qed.

Lemma reads_cons l a ls arms r :
  match read_line l with
  | Some (LineEnd e) => a = ArmEnd e
  | Some (LineValid p) => a = ArmValid p
  | Some LineOther => a = ArmOther
  | _ => False
  end → reads ls arms r → reads (l :: ls) (a :: arms) r.
Proof.
  intros Hl Hr [|f] Hf; simpl in Hf; [lia|]. cbn [read_arms].
  destruct (read_line l) as [[| | | |]|]; try done; subst a; by rewrite Hr by lia.
Qed.

Lemma reads_byte c inner body ls more r :
  reads (inner ++ src "}," :: ls) body (src "}," :: ls) → reads ls more r →
  reads (byte_line c :: inner ++ src "}," :: ls) (ArmByte c body :: more) r.
Proof.
  intros Hb Hm [|f] Hf; cbn [length] in Hf; [lia|]. cbn [read_arms]. rewrite read_line_byte, Hb by lia. cbn.
  rewrite bool_decide_true by done. rewrite Hm; [done|]. rewrite length_app in Hf. simpl in Hf. lia.
Qed.

Lemma reads_bind {A} (xs : list A) (g : A → list str) (h : A → list arm) ls more r :
  (∀ x ls' more', x ∈ xs → reads ls' more' r → reads (g x ++ ls') (h x ++ more') r) → reads ls more r →
  reads ((xs ≫= g) ++ ls) ((xs ≫= h) ++ more) r.
Proof.
  induction xs as [|x xs IH]; intros Hx Hr; [done|]. cbn. rewrite <-!app_assoc.
  apply Hx; [left|]. apply IH; [|done]. intros y ls' more' Hy. apply Hx. by right.
Qed.

Lemma fmap_bind {A B} (f : A → B) (xs : list A) : f <$> xs = (xs ≫= λ x, [f x]).
Proof. induction xs as [|x xs IH]; [done|]. cbn. by f_equal. Qed.

Lemma branch_ind (P : ParseBranch → Prop) :
  (∀ ms r cs, Forall P cs → P (mkBranch ms r cs)) → ∀ b, P b.
Proof.
  intros HP. fix IH 1. intros [ms r cs]. apply HP. generalize cs. fix IHcs 1. intros [|b bs]; constructor; [apply IH|apply IHcs].
Qed.

Lemma reads_branch branch : ∀ prefix ls more r,
  reads ls more r → reads (lines_of branch prefix ++ ls) (arms_of branch prefix ++ more) r.
Proof.
  induction branch as [ms res cs IH] using branch_ind. intros prefix ls more r Hr. cbn [lines_of arms_of]. rewrite fmap_bind.
  apply reads_bind; [|done]. intros c ls' more' _ Hr'. cbn [app]. rewrite <-app_assoc. cbn [app].
  set (np := prefix ++ [c]). set (tail := [end_line (value_expr res np); valid_line np; src "_ => return None,"]).
  change (end_line (value_expr res np) :: _) with (tail ++ src "}," :: ls').
  rewrite app_assoc. apply reads_byte; [|done]. rewrite <-app_assoc. rewrite Forall_forall in IH.
  apply reads_bind; [intros b ls1 more1 Hb; by apply IH|].
  unfold tail. cbn [app]. apply reads_cons; [by rewrite read_line_end|]. apply reads_cons; [by rewrite read_line_valid|].
  apply reads_cons; [done|]. by apply reads_close.
Qed.

(** *** What is written are its lines *)
Section Printing.
Context {W : Type} `{Writer W}.

Definition Prints (m : M W unit) (ls : list str) : Prop :=
  ∃ text, Writes m text ∧ ∀ rest, text_lines (text ++ rest) = ls ++ text_lines rest.

Lemma Prints_ret : Prints (mret tt) [].
Proof. exists []. split; [apply Writes_ret|done]. Qed.

Lemma Prints_bind m1 m2 ls1 ls2 : Prints m1 ls1 → Prints m2 ls2 → Prints (m1;; m2) (ls1 ++ ls2).
Proof.
  intros (t1 & W1 & L1) (t2 & W2 & L2). exists (t1 ++ t2). split; [by apply Writes_bind|].
  intros rest. by rewrite <-!app_assoc, L1, L2.
Qed.

Lemma Prints_for_each {A} (xs : list A) (f : A → M W unit) (g : A → list str) :
  Forall (λ x, Prints (f x) (g x)) xs → Prints (for_each xs f) (xs ≫= g).
Proof. induction 1 as [|x xs Hx Hxs IH]; [apply Prints_ret|]. by apply (Prints_bind (f x)). Qed.

(** Characters that may stand in a line. *)
Definition inline (s : str) : bool := forallb (λ c, (c <? 128) && negb (c =? LF)) s.

Lemma trim_left_blanks n s : trim_left (blanks n ++ s) = trim_left s.
Proof. induction n as [|n IH]; [done|]. exact IH. Qed.

Lemma inline_app s t : inline (s ++ t) = inline s && inline t.
Proof. apply forallb_app. Qed.

Lemma Prints_line indent s : inline s = true → Prints (w_line indent s) [trim_left s].
Proof.
  intros Hs. exists (as_bytes (blanks (indent * 4)) ++ as_bytes s ++ [LF]). split.
  - apply Writes_bind; [apply Writes_write|]. apply Writes_bind; apply Writes_write.
  - intros rest. assert (Hb : inline (blanks (indent * 4)) = true).
    { unfold blanks. generalize (indent * 4)%nat. intros n. by induction n. }
    assert (Ha : ∀ t, inline t = true → as_bytes t = t).
    { intros t Ht. apply as_bytes_ascii, is_ascii_Forall. apply forallb_Forall in Ht.
      eapply Forall_impl; [exact Ht|]. simpl. lia. }
    rewrite !Ha by done. rewrite <-!app_assoc, app_assoc. cbn [app]. unfold text_lines.
    rewrite split_char_app; [by rewrite fmap_cons, trim_left_blanks|].
    rewrite forallb_app. apply andb_true_iff. unfold inline in Hs, Hb. rewrite forallb_Forall in Hs, Hb.
    split; apply forallb_Forall; eapply Forall_impl; try eassumption; simpl; lia.
Qed.

Lemma letters_inline s : forallb letter s = true → inline s = true.
Proof.
  unfold inline. rewrite !forallb_Forall. intros Hs. eapply Forall_impl; [exact Hs|]. intros c Hc. simpl in Hc.
  unfold letter in Hc. apply andb_true_iff in Hc as [Hc _]. pose proof (token_item_range c Hc).
  destruct (Z.eqb_spec c LF) as [->|]; [done|]. lia.
Qed.

Abbreviation unknown_text := (λ s, src "ExtensionMethod(" ++ s ++ src ")").
Abbreviation put_branch := (write_branch (W:=W) (src "self.stream.read_byte()") (src "is_token_item(b)") unknown_text).

Lemma write_branch_prints branch : ∀ prefix indent,
  branch_ok branch → forallb letter prefix = true → Prints (put_branch branch prefix indent) (lines_of branch prefix).
Proof.
  induction branch as [ms res cs IH] using branch_ind. intros prefix indent Hb Hp.
  inversion Hb as [? ? ? Hms Hres Hcs]; subst. cbn [write_branch matches children result lines_of].
  apply Prints_for_each, Forall_forall. intros c Hc. rewrite forallb_Forall, Forall_forall in Hms.
  pose proof (Hms c Hc) as Hlc. set (np := prefix ++ [c]).
  assert (Hnp : forallb letter np = true) by (unfold np; rewrite forallb_app, Hp; simpl; by rewrite Hlc).
  pose proof (letters_inline np Hnp) as Hin. assert (Hic : inline [c] = true) by (apply letters_inline; simpl; by rewrite Hlc).
  assert (Hval : inline (value_expr res np) = true).
  { destruct res as [name|]; cbn [value_expr]; [by apply letters_inline|]. by rewrite !inline_app, Hin. }
  cbn zeta. apply (Prints_bind _ _ [byte_line c]).
  { apply (Prints_line indent (byte_line c)). unfold byte_line. by rewrite !inline_app, Hic. }
  apply Prints_bind.
  { rewrite Forall_forall in IH. clear Hb Hres Hval Hms. induction cs as [|b bs IHbs]; [apply Prints_ret|].
    apply Forall_cons in Hcs as [Hb Hbs]. apply (Prints_bind (put_branch b np (indent + 1))); [apply IH; [left|done..]|].
    apply IHbs; [|done]. intros x Hx. apply IH. by right. }
  apply (Prints_bind _ _ [end_line (value_expr res np)]).
  { replace (result_text unknown_text res np) with (blanks 4 ++ end_line (value_expr res np)); [|by destruct res].
    change (end_line (value_expr res np)) with (trim_left (blanks 4 ++ end_line (value_expr res np))) at 2.
    apply Prints_line. unfold end_line. by rewrite !inline_app, Hval. }
  apply (Prints_bind _ _ [valid_line np]).
  { change (valid_line np) with (trim_left (blanks 4 ++ valid_line np)). apply Prints_line.
    unfold valid_line. by rewrite !inline_app, Hin. }
  apply (Prints_bind _ _ [src "_ => return None,"]); by apply Prints_line.
Qed.
End Printing.

(** *** The whole text *)
Definition code_of (branches : list ParseBranch) : method_code :=
  mkCode ((branches ≫= λ b, arms_of b []) ++ [ArmValid []; ArmOther]) (src "ExtensionMethod(s)").

Abbreviation method_text := (generate_branchified_method (src "self.stream.read_byte()") (src "SP") (src "MAX_METHOD_LEN")
  (src "is_token_item(b)") (λ s, src "ExtensionMethod(" ++ s ++ src ")")).

Lemma method_text_prints {W} `{Writer W} branches indent :
  Forall branch_ok branches →
  Prints (W:=W) (method_text branches indent)
    (src "let (s, next_byte) = match self.stream.read_byte() {" :: (branches ≫= λ b, lines_of b [])
     ++ [valid_line []; src "_ => return None,"] ++ loop_before ++ [end_line (src "ExtensionMethod(s)")] ++ loop_after).
Proof.
  intros Hb. unfold generate_branchified_method.
  apply (Prints_bind _ _ [src "let (s, next_byte) = match self.stream.read_byte() {"]); [by apply Prints_line|].
  apply Prints_bind.
  { apply Prints_for_each. eapply Forall_impl; [exact Hb|]. intros b Hb'. by apply write_branch_prints. }
  cbn [app loop_before loop_after].
  repeat first [apply (Prints_line indent); reflexivity | apply (Prints_bind _ _ [_]); [apply (Prints_line indent); reflexivity|]].
Qed.

Lemma read_code_lines branches rest :
  read_code ((src "let (s, next_byte) = match self.stream.read_byte() {" :: (branches ≫= λ b, lines_of b [])
     ++ [valid_line []; src "_ => return None,"] ++ loop_before ++ [end_line (src "ExtensionMethod(s)")] ++ loop_after) ++ rest)
  = Some (code_of branches, rest).
Proof.
  set (after := loop_before ++ end_line (src "ExtensionMethod(s)") :: loop_after ++ rest).
  set (body := (branches ≫= λ b, lines_of b []) ++ valid_line [] :: src "_ => return None," :: after).
  match goal with |- read_code ?ls = _ => replace ls with (src "let (s, next_byte) = match self.stream.read_byte() {" :: body) end;
    [|unfold body, after; cbn [app]; by rewrite <-!app_assoc].
  assert (Hr : reads body ((branches ≫= λ b, arms_of b []) ++ [ArmValid []; ArmOther]) after).
  { apply reads_bind; [intros b ls more _; apply reads_branch|].
    apply reads_cons; [by rewrite read_line_valid|]. apply reads_cons; [done|]. by apply reads_close. }
  cbn [read_code]. rewrite bool_decide_true by done. rewrite (Hr _ (le_n _)). cbn [mbind option_bind].
  change (take 6 after) with loop_before. change (drop 6 after) with (end_line (src "ExtensionMethod(s)") :: loop_after ++ rest).
  rewrite bool_decide_true by done. cbn iota. unfold end_line at 1. rewrite between_app. cbn [mbind option_bind].
  change (take 10 (loop_after ++ rest)) with loop_after. by rewrite bool_decide_true.
Qed.

(** *** It runs as the tree *)
Lemma loop_ext {S A B} n (b b' : A → M S (A + B)) :
  (∀ a s, b a s = b' a s) → ∀ a s, loop n b a s = loop n b' a s.
Proof.
  intros Hb. induction n as [|n IH]; intros a s; [done|]. rewrite !loop_S, !bind_unfold, Hb.
  destruct (b' a s) as [[[a'|r] t]| |]; [apply IH|done..].
Qed.

Section Running.
Context {R : Type} (read_byte : M R (option u8)).
Abbreviation run := (run_branch read_byte is_token_item ExtensionMethod method_ident).
Abbreviation matching := (run_match read_byte).

Lemma run_arm_byte c arms ob :
  match run_arm read_byte (ArmByte c arms) ob with
  | Some m => ob = Some c ∧ ∀ s, m s = (ob' ← read_byte; matching arms ob') s
  | None => ob ≠ Some c
  end.
Proof.
  cbn [run_arm]. case_bool_decide as Hc; [|done]. split; [done|]. intros s. apply bind_ext. intros ob' t.
  induction arms as [|a arms IH]; [done|]. cbn [run_match]. by destruct (run_arm read_byte a ob').
Qed.

(** The arms inside those of a branch. *)
Definition body_of (branch : ParseBranch) (np : str) : list arm :=
  (children branch ≫= λ b, arms_of b np) ++ [ArmEnd (value_expr (result branch) np); ArmValid np; ArmOther].

Lemma match_branch branch prefix more ob s :
  matching (arms_of branch prefix ++ more) ob s
  = match ob with
    | Some b => if existsb (Z.eqb b) (matches branch)
                then (ob' ← read_byte; matching (body_of branch (prefix ++ [b])) ob') s else matching more ob s
    | None => matching more ob s
    end.
Proof.
  destruct branch as [ms r cs]. cbn [arms_of matches].
  induction ms as [|c ms IH]; [by destruct ob|]. cbn [fmap list_fmap app run_match].
  pose proof (run_arm_byte c (body_of (mkBranch ms r cs) (prefix ++ [c])) ob) as Ha.
  change (body_of (mkBranch ms r cs) (prefix ++ [c])) with (body_of (mkBranch [] r cs) (prefix ++ [c])) in Ha.
  change ((cs ≫= λ b, arms_of b (prefix ++ [c])) ++ _) with (body_of (mkBranch [] r cs) (prefix ++ [c])).
  destruct (run_arm read_byte (ArmByte c _) ob) as [m|].
  - destruct Ha as [-> Hm]. cbn [default]. rewrite Hm. cbn [existsb]. by rewrite Z.eqb_refl.
  - cbn [default]. rewrite IH. destruct ob as [b|]; [|done]. cbn [existsb].
    destruct (Z.eqb_spec b c) as [->|]; [done|]. done.
Qed.

Lemma match_branches bs prefix more ob s :
  matching ((bs ≫= λ b, arms_of b prefix) ++ more) ob s
  = match ob with
    | Some b => match child_for b bs with
                | Some ch => (ob' ← read_byte; matching (body_of ch (prefix ++ [b])) ob') s
                | None => matching more ob s
                end
    | None => matching more ob s
    end.
Proof.
  induction bs as [|b bs IH]; [by destruct ob|]. cbn [mbind list_bind]. rewrite <-app_assoc, match_branch.
  destruct ob as [c|]; [|apply IH]. unfold child_for. cbn [List.find]. destruct (existsb (Z.eqb c) (matches b)); [done|apply IH].
Qed.

Lemma eval_value r np :
  match r with Some name => forallb letter name = true | None => True end →
  eval_expr [] (value_expr r np) = match r with Some name => method_ident name | None => ExtensionMethod np end.
Proof.
  intros Hr. unfold eval_expr. destruct r as [name|]; cbn [value_expr]; [|by rewrite !between_app].
  destruct (between (src "ExtensionMethod(") (src ")") name) as [arg|] eqn:E; [|done]. exfalso. revert E. unfold between.
  assert (Hno : ∀ p, existsb (Z.eqb (chr "(")) p = true → strip_prefix p name = None).
  { clear - Hr. intros p. revert name Hr. induction p as [|c p IH]; intros name Hr Hp; [done|]. destruct name as [|d name]; [done|].
    cbn [strip_prefix]. destruct (Z.eqb_spec c d) as [->|]; [|done]. simpl in Hr. apply andb_true_iff in Hr as [Hd Hr].
    apply IH; [done|]. cbn [existsb] in Hp. destruct (Z.eqb_spec (chr "(") d) as [<-|]; [done|exact Hp]. }
  by rewrite Hno.
Qed.

Lemma run_body branch : ∀ np s,
  branch_ok branch → (ob ← read_byte; matching (body_of branch np) ob) s = run branch np s.
Proof.
  induction branch as [ms r cs IH] using branch_ind. intros np s Hb. inversion Hb as [? ? ? _ Hr Hcs]; subst.
  rewrite run_branch_eq. apply bind_ext. intros ob t. unfold body_of. cbn [children result]. rewrite match_branches.
  destruct ob as [b|]; [|done]. destruct (child_for b cs) as [ch|] eqn:Ech.
  - apply List.find_some in Ech as [Hin _]. rewrite Forall_forall in IH, Hcs.
    apply IH; [by apply list_elem_of_In|]. apply Hcs. by apply list_elem_of_In.
  - cbn [run_match run_arm]. rewrite eval_value by done. unfold node_value. cbn [result].
    destruct (Z.eqb_spec b SP) as [->|Hsp]; [by rewrite bool_decide_true|].
    rewrite bool_decide_false by congruence. cbn. by destruct (is_token_item b).
Qed.

Lemma run_code_correct branches fuel s :
  Forall branch_ok branches →
  run_code read_byte (code_of branches) fuel s
  = run_method read_byte SP MAX_METHOD_LEN is_token_item ExtensionMethod method_ident fuel branches s.
Proof.
  intros Hb. unfold run_code, run_method. apply bind_ext. intros ob t. cbn [code_of code_arms code_unknown].
  assert (Ho : matching ((branches ≫= λ b, arms_of b []) ++ [ArmValid []; ArmOther]) ob t
    = (match ob with None => mret (Return None) | Some b => run_arms read_byte is_token_item ExtensionMethod method_ident b branches end) t).
  { rewrite match_branches. destruct ob as [b|]; [|done]. rewrite run_arms_eq.
    destruct (child_for b branches) as [ch|] eqn:Ech; [|cbn; by destruct (is_token_item b)].
    apply run_body. apply List.find_some in Ech as [Hin _]. rewrite Forall_forall in Hb. by apply Hb, list_elem_of_In. }
  rewrite !bind_unfold, Ho. destruct (_ t) as [[[o|l b] t']| |]; [done| |done..].
  apply loop_ext. intros x u. apply bind_ext. by intros [c|] v.
Qed.
End Running.

(** *** The trees that [branchify] makes *)
Lemma find_child_ok c bs pre b post :
  Forall branch_ok bs → find_child c bs = Some (pre, b, post) →
  Forall branch_ok pre ∧ branch_ok b ∧ Forall branch_ok post.
Proof. intros Hb [-> _]%find_child_Some. by rewrite Forall_app, Forall_cons in Hb. Qed.

Lemma letter_byte c : letter c = true → wrap8 c = c.
Proof.
  intros [Hc _]%andb_true_iff. pose proof (token_item_range c Hc). apply wrap8_small. lia.
Qed.

Lemma go_down_moses_text key name : ∀ b b',
  branch_ok b → forallb letter key = true → forallb letter name = true →
  go_down_moses true key name b = Done b' → branch_ok b'.
Proof.
  induction key as [|c key IH]; intros [ms r cs] b' Hb Hkey Hname E; inversion Hb as [? ? ? Hms Hr Hcs]; subst; cbn in E.
  - destruct r; [done|]. injection E as <-. by constructor.
  - simpl in Hkey. apply andb_true_iff in Hkey as [Hc Hkey].
    destruct (find_child (wrap8 c) cs) as [[[pre b] post]|] eqn:Ef.
    + destruct (find_child_ok _ _ _ _ _ Hcs Ef) as (Hpre & Hb' & Hpost).
      destruct (go_down_moses true key name b) as [b1| |] eqn:E1; [|done|done]. injection E as <-.
      constructor; [done|done|]. rewrite Forall_app, Forall_cons. by split_and!; [|eapply IH|].
    + destruct (go_down_moses true key name _) as [b1| |] eqn:E1; [|done|done]. injection E as <-.
      constructor; [done|done|]. rewrite Forall_app. split; [done|]. constructor; [|done].
      eapply IH; [|done|done|exact E1]. constructor; [|done|done]. cbn. by rewrite letter_byte, Hc.
Qed.

Lemma branchify_text options branches :
  Forall (λ o, forallb letter o.1 = true ∧ forallb letter o.2 = true) options →
  branchify options true = Done branches → Forall branch_ok branches.
Proof.
  intros Ho. unfold branchify.
  assert (Hadd : ∀ root root', branch_ok root → add_options true options root = Done root' → branch_ok root').
  { induction Ho as [|[key name] options [Hk Hn] Ho IH]; intros root root' Hroot E; cbn in E; [by injection E as <-|].
    destruct (go_down_moses true key name root) as [r1| |] eqn:E1; [|done|done].
    apply (IH r1); [exact (go_down_moses_text key name root r1 Hroot Hk Hn E1)|done]. }
  destruct (add_options true options new_branch) as [root| |] eqn:E; [|done|done]. intros [= <-].
  assert (Hroot : branch_ok root) by (eapply Hadd; [|done]; by constructor). by inversion Hroot.
Qed.

(** ** The theorem *)

(** C39. The text of the generated parser is the program of Branchify: for any
    options written with the letters of tokens, the text that is written for
    the tree of [branchify], at any indentation, is read back as a nest of
    [match]es and a loop, up to its end and whatever follows it, and running
    them, with the arms of each [match] tried in order, gives on every reader
    and from every state what [run_method] gives on the tree: the same method,
    the same bytes consumed, the same failure. *)
Theorem parser_text_correct {W} `{Writer W} options branches indent :
  Forall (λ o, forallb letter o.1 = true ∧ forallb letter o.2 = true) options →
  branchify options true = Done branches →
  ∃ text code, Writes (W:=W) (method_text branches indent) text
    ∧ (∀ rest, read_code (text_lines (text ++ rest)) = Some (code, text_lines rest))
    ∧ ∀ R (read_byte : M R (option u8)) fuel s,
        run_code read_byte code fuel s
        = run_method read_byte SP MAX_METHOD_LEN is_token_item ExtensionMethod method_ident fuel branches s.
Proof.
  intros Ho E. pose proof (branchify_text options branches Ho E) as Hb.
  destruct (method_text_prints (W:=W) branches indent Hb) as (text & Hw & Hl). exists text, (code_of branches).
  split; [done|]. split; [|by intros; apply run_code_correct].
  intros rest. rewrite Hl. apply read_code_lines.
Qed.

(** The file that read_method.rs writes: its lines are the head of the block,
    the program and the end of the block, and the program is [read_method]. *)
Lemma parser_text_correct_witness :
  branchify method_options true = Done method_branches
  ∧ ∃ text code, Writes (W:=MemWriter) (method_text method_branches 1) text
    ∧ (∀ rest, read_code (text_lines (text ++ rest)) = Some (code, text_lines rest))
    ∧ ∀ R (read_byte : M R (option u8)) fuel s,
        run_code read_byte code fuel s = Branchify.read_method read_byte fuel s.
Proof.
  assert (E : branchify method_options true = Done method_branches) by (vm_compute; reflexivity). split; [exact E|].
  apply (parser_text_correct method_options method_branches 1); [|exact E].
  repeat constructor.
Defined.

(** The file that read_method.rs writes: after the six lines of its head comes
    the program, which is [read_method], and then the end of the block. *)
Lemma read_method_file :
  ∃ w code, read_method_generate (mkMemWriter []) = Done (tt, w)
    ∧ read_code (drop 6 (text_lines (mw_buf w))) = Some (code, [src "}"; []])
    ∧ ∀ R (read_byte : M R (option u8)) fuel s, run_code read_byte code fuel s = Branchify.read_method read_byte fuel s.
Proof.
  assert (E : branchify method_options true = Done method_branches) by (vm_compute; reflexivity).
  assert (Hb : Forall branch_ok method_branches) by (eapply branchify_text; [|exact E]; repeat constructor).
  destruct (method_text_prints (W:=MemWriter) method_branches 1 Hb) as (text & Hw & Hl).
  assert (Hall : Writes (W:=MemWriter) (writer_write (as_bytes read_method_head);; (method_text method_branches 1;;
    writer_write (as_bytes (src "}" ++ [LF])))) (as_bytes read_method_head ++ text ++ as_bytes (src "}" ++ [LF]))).
  { apply Writes_bind; [apply Writes_write|]. apply Writes_bind; [done|apply Writes_write]. }
  destruct (Writes_sink _ _ (mkMemWriter []) Hall) as (w & Ew & Hs). exists w, (code_of method_branches).
  split; [|split; [|intros; by apply run_code_correct]].
  - rewrite <-Ew. unfold read_method_generate. apply bind_ext. intros [] t. rewrite bind_unfold. unfold call. by rewrite E.
  - cbn in Hs. rewrite Hs.
    assert (Hhead : ∀ l, drop 6 (text_lines (as_bytes read_method_head ++ l)) = text_lines l).
    { intros l. vm_compute. reflexivity. }
    rewrite Hhead, Hl. apply read_code_lines.
Qed.
