(* ===== verification/ServerRequest.v ===== *)
(** * Requests as the server reads them (src/libhttp/server/request.rs)

    [RequestBuffer] reads the request line and the headers off a
    [BufferedStream]; [Request::load] makes a request of them.  The theorems
    say what [load] returns on a well-formed message, however the connection
    fragments it, and where it reports an error or fails the task; that it
    returns is shown in Termination.v. *)

From S2P Require Import Prelude Strs Rfc2616 Method Io Buffer Common SerializationUtils HeaderIter HeaderValues Headers Status Branchify.

Definition MAX_LINE_LEN : nat := Z.to_nat 0x1000.
Definition MAX_REQUEST_URI_LEN : nat := 1024.

(** ** The request URI *)
Inductive RequestUri `{UrlOps} : Type :=
  | Star
  | AbsoluteUri (url : Url)
  | AbsolutePath (path : str)
  | Authority (authority : str).

Definition RequestUri_from_str `{UrlOps} (request_uri : str) : option RequestUri :=
  if bool_decide (request_uri = lit "*") then Some Star
  else if starts_with_char (chr "/") request_uri then Some (AbsolutePath request_uri)
  else if contains_char (chr "/") request_uri then
    match url_from_str request_uri with
    | Some url => Some (AbsoluteUri url)
    | None => None
    end
  else Some (Authority request_uri).

(** ** [RequestBuffer] *)
Record RequestBuffer (S : Type) : Type := mkRequestBuffer {
  rb_stream : BufferedStream S;
  line_bytes : list u8
}.
Arguments mkRequestBuffer {S}.
Arguments rb_stream {S}.
Arguments line_bytes {S}.

Module request_buffer.
Section Operations.
Context {S : Type} `{Reader S} `{UrlOps} `{TimeOps} (fuel : nat).

Definition set_stream (s : BufferedStream S) (b : RequestBuffer S) := mkRequestBuffer s (line_bytes b).
(** A call on [self.stream]. *)
Definition on_stream {A} (m : M (BufferedStream S) A) : M (RequestBuffer S) A :=
  zoom rb_stream set_stream m.

Definition new (stream : BufferedStream S) : RequestBuffer S :=
  mkRequestBuffer stream (replicate MAX_LINE_LEN 0).

(** The generated parser, reading with [self.stream.read_byte()]. *)
Definition read_method : M (RequestBuffer S) (option Method) :=
  Branchify.read_method (on_stream Buffer.read_byte) fuel.

Definition uri_body (request_uri : str) : M (RequestBuffer S) (str + Result str Status) :=
  ob ← on_stream Buffer.read_byte;
  match ob with
  | None => break (Err BadRequest)
  | Some b =>
      if b =? SP then break (Ok request_uri)
      else if (str_len request_uri =? MAX_REQUEST_URI_LEN)%nat then break (Err RequestUriTooLong)
      else continue (request_uri ++ [b])
  end.

Definition read_request_uri : M (RequestBuffer S) (Result RequestUri Status) :=
  r ← loop fuel uri_body [];
  match r with
  | Err e => mret (Err e)
  | Ok request_uri =>
      match RequestUri_from_str request_uri with
      | Some r => mret (Ok r)
      | None => mret (Err BadRequest)
      end
  end.

(** The version and the end of the request line. *)
Definition read_line_end (method : Method) (request_uri : RequestUri) :
    M (RequestBuffer S) (Result (Method * RequestUri * (uint * uint)) Status) :=
  ov ← on_stream (read_http_version fuel CR);
  ob ← on_stream Buffer.read_byte;
  match ov, ob with
  | Some vv, Some b =>
      if b =? LF then mret (Ok (method, request_uri, vv)) else mret (Err BadRequest)
  | _, _ => mret (Err BadRequest)
  end.

(** The request line after the method. *)
Definition read_line_rest (method : Method) :
    M (RequestBuffer S) (Result (Method * RequestUri * (uint * uint)) Status) :=
  ou ← read_request_uri;
  match ou with
  | Err e => mret (Err e)
  | Ok request_uri => read_line_end method request_uri
  end.

Definition read_request_line :
    M (RequestBuffer S) (Result (Method * RequestUri * (uint * uint)) Status) :=
  om ← read_method;
  match om with
  | None => mret (Err BadRequest)
  | Some method => read_line_rest method
  end.

(** [read_header], for the headers of a table. *)
Definition read_header (tbl : table) : M (RequestBuffer S) (Result Header HeaderLineErr) :=
  r ← on_stream (header_enum_from_stream tbl fuel);
  let '(h, nb) := (r : Result Header HeaderLineErr * option u8) in
  match nb with
  | None => mret h
  | Some b => on_stream (poke_byte b);; mret h
  end.
End Operations.
End request_buffer.

(** ** [Request] *)
Record Request `{UrlOps} `{TimeOps} : Type := mkRequest {
  remote_addr : option SocketAddr;
  headers : HeaderCollection;
  body : str;
  method : Method;
  request_uri : RequestUri;
  close_connection : bool;
  version : uint * uint
}.
Arguments mkRequest {_ _}.
Arguments remote_addr {_ _}.
Arguments headers {_ _}.
Arguments body {_ _}.
Arguments method {_ _}.
Arguments request_uri {_ _}.
Arguments close_connection {_ _}.
Arguments version {_ _}.

Section Load.
Context `{UrlOps} `{TimeOps} (fuel : nat).

Definition set_line (m : Method) (u : RequestUri) (v : uint * uint) (r : Request) : Request :=
  mkRequest (remote_addr r) (headers r) (body r) m u (close_connection r) v.
Definition set_headers (hs : HeaderCollection) (r : Request) : Request :=
  mkRequest (remote_addr r) hs (body r) (method r) (request_uri r) (close_connection r) (version r).
Definition set_close (b : bool) (r : Request) : Request :=
  mkRequest (remote_addr r) (headers r) (body r) (method r) (request_uri r) b (version r).

(** The header loop; [inr (Err _)] is its [return] with an error status. *)
Definition headers_body (request : Request) :
    M (RequestBuffer TcpStream) (Request + Request * Result unit Status) :=
  r ← request_buffer.read_header fuel request_table;
  match r with
  | Err EndOfFile => fail "client disconnected, nowhere to send response"
  | Err EndOfHeaders => break (request, Ok tt)
  | Err MalformedHeaderSyntax => break (request, Err BadRequest)
  | Err MalformedHeaderValue => continue request
  | Ok header => continue (set_headers (collection_insert header (headers request)) request)
  end.

(** The loop over the Connection header. *)
Fixpoint connection_loop (vs : list Connection) (close : bool) : bool :=
  match vs with
  | [] => close
  | Close :: _ => true
  | Token s :: vs' => connection_loop vs' (if bool_decide (s = lit "keep-alive") then false else close)
  end.
(** [request.headers.connection]. *)
Definition connection_values (hs : HeaderCollection) : option (list Connection) :=
  match collection_get Headers.request.connection hs with
  | Some (VConnections vs) => Some vs
  | _ => None
  end.

(** The end of [load], once the headers have been read. *)
Definition finish_load (close : bool) (request : Request) : Request * Result unit Status :=
  if bool_decide (version request = (1, 1)) && bool_decide (collection_get Headers.request.host (headers request) = None)
  then (request, Err BadRequest)
  else
    let request := set_close close request in
    match connection_values (headers request) with
    | Some h => (set_close (connection_loop h (close_connection request)) request, Ok tt)
    | None => (request, Ok tt)
    end.

Definition load_body (peer : option SocketAddr) :
    M (RequestBuffer TcpStream) (Request * Result unit Status) :=
  let request := mkRequest peer (collection_new request_table) [] Options Star true (0, 0) in
  r ← request_buffer.read_request_line fuel;
  match r with
  | Err err => mret (request, Err err)
  | Ok (method, request_uri, version) =>
      let request := set_line method request_uri version request in
      let go (close : bool) :=
        rh ← loop fuel headers_body request;
        match rh with
        | (request, Err e) => mret (request, Err e)
        | (request, Ok _) => mret (finish_load close request)
        end in
      if bool_decide (version = (1, 0)) then go true
      else if bool_decide (version = (1, 1)) then go false
      else mret (request, Err HttpVersionNotSupported)
  end.

(** The buffer borrows the stream for the duration of the call. *)
Definition load : M (BufferedStream TcpStream) (Request * Result unit Status) :=
  peer ← gets (λ s, peer_name (wrapped s));
  zoom request_buffer.new (λ b _, rb_stream b) (load_body peer).
End Load.

(** ** Reading the request line *)

(** The bytes of a URI are within the limit: the test [len == MAX] is never
    true with a byte still to come. *)
Definition uri_fits (u : list u8) : bool :=
  forallb (λ k, negb (str_len (take k u) =? MAX_REQUEST_URI_LEN)%nat) (seq 0 (length u)).

(** What the URI loop returns on the bytes [u], followed by [l]. *)
Fixpoint uri_scan (acc u l : list u8) : Result str Status :=
  match u with
  | [] => match l with [] => Err BadRequest | _ => Ok acc end
  | b :: u' =>
      if (str_len acc =? MAX_REQUEST_URI_LEN)%nat then Err RequestUriTooLong
      else uri_scan (acc ++ [b]) u' l
  end.

Lemma uri_scan_eq u l : ∀ acc,
  uri_scan acc u l =
  if forallb (λ k, negb (str_len (acc ++ take k u) =? MAX_REQUEST_URI_LEN)%nat) (seq 0 (length u))
  then match l with [] => Err BadRequest | _ => Ok (acc ++ u) end
  else Err RequestUriTooLong.
Proof.
  induction u as [|b u IH]; intros acc; cbn [uri_scan length seq forallb take].
  { by rewrite app_nil_r. }
  rewrite app_nil_r. destruct (str_len acc =? MAX_REQUEST_URI_LEN)%nat; [done|]. rewrite IH. cbn [negb andb].
  rewrite <-app_assoc. cbn [app].
  assert (Hext : ∀ n k, forallb (λ k, negb (str_len ((acc ++ [b]) ++ take k u) =? MAX_REQUEST_URI_LEN)%nat) (seq k n)
    = forallb (λ k, negb (str_len (acc ++ take k (b :: u)) =? MAX_REQUEST_URI_LEN)%nat) (seq (S k) n)).
  { intros n. induction n as [|n IHn]; intros k; [done|]. cbn [seq forallb take]. rewrite IHn.
    by rewrite <-app_assoc. }
  by rewrite Hext.
Qed.

Lemma uri_scan_fits u l :
  uri_scan [] u l = if uri_fits u then match l with [] => Err BadRequest | _ => Ok u end
                    else Err RequestUriTooLong.
Proof. exact (uri_scan_eq u l []). Qed.

(** An ASCII URI is within the limit when it has at most 1024 bytes. *)
Lemma uri_fits_ascii u : is_ascii u = true → uri_fits u = (length u <=? 1024)%nat.
Proof.
  intros Ha. assert (Hlen : ∀ k, (k ≤ length u)%nat → str_len (take k u) = k).
  { intros k Hk. unfold str_len. rewrite as_bytes_ascii; [by apply length_take_le|].
    apply is_ascii_Forall. apply is_ascii_Forall in Ha. by apply Forall_take. }
  unfold uri_fits. destruct (Nat.leb_spec (length u) 1024) as [Hle|Hgt].
  - apply forallb_Forall, Forall_forall. intros k Hk%elem_of_seq.
    apply negb_true_iff, Nat.eqb_neq. rewrite Hlen by lia. unfold MAX_REQUEST_URI_LEN. lia.
  - apply not_true_is_false. rewrite forallb_Forall, Forall_forall. intros Hall.
    specialize (Hall 1024%nat). rewrite Hlen, Nat.eqb_refl in Hall by lia.
    discriminate Hall. apply elem_of_seq. lia.
Qed.

(** The length of a text grows with its bytes. *)
Lemma str_len_app s t : str_len (s ++ t) = (str_len s + str_len t)%nat.
Proof. unfold str_len. by rewrite as_bytes_app, length_app. Qed.

(** 1023 ASCII bytes and a byte from 128 on step over the limit. *)
Lemma uri_fits_stepped p c q :
  length p = 1023%nat → is_ascii p = true → 128 ≤ c < 256 → uri_fits (p ++ c :: q) = true.
Proof.
  intros Hlen Ha Hc. apply forallb_Forall, Forall_forall. intros k _.
  apply negb_true_iff, Nat.eqb_neq. unfold MAX_REQUEST_URI_LEN. rewrite take_app, str_len_app.
  assert (Hp : ∀ j, str_len (take j p) = Nat.min j 1023).
  { intros j. unfold str_len. rewrite as_bytes_ascii, length_take; [lia|].
    apply is_ascii_Forall. apply is_ascii_Forall in Ha. by apply Forall_take. }
  rewrite Hp, Hlen. destruct (k - 1023)%nat as [|j] eqn:Ek; [cbn [take]; unfold str_len; simpl; lia|].
  change (take (S j) (c :: q)) with ([c] ++ take j q). rewrite str_len_app.
  assert (Hc2 : str_len [c] = 2%nat); [|lia].
  unfold str_len, as_bytes. simpl. rewrite app_nil_r. unfold utf8_encode.
  destruct (Z.ltb_spec c 128); [lia|]. by destruct (Z.ltb_spec c 2048); [|lia].
Qed.

(** The grammar of a request line, with its line end, and what follows:
    after the method ... *)
Definition line_rest `{UrlOps} (l : list u8) (ru : RequestUri) (v : uint * uint) (rest : list u8) : Prop :=
  ∃ u l2, l = u ++ SP :: l2 ∧ (SP ∉ u) ∧ uri_fits u = true
    ∧ RequestUri_from_str u = Some ru ∧ version_text CR l2 v (LF :: rest).
(** ... and with it. *)
Definition request_line `{UrlOps} (l : list u8) (x : Method * RequestUri * (uint * uint)) (rest : list u8) : Prop :=
  ∃ tok l1, l = tok ++ SP :: l1
    ∧ (Forall (λ c, is_token_item c = true) tok ∧ tok ≠ [] ∧ (length tok ≤ MAX_METHOD_LEN)%nat
       ∧ from_str_or_new tok = Done (Some x.1.1))
    ∧ line_rest l1 x.1.2 x.2 rest.

(** A line has one reading. *)
Lemma line_rest_split `{UrlOps} u l ru v rest :
  SP ∉ u → starts_with SP l → line_rest (u ++ l) ru v rest →
  uri_fits u = true ∧ RequestUri_from_str u = Some ru
  ∧ ∃ l2, l = SP :: l2 ∧ version_text CR l2 v (LF :: rest).
Proof.
  intros Hu Hl (u' & l2 & E & Hu' & Hfit & Hr & Hv).
  destruct (split_at_unique SP u l u' (SP :: l2)) as [-> ->]; [done..|].
  split_and?; try done. by exists l2.
Qed.

Lemma request_line_split `{UrlOps} tok l x rest :
  Forall (λ c, is_token_item c = true) tok →
  match l with [] => True | c :: _ => is_token_item c = false end →
  request_line (tok ++ l) x rest →
  tok ≠ [] ∧ (length tok ≤ MAX_METHOD_LEN)%nat ∧ from_str_or_new tok = Done (Some x.1.1)
  ∧ ∃ l1, l = SP :: l1 ∧ line_rest l1 x.1.2 x.2 rest.
Proof.
  intros Ht Hl (tok' & l1 & E & (Ht' & Hne & Hlen & Hm) & Hr).
  destruct (span_unique is_token_item tok l tok' (SP :: l1)) as [-> ->]; try done.
  split_and?; try done. by exists l1.
Qed.

Lemma request_line_inj `{UrlOps} l x x' rest rest' :
  request_line l x rest → request_line l x' rest' → x = x' ∧ rest = rest'.
Proof.
  intros (tok & l1 & -> & (Ht & _ & _ & Hm) & u & l2 & -> & Hu & _ & Hr & Hv) Hx'.
  destruct (request_line_split tok (SP :: u ++ SP :: l2) x' rest' Ht eq_refl Hx') as (_ & _ & Hm' & l1' & [= <-] & Hr').
  destruct (line_rest_split u (SP :: l2) _ _ _ Hu eq_refl Hr') as (_ & Hr2 & l2' & [= <-] & Hv').
  destruct (version_text_inj CR l2 _ _ _ _ eq_refl Hv Hv') as [Hvv [= Hrest]].
  split; [|done]. destruct x as [[? ?] ?], x' as [[? ?] ?]; simpl in *. congruence.
Qed.

Lemma request_line_length `{UrlOps} l x rest : request_line l x rest → (length rest < length l)%nat.
Proof.
  intros (tok & l1 & -> & _ & u & l2 & -> & _ & _ & _ & Hv%version_text_length).
  rewrite !length_app. simpl in *. rewrite length_app. simpl. lia.
Qed.

(** The lines of a list of headers. *)
Definition header_lines `{UrlOps} `{TimeOps} (tbl : table) (hs : list Header) : list u8 :=
  hs ≫= line_of tbl.
(** The collection they make. *)
Definition collect_headers `{UrlOps} `{TimeOps} (hs : list Header) (c : HeaderCollection) : HeaderCollection :=
  foldl (λ c h, collection_insert h c) c hs.

(** A line does not start with white space. *)
Lemma line_head `{UrlOps} `{TimeOps} tbl h :
  table_ok tbl = true → header_ok tbl h → ∃ d l, line_of tbl h = d :: l ∧ is_lws d = false.
Proof.
  intros Htbl Hh. destruct (header_ok_spec tbl h Htbl Hh) as ([Hn0 Hname] & _). unfold line_of.
  destruct (header_name tbl h) as [|d name]; [done|]. eexists d, _. split; [done|].
  apply Forall_cons in Hname as [Hd _]. unfold is_lws.
  destruct (Z.eqb_spec d SP) as [->|]; [done|]. by destruct (Z.eqb_spec d HT) as [->|].
Qed.

(** Neither does a message that goes on with header lines. *)
Definition starts_line (l : list u8) : Prop := match l with [] => True | c :: _ => is_lws c = false end.

Lemma lines_head `{UrlOps} `{TimeOps} tbl hs l :
  table_ok tbl = true → Forall (header_ok tbl) hs → starts_line l → starts_line (header_lines tbl hs ++ l).
Proof.
  intros Htbl Hhs Hl. destruct Hhs as [|h hs Hh Hhs]; [done|].
  change (header_lines tbl (h :: hs)) with (line_of tbl h ++ header_lines tbl hs).
  by destruct (line_head tbl h Htbl Hh) as (d & l' & -> & Hd).
Qed.

Lemma header_lines_length `{UrlOps} `{TimeOps} tbl hs : (length hs ≤ length (header_lines tbl hs))%nat.
Proof.
  induction hs as [|h hs IH]; [done|].
  change (header_lines tbl (h :: hs)) with (line_of tbl h ++ header_lines tbl hs).
  unfold line_of. rewrite !length_app. simpl. lia.
Qed.

Section Reading.
Context {S : Type} `{ByteSource S} (F : BufferedStream S → Prop) (HF : read_stable F).
Context `{UrlOps} `{TimeOps}.
Local Instance Src : ByteSource (BufferedStream S) := BufferedStream_source F HF.
Implicit Types (b : RequestBuffer S) (l : list u8).

(** A buffer and the bytes it has still to read; [rb_fresh] when the last byte
    read can be put back. *)
Definition rb_rel b l : Prop := src_rel (rb_stream b) l.
Definition rb_fresh b l : Prop := fresh_rel (rb_stream b) l.

Lemma rb_fresh_rel b l : rb_fresh b l → rb_rel b l.
Proof. apply fresh_src. Qed.

(** A method of the stream that behaves as on the list of its bytes. *)
Lemma on_stream_sim {A} (P Q : BufferedStream S → list u8 → Prop) (m : M (BufferedStream S) A) m2 b l a l' :
  msim P Q m m2 → P (rb_stream b) l → m2 l = Done (a, l') →
  ∃ b', request_buffer.on_stream m b = Done (a, b') ∧ Q (rb_stream b') l' ∧ line_bytes b' = line_bytes b.
Proof.
  intros Hm Hb E. destruct (msim_Done _ _ _ _ _ _ _ _ Hm Hb E) as (s' & E' & Hs').
  exists (request_buffer.set_stream s' b). unfold request_buffer.on_stream, zoom. by rewrite E'.
Qed.

Lemma rb_read_byte b l :
  rb_rel b l → ∃ b', request_buffer.on_stream Buffer.read_byte b = Done (head l, b') ∧ rb_fresh b' (tail l).
Proof.
  intros Hb. destruct (on_stream_sim src_rel fresh_rel Buffer.read_byte (read_byte_util 1) b l (head l) (tail l))
    as (b' & E & Hb' & _); [apply (read_byte_sim F HF); lia|done| |by exists b'].
  by rewrite read_byte_util_list by lia; destruct l.
Qed.

Lemma uri_loop_spec l u : ∀ acc b fuel,
  rb_rel b (u ++ l) → SP ∉ u → starts_with SP l → (length u < fuel)%nat →
  ∃ b', loop fuel request_buffer.uri_body acc b = Done (uri_scan acc u l, b')
    ∧ ((∃ x, uri_scan acc u l = Ok x) → rb_fresh b' (tail l)).
Proof.
  induction u as [|c u IH]; intros acc b fuel Hb Hu Hl Hf; (destruct fuel as [|fuel]; [simpl in Hf; lia|]);
    destruct (rb_read_byte b _ Hb) as (b1 & E1 & Hb1).
  - exists b1. split; [|done]. eapply loop_break. unfold request_buffer.uri_body.
    rewrite (bind_Done _ _ _ _ _ E1). destruct l as [|c l]; [done|]. simpl in Hl. by subst c.
  - apply not_elem_of_cons in Hu as [Hc Hu]. cbn [uri_scan].
    assert (Eb : request_buffer.uri_body acc b
      = if (str_len acc =? MAX_REQUEST_URI_LEN)%nat then Done (inr (Err RequestUriTooLong), b1)
        else Done (inl (acc ++ [c]), b1)).
    { unfold request_buffer.uri_body. rewrite (bind_Done _ _ _ _ _ E1). cbn [head app].
      assert ((c =? SP) = false) as -> by (apply Z.eqb_neq; congruence).
      by destruct (str_len acc =? MAX_REQUEST_URI_LEN)%nat. }
    destruct (str_len acc =? MAX_REQUEST_URI_LEN)%nat.
    + exists b1. split; [by eapply loop_break|]. by intros [? ?].
    + rewrite (loop_continue _ _ _ _ _ _ Eb). apply IH; [by apply rb_fresh_rel|done|done|simpl in Hf; lia].
Qed.

Lemma read_request_uri_spec b fuel u l :
  rb_rel b (u ++ l) → SP ∉ u → starts_with SP l → (length u < fuel)%nat →
  ∃ b', request_buffer.read_request_uri fuel b
        = Done (if uri_fits u then
                  match l with
                  | [] => Err BadRequest
                  | _ => match RequestUri_from_str u with Some r => Ok r | None => Err BadRequest end
                  end
                else Err RequestUriTooLong, b')
    ∧ (uri_fits u = true → rb_fresh b' (tail l) ∨ l = []).
Proof.
  intros Hb Hu Hl Hf. destruct (uri_loop_spec l u [] b fuel Hb Hu Hl Hf) as (b' & E & Hb').
  exists b'. unfold request_buffer.read_request_uri. rewrite (bind_Done _ _ _ _ _ E).
  rewrite uri_scan_fits in *. split.
  { destruct (uri_fits u); [|done]. destruct l; [done|]. by destruct (RequestUri_from_str u). }
  intros Hfit. rewrite Hfit in Hb'. destruct l; [by right|]. left. apply Hb'. by eexists.
Qed.

(** The version and the line end. *)
Lemma read_line_end_spec b fuel l m ru :
  rb_rel b l → (6 < fuel)%nat →
  ∃ o b', request_buffer.read_line_end fuel m ru b = Done (o, b')
    ∧ match o with
      | Ok x => x.1 = (m, ru) ∧ ∃ rest, version_text CR l x.2 (LF :: rest) ∧ rb_fresh b' rest
      | Err e => e = BadRequest ∧ ∀ v rest, ¬ version_text CR l v (LF :: rest)
      end.
Proof.
  intros Hb Hf. destruct (read_http_version_list fuel CR l Hf eq_refl) as (ov & l1 & E & Ho).
  destruct (on_stream_sim src_rel src_rel _ _ b l ov l1 (read_http_version_sim fuel CR) Hb E)
    as (b1 & E1 & Hb1 & _).
  destruct (rb_read_byte b1 l1 Hb1) as (b2 & E2 & Hb2). unfold request_buffer.read_line_end.
  rewrite (bind_Done _ _ _ _ _ E1), (bind_Done _ _ _ _ _ E2).
  destruct ov as [v|]; [|eexists _, b2; split; [done|]; split; [done|]; intros v rest; apply Ho].
  assert (Hno : head l1 ≠ Some LF → ∀ v' rest, ¬ version_text CR l v' (LF :: rest)).
  { intros Hh v' rest Hv'. apply Hh. by destruct (version_text_inj CR _ _ _ _ _ eq_refl Ho Hv') as [_ ->]. }
  destruct l1 as [|c l1]; [by eexists _, b2; split; [done|]; split; [|apply Hno]|].
  cbn [head]. destruct (Z.eqb_spec c LF) as [->|Hc].
  - eexists _, b2. split; [done|]. split; [done|]. by exists l1.
  - eexists _, b2. split; [done|]. split; [done|]. apply Hno. by intros [= ?].
Qed.

Lemma read_line_rest_spec b fuel l m :
  rb_rel b l → (length l + 6 < fuel)%nat →
  ∃ o b', request_buffer.read_line_rest fuel m b = Done (o, b')
    ∧ match o with
      | Ok x => x.1.1 = m ∧ ∃ rest, line_rest l x.1.2 x.2 rest ∧ rb_fresh b' rest
      | Err e => (e = BadRequest ∨ e = RequestUriTooLong) ∧ ∀ ru v rest, ¬ line_rest l ru v rest
      end.
Proof.
  intros Hb Hf. destruct (split_at SP l) as (u & l2 & -> & Hsp & Hl2').
  rewrite length_app in Hf.
  destruct (read_request_uri_spec b fuel u l2 Hb Hsp Hl2') as (b2 & E2 & Hb2); [lia|].
  unfold request_buffer.read_line_rest. rewrite (bind_Done _ _ _ _ _ E2).
  pose proof (λ ru v rest, line_rest_split u l2 ru v rest Hsp Hl2') as Hinv.
  destruct (uri_fits u) eqn:Hfit; cycle 1.
  { eexists _, b2. split; [done|]. split; [by right|]. intros ru v rest Hline. by destruct (Hinv _ _ _ Hline). }
  destruct l2 as [|c l2]; [|destruct (RequestUri_from_str u) as [ru|] eqn:Eu].
  - eexists _, b2. split; [done|]. split; [by left|]. intros ru v rest Hline.
    by destruct (Hinv _ _ _ Hline) as (_ & _ & l3 & ? & _).
  - simpl in Hl2'. subst c. destruct (Hb2 eq_refl) as [Hb2'|]; [|done]. apply rb_fresh_rel in Hb2'.
    destruct (read_line_end_spec b2 fuel l2 m ru Hb2') as (o & b3 & E3 & Ho); [lia|].
    exists o, b3. split; [exact E3|]. destruct o as [[[m' ru'] v]|e].
    + destruct Ho as ([= -> ->] & rest & Hv & Hb3). split; [done|]. exists rest. split; [|done].
      by exists u, l2.
    + destruct Ho as [-> Hno]. split; [by left|]. intros ru' v rest Hline.
      destruct (Hinv _ _ _ Hline) as (_ & _ & l3 & [= <-] & Hv). by apply (Hno v rest).
  - eexists _, b2. split; [done|]. split; [by left|]. intros ru v rest Hline.
    by destruct (Hinv _ _ _ Hline) as (_ & ? & _).
Qed.

Lemma read_request_line_spec b fuel l :
  rb_rel b l → (length l + 6 < fuel)%nat →
  ∃ o b', request_buffer.read_request_line fuel b = Done (o, b')
    ∧ match o with
      | Ok x => ∃ rest, request_line l x rest ∧ rb_fresh b' rest
      | Err e => (e = BadRequest ∨ e = RequestUriTooLong) ∧ ∀ x rest, ¬ request_line l x rest
      end.
Proof.
  intros Hb Hf. destruct (span_exists is_token_item l) as (tok & l1 & -> & Ht & Hl1).
  rewrite length_app in Hf. pose proof (λ x rest, request_line_split tok l1 x rest Ht Hl1) as Hinv.
  destruct (read_method_spec rb_rel (request_buffer.on_stream Buffer.read_byte) b tok l1 fuel)
    as (om & b1 & E1 & Hm1); try done; [|lia|].
  { intros r l' Hr. destruct (rb_read_byte r l' Hr) as (r' & E & Hr'). exists r'. split; [done|]. by apply rb_fresh_rel. }
  unfold request_buffer.read_request_line, request_buffer.read_method. rewrite (bind_Done _ _ _ _ _ E1).
  destruct (bool_decide _ && _) eqn:Hc in Hm1; cycle 1.
  { subst om. eexists _, b1. split; [done|]. split; [by left|]. intros x rest Hline.
    destruct (Hinv x rest Hline) as (Hne & Hlen & _ & l2 & -> & _).
    apply andb_false_iff in Hc as [Hc|Hc]; [by apply bool_decide_eq_false in Hc; destruct Hc|].
    apply Nat.leb_gt in Hc. unfold MAX_METHOD_LEN in Hlen. lia. }
  apply andb_true_iff in Hc as [[Hsp Hne]%bool_decide_eq_true Hlen%Nat.leb_le].
  destruct l1 as [|c l1]; [done|]. injection Hsp as ->. destruct Hm1 as [Hm Hb1]. cbn [tail] in Hb1.
  destruct om as [m|]; cycle 1.
  { eexists _, b1. split; [done|]. split; [by left|]. intros x rest Hline.
    by destruct (Hinv x rest Hline) as (_ & _ & Hm' & _); congruence. }
  destruct (read_line_rest_spec b1 fuel l1 m Hb1) as (o & b2 & E2 & Ho); [simpl in Hf; lia|].
  exists o, b2. split; [exact E2|]. destruct o as [x|e].
  - destruct Ho as (<- & rest & Hr & Hb2). exists rest. split; [|done]. by exists tok, l1.
  - destruct Ho as [He Hno]. split; [done|]. intros x rest Hline.
    destruct (Hinv x rest Hline) as (_ & _ & _ & l2 & [= <-] & Hr). by apply (Hno x.1.2 x.2 rest).
Qed.

(** ** Reading headers *)
Lemma read_header_ok tbl h b fuel c rest :
  table_ok tbl = true → header_ok tbl h → is_lws c = false →
  rb_rel b (line_of tbl h ++ c :: rest) → (length (line_of tbl h ++ c :: rest) < fuel)%nat →
  ∃ b', request_buffer.read_header fuel tbl b = Done (Ok h, b') ∧ rb_rel b' (c :: rest).
Proof.
  intros Htbl Hh Hc [Hi Hp] Hf. rewrite <-Hp in Hf. unfold line_of in Hp. rewrite <-!app_assoc in Hp.
  destruct (header_enum_read_fresh tbl h fuel (rb_stream b) _ (c :: rest) Htbl Hh Hi Hf Hp) as (s1 & E1 & Hi1 & Hf1 & Hp1).
  { by apply (header_value_line tbl). }
  destruct (on_stream_sim fresh_rel src_rel (poke_byte c) (λ l, Done (tt, c :: l)) (request_buffer.set_stream s1 b)
    rest tt (c :: rest) (poke_byte_sim F HF c)) as (b2 & E2 & Hb2 & _); [done|done|].
  exists b2. split; [|done]. unfold request_buffer.read_header.
  rewrite bind_unfold. unfold request_buffer.on_stream at 1, zoom. rewrite E1. cbn [head].
  by rewrite (bind_Done _ _ _ _ _ E2).
Qed.

Lemma read_header_end tbl b fuel rest :
  rb_rel b (CR :: LF :: rest) → (2 < fuel)%nat →
  ∃ b', request_buffer.read_header fuel tbl b = Done (Err EndOfHeaders, b') ∧ rb_rel b' rest.
Proof.
  intros [Hi Hp] Hf. destruct (header_enum_end tbl fuel (rb_stream b) rest Hi Hf Hp) as (s1 & E1 & Hi1 & Hp1).
  exists (request_buffer.set_stream s1 b). split; [|done]. unfold request_buffer.read_header.
  rewrite bind_unfold. unfold request_buffer.on_stream at 1, zoom. by rewrite E1.
Qed.

Lemma read_header_eof tbl b fuel :
  rb_rel b [] → (0 < fuel)%nat →
  ∃ b', request_buffer.read_header fuel tbl b = Done (Err EndOfFile, b').
Proof.
  intros [Hi Hp] Hf. destruct (header_enum_eof tbl fuel (rb_stream b) Hi Hf Hp) as (s1 & E1).
  exists (request_buffer.set_stream s1 b). unfold request_buffer.read_header.
  rewrite bind_unfold. unfold request_buffer.on_stream at 1, zoom. by rewrite E1.
Qed.

(** The last line of a message that was cut. *)
Lemma read_header_last tbl h b fuel :
  table_ok tbl = true → header_ok tbl h → rb_rel b (line_of tbl h) → (length (line_of tbl h) < fuel)%nat →
  ∃ b', request_buffer.read_header fuel tbl b = Done (Ok h, b') ∧ rb_rel b' [].
Proof.
  intros Htbl Hh [Hi Hp] Hf. rewrite <-Hp in Hf.
  destruct (header_enum_read tbl h fuel (rb_stream b) _ [] Htbl Hh Hi Hf Hp) as (s1 & E1 & Hi1 & Hp1);
    [by apply (header_value_eof tbl)|].
  exists (request_buffer.set_stream s1 b). split; [|done]. unfold request_buffer.read_header.
  rewrite bind_unfold. unfold request_buffer.on_stream at 1, zoom. by rewrite E1.
Qed.

Lemma read_header_line tbl h b fuel l :
  table_ok tbl = true → header_ok tbl h → starts_line l →
  rb_rel b (line_of tbl h ++ l) → (length (line_of tbl h ++ l) < fuel)%nat →
  ∃ b', request_buffer.read_header fuel tbl b = Done (Ok h, b') ∧ rb_rel b' l.
Proof.
  intros Htbl Hh Hl Hb Hf. destruct l as [|c rest]; [|by apply read_header_ok].
  rewrite app_nil_r in Hb, Hf. by apply read_header_last.
Qed.

(** Reading a header does not fail: the byte that is put back has been read. *)
Lemma read_header_safe tbl fuel :
  safe (λ b, bs_inv F (rb_stream b)) (request_buffer.read_header fuel tbl) (λ _ b, bs_inv F (rb_stream b)).
Proof.
  intros b Hb. unfold request_buffer.read_header. rewrite bind_unfold.
  pose proof (header_enum_safe (HS:=Src) tbl fuel (rb_stream b) Hb) as E.
  change (request_buffer.on_stream (header_enum_from_stream tbl fuel) b)
    with (zoom rb_stream request_buffer.set_stream (header_enum_from_stream tbl fuel) b). unfold zoom at 1.
  destruct (header_enum_from_stream tbl fuel (rb_stream b)) as [[[h nb] s1]| |]; [|done|done].
  destruct nb as [c|]; [|apply E]. destruct E as [Hi Hf].
  destruct (on_stream_sim fresh_rel src_rel (poke_byte c) (λ l, Done (tt, c :: l))
    (request_buffer.set_stream s1 b) (bs_pending s1) tt (c :: bs_pending s1) (poke_byte_sim F HF c))
    as (b2 & E2 & [Hi2 _] & _); [split; [split; [exact Hi|reflexivity]|exact Hf]|done|].
  by rewrite (bind_Done _ _ _ _ _ E2).
Qed.

(** A loop that reads headers: it goes through the lines ... *)
Lemma header_loop_lines {A B} (ins : A → Header → A) (body : A → M (RequestBuffer S) (A + B)) tbl fuel l :
  table_ok tbl = true → starts_line l →
  (∀ a b h b', request_buffer.read_header fuel tbl b = Done (Ok h, b') → body a b = Done (inl (ins a h), b')) →
  ∀ hs a b n, Forall (header_ok tbl) hs → rb_rel b (header_lines tbl hs ++ l) →
  (length (header_lines tbl hs ++ l) < fuel)%nat → (length hs < n)%nat →
  ∃ b' n', loop n body a b = loop (Datatypes.S n') body (foldl ins a hs) b' ∧ rb_rel b' l.
Proof.
  intros Htbl Hl Hok hs. induction hs as [|h hs IH]; intros a b n Hhs Hb Hf Hn; (destruct n as [|n]; [simpl in Hn; lia|]).
  - by exists b, n.
  - apply Forall_cons in Hhs as [Hh Hhs].
    change (header_lines tbl (h :: hs)) with (line_of tbl h ++ header_lines tbl hs) in *.
    rewrite <-app_assoc in Hb, Hf.
    destruct (read_header_line tbl h b fuel _ Htbl Hh (lines_head tbl hs l Htbl Hhs Hl) Hb Hf) as (b1 & E1 & Hb1).
    rewrite (loop_continue _ _ _ _ _ _ (Hok a b h b1 E1)). rewrite length_app in Hf. apply IH; [done|done|lia|simpl in Hn; lia].
Qed.

(** ... up to the empty line ... *)
Lemma header_loop_spec {A B} (ins : A → Header → A) (fin : A → B) (body : A → M (RequestBuffer S) (A + B))
    tbl fuel rest :
  table_ok tbl = true →
  (∀ a b h b', request_buffer.read_header fuel tbl b = Done (Ok h, b') → body a b = Done (inl (ins a h), b')) →
  (∀ a b b', request_buffer.read_header fuel tbl b = Done (Err EndOfHeaders, b') → body a b = Done (inr (fin a), b')) →
  ∀ hs a b n, Forall (header_ok tbl) hs → rb_rel b (header_lines tbl hs ++ CR :: LF :: rest) →
  (length (header_lines tbl hs ++ CR :: LF :: rest) < fuel)%nat → (length hs < n)%nat →
  ∃ b', loop n body a b = Done (fin (foldl ins a hs), b') ∧ rb_rel b' rest.
Proof.
  intros Htbl Hok Hend hs a b n Hhs Hb Hf Hn.
  destruct (header_loop_lines ins body tbl fuel (CR :: LF :: rest) Htbl eq_refl Hok hs a b n Hhs Hb Hf Hn)
    as (b1 & n' & -> & Hb1).
  destruct (read_header_end tbl b1 fuel rest Hb1) as (b' & E & Hb'); [rewrite length_app in Hf; simpl in Hf; lia|].
  exists b'. split; [|done]. eapply loop_break. by apply Hend.
Qed.

(** ... or to the end of a message that was cut. *)
Lemma header_loop_cut {A B} (ins : A → Header → A) (body : A → M (RequestBuffer S) (A + B)) tbl fuel :
  table_ok tbl = true →
  (∀ a b h b', request_buffer.read_header fuel tbl b = Done (Ok h, b') → body a b = Done (inl (ins a h), b')) →
  ∀ hs a b n, Forall (header_ok tbl) hs → rb_rel b (header_lines tbl hs) →
  (length (header_lines tbl hs) < fuel)%nat → (length hs < n)%nat →
  ∃ b1 b' n', loop n body a b = loop (Datatypes.S n') body (foldl ins a hs) b1
    ∧ request_buffer.read_header fuel tbl b1 = Done (Err EndOfFile, b').
Proof.
  intros Htbl Hok hs a b n Hhs Hb Hf Hn. rewrite <-(app_nil_r (header_lines tbl hs)) in Hb, Hf.
  destruct (header_loop_lines ins body tbl fuel [] Htbl I Hok hs a b n Hhs Hb Hf Hn) as (b1 & n' & E & Hb1).
  destruct (read_header_eof tbl b1 fuel Hb1) as (b' & E'); [lia|]. by exists b1, b', n'.
Qed.
End Reading.

(** ** What [load] makes of a message *)
Section LoadSpec.
Context `{UrlOps} `{TimeOps} (F : BufferedStream TcpStream → Prop) (HF : read_stable F).

(** The values of the header in row [i], in the order of the lines. *)
Definition values_of (i : nat) (hs : list Header) : list HeaderValue :=
  omap (λ h, match h with Known j v => if decide (j = i) then Some v else None | _ => None end) hs.

Lemma collect_headers_fields hs c : length (fields (collect_headers hs c)) = length (fields c).
Proof.
  revert c. induction hs as [|h hs IH]; intros c; [done|]. simpl. unfold collect_headers in *. simpl. rewrite IH.
  destruct h; simpl; [apply length_insert|done].
Qed.

(** The last line wins. *)
Lemma collect_headers_get hs c i :
  (i < length (fields c))%nat →
  collection_get i (collect_headers hs c)
  = match last (values_of i hs) with Some v => Some v | None => collection_get i c end.
Proof.
  intros Hi. induction hs as [|h hs IH] using rev_ind; [done|].
  unfold collect_headers, values_of. rewrite foldl_app, omap_app, last_app. cbn [foldl omap list_omap].
  fold (collect_headers hs c). fold (values_of i hs). pose proof (collect_headers_fields hs c) as Hlen.
  destruct h as [j v|k v]; [destruct (decide (j = i)) as [->|Hj]|]; cbn [last]; [|rewrite <-IH..].
  - unfold collection_get. simpl. by rewrite list_lookup_insert_eq by lia.
  - unfold collection_get. simpl. by rewrite list_lookup_insert_ne.
  - done.
Qed.

Lemma load_body_spec peer b fuel m ru v hs rest :
  rb_rel F HF b (bs_pending (rb_stream b)) →
  request_line (bs_pending (rb_stream b)) (m, ru, v) (header_lines request_table hs ++ CR :: LF :: rest) →
  v = (1, 0) ∨ v = (1, 1) → Forall (header_ok request_table) hs →
  (length (bs_pending (rb_stream b)) + 6 < fuel)%nat →
  ∃ b', load_body fuel peer b
        = Done (finish_load (bool_decide (v = (1, 0)))
                  (mkRequest peer (collect_headers hs (collection_new request_table)) [] m ru true v), b')
    ∧ rb_rel F HF b' rest.
Proof.
  intros Hb Hline Hv Hhs Hf.
  destruct (read_request_line_spec F HF b fuel _ Hb Hf) as ([x|e] & b1 & E1 & Ho);
    [|exfalso; by eapply Ho]. destruct Ho as (rest1 & Hline1 & Hb1).
  destruct (request_line_inj _ _ _ _ _ Hline Hline1) as [<- <-]. apply rb_fresh_rel in Hb1.
  apply request_line_length in Hline.
  assert (Hn : (length hs < fuel)%nat).
  { pose proof (header_lines_length request_table hs). rewrite length_app in Hline. lia. }
  set (req := mkRequest peer (collection_new request_table) [] m ru true v).
  destruct (header_loop_spec F HF (λ r h, set_headers (collection_insert h (headers r)) r)
    (λ r, (r, Ok tt : Result unit Status)) (headers_body fuel) request_table fuel rest
    (tables_ok _ (or_introl eq_refl)))
    with (hs := hs) (a := req) (b := b1) (n := fuel) as (b2 & E2 & Hb2); try done; [| |lia|].
  { intros a b' h b'' E. unfold headers_body. by rewrite (bind_Done _ _ _ _ _ E). }
  { intros a b' b'' E. unfold headers_body. by rewrite (bind_Done _ _ _ _ _ E). }
  exists b2. split; [|done]. unfold load_body. rewrite (bind_Done _ _ _ _ _ E1). cbn beta iota zeta.
  assert (Efold : foldl (λ r h, set_headers (collection_insert h (headers r)) r) req hs
    = mkRequest peer (collect_headers hs (collection_new request_table)) [] m ru true v).
  { subst req. generalize (collection_new request_table). clear. induction hs as [|h hs IH]; intros c; [done|].
    simpl. apply IH. }
  rewrite Efold in E2.
  destruct Hv as [-> | ->].
  - rewrite !bool_decide_true by done. by etransitivity; [apply (bind_Done _ _ _ _ _ E2)|].
  - rewrite !(bool_decide_false ((1, 1) = (1, 0))), !bool_decide_true by done.
    by etransitivity; [apply (bind_Done _ _ _ _ _ E2)|].
Qed.

(** The tokens of a Connection header are in normal form: none is the
    [keep-alive] of the loop. *)
Definition is_close (c : Connection) : bool := match c with Close => true | Token _ => false end.

Lemma connection_loop_normal cs close :
  Forall normal_connection cs → connection_loop cs close = close || existsb is_close cs.
Proof.
  induction 1 as [|[s|] cs Hc Hcs IH] in close |- *; simpl; [by rewrite orb_false_r| |by rewrite orb_true_r].
  rewrite bool_decide_false; [apply IH|]. intros ->. by vm_compute in Hc.
Qed.

(** The last Connection line asks for the connection to be closed. *)
Definition asks_close (hs : list Header) : bool :=
  match last (values_of Headers.request.connection hs) with
  | Some (VConnections cs) => existsb is_close cs
  | _ => false
  end.

Lemma values_of_elem i hs v : v ∈ values_of i hs ↔ Known i v ∈ hs.
Proof.
  unfold values_of. rewrite list_elem_of_omap. split.
  - intros ([j w|k w] & Hin & E); [|done]. by destruct (decide (j = i)); simplify_eq.
  - intros Hin. exists (Known i v). by rewrite decide_True.
Qed.

(** What [finish_load] answers, in terms of the headers of the message. *)
Definition load_answer peer m ru v hs : Request * Result unit Status :=
  let hc := collect_headers hs (collection_new request_table) in
  if bool_decide (v = (1, 1)) && bool_decide (values_of Headers.request.host hs = [])
  then (mkRequest peer hc [] m ru true v, Err BadRequest)
  else (mkRequest peer hc [] m ru (bool_decide (v = (1, 0)) || asks_close hs) v, Ok tt).

Lemma finish_load_spec peer m ru v hs :
  Forall (header_ok request_table) hs →
  finish_load (bool_decide (v = (1, 0)))
    (mkRequest peer (collect_headers hs (collection_new request_table)) [] m ru true v)
  = load_answer peer m ru v hs.
Proof.
  intros Hhs. unfold finish_load, load_answer. cbn [version headers].
  assert (Hhost : collection_get Headers.request.host (collect_headers hs (collection_new request_table)) = None
    ↔ values_of Headers.request.host hs = []).
  { rewrite collect_headers_get by (vm_compute; lia).
    destruct (last (values_of Headers.request.host hs)) as [w|] eqn:El; [|by rewrite last_None in El].
    split; [done|]. intros E. by rewrite E in El. }
  rewrite (bool_decide_ext _ _ Hhost).
  destruct (bool_decide (v = (1, 1)) && bool_decide (values_of Headers.request.host hs = [])); [done|].
  unfold connection_values, asks_close. cbn [set_close headers].
  rewrite collect_headers_get by (vm_compute; lia).
  destruct (last (values_of Headers.request.connection hs)) as [w|] eqn:El; [|by rewrite orb_false_r].
  apply last_Some_elem_of, values_of_elem in El. rewrite Forall_forall in Hhs. apply Hhs in El as [(r & Hr & Hk) Hok].
  injection Hr as <-. destruct w as [| | | |cs| | | | | |]; try discriminate Hk.
  unfold set_close. cbn [remote_addr headers body method request_uri close_connection version].
  rewrite connection_loop_normal; [done|]. destruct Hok as [_ Hok]. eapply Forall_impl; [exact Hok|].
  intros [s|] Hs; [apply Hs|done].
Qed.

Lemma load_spec s fuel m ru v hs rest :
  bs_inv F s →
  request_line (bs_pending s) (m, ru, v) (header_lines request_table hs ++ CR :: LF :: rest) →
  v = (1, 0) ∨ v = (1, 1) → Forall (header_ok request_table) hs →
  (length (bs_pending s) + 6 < fuel)%nat →
  ∃ s', load fuel s = Done (load_answer (peer_name (wrapped s)) m ru v hs, s')
    ∧ bs_inv F s' ∧ bs_pending s' = rest.
Proof.
  intros Hi Hline Hv Hhs Hf.
  destruct (load_body_spec (peer_name (wrapped s)) (request_buffer.new s) fuel m ru v hs rest)
    as (b' & E & Hi' & Hp'); try done.
  exists (rb_stream b'). split; [|done]. unfold load. rewrite bind_gets. unfold zoom.
  by rewrite E, finish_load_spec.
Qed.
End LoadSpec.

(** C4. [Request::load] on a well-formed message: on every connection whose
    bytes, however fragmented, are a request line for HTTP/1.0 or HTTP/1.1,
    the lines of valid headers, an empty line and anything else, it returns
    the method, the URI, the version and the collection of the headers (the
    last line of a name wins) and has read exactly up to the end of the empty
    line.  An HTTP/1.1 request without Host is answered with Bad Request and
    closes the connection; otherwise the connection is closed after HTTP/1.0
    and when the last Connection header asks for it. *)
Theorem load_correct `{UrlOps} `{TimeOps} (s : BufferedStream TcpStream) fuel m ru v hs rest :
  stream_wf s →
  request_line (bs_pending s) (m, ru, v) (header_lines request_table hs ++ [CR; LF] ++ rest) →
  v = (1, 0) ∨ v = (1, 1) → Forall (header_ok request_table) hs →
  (length (bs_pending s) + 6 < fuel)%nat →
  ∃ s', load fuel s
        = Done (let hc := collect_headers hs (collection_new request_table) in
                if bool_decide (v = (1, 1)) && bool_decide (values_of Headers.request.host hs = [])
                then (mkRequest (peer_name (wrapped s)) hc [] m ru true v, Err BadRequest)
                else (mkRequest (peer_name (wrapped s)) hc [] m ru
                        (bool_decide (v = (1, 0)) || asks_close hs) v, Ok tt), s')
    ∧ stream_wf s' ∧ bs_pending s' = rest.
Proof.
  intros Hwf%stream_wf_inv Hline Hv Hhs Hf.
  destruct (load_spec _ True_read_stable s fuel m ru v hs rest Hwf Hline Hv Hhs Hf) as (s' & E & Hi & Hp).
  exists s'. by rewrite stream_wf_inv.
Qed.

(** A connection with a request in three segments, for the examples. *)
Definition example_line : list u8 := lit "GET /a HTTP/1.1" ++ [CR; LF].
Definition example_host `{UrlOps} `{TimeOps} : Header :=
  Known Headers.request.host (VHost (mkHost (lit "x.org") None)).
Definition example_stream : BufferedStream TcpStream :=
  tcp_stream [lit "GET /a HT"; lit "TP/1.1" ++ [CR; LF] ++ lit "Host: x."; lit "org" ++ [CR; LF; CR; LF] ++ lit "body"].

Lemma example_pending :
  bs_pending example_stream
  = lit "GET" ++ SP :: lit "/a" ++ SP :: lit "HTTP/1.1" ++ CR :: LF
      :: lit "Host: x.org" ++ [CR; LF] ++ [CR; LF] ++ lit "body".
Proof. vm_compute. reflexivity. Qed.

Lemma version_1_1 rest : version_text CR (lit "HTTP/1.1" ++ CR :: rest) (1, 1) rest.
Proof.
  exists (lit "HTTP/"), (lit "1.1" ++ CR :: rest), (lit "1" ++ CR :: rest).
  split_and?; [done|done| |].
  - exists (lit "1"). split_and?; vm_compute; done.
  - exists (lit "1"). split_and?; vm_compute; done.
Qed.

Lemma example_request_line `{UrlOps} rest :
  request_line (lit "GET" ++ SP :: lit "/a" ++ SP :: lit "HTTP/1.1" ++ CR :: LF :: rest)
    (Get, AbsolutePath (lit "/a"), (1, 1)) rest.
Proof.
  exists (lit "GET"), (lit "/a" ++ SP :: lit "HTTP/1.1" ++ CR :: LF :: rest).
  split; [done|]. split; [split_and?; [repeat constructor|done|vm_compute; lia|done]|].
  exists (lit "/a"), (lit "HTTP/1.1" ++ CR :: LF :: rest). split_and?; [done| |done|done|apply version_1_1].
  by apply (bool_decide_unpack _).
Qed.

Lemma load_correct_witness :
  let hs := [example_host (H:=text_urls) (H0:=second_times)] in
  ∃ s', load (H:=text_urls) (H0:=second_times) 100 example_stream
        = Done (mkRequest None (collect_headers hs (collection_new request_table)) []
                  Get (AbsolutePath (lit "/a")) false (1, 1), Ok tt, s')
    ∧ stream_wf s' ∧ bs_pending s' = lit "body".
Proof.
  intros hs.
  apply (load_correct (H:=text_urls) (H0:=second_times) example_stream 100 Get (AbsolutePath (lit "/a")) (1, 1) hs (lit "body")).
  - apply tcp_stream_wf. repeat constructor; discriminate.
  - rewrite example_pending. apply example_request_line.
  - by right.
  - apply Forall_cons. split; [|by apply Forall_nil]. split; [by eexists|].
    cbn [value_ok wire_ok Host_wire host_name host_port example_host]. split; [|by split].
    split; [|done]. repeat (apply Forall_cons; split; [vm_compute; repeat split; discriminate|]). by apply Forall_nil.
  - rewrite example_pending. vm_compute. lia.
Defined.

(** C19. The request line, on every connection and whatever it sends:
    [read_request_line] always returns; it returns a method, a URI and a
    version exactly when the bytes start with a line of the grammar (a token
    of 1 to 64 bytes, a URI within the limit that is valid, a version, CR LF),
    and has then read just that line; otherwise it returns Bad Request, or
    Request-URI Too Long. *)
Theorem read_request_line_correct `{UrlOps} {S} `{ByteSource S} (b : RequestBuffer S) fuel :
  stream_wf (rb_stream b) → (length (bs_pending (rb_stream b)) + 6 < fuel)%nat →
  ∃ o b', request_buffer.read_request_line fuel b = Done (o, b')
    ∧ match o with
      | Ok x => ∃ rest, request_line (bs_pending (rb_stream b)) x rest
          ∧ stream_wf (rb_stream b') ∧ bs_pending (rb_stream b') = rest
      | Err e => (e = BadRequest ∨ e = RequestUriTooLong)
          ∧ ∀ x rest, ¬ request_line (bs_pending (rb_stream b)) x rest
      end.
Proof.
  intros Hwf%stream_wf_inv Hf.
  destruct (read_request_line_spec _ True_read_stable b fuel _ (conj Hwf eq_refl) Hf) as (o & b' & E & Ho).
  exists o, b'. split; [done|]. destruct o as [x|e]; [|done].
  destruct Ho as (rest & Hl & [[Hi Hp] _]). exists rest. by rewrite stream_wf_inv.
Qed.

Lemma read_request_line_correct_witness :
  let b := request_buffer.new example_stream in
  ∃ o b', request_buffer.read_request_line (H0:=text_urls) 100 b = Done (o, b')
    ∧ match o with
      | Ok x => ∃ rest, request_line (H:=text_urls) (bs_pending (rb_stream b)) x rest
          ∧ stream_wf (rb_stream b') ∧ bs_pending (rb_stream b') = rest
      | Err e => (e = BadRequest ∨ e = RequestUriTooLong)
          ∧ ∀ x rest, ¬ request_line (H:=text_urls) (bs_pending (rb_stream b)) x rest
      end.
Proof.
  intros b. apply (read_request_line_correct (H:=text_urls) b 100).
  - apply tcp_stream_wf. repeat constructor; discriminate.
  - change (bs_pending (rb_stream b)) with (bs_pending example_stream). rewrite example_pending. vm_compute. lia.
Defined.

(** The URI of the request line: on the bytes of a URI followed by a
    space, [read_request_uri] returns what [from_str] makes of them, and has
    read the space, unless the length of the text reaches 1024 bytes with a
    byte still to come.  For ASCII URIs that means more than 1024 bytes; a
    text that steps over 1024, with a character that takes two bytes, is not
    limited. *)
Theorem read_request_uri_correct `{UrlOps} {S} `{ByteSource S} (b : RequestBuffer S) fuel u rest :
  stream_wf (rb_stream b) → bs_pending (rb_stream b) = u ++ SP :: rest → SP ∉ u → (length u < fuel)%nat →
  ∃ b', request_buffer.read_request_uri fuel b
        = Done (if uri_fits u
                then match RequestUri_from_str u with Some r => Ok r | None => Err BadRequest end
                else Err RequestUriTooLong, b')
    ∧ (uri_fits u = true → stream_wf (rb_stream b') ∧ bs_pending (rb_stream b') = rest)
    ∧ (is_ascii u = true → uri_fits u = (length u <=? 1024)%nat)
    ∧ (∀ p c q, u = p ++ c :: q → length p = 1023%nat → is_ascii p = true → 128 ≤ c < 256 → uri_fits u = true).
Proof.
  intros Hwf%stream_wf_inv Hp Hu Hf.
  destruct (read_request_uri_spec _ True_read_stable b fuel u (SP :: rest) (conj Hwf Hp) Hu eq_refl Hf) as (b' & E & Hb').
  exists b'. split_and?; [done| |apply uri_fits_ascii|].
  - intros Hfit. destruct (Hb' Hfit) as [[[Hi Hp'] _]|]; [|done]. by rewrite stream_wf_inv.
  - intros p c q -> Hlen Ha Hc. by apply uri_fits_stepped.
Qed.

Lemma read_request_uri_correct_witness :
  let b := request_buffer.new (tcp_stream [lit "/a"; lit "bc HTTP/1.1"]) in
  ∃ b', request_buffer.read_request_uri (H0:=text_urls) 10 b
        = Done (if uri_fits (lit "/abc")
                then match RequestUri_from_str (H:=text_urls) (lit "/abc") with Some r => Ok r | None => Err BadRequest end
                else Err RequestUriTooLong, b')
    ∧ (uri_fits (lit "/abc") = true → stream_wf (rb_stream b') ∧ bs_pending (rb_stream b') = lit "HTTP/1.1").
Proof.
  intros b. destruct (read_request_uri_correct (H:=text_urls) b 10 (lit "/abc") (lit "HTTP/1.1")) as (b' & E & Hb' & _).
  - apply tcp_stream_wf. repeat constructor; discriminate.
  - vm_compute. reflexivity.
  - by apply (bool_decide_unpack _).
  - vm_compute. lia.
  - exact (ex_intro _ b' (conj E Hb')).
Defined.

(** ** What [load] returns, on any input *)

(** A collection whose values have the types of their rows. *)
Definition coll_typed `{UrlOps} `{TimeOps} (tbl : table) (c : HeaderCollection) : Prop :=
  length (fields c) = length tbl ∧ ∀ i v, collection_get i c = Some v → header_read tbl (Known i v).

Section AnyInput.
Context `{UrlOps} `{TimeOps}.

Lemma collection_new_typed tbl : coll_typed tbl (collection_new tbl).
Proof.
  split; [apply length_replicate|]. intros i v. unfold collection_get, collection_new. cbn [fields].
  destruct (replicate (length tbl) None !! i) as [o|] eqn:E; [|done].
  apply lookup_replicate in E as [-> _]. done.
Qed.

Lemma collection_insert_typed tbl h c :
  header_read tbl h → coll_typed tbl c → coll_typed tbl (collection_insert h c).
Proof.
  intros Hh [Hl Hc]. destruct h as [i v|k v]; [|done]. split; [cbn; by rewrite length_insert|].
  intros j w. unfold collection_get, collection_insert. cbn [fields].
  destruct (decide (i = j)) as [->|Hij]; [|rewrite list_lookup_insert_ne by done; apply Hc].
  destruct Hh as [(r & Hr & Hk) Hn]. apply lookup_lt_Some in Hr as Hlt.
  rewrite list_lookup_insert_eq by lia. intros [= <-]. split; [by exists r|done].
Qed.

Lemma read_header_any {S} `{Reader S} tbl fuel :
  rets (request_buffer.read_header (S:=S) fuel tbl) (λ r, match r with Ok h => header_read tbl h | Err _ => True end).
Proof.
  eapply rets_bind; [apply rets_zoom, header_enum_read_any|]. intros [h nb] Hh.
  destruct nb; [|by apply rets_ret]. apply rets_seq. intros _. by apply rets_ret.
Qed.

(** The answers of [load]: errors leave the connection to be closed, success
    means a supported version, with a Host for HTTP/1.1. *)
Definition load_result (r : Request * Result unit Status) : Prop :=
  let '(request, status) := r in
  coll_typed request_table (headers request)
  ∧ match status with
    | Ok _ =>
        (version request = (1, 0) ∨ version request = (1, 1))
        ∧ (version request = (1, 1) → collection_get Headers.request.host (headers request) ≠ None)
        ∧ close_connection request
          = bool_decide (version request = (1, 0))
            || existsb is_close (default [] (connection_values (headers request)))
    | Err st =>
        close_connection request = true
        ∧ (st = BadRequest ∨ st = RequestUriTooLong ∨ st = HttpVersionNotSupported)
    end.

Lemma read_request_line_any {S} `{Reader S} fuel :
  rets (request_buffer.read_request_line (S:=S) fuel)
    (λ r, match r with Ok _ => True | Err st => st = BadRequest ∨ st = RequestUriTooLong end).
Proof.
  apply rets_seq. intros [m|]; [|apply rets_ret; by left].
  apply (rets_bind _ _ (λ r, match r with Ok _ => True | Err st => st = BadRequest ∨ st = RequestUriTooLong end)).
  - apply (rets_bind _ _ (λ r, match r with Ok _ => True | Err st => st = BadRequest ∨ st = RequestUriTooLong end)).
    + apply (rets_loop fuel _ (λ _, True)); [|done]. intros s _. apply rets_seq.
      intros [b|]; [|apply rets_ret; by left].
      destruct (b =? SP); [by apply rets_ret|]. destruct (_ =? _)%nat; apply rets_ret; [by right|done].
    + intros [u|e] Hu; [|by apply rets_ret]. destruct (RequestUri_from_str u); apply rets_ret; [done|by left].
  - intros [u|e] Hu; [|by apply rets_ret]. apply rets_seq. intros ov. apply rets_seq. intros ob.
    destruct ov, ob; try (apply rets_ret; by left). destruct (_ =? LF); apply rets_ret; [done|by left].
Qed.

Lemma finish_load_result request :
  coll_typed request_table (headers request) → close_connection request = true →
  version request = (1, 0) ∨ version request = (1, 1) →
  load_result (finish_load (bool_decide (version request = (1, 0))) request).
Proof.
  intros Hc Hclose Hv. unfold finish_load.
  destruct (bool_decide (version request = (1, 1)) && _) eqn:Hhost; [split; [done|split; [done|by left]]|].
  assert (Hh : version request = (1, 1) → collection_get Headers.request.host (headers request) ≠ None).
  { intros E. rewrite bool_decide_true in Hhost by done. by apply bool_decide_eq_false in Hhost. }
  cbn [set_close headers]. unfold load_result. destruct (connection_values (headers request)) as [cs|] eqn:Ec.
  - cbn [set_close headers version close_connection]. split_and?; try done. rewrite Ec. cbn [default].
    apply connection_loop_normal. unfold connection_values in Ec.
    destruct (collection_get Headers.request.connection (headers request)) as [w|] eqn:Eg; [|done].
    apply Hc in Eg as [_ Hn]. destruct w; try discriminate Ec. injection Ec as <-. exact Hn.
  - cbn [set_close headers version close_connection]. split_and?; try done. rewrite Ec. by rewrite orb_false_r.
Qed.

Lemma headers_loop_result fuel n v request :
  coll_typed request_table (headers request) ∧ close_connection request = true ∧ version request = v →
  rets (loop n (headers_body fuel) request)
    (λ r, (coll_typed request_table (headers r.1) ∧ close_connection r.1 = true ∧ version r.1 = v)
          ∧ match r.2 with Ok _ => True | Err st => st = BadRequest end).
Proof.
  intros Hr. eapply (rets_loop n (headers_body fuel)
    (λ r, coll_typed request_table (headers r) ∧ close_connection r = true ∧ version r = v)); [|exact Hr].
  clear. intros r (Hc & Hr). unfold headers_body. eapply rets_bind; [apply read_header_any|].
  intros [h|[]] Hh; try (by apply rets_ret); [|apply rets_fail].
  apply rets_ret. split; [|done]. by apply collection_insert_typed.
Qed.

Lemma load_any fuel : rets (load fuel) load_result.
Proof.
  apply rets_seq. intros peer. apply rets_zoom. eapply rets_bind; [apply read_request_line_any|].
  intros [[[m ru] v]|e] He; [|apply rets_ret; split; [apply collection_new_typed|split; [done|by destruct He; auto]]].
  cbn zeta. set (req := set_line m ru v _).
  assert (Hgo : v = (1, 0) ∨ v = (1, 1) → rets (rh ← loop fuel (headers_body fuel) req;
      match rh with (request, Err e) => mret (request, Err e)
                  | (request, Ok _) => mret (finish_load (bool_decide (v = (1, 0))) request) end) load_result).
  { intros Hv. eapply rets_bind; [apply (headers_loop_result fuel fuel v)|].
    - split; [apply collection_new_typed|done].
    - intros [r [[]|e]] [(Hc & Hcl & Hver) He']; apply rets_ret; simpl in *; [|split; [done|split; [done|by left]]]. subst v.
      by apply finish_load_result. }
  destruct (decide (v = (1, 0))) as [->|H10]; [|destruct (decide (v = (1, 1))) as [->|H11]].
  - rewrite bool_decide_true by done. apply Hgo. by left.
  - rewrite (bool_decide_false ((1, 1) = (1, 0))), bool_decide_true by done. apply Hgo. by right.
  - rewrite !bool_decide_false by done. apply rets_ret. split; [apply collection_new_typed|by split; [|right; right]].
Qed.
End AnyInput.


(** HTTP/1.0 with [Connection: keep-alive]: still closed. *)
Definition keep_alive_stream : BufferedStream TcpStream :=
  tcp_stream [lit "GET / HTTP/1.0" ++ [CR; LF] ++ lit "Connection: keep-alive" ++ [CR; LF; CR; LF]].


(** ** Where [load] fails the task *)
Section Failing.
Context `{UrlOps} `{TimeOps} (F : BufferedStream TcpStream → Prop) (HF : read_stable F).
Let inv := bs_inv (T:=TcpStream) F.
Let ok (b : RequestBuffer TcpStream) : Prop := inv (rb_stream b).

Lemma rb_read_byte_safe : safe ok (request_buffer.on_stream Buffer.read_byte) (λ _, ok).
Proof.
  intros b Hb. destruct (rb_read_byte F HF b (bs_pending (rb_stream b))) as (b' & E & [[Hi _] _]); [done|].
  by rewrite E.
Qed.

Lemma read_request_line_safe fuel : safe ok (request_buffer.read_request_line fuel) (λ _, ok).
Proof.
  pose (Src' := BufferedStream_source (T:=TcpStream) F HF).
  apply (safe_bind _ _ _ (λ _, ok)); [apply run_method_safe, rb_read_byte_safe|].
  intros [m|]; [|by apply safe_ret]. apply (safe_bind _ _ _ (λ _, ok)).
  - apply (safe_bind _ _ _ (λ _, ok)).
    + apply (safe_loop fuel _ (λ _, ok)). intros s. apply (safe_bind _ _ _ (λ _, ok)); [apply rb_read_byte_safe|].
      intros [b|]; [|by apply safe_ret]. repeat (apply safe_if; intros _); by apply safe_ret.
    + intros [u|e]; [|by apply safe_ret]. destruct (RequestUri_from_str u); by apply safe_ret.
  - intros [u|e]; [|by apply safe_ret]. apply (safe_bind _ _ _ (λ _, ok)).
    + intros b Hb. unfold request_buffer.on_stream, zoom.
      pose proof (read_http_version_safe inv fuel) as Hs. specialize (Hs ltac:(
        eapply safe_weaken; [| |apply (read_byte_util_safe (HS:=Src'))]; [done|by intros ? ? [? _]]) CR (rb_stream b) Hb).
      by destruct (read_http_version fuel CR (rb_stream b)) as [[v s']| |].
    + intros ov. apply (safe_bind _ _ _ (λ _, ok)); [apply rb_read_byte_safe|].
      intros ob. destruct ov, ob; try (by apply safe_ret). apply safe_if; intros _; by apply safe_ret.
Qed.

(** Whatever the input, [load] leaves the stream well-formed, and the writing
    side as it was. *)
Lemma load_keeps fuel : keeps inv (load fuel).
Proof.
  intros s a s' Hs. unfold load. rewrite bind_gets. unfold zoom.
  assert (Hk : keeps ok (load_body fuel (peer_name (wrapped s)))).
  { apply keeps_bind; [apply keeps_safe, read_request_line_safe|].
    intros [[[m ru] v]|e]; [|apply keeps_ret]. cbn zeta.
    assert (Hgo : ∀ request (close : bool), keeps ok (rh ← loop fuel (headers_body fuel) request;
      match rh with (request, Err e) => mret (request, Err e) | (request, Ok _) => mret (finish_load close request) end)).
    { intros request close. apply keeps_bind; [|intros [r [u|e]]; apply keeps_ret].
      apply keeps_loop. intros r. apply keeps_bind; [exact (keeps_safe _ _ (read_header_safe F HF request_table fuel))|].
      intros [h|[]]; first [apply keeps_ret|apply keeps_fail]. }
    repeat case_bool_decide; first [apply Hgo|apply keeps_ret]. }
  destruct (load_body fuel (peer_name (wrapped s)) (request_buffer.new s)) as [[r b']| |] eqn:E; [|done|done].
  intros [= <- <-]. exact (Hk (request_buffer.new s) r b' Hs E).
Qed.

Lemma headers_loop_fails fuel n e : ∀ request b,
  ok b → loop n (headers_body fuel) request b = Fail e → e = "client disconnected, nowhere to send response".
Proof.
  induction n as [|n IH]; intros request b Hb; [done|]. rewrite loop_S, bind_unfold.
  unfold headers_body at 1. pose proof (read_header_safe F HF request_table fuel b Hb) as Hs.
  rewrite bind_unfold. destruct (request_buffer.read_header fuel request_table b) as [[r b1]| |]; [|done|done].
  destruct r as [h|[]]; try done; cbn [fail continue break mret M_ret]; try (by intros [= <-]); by apply IH.
Qed.

Lemma load_fails s fuel e :
  inv s → (length (bs_pending s) + 6 < fuel)%nat → load fuel s = Fail e →
  e = "client disconnected, nowhere to send response".
Proof.
  intros Hi Hf. unfold load. rewrite bind_gets. unfold zoom, load_body.
  destruct (read_request_line_spec F HF (request_buffer.new s) fuel (bs_pending s) (conj Hi eq_refl) Hf)
    as (o & b1 & E1 & Ho).
  rewrite (bind_Done _ _ _ _ _ E1). destruct o as [[[m ru] v]|e']; [|done]. destruct Ho as (rest & _ & [[Hb1 _] _]).
  cbn zeta. set (req := set_line m ru v _). pose proof (headers_loop_fails fuel fuel e req b1 Hb1) as Hloop.
  repeat (case_bool_decide; [|]); rewrite ?bind_unfold;
    destruct (loop fuel (headers_body fuel) req b1) as [[[r [[]|e1]] b2]| |]; try done; intros [= <-]; auto.
Qed.

(** A message that ends before the empty line. *)
Lemma headers_loop_cut fuel hs n request b :
  Forall (header_ok request_table) hs → rb_rel F HF b (header_lines request_table hs) →
  (length (header_lines request_table hs) < fuel)%nat → (length hs < n)%nat →
  loop n (headers_body fuel) request b = Fail "client disconnected, nowhere to send response".
Proof.
  intros Hhs Hb Hf Hn.
  destruct (header_loop_cut F HF (λ r h, set_headers (collection_insert h (headers r)) r) (headers_body fuel)
    request_table fuel (tables_ok _ (or_introl eq_refl))) with (hs := hs) (a := request) (b := b) (n := n)
    as (b1 & b' & n' & -> & E'); try done.
  - intros a b' h b'' E. unfold headers_body. by rewrite (bind_Done _ _ _ _ _ E).
  - apply loop_fail. unfold headers_body. by rewrite (bind_Done _ _ _ _ _ E').
Qed.

Lemma load_cut s fuel x hs :
  inv s → (length (bs_pending s) + 6 < fuel)%nat → Forall (header_ok request_table) hs →
  request_line (bs_pending s) x (header_lines request_table hs) → x.2 = (1, 0) ∨ x.2 = (1, 1) →
  load fuel s = Fail "client disconnected, nowhere to send response".
Proof.
  intros Hi Hf Hhs Hline Hv. unfold load. rewrite bind_gets. unfold zoom, load_body.
  destruct (read_request_line_spec F HF (request_buffer.new s) fuel (bs_pending s) (conj Hi eq_refl) Hf)
    as ([y|e] & b1 & E1 & Ho); [|exfalso; by eapply Ho]. destruct Ho as (rest & Hline1 & Hb1).
  destruct (request_line_inj _ _ _ _ _ Hline Hline1) as [<- <-]. apply rb_fresh_rel in Hb1.
  apply request_line_length in Hline. pose proof (header_lines_length request_table hs).
  rewrite (bind_Done _ _ _ _ _ E1). destruct x as [[m ru] v]. cbn zeta. set (req := set_line m ru v _).
  pose proof (headers_loop_cut fuel hs fuel req b1 Hhs Hb1 ltac:(lia) ltac:(lia)) as Hloop.
  simpl in Hv. repeat (case_bool_decide; [by rewrite (bind_Fail _ _ _ _ Hloop)|]). by destruct Hv.
Qed.
End Failing.


