(* ===== verification/ServerResponse.v ===== *)
(** * Responses as the server writes them (src/libhttp/server/response.rs)

    [ResponseWriter] writes the status line and the headers when the first
    byte of the body is written, switches the stream to the chunked coding
    when no Content-Length is set, and ends the response.  The theorems say
    what is on the wire after any use of it. *)

From S2P Require Import Prelude Strs Rfc2616 Method Io Buffer Common Chunked SerializationUtils HeaderIter HeaderValues Headers Status Branchify ServerRequest.

(** [self.headers.field = value]. *)
Definition collection_set `{UrlOps} `{TimeOps} (i : nat) (v : option HeaderValue) (c : HeaderCollection) : HeaderCollection :=
  mkCollection (<[i := v]> (fields c)) (extensions c).

Record ResponseWriter `{UrlOps} `{TimeOps} : Type := mkResponseWriter {
  rw_writer : BufferedStream TcpStream;
  rw_headers_written : bool;
  rw_request : Request;
  rw_headers : HeaderCollection;
  rw_status : Status
}.
Arguments mkResponseWriter {_ _}.
Arguments rw_writer {_ _}.
Arguments rw_headers_written {_ _}.
Arguments rw_request {_ _}.
Arguments rw_headers {_ _}.
Arguments rw_status {_ _}.

Module response_writer.
Section Operations.
Context `{UrlOps} `{TimeOps} (fuel : nat).

Definition set_writer (s : BufferedStream TcpStream) (w : ResponseWriter) :=
  mkResponseWriter s (rw_headers_written w) (rw_request w) (rw_headers w) (rw_status w).
Definition set_headers_written (w : ResponseWriter) :=
  mkResponseWriter (rw_writer w) true (rw_request w) (rw_headers w) (rw_status w).
Definition set_headers (hs : HeaderCollection) (w : ResponseWriter) :=
  mkResponseWriter (rw_writer w) (rw_headers_written w) (rw_request w) hs (rw_status w).
Definition set_status (st : Status) (w : ResponseWriter) :=
  mkResponseWriter (rw_writer w) (rw_headers_written w) (rw_request w) (rw_headers w) st.
(** A call on [self.writer]. *)
Definition on_writer {A} (m : M (BufferedStream TcpStream) A) : M ResponseWriter A :=
  zoom rw_writer set_writer m.
(** An assignment to a field of [self.headers]. *)
Definition set_header (i : nat) (v : option HeaderValue) : M ResponseWriter unit :=
  modify (λ w, set_headers (collection_set i v (rw_headers w)) w).

Definition new (writer : BufferedStream TcpStream) (request : Request) : ResponseWriter :=
  mkResponseWriter writer false request (collection_new response_table) status_Ok.

(** [format!("HTTP/1.1 {}\r\n", self.status.to_str())]. *)
Definition status_line (st : Status) : str := lit "HTTP/1.1 " ++ Status.to_str st ++ [CR; LF].

Definition write_headers : M ResponseWriter unit :=
  written ← gets rw_headers_written;
  if (written : bool) then fail "ResponseWriter.write_headers() called, but headers already written"
  else
    st ← gets rw_status;
    on_writer (writer_write (as_bytes (status_line st)));;
    cl ← gets (λ w, collection_get response.content_length (rw_headers w));
    (if bool_decide (cl = None)
     then set_header response.transfer_encoding (Some (VTransferCodings [Chunked]))
     else set_header response.transfer_encoding None);;
    hs ← gets rw_headers;
    on_writer (write_all response_table fuel hs);;
    modify set_headers_written;;
    cl ← gets (λ w, collection_get response.content_length (rw_headers w));
    if bool_decide (cl = None) then
      on_writer writer_flush;;
      on_writer (modify (set_writing_chunked_body true))
    else mret tt.

Definition try_write_headers : M ResponseWriter unit :=
  written ← gets rw_headers_written;
  if (written : bool) then mret tt else write_headers.

(** [Writer for ResponseWriter]. *)
Definition write (buf : list u8) : M ResponseWriter unit :=
  written ← gets rw_headers_written;
  (if (written : bool) then mret tt else write_headers);;
  on_writer (writer_write buf).
Definition flush : M ResponseWriter unit := on_writer writer_flush.

Definition write_content_auto (content_type : MediaType) (content : str) : M ResponseWriter unit :=
  set_header response.content_type (Some (VMediaType content_type));;
  let cbytes := as_bytes content in
  set_header response.content_length (Some (VUint (Z.of_nat (length cbytes))));;
  write_headers;;
  write cbytes.

Definition finish_response : M ResponseWriter unit :=
  on_writer Buffer.finish_response;;
  on_writer (modify (set_writing_chunked_body false)).
End Operations.
End response_writer.

(** ** What goes on the wire *)

(** The headers that are sent: the Transfer-Encoding is overridden. *)
Definition coded_headers `{UrlOps} `{TimeOps} (c : HeaderCollection) : HeaderCollection :=
  collection_set response.transfer_encoding
    (if bool_decide (collection_get response.content_length c = None)
     then Some (VTransferCodings [Chunked]) else None) c.

(** The head of a response: status line, headers, empty line. *)
Definition response_head `{UrlOps} `{TimeOps} (st : Status) (c : HeaderCollection) : list u8 :=
  as_bytes (response_writer.status_line st)
  ++ (headers_of (coded_headers c) ≫= wire_line response_table) ++ [CR; LF].

(** The body of a response with payload [bs]: as it is with a Content-Length,
    else one complete chunked body. *)
Definition response_body `{UrlOps} `{TimeOps} (c : HeaderCollection) (bs out : list u8) : Prop :=
  if bool_decide (collection_get response.content_length c = None)
  then ∀ rest, dechunk (S (length bs)) (out ++ rest) = Some (bs, rest)
  else out = bs.

(** A stream between two responses. *)
Definition ready (s : BufferedStream TcpStream) : Prop :=
  write_wf s ∧ buffered s = [] ∧ call_wrapped_flush s = false ∧ writing_chunked_body s = false.

(** Headers that can be sent, with enough fuel for the loop over them. *)
Definition sendable `{UrlOps} `{TimeOps} (fuel : nat) (st : Status) (c : HeaderCollection) : Prop :=
  length (fields c) = length response_table
  ∧ Forall (header_writable response_table) (headers_of (coded_headers c))
  ∧ (length response_table + length (extensions c) + 2 ≤ fuel)%nat
  ∧ fits (response_head st c).

(** A use of a response as a [Writer]. *)
Definition run_rop `{UrlOps} `{TimeOps} (fuel : nat) (op : wop) : M ResponseWriter unit :=
  match op with WWrite bs => response_writer.write fuel bs | WFlush => response_writer.flush end.

Section Output.
Context (G : BufferedStream TcpStream → Prop) (HG : write_stable G)
        (HGc : ∀ b s, G s → G (set_writing_chunked_body b s)).
Implicit Types s : BufferedStream TcpStream.

Lemma fits_app bs1 bs2 : fits (bs1 ++ bs2) → fits bs1 ∧ fits bs2.
Proof. unfold fits. rewrite length_app. lia. Qed.

(** A method that only writes, outside chunked mode: its bytes follow those
    that were sent or buffered. *)
Lemma plain_writes (m : M (BufferedStream TcpStream) unit) bs s :
  Writes m bs → fits bs → write_wf s → G s → call_wrapped_flush s = false → writing_chunked_body s = false →
  ∃ s', m s = Done (tt, s') ∧ write_wf s' ∧ G s' ∧ call_wrapped_flush s' = false ∧ writing_chunked_body s' = false
    ∧ sent (wrapped s') ++ buffered s' = sent (wrapped s) ++ buffered s ++ bs.
Proof.
  intros (bss & <- & Hm) Hfit Hwf HGs Hc Hk.
  destruct (run_wops_spec G HG (WWrite <$> bss) s Hwf HGs Hc) as (s' & body & out & E & Hwf' & (Hs & HG' & Hc' & Hk') & HE & Hb).
  - clear -Hfit. induction bss as [|b bss IH]; [constructor|]. apply fits_app in Hfit as [? ?]. constructor; auto.
  - exists s'. rewrite Hk in HE. apply emits_plain in HE as ->. rewrite Hc' , Hk', Hs. split_and?; try done.
    + rewrite Hm, <-E. clear. revert s. induction bss as [|b bss IH]; intros s; [done|]. cbn.
      rewrite !bind_unfold. destruct (Buffer.write b s) as [[[] s1]| |]; [apply IH|done|done].
    + rewrite <-app_assoc. f_equal. rewrite <-Hb. f_equal. clear.
      induction bss as [|b bss IH]; [done|]. simpl. by f_equal.
Qed.

Context `{UrlOps} `{TimeOps}.
Implicit Types w : ResponseWriter.

Lemma on_writer_Done {A} (m : M (BufferedStream TcpStream) A) w a s' :
  m (rw_writer w) = Done (a, s') →
  response_writer.on_writer m w = Done (a, response_writer.set_writer s' w).
Proof. intros E. unfold response_writer.on_writer, zoom. by rewrite E. Qed.

Lemma coded_content_length c :
  collection_get response.content_length (coded_headers c) = collection_get response.content_length c.
Proof. unfold collection_get, coded_headers, collection_set. cbn [fields]. by rewrite list_lookup_insert_ne. Qed.

(** After the head: all of it has been written, and in chunked mode sent. *)
Definition head_written w s' : Prop :=
  let chunked := bool_decide (collection_get response.content_length (rw_headers w) = None) in
  write_wf s' ∧ G s' ∧ call_wrapped_flush s' = false ∧ writing_chunked_body s' = chunked
  ∧ (chunked = true → buffered s' = [])
  ∧ sent (wrapped s') ++ buffered s' = sent (wrapped (rw_writer w)) ++ response_head (rw_status w) (rw_headers w).

(** [write_headers], once its two writes are known. *)
Lemma write_headers_run fuel s0 s1 s2 req hs st :
  writer_write (as_bytes (response_writer.status_line st)) s0 = Done (tt, s1) →
  write_all response_table fuel (coded_headers hs) s1 = Done (tt, s2) →
  response_writer.write_headers fuel (mkResponseWriter s0 false req hs st)
  = (if bool_decide (collection_get response.content_length hs = None)
     then response_writer.on_writer writer_flush;;
          response_writer.on_writer (modify (set_writing_chunked_body true))
     else mret tt) (mkResponseWriter s2 true req (coded_headers hs) st).
Proof.
  intros E1 E2. unfold response_writer.write_headers. rewrite bind_gets. cbn [rw_headers_written].
  rewrite bind_gets. cbn [rw_status].
  rewrite (bind_Done _ _ _ _ _ (on_writer_Done _ (mkResponseWriter s0 false req hs st) _ _ E1)), bind_gets.
  cbn [response_writer.set_writer rw_headers rw_request rw_status rw_writer rw_headers_written].
  assert (Eset : (if bool_decide (collection_get response.content_length hs = None)
      then response_writer.set_header response.transfer_encoding (Some (VTransferCodings [Chunked]))
      else response_writer.set_header response.transfer_encoding None) (mkResponseWriter s1 false req hs st)
    = Done (tt, mkResponseWriter s1 false req (coded_headers hs) st)).
  { unfold response_writer.set_header, coded_headers. by case_bool_decide. }
  rewrite (bind_Done _ _ _ _ _ Eset), bind_gets. cbn [rw_headers].
  rewrite (bind_Done _ _ _ _ _ (on_writer_Done _ (mkResponseWriter s1 false req (coded_headers hs) st) _ _ E2)).
  rewrite bind_modify, bind_gets. cbn [response_writer.set_headers_written response_writer.set_writer rw_headers].
  by rewrite coded_content_length.
Qed.

Lemma write_headers_spec fuel w :
  rw_headers_written w = false → ready (rw_writer w) → G (rw_writer w) → sendable fuel (rw_status w) (rw_headers w) →
  ∃ s', response_writer.write_headers fuel w
        = Done (tt, mkResponseWriter s' true (rw_request w) (coded_headers (rw_headers w)) (rw_status w))
    ∧ head_written w s'.
Proof.
  destruct w as [s0 written req hs st]. cbn [rw_headers_written rw_writer rw_headers rw_status rw_request].
  intros -> (Hwf & Hb & Hcf & Hk) HGs (Hlen & Hok & Hfuel & Hfit). unfold head_written.
  cbn [rw_writer rw_headers rw_status]. unfold response_head in Hfit.
  apply fits_app in Hfit as [Hfit1 Hfit2].
  destruct (plain_writes _ _ s0 (Writes_write (as_bytes (response_writer.status_line st))) Hfit1 Hwf HGs Hcf Hk)
    as (s1 & E1 & Hwf1 & HG1 & Hcf1 & Hk1 & Ho1).
  destruct (plain_writes _ _ s1 (write_all_writes (W:=BufferedStream TcpStream) response_table fuel (coded_headers hs) (tables_ok _ (or_intror eq_refl))
      ltac:(cbn; by rewrite length_insert) Hok Hfuel) Hfit2 Hwf1 HG1 Hcf1 Hk1)
    as (s2 & E2 & Hwf2 & HG2 & Hcf2 & Hk2 & Ho2).
  assert (Hout : sent (wrapped s2) ++ buffered s2 = sent (wrapped s0) ++ response_head st hs).
  { rewrite Ho2, app_assoc, Ho1, Hb. cbn [app]. by rewrite <-app_assoc. }
  rewrite (write_headers_run fuel s0 s1 s2 req hs st E1 E2).
  set (w1 := mkResponseWriter s2 true req (coded_headers hs) st).
  case_bool_decide as Hcl.
  - destruct (flush_spec G HG s2 Hwf2 HG2 Hcf2) as (s3 & E3 & Hwf3 & Hb3 & (Hs3 & HG3 & Hcf3 & Hk3)).
    rewrite (bind_Done _ _ _ _ _ (on_writer_Done _ w1 _ _ E3)).
    exists (set_writing_chunked_body true s3). split; [done|].
    split_and?; try done; [by apply HGc|by rewrite <-Hcf2|]. change (buffered (set_writing_chunked_body true s3)) with (buffered s3).
    cbn [wrapped set_writing_chunked_body]. rewrite Hb3, Hs3, app_nil_r, <-Hout, Hk2. f_equal.
    by case_decide as Hd; [rewrite Hd|].
  - by exists s2.
Qed.

(** Once the headers are written, the response is the stream. *)
Lemma run_rop_written fuel op w :
  rw_headers_written w = true → run_rop fuel op w = response_writer.on_writer (run_wop op) w.
Proof.
  intros Hw. destruct op as [bs|]; [|done]. cbn [run_rop run_wop]. unfold response_writer.write.
  by rewrite bind_gets, Hw, bind_ret.
Qed.

Lemma run_rops_written fuel ops : ∀ w,
  rw_headers_written w = true → for_each ops (run_rop fuel) w = response_writer.on_writer (run_wops ops) w.
Proof.
  unfold run_wops. induction ops as [|op ops IH]; intros w Hw; [by destruct w|]. cbn [for_each].
  rewrite bind_unfold, run_rop_written by done. unfold response_writer.on_writer at 1 2, zoom. rewrite bind_unfold.
  destruct (run_wop op (rw_writer w)) as [[[] s1]| |]; [|done|done].
  rewrite IH by done. unfold response_writer.on_writer, zoom. cbn [rw_writer response_writer.set_writer].
  by destruct (for_each ops run_wop s1) as [[[] s2]| |].
Qed.

(** Up to the head: leading flushes send nothing, the first write sends it. *)
Lemma respond_run fuel ops : ∀ w,
  rw_headers_written w = false → ready (rw_writer w) → G (rw_writer w) → sendable fuel (rw_status w) (rw_headers w) →
  Forall wop_fits ops →
  ∃ s1 ops', (for_each ops (run_rop fuel);; response_writer.try_write_headers fuel) w
      = response_writer.on_writer (run_wops ops')
          (mkResponseWriter s1 true (rw_request w) (coded_headers (rw_headers w)) (rw_status w))
    ∧ payload ops' = payload ops ∧ Forall wop_fits ops' ∧ head_written w s1.
Proof.
  induction ops as [|op ops IH]; intros w Hw Hr HGs Hs Hops.
  - destruct (write_headers_spec fuel w Hw Hr HGs Hs) as (s1 & E1 & H1). exists s1, []. split; [|done].
    cbn [for_each]. rewrite bind_ret. unfold response_writer.try_write_headers. rewrite bind_gets, Hw. exact E1.
  - apply Forall_cons in Hops as [Hop Hops]. cbn [for_each]. destruct op as [bs|].
    + destruct (write_headers_spec fuel w Hw Hr HGs Hs) as (s1 & E1 & H1). exists s1, (WWrite bs :: ops).
      split; [|split; [done|split; [by constructor|done]]].
      rewrite <-(run_rops_written fuel) by done. set (w1 := mkResponseWriter s1 true _ _ _).
      assert (Eop : run_rop fuel (WWrite bs) w = run_rop fuel (WWrite bs) w1).
      { cbn [run_rop]. unfold response_writer.write. rewrite !bind_gets, Hw. cbn [rw_headers_written w1].
        by rewrite (bind_Done _ _ _ _ _ E1). }
      rewrite bind_assoc, bind_unfold, Eop. cbn [for_each]. rewrite (bind_unfold (run_rop fuel (WWrite bs)) _ w1).
      destruct (run_rop fuel (WWrite bs) w1) as [[[] w2]| |] eqn:E2; [|done|done].
      assert (Hw2 : rw_headers_written w2 = true).
      { rewrite run_rop_written in E2 by done. unfold response_writer.on_writer, zoom in E2.
        by destruct (run_wop (WWrite bs) (rw_writer w1)) as [[[] s2]| |]; simplify_eq. }
      rewrite bind_unfold, run_rops_written by done. unfold response_writer.on_writer, zoom.
      destruct (run_wops ops (rw_writer w2)) as [[[] s3]| |]; [|done|done].
      unfold response_writer.try_write_headers. rewrite bind_gets. cbn [rw_headers_written response_writer.set_writer].
      by rewrite Hw2.
    + destruct Hr as (Hwf & Hb & Hcf & Hk).
      destruct (flush_spec G HG (rw_writer w) Hwf HGs Hcf) as (s2 & E2 & Hwf2 & Hb2 & (Hs2 & HG2 & Hcf2 & Hk2)).
      rewrite decide_True, app_nil_r in Hs2 by done.
      destruct (IH (response_writer.set_writer s2 w) Hw) as (s1 & ops' & E & Hp & Hops' & Hh); try done.
      { unfold ready. cbn [rw_writer response_writer.set_writer]. rewrite Hcf2, Hk2. by split_and?. }
      exists s1, ops'. split; [|split; [done|split; [done|]]].
      * rewrite bind_assoc, (bind_Done _ _ _ _ _ (on_writer_Done _ w _ _ E2)). exact E.
      * unfold head_written in *. cbn [rw_writer rw_headers rw_status response_writer.set_writer] in Hh. by rewrite Hs2 in Hh.
Qed.

(** A whole response. *)
Lemma respond_spec fuel ops w :
  rw_headers_written w = false → ready (rw_writer w) → G (rw_writer w) → sendable fuel (rw_status w) (rw_headers w) →
  Forall wop_fits ops → fits (payload ops) →
  ∃ w' body, (for_each ops (run_rop fuel);; response_writer.try_write_headers fuel;; response_writer.finish_response) w
      = Done (tt, w')
    ∧ rw_request w' = rw_request w ∧ ready (rw_writer w') ∧ G (rw_writer w')
    ∧ response_body (rw_headers w) (payload ops) body
    ∧ sent (wrapped (rw_writer w'))
      = sent (wrapped (rw_writer w)) ++ response_head (rw_status w) (rw_headers w) ++ body.
Proof.
  intros Hw Hr HGs Hs Hops Hfit.
  destruct (respond_run fuel ops w Hw Hr HGs Hs Hops) as (s1 & ops' & E1 & Hp & Hops' & Hh).
  destruct Hh as (Hwf1 & HG1 & Hcf1 & Hk1 & Hb1 & Ho1).
  destruct (run_finish_spec G HG ops' s1 Hwf1 HG1 Hcf1 Hops')
    as (s2 & out & E2 & Hwf2 & Hb2 & HE & (Hs2 & HG2 & Hcf2 & Hk2)).
  set (w1 := mkResponseWriter s1 true _ _ _) in *.
  exists (response_writer.set_writer (set_writing_chunked_body false s2) w1).
  assert (Erun : (for_each ops (run_rop fuel);; response_writer.try_write_headers fuel;; response_writer.finish_response) w
    = Done (tt, response_writer.set_writer (set_writing_chunked_body false s2) w1)).
  { rewrite <-bind_assoc, bind_unfold, E1. unfold response_writer.on_writer at 1, zoom. cbn [rw_writer w1].
    rewrite bind_unfold in E2. destruct (run_wops ops' s1) as [[[] s3]| |]; [|done|done].
    unfold response_writer.finish_response. by rewrite (bind_Done _ _ _ _ _ (on_writer_Done _ (response_writer.set_writer s3 w1) _ _ E2)). }
  rewrite Erun, Hk1 in *. unfold response_body. cbn [rw_writer response_writer.set_writer wrapped set_writing_chunked_body].
  case_bool_decide as Hcl.
  - eexists (out ++ last_chunk). rewrite (Hb1 eq_refl), app_nil_r in Ho1. rewrite (Hb1 eq_refl), Hp in HE. cbn [app] in HE.
    split_and?; try done; [by unfold ready; split_and?; try done; rewrite <-Hcf1|by apply HGc| |].
    + intros rest. rewrite <-app_assoc. unfold fits in Hfit. apply dechunk_emits; [done|lia|lia].
    + rewrite Hs2, Ho1. by rewrite <-!app_assoc.
  - apply emits_plain in HE as ->. exists (payload ops). rewrite app_nil_r in Hs2.
    split_and?; try done; [by unfold ready; split_and?; try done; rewrite <-Hcf1|by apply HGc|].
    rewrite Hs2, Hp, !app_assoc, Ho1. by rewrite <-!app_assoc.
Qed.
End Output.

(** ** The theorems *)
Lemma True_write_stable : write_stable (λ _ : BufferedStream TcpStream, True).
Proof. by split. Qed.

(** C5. A response on the wire: whatever its status and headers, and however
    the handler writes the body and flushes, once the response is finished the
    connection has sent the status line, each header, an empty line and the
    body: as it was written if a Content-Length was set, and otherwise, with
    the header for it, as a complete chunked body that decodes to it.  Nothing
    stays in the buffer and the stream is out of chunked mode, ready for the
    next response. *)
Theorem response_output `{UrlOps} `{TimeOps} (w : ResponseWriter) fuel ops :
  rw_headers_written w = false → ready (rw_writer w) → sendable fuel (rw_status w) (rw_headers w) →
  Forall wop_fits ops → fits (payload ops) →
  ∃ w' body, (for_each ops (run_rop fuel);; response_writer.try_write_headers fuel;; response_writer.finish_response) w
      = Done (tt, w')
    ∧ sent (wrapped (rw_writer w'))
      = sent (wrapped (rw_writer w)) ++ response_head (rw_status w) (rw_headers w) ++ body
    ∧ response_body (rw_headers w) (payload ops) body
    ∧ ready (rw_writer w').
Proof.
  intros Hw Hr Hs Hops Hfit.
  destruct (respond_spec _ True_write_stable (λ _ _ _, I) fuel ops w Hw Hr I Hs Hops Hfit)
    as (w' & body & E & _ & Hr' & _ & Hb & Hsent). by exists w', body.
Qed.

Definition example_response : ResponseWriter (H:=text_urls) (H0:=second_times) :=
  response_writer.new (new (mkTcp [] [] None) false)
    (mkRequest None (collection_new request_table) [] Get Star false (1, 1)).

Lemma new_ready t : ready (new (T:=TcpStream) t false).
Proof. split; [apply new_write_wf|]. by split_and?. Qed.

Lemma response_output_witness :
  let ops := [WFlush; WWrite (lit "Hello, "); WWrite (lit "World!")] in
  ∃ w' body, (for_each ops (run_rop 60);; response_writer.try_write_headers 60;; response_writer.finish_response) example_response
      = Done (tt, w')
    ∧ sent (wrapped (rw_writer w'))
      = sent (wrapped (rw_writer example_response)) ++ response_head (rw_status example_response) (rw_headers example_response) ++ body
    ∧ response_body (rw_headers example_response) (lit "Hello, World!") body
    ∧ ready (rw_writer w').
Proof.
  intros ops. apply (response_output (H:=text_urls) (H0:=second_times) example_response 60 ops);
    [reflexivity|apply new_ready| |repeat constructor|reflexivity].
  split; [reflexivity|]. split; [|split; [vm_compute; lia|vm_compute; reflexivity]].
  assert (headers_of (coded_headers (rw_headers example_response)) = [Known 5 (VTransferCodings [Chunked])]) as -> by reflexivity.
  apply Forall_cons. split; [|by apply Forall_nil]. split; [by eexists|].
  unfold writable_value, value_ok. cbn [wire_ok comma_list_wire]. split; [discriminate|]. by repeat constructor.
Defined.

(** [write_content_auto] and the end of the response: the connection has
    sent the head, with the Content-Type given and the length in bytes of the
    content as Content-Length, and the bytes of the content as they are; and
    writing the headers a second time fails the task. *)
Theorem write_content_auto_correct `{UrlOps} `{TimeOps} (w : ResponseWriter) fuel content_type content :
  let hs := collection_set response.content_length (Some (VUint (Z.of_nat (length (as_bytes content)))))
              (collection_set response.content_type (Some (VMediaType content_type)) (rw_headers w)) in
  rw_headers_written w = false → ready (rw_writer w) → length (fields (rw_headers w)) = length response_table →
  sendable fuel (rw_status w) hs → fits (as_bytes content) →
  ∃ w1 w', response_writer.write_content_auto fuel content_type content w = Done (tt, w1)
    ∧ response_writer.finish_response w1 = Done (tt, w')
    ∧ sent (wrapped (rw_writer w'))
      = sent (wrapped (rw_writer w)) ++ response_head (rw_status w) hs ++ as_bytes content
    ∧ ready (rw_writer w')
    ∧ response_writer.write_headers fuel w1
      = Fail "ResponseWriter.write_headers() called, but headers already written".
Proof.
  intros hs Hw Hr Hlen Hs Hfit. set (w0 := response_writer.set_headers hs w).
  destruct (write_headers_spec _ True_write_stable (λ _ _ _, I) fuel w0 Hw Hr I Hs) as (s1 & E1 & Hh).
  set (w1 := mkResponseWriter s1 true _ _ _) in E1.
  assert (Hcl : bool_decide (collection_get response.content_length hs = None) = false).
  { apply bool_decide_eq_false. unfold collection_get, hs, collection_set. cbn [fields].
    rewrite list_lookup_insert_eq; [done|]. rewrite length_insert, Hlen. vm_compute. lia. }
  destruct Hh as (Hwf1 & _ & Hcf1 & Hk1 & _ & Ho1). cbn [rw_headers rw_status rw_writer w0 response_writer.set_headers] in *.
  rewrite Hcl in Hk1.
  destruct (run_finish_spec _ True_write_stable [WWrite (as_bytes content)] s1 Hwf1 I Hcf1) as (s3 & out & E3 & Hwf3 & Hb3 & HE & (Hs3 & _ & Hcf3 & Hk3));
    [by repeat constructor|].
  rewrite Hk1 in HE, Hs3. apply emits_plain in HE as ->. rewrite app_nil_r in Hs3.
  rewrite bind_unfold in E3. cbn [run_wops for_each run_wop] in E3. rewrite bind_unfold in E3.
  destruct (Buffer.write (as_bytes content) s1) as [[[] s2]| |] eqn:E2; [|done|done].
  exists (response_writer.set_writer s2 w1), (response_writer.set_writer (set_writing_chunked_body false s3) w1).
  split_and?.
  - unfold response_writer.write_content_auto. unfold response_writer.set_header. rewrite bind_modify, bind_modify.
    etransitivity; [apply (bind_Done _ _ _ _ _ E1)|]. unfold response_writer.write. rewrite bind_gets.
    cbn [rw_headers_written w1]. rewrite bind_ret. exact (on_writer_Done _ w1 _ _ E2).
  - unfold response_writer.finish_response.
    by rewrite (bind_Done _ _ _ _ _ (on_writer_Done _ (response_writer.set_writer s2 w1) _ _ E3)).
  - cbn [rw_writer response_writer.set_writer wrapped set_writing_chunked_body]. rewrite Hs3.
    unfold payload. cbn [mbind list_bind]. rewrite app_nil_r, !app_assoc, Ho1. done.
  - unfold ready. cbn [rw_writer response_writer.set_writer]. split_and?; try done. by rewrite <-Hcf1.
  - done.
Qed.

Lemma write_content_auto_correct_witness :
  let w := example_response in
  let ct := mkMediaType (lit "text") (lit "plain") [] in
  let hs := collection_set response.content_length (Some (VUint 2))
              (collection_set response.content_type (Some (VMediaType ct)) (rw_headers w)) in
  ∃ w1 w', response_writer.write_content_auto 60 ct (lit "Hi") w = Done (tt, w1)
    ∧ response_writer.finish_response w1 = Done (tt, w')
    ∧ sent (wrapped (rw_writer w')) = sent (wrapped (rw_writer w)) ++ response_head (rw_status w) hs ++ lit "Hi"
    ∧ ready (rw_writer w')
    ∧ response_writer.write_headers 60 w1
      = Fail "ResponseWriter.write_headers() called, but headers already written".
Proof.
  intros w ct hs.
  apply (write_content_auto_correct (H:=text_urls) (H0:=second_times) w 60 ct (lit "Hi"));
    [reflexivity|apply new_ready|reflexivity| |reflexivity].
  change (sendable 60 (rw_status w) hs).
  split; [reflexivity|]. split; [|split; [vm_compute; lia|vm_compute; reflexivity]].
  assert (headers_of (coded_headers hs) = [Known 22 (VUint 2); Known 26 (VMediaType ct)]) as -> by reflexivity.
  apply Forall_cons. split; [|apply Forall_cons; split; [|by apply Forall_nil]]; (split; [by eexists|]);
    unfold writable_value, value_ok; cbn [wire_ok uint_wire MediaType_wire]; [lia|].
  split; [|split]; [split; [discriminate|repeat constructor]..|exact I].
Defined.
