(* ===== verification/Server.v ===== *)
(** * The server: a connection from the first request to the last
    (src/libhttp/server/mod.rs)

    The task of a connection runs [Request::load], the handler and
    [ResponseWriter] in turn until a request asks for the connection to be
    closed.  The main theorem is about the whole: the requests that arrive are
    answered in order, each with its own response.  The statistics of the
    requests are summed up by a task of their own, [perf_dumper]. *)

From S2P Require Import Prelude Strs Rfc2616 Method Io Buffer Common Chunked SerializationUtils HeaderIter HeaderValues Headers Status Branchify ServerRequest ServerResponse.

(** ** The trait and the configuration *)
Record Config : Type := mkConfig { bind_address : SocketAddr }.

Class Server (T : Type) `{UrlOps} `{TimeOps} := {
  handle_request : T → Request → M ResponseWriter unit;
  get_config : T → Config
}.

(** What is sent to the statistics task for each request. *)
Record Perf : Type := mkPerf {
  perf_start : u64;
  perf_spawned : u64;
  perf_request_made : u64;
  perf_response_made : u64;
  perf_finished : u64
}.

(** The state of a connection's task: the stream, the number of times the
    clock was read and what was sent on the channel. *)
Record Conn : Type := mkConn {
  conn_stream : BufferedStream TcpStream;
  conn_ticks : nat;
  conn_perf : list Perf
}.

Section Connection.
Context `{UrlOps} `{TimeOps} {T : Type} `{!Server T}.
(** [precise_time_ns()], at its n-th call. *)
Context (precise_time_ns : nat → u64) (fuel : nat).

Definition set_conn_stream (s : BufferedStream TcpStream) (c : Conn) := mkConn s (conn_ticks c) (conn_perf c).
Definition now : M Conn u64 :=
  n ← gets conn_ticks;
  modify (λ c, mkConn (conn_stream c) (n + 1) (conn_perf c));;
  mret (precise_time_ns n).
Definition perf_send (p : Perf) : M Conn unit :=
  modify (λ c, mkConn (conn_stream c) (conn_ticks c) (conn_perf c ++ [p])).

(** A response borrows the stream while [m] runs on it. *)
Definition with_response (request : Request) (m : M ResponseWriter unit) : M Conn unit :=
  zoom (λ c, response_writer.new (conn_stream c) request) (λ w, set_conn_stream (rw_writer w)) m.

(** Answering a request: the handler, or an empty response with the error. *)
Definition answer_request (self : T) (request : Request) (err_status : Result unit Status) :
    M ResponseWriter unit :=
  match err_status with
  | Ok _ =>
      handle_request self request;;
      response_writer.try_write_headers fuel
  | Err status =>
      modify (response_writer.set_status status);;
      response_writer.set_header response.content_length (Some (VUint 0));;
      response_writer.write_headers fuel
  end.

(** One round of the keep-alive loop; the local variable is [time_start]. *)
Definition connection_body (self : T) (time_start : u64) : M Conn (u64 + unit) :=
  time_spawned ← now;
  r ← zoom conn_stream set_conn_stream (load fuel);
  let '(request, err_status) := (r : Request * Result unit Status) in
  time_request_made ← now;
  time_response_made ← now;
  with_response request (answer_request self request err_status;; response_writer.finish_response);;
  time_finished ← now;
  perf_send (mkPerf time_start time_spawned time_request_made time_response_made time_finished);;
  if (close_connection request : bool) then break tt else continue time_finished.

(** The task of a connection, from the time it was accepted. *)
Definition serve_connection (self : T) (time_start : u64) : M Conn unit :=
  loop fuel (connection_body self) time_start.

(** The stream that was accepted is given a buffer; its own flush is not called. *)
Definition accepted (stream : TcpStream) : Conn := mkConn (new stream false) 0 [].
End Connection.
Arguments answer_request {_ _ _ _} fuel self request err_status.
Arguments connection_body {_ _ _ _} precise_time_ns fuel self time_start.
Arguments serve_connection {_ _ _ _} precise_time_ns fuel self time_start.

(** ** The statistics *)
Definition PERF_DUMP_FREQUENCY : u64 := 10000.

(** The total durations and the number of requests. *)
Record Totals : Type := mkTotals {
  td_spawn : u64;
  td_request : u64;
  td_response : u64;
  td_handle : u64;
  td_total : u64;
  td_count : u64
}.
Definition totals_zero : Totals := mkTotals 0 0 0 0 0 0.

(** One round of the loop of [perf_dumper]: [u64] arithmetic wraps around. *)
Definition perf_step (t : Totals) (data : Perf) : Totals :=
  mkTotals
    (wrap64 (td_spawn t + wrap64 (perf_spawned data - perf_start data)))
    (wrap64 (td_request t + wrap64 (perf_request_made data - perf_spawned data)))
    (wrap64 (td_response t + wrap64 (perf_response_made data - perf_request_made data)))
    (wrap64 (td_handle t + wrap64 (perf_finished data - perf_response_made data)))
    (wrap64 (td_total t + wrap64 (perf_finished data - perf_start data)))
    (wrap64 (td_count t + 1)).

(** The totals after the data received, and those that are printed. *)
Fixpoint perf_dumper (t : Totals) (received : list Perf) : Totals * list Totals :=
  match received with
  | [] => (t, [])
  | data :: received' =>
      let t := perf_step t data in
      let '(t', dumps) := perf_dumper t received' in
      (t', if td_count t mod PERF_DUMP_FREQUENCY =? 0 then t :: dumps else dumps)
  end.

(** ** The two directions of a connection *)

(** What reading leaves alone: the writing side. *)
Definition write_frame (x : list u8) (p : option SocketAddr) (s : BufferedStream TcpStream) : Prop :=
  ready s ∧ sent (wrapped s) = x ∧ peer_name (wrapped s) = p.
(** What writing leaves alone: the reading side. *)
Definition read_frame (l : list u8) (p : option SocketAddr) (s : BufferedStream TcpStream) : Prop :=
  stream_wf s ∧ bs_pending s = l ∧ peer_name (wrapped s) = p.

Lemma tcp_read_peer n (t : TcpStream) o t' : reader_read n t = Done (o, t') → peer_name t' = peer_name t.
Proof. cbn. destruct (tcp_in t); by intros [= _ <-]. Qed.

Lemma tcp_write_peer bs (t t' : TcpStream) : writer_write bs t = Done (tt, t') → peer_name t' = peer_name t.
Proof. by intros [= <-]. Qed.

Lemma write_frame_stable x p : read_stable (write_frame x p).
Proof.
  split; [done|]. intros n s o t (Hr & Hx & Hp) E. split; [done|]. cbn [wrapped set_wrapped].
  by rewrite (duplex_read n (wrapped s) o t E), (tcp_read_peer n _ o t E).
Qed.

Lemma read_frame_stable l p : write_stable (read_frame l p).
Proof.
  split; [done|]. intros bs s t ([Hw Hi] & Hl & Hp) E. destruct (duplex_write bs (wrapped s) t E) as [Hpend Hinv].
  split; [split; [done|by apply Hinv]|]. cbn [wrapped set_wrapped]. split; [|by rewrite (tcp_write_peer _ _ _ E)].
  rewrite <-Hl. unfold bs_pending. cbn [wrapped set_wrapped]. by rewrite Hpend.
Qed.

Lemma read_frame_chunked l p b s : read_frame l p s → read_frame l p (set_writing_chunked_body b s).
Proof. done. Qed.

(** A connection between two requests. *)
Definition idle (p : option SocketAddr) (s : BufferedStream TcpStream) : Prop :=
  stream_wf s ∧ ready s ∧ peer_name (wrapped s) = p.

Lemma idle_inv p s : idle p s → bs_inv (write_frame (sent (wrapped s)) p) s.
Proof. intros ([Hw Hi] & Hr & Hp). by split_and?. Qed.

Lemma inv_idle x p s : bs_inv (write_frame x p) s → idle p s ∧ sent (wrapped s) = x.
Proof. by intros (Hw & Hi & Hr & Hx & Hp). Qed.

(** ** One request *)
Section Exchange.
Context `{UrlOps} `{TimeOps} {T : Type} `{!Server T} (precise_time_ns : nat → u64) (fuel : nat) (self : T).

(** The bytes of a valid request, and what follows. *)
Definition message (p : option SocketAddr) (l : list u8) (request : Request) (rest : list u8) : Prop :=
  ∃ m ru v hs, request_line l (m, ru, v) (header_lines request_table hs ++ [CR; LF] ++ rest)
    ∧ (v = (1, 0) ∨ v = (1, 1)) ∧ Forall (header_ok request_table) hs
    ∧ load_answer p m ru v hs = (request, Ok tt).

Lemma message_load p s request rest :
  idle p s → message p (bs_pending s) request rest → (length (bs_pending s) + 6 < fuel)%nat →
  ∃ s', load fuel s = Done (request, Ok tt, s') ∧ idle p s' ∧ bs_pending s' = rest
    ∧ sent (wrapped s') = sent (wrapped s).
Proof.
  intros Hs (m & ru & v & hs & Hline & Hv & Hhs & Ha) Hf.
  destruct (load_spec _ (write_frame_stable (sent (wrapped s)) p) s fuel m ru v hs rest (idle_inv p s Hs) Hline Hv Hhs Hf)
    as (s' & E & Hi & Hp). destruct Hs as (_ & _ & Hpeer). rewrite Hpeer, Ha in E.
  exists s'. by destruct (inv_idle _ _ _ Hi).
Qed.

(** What a handler does with a request: it sets the status and the headers
    and uses the response as a writer.  What it assigns to them after the head
    of the response is written is without effect. *)
Definition Plan : Type := Status * HeaderCollection * list wop.
Definition planned (request : Request) (hs : HeaderCollection) (st : Status) (w0 w : ResponseWriter) : Prop :=
  ∃ s, w0 = response_writer.new s request ∧ w = mkResponseWriter s false request hs st.
Definition late (w' w : ResponseWriter) : Prop :=
  w' = w ∨ rw_headers_written w = true
    ∧ ∃ hs st, w' = response_writer.set_status st (response_writer.set_headers hs w).
Definition handles (request : Request) (plan : Plan) : Prop :=
  let '(st, hs, ops) := plan in
  msim (planned request hs st) late (handle_request self request) (for_each ops (run_rop fuel))
  ∧ sendable fuel st hs ∧ Forall wop_fits ops ∧ fits (payload ops).

(** A handler that does just that. *)
Lemma handles_exactly request hs st ops :
  (∀ s, handle_request self request (response_writer.new s request)
        = for_each ops (run_rop fuel) (mkResponseWriter s false request hs st)) →
  msim (planned request hs st) late (handle_request self request) (for_each ops (run_rop fuel)).
Proof.
  intros Hh w0 w (s & -> & ->). rewrite Hh. destruct (for_each _ _ _) as [[[] w1]| |]; [|done|done].
  split; [done|by left].
Qed.

(** The bytes of the response that answers it. *)
Definition answers (plan : Plan) (out : list u8) : Prop :=
  let '(st, hs, ops) := plan in
  ∃ bs, response_body hs (payload ops) bs ∧ out = response_head st hs ++ bs.

(** The end of a response after such late assignments. *)
Lemma late_finish w' w w2 :
  late w' w → (response_writer.try_write_headers fuel;; response_writer.finish_response) w = Done (tt, w2) →
  ∃ w2', (response_writer.try_write_headers fuel;; response_writer.finish_response) w' = Done (tt, w2')
    ∧ rw_writer w2' = rw_writer w2.
Proof.
  intros [->|[Hw (hs & st & ->)]] E; [by exists w2|]. revert E.
  unfold response_writer.try_write_headers. rewrite !bind_assoc, !bind_gets.
  cbn [rw_headers_written response_writer.set_status response_writer.set_headers]. rewrite Hw.
  rewrite !bind_ret. unfold response_writer.finish_response, response_writer.on_writer. rewrite !bind_unfold.
  unfold zoom. cbn [rw_writer response_writer.set_status response_writer.set_headers].
  destruct (Buffer.finish_response (rw_writer w)) as [[[] s1]| |]; [|done|done]. cbn.
  intros [= <-]. by eexists.
Qed.

(** Running a response on an idle stream. *)
Lemma with_response_spec c p request plan :
  idle p (conn_stream c) → handles request plan →
  ∃ s' out, with_response request (answer_request fuel self request (Ok tt);; response_writer.finish_response) c
      = Done (tt, set_conn_stream s' c)
    ∧ idle p s' ∧ bs_pending s' = bs_pending (conn_stream c)
    ∧ answers plan out ∧ sent (wrapped s') = sent (wrapped (conn_stream c)) ++ out.
Proof.
  destruct plan as [[st hs] ops]. intros (Hwf & Hr & Hp) (Hh & Hs & Hops & Hfit).
  set (w := mkResponseWriter (conn_stream c) false request hs st).
  destruct (respond_spec _ (read_frame_stable (bs_pending (conn_stream c)) p) (read_frame_chunked _ _) fuel ops w
    eq_refl Hr) as (w' & bs & E & _ & Hr' & (Hwf' & Hl' & Hp') & Hb & Hsent); try done.
  exists (rw_writer w'), (response_head st hs ++ bs). split_and?; try done; [|by exists bs].
  unfold with_response, zoom, answer_request. rewrite bind_assoc, bind_unfold. rewrite bind_unfold in E.
  specialize (Hh (response_writer.new (conn_stream c) request) w (ex_intro _ (conn_stream c) (conj eq_refl eq_refl))).
  destruct (for_each ops (run_rop fuel) w) as [[[] w1]| |]; [|done|done].
  destruct (handle_request self request _) as [[[] w1']| |]; [|done|done]. destruct Hh as [_ Hl].
  destruct (late_finish w1' w1 w' Hl E) as (w2 & E2 & <-). cbn beta. by rewrite E2.
Qed.

Lemma now_Done c :
  now precise_time_ns c
  = Done (precise_time_ns (conn_ticks c), mkConn (conn_stream c) (conn_ticks c + 1) (conn_perf c)).
Proof. done. Qed.

(** A round of the loop in which the response is sent. *)
Lemma connection_round c t0 request err s1 s2 :
  load fuel (conn_stream c) = Done (request, err, s1) →
  with_response request (answer_request fuel self request err;; response_writer.finish_response)
    (mkConn s1 (conn_ticks c + 1 + 1 + 1) (conn_perf c))
  = Done (tt, mkConn s2 (conn_ticks c + 1 + 1 + 1) (conn_perf c)) →
  ∃ t1 c', connection_body precise_time_ns fuel self t0 c
      = Done (if close_connection request then inr tt else inl t1, c')
    ∧ conn_stream c' = s2 ∧ length (conn_perf c') = S (length (conn_perf c)).
Proof.
  intros E1 E2. unfold connection_body. rewrite (bind_Done _ _ _ _ _ (now_Done _)).
  rewrite bind_unfold. unfold zoom at 1. cbn [conn_stream]. rewrite E1. cbn beta iota.
  do 2 rewrite (bind_Done _ _ _ _ _ (now_Done _)).
  cbn [conn_ticks conn_stream conn_perf set_conn_stream]. rewrite (bind_Done _ _ _ _ _ E2).
  rewrite (bind_Done _ _ _ _ _ (now_Done _)). unfold perf_send. rewrite bind_modify.
  assert (Hl : ∀ q, length (conn_perf c ++ [q]) = S (length (conn_perf c)))
    by (intros q; rewrite length_app; simpl; lia).
  destruct (close_connection request); [exists 0|eexists]; eexists; (split; [done|]); (split; [done|]); apply Hl.
Qed.

Lemma message_length p l request rest : message p l request rest → (length rest < length l)%nat.
Proof.
  intros (m & ru & v & hs & Hline%request_line_length & _). rewrite !length_app in Hline. lia.
Qed.

(** A round of the loop on a valid request. *)
Lemma connection_message c p t0 request rest plan :
  idle p (conn_stream c) → message p (bs_pending (conn_stream c)) request rest →
  (length (bs_pending (conn_stream c)) + 6 < fuel)%nat → handles request plan →
  ∃ t1 c' out, connection_body precise_time_ns fuel self t0 c
      = Done (if close_connection request then inr tt else inl t1, c')
    ∧ idle p (conn_stream c') ∧ bs_pending (conn_stream c') = rest ∧ answers plan out
    ∧ sent (wrapped (conn_stream c')) = sent (wrapped (conn_stream c)) ++ out
    ∧ length (conn_perf c') = S (length (conn_perf c)).
Proof.
  intros Hi Hm Hf Hh. destruct (message_load p (conn_stream c) request rest Hi Hm Hf) as (s1 & E1 & Hi1 & Hp1 & Hs1).
  destruct (with_response_spec (mkConn s1 (conn_ticks c + 1 + 1 + 1) (conn_perf c)) p request plan Hi1 Hh)
    as (s2 & out & E2 & Hi2 & Hp2 & Ha & Hs2).
  destruct (connection_round c t0 request (Ok tt) s1 s2 E1 E2) as (t1 & c' & E & Hc & Hl).
  exists t1, c', out. rewrite Hc. cbn [conn_stream] in *. split_and?; try done; congruence.
Qed.

(** The requests of a connection: all but the last keep it open. *)
Inductive Requests (p : option SocketAddr) : list u8 → list Request → list u8 → Prop :=
  | requests_last l request rest :
      message p l request rest → close_connection request = true → Requests p l [request] rest
  | requests_more l request rest requests rest' :
      message p l request rest → close_connection request = false → Requests p rest requests rest' →
      Requests p l (request :: requests) rest'.

Lemma connection_loop_spec plan p l requests rest :
  Requests p l requests rest → (length l + 6 < fuel)%nat →
  ∀ c n t0, idle p (conn_stream c) → bs_pending (conn_stream c) = l → (length l ≤ n)%nat →
  (∀ request, request ∈ requests → handles request (plan request)) →
  ∃ c' outs, loop n (connection_body precise_time_ns fuel self) t0 c = Done (tt, c')
    ∧ Forall2 (λ request out, answers (plan request) out) requests outs
    ∧ sent (wrapped (conn_stream c')) = sent (wrapped (conn_stream c)) ++ concat outs
    ∧ bs_pending (conn_stream c') = rest ∧ length (conn_perf c') = (length (conn_perf c) + length requests)%nat.
Proof.
  induction 1 as [l request rest Hm Hcl|l request rest requests rest' Hm Hcl Hr IH];
    intros Hf c n t0 Hi Hp Hn Hh; pose proof (message_length _ _ _ _ Hm) as Hlt;
    (destruct n as [|n]; [lia|]); subst l;
    destruct (connection_message c p t0 request rest (plan request) Hi Hm Hf (Hh request (list_elem_of_here _ _)))
      as (t1 & c1 & out & E & Hi1 & Hp1 & Ha & Hs1 & Hl1); rewrite Hcl in E.
  - exists c1, [out]. split; [by eapply loop_break|]. split; [by repeat constructor|].
    rewrite Hs1, Hl1. simpl. rewrite app_nil_r. split_and?; [done|done|lia].
  - destruct (IH ltac:(lia) c1 n t1 Hi1 Hp1) as (c' & outs & E' & Hf2 & Hs & Hrest & Hl); [lia| |].
    { intros q Hq. apply Hh. by apply list_elem_of_further. }
    exists c', (out :: outs). rewrite (loop_continue _ _ _ _ _ _ E). split; [done|]. split; [by constructor|].
    rewrite Hs, Hs1, Hl, Hl1. simpl. rewrite app_assoc. split_and?; [done|done|lia].
Qed.
End Exchange.

(** C2. The task of a connection: when the bytes that arrive, however
    fragmented, are valid requests of which only the last closes the
    connection, and the handler, given a request, sets a status and headers
    and writes a body, the task ends; it has sent the responses to the
    requests, one for each, in their order, each complete before the next; it
    has read exactly the requests and reported each to the statistics. *)
Theorem serve_connection_correct `{UrlOps} `{TimeOps} {T} `{!Server T} (self : T) (clock : nat → u64) fuel
    (plan : Request → Plan) c t0 p requests rest :
  idle p (conn_stream c) → Requests p (bs_pending (conn_stream c)) requests rest →
  (∀ request, request ∈ requests → handles fuel self request (plan request)) →
  (length (bs_pending (conn_stream c)) + 6 < fuel)%nat →
  ∃ c' outs, serve_connection clock fuel self t0 c = Done (tt, c')
    ∧ Forall2 (λ request out, answers (plan request) out) requests outs
    ∧ sent (wrapped (conn_stream c')) = sent (wrapped (conn_stream c)) ++ concat outs
    ∧ bs_pending (conn_stream c') = rest
    ∧ length (conn_perf c') = (length (conn_perf c) + length requests)%nat.
Proof.
  intros Hi Hr Hh Hf.
  apply (connection_loop_spec clock fuel self plan p _ requests rest Hr Hf c fuel t0 Hi eq_refl); [lia|done].
Qed.


(** A server that greets, and a client that asks twice. *)
Definition greeter : Server unit (H:=text_urls) (H0:=second_times) := {|
  handle_request _ _ := for_each [WWrite (lit "Hi")] (run_rop 200);
  get_config _ := mkConfig (mkSocketAddr (Ipv4Addr 127 0 0 1) 8001)
|}.
Definition greeting : Plan (H:=text_urls) (H0:=second_times) :=
  (status_Ok, collection_new response_table, [WWrite (lit "Hi")]).

Lemma greeter_handles request : handles (Server0:=greeter) 200 tt request greeting.
Proof.
  split; [apply handles_exactly; done|]. split; [|split; [by repeat constructor|reflexivity]].
  split; [reflexivity|]. split; [|split; [vm_compute; lia|vm_compute; reflexivity]].
  assert (headers_of (H:=text_urls) (H0:=second_times) (coded_headers (collection_new response_table))
    = [Known 5 (VTransferCodings [Chunked])]) as -> by reflexivity.
  apply Forall_cons. split; [|by apply Forall_nil]. split; [by eexists|].
  unfold writable_value, value_ok. cbn [wire_ok comma_list_wire]. split; [discriminate|]. by repeat constructor.
Qed.

Definition close_header : Header (H:=text_urls) (H0:=second_times) :=
  Known Headers.request.connection (VConnections [Close]).
Definition asked (hs : list Header) : Request (H:=text_urls) (H0:=second_times) :=
  (load_answer None Get (AbsolutePath (lit "/a")) (1, 1) hs).1.

Lemma example_host_ok : header_ok request_table (example_host (H:=text_urls) (H0:=second_times)).
Proof.
  split; [by eexists|]. cbn [value_ok wire_ok Host_wire host_name host_port example_host]. split; [|by split].
  split; [|done]. repeat (apply Forall_cons; split; [vm_compute; repeat split; discriminate|]). by apply Forall_nil.
Qed.

Lemma close_header_ok : header_ok request_table close_header.
Proof.
  split; [by eexists|]. cbn [value_ok wire_ok close_header comma_list_wire]. split; [discriminate|].
  by repeat constructor.
Qed.

Definition two_requests : BufferedStream TcpStream :=
  tcp_stream [lit "GET /a HTTP/1.1" ++ [CR; LF] ++ lit "Host: x.org" ++ [CR; LF; CR; LF] ++ lit "GET /a HT";
              lit "TP/1.1" ++ [CR; LF] ++ lit "Host: x.org" ++ [CR; LF] ++ lit "Connection: close" ++ [CR; LF; CR; LF]].

Lemma two_requests_bytes :
  bs_pending two_requests
  = lit "GET" ++ SP :: lit "/a" ++ SP :: lit "HTTP/1.1" ++ CR :: LF
      :: header_lines (H:=text_urls) (H0:=second_times) request_table [example_host] ++ [CR; LF]
      ++ lit "GET" ++ SP :: lit "/a" ++ SP :: lit "HTTP/1.1" ++ CR :: LF
      :: header_lines (H:=text_urls) (H0:=second_times) request_table [example_host; close_header] ++ [CR; LF] ++ [].
Proof. vm_compute. reflexivity. Qed.

Lemma two_requests_valid :
  Requests None (bs_pending two_requests) [asked [example_host]; asked [example_host; close_header]] [].
Proof.
  rewrite two_requests_bytes. eapply requests_more; [|reflexivity|eapply requests_last; [|reflexivity]].
  - exists Get, (AbsolutePath (lit "/a")), (1, 1), [example_host].
    split; [apply (example_request_line (H:=text_urls))|]. split; [by right|]. split; [|reflexivity].
    apply Forall_cons. split; [apply example_host_ok|by apply Forall_nil].
  - exists Get, (AbsolutePath (lit "/a")), (1, 1), [example_host; close_header].
    split; [apply (example_request_line (H:=text_urls))|]. split; [by right|]. split; [|reflexivity].
    apply Forall_cons. split; [apply example_host_ok|]. apply Forall_cons. split; [apply close_header_ok|by apply Forall_nil].
Qed.

Lemma serve_connection_correct_witness :
  let c := mkConn two_requests 0 [] in
  let requests := [asked [example_host]; asked [example_host; close_header]] in
  ∃ c' outs, serve_connection (Server0:=greeter) Z.of_nat 200 tt 0 c = Done (tt, c')
    ∧ Forall2 (λ request out, answers greeting out) requests outs
    ∧ sent (wrapped (conn_stream c')) = sent (wrapped (conn_stream c)) ++ concat outs
    ∧ bs_pending (conn_stream c') = []
    ∧ length (conn_perf c') = 2%nat.
Proof.
  intros c requests.
  apply (serve_connection_correct (Server0:=greeter) tt Z.of_nat 200 (λ _, greeting) c 0 None requests []).
  - split; [apply tcp_stream_wf; repeat constructor; discriminate|]. split; [apply new_ready|reflexivity].
  - exact two_requests_valid.
  - intros request _. apply greeter_handles.
  - change (bs_pending (conn_stream c)) with (bs_pending two_requests). rewrite two_requests_bytes. vm_compute. lia.
Defined.

(** ** Requests the server cannot cope with *)
Section Errors.
Context `{UrlOps} `{TimeOps} {T : Type} `{!Server T}.

(** The headers of an error response: an empty body. *)
Definition error_headers : HeaderCollection :=
  collection_set response.content_length (Some (VUint 0)) (collection_new response_table).

Lemma error_sendable fuel st :
  (40 ≤ fuel)%nat → st = BadRequest ∨ st = RequestUriTooLong ∨ st = HttpVersionNotSupported →
  sendable fuel st error_headers.
Proof.
  intros Hf Hst. split; [reflexivity|]. split; [|split].
  - assert (headers_of (coded_headers error_headers) = [Known response.content_length (VUint 0)]) as -> by reflexivity.
    apply Forall_cons. split; [|by apply Forall_nil]. split; [by eexists|].
    unfold writable_value, value_ok. cbn [wire_ok uint_wire]. lia.
  - change (length (extensions error_headers)) with 0%nat.
    assert (length response_table = 29%nat) as -> by reflexivity. lia.
  - destruct Hst as [->|[->| ->]]; vm_compute; reflexivity.
Qed.

(** The answer to such a request, on an idle stream. *)
Lemma answer_error fuel (self : T) c p request st :
  idle p (conn_stream c) → sendable fuel st error_headers →
  ∃ s', with_response request (answer_request fuel self request (Err st);; response_writer.finish_response) c
      = Done (tt, set_conn_stream s' c)
    ∧ idle p s' ∧ bs_pending s' = bs_pending (conn_stream c)
    ∧ sent (wrapped s') = sent (wrapped (conn_stream c)) ++ response_head st error_headers.
Proof.
  intros (Hwf & Hr & Hp) Hs. set (w := mkResponseWriter (conn_stream c) false request error_headers st).
  destruct (respond_spec _ (read_frame_stable (bs_pending (conn_stream c)) p) (read_frame_chunked _ _) fuel [] w
    eq_refl Hr) as (w' & bs & E & _ & Hr' & (Hwf' & Hl' & Hp') & Hb & Hsent); try done.
  assert (bs = []) as -> by exact Hb. rewrite app_nil_r in Hsent.
  exists (rw_writer w'). split_and?; try done. unfold with_response, zoom.
  assert (Ew : (answer_request fuel self request (Err st);; response_writer.finish_response)
      (response_writer.new (conn_stream c) request) = Done (tt, w')); [|by rewrite Ew].
  rewrite <-E. cbn [for_each]. rewrite bind_ret. unfold answer_request, response_writer.try_write_headers.
  rewrite !bind_assoc, bind_modify, bind_assoc. unfold response_writer.set_header. rewrite bind_modify, bind_gets. done.
Qed.

Lemma serve_error (self : T) clock fuel c t0 p request st s1 :
  idle p (conn_stream c) → load fuel (conn_stream c) = Done (request, Err st, s1) → (40 ≤ fuel)%nat →
  ∃ c', serve_connection clock fuel self t0 c = Done (tt, c') ∧ idle p (conn_stream c')
    ∧ sent (wrapped (conn_stream c')) = sent (wrapped (conn_stream c)) ++ response_head st error_headers.
Proof.
  intros Hi E1 Hf.
  pose proof (load_keeps _ (write_frame_stable (sent (wrapped (conn_stream c))) p) fuel _ _ _ (idle_inv p _ Hi) E1) as Hk.
  apply inv_idle in Hk as [Hi1 Hs1]. destruct (load_any fuel _ _ _ E1) as (_ & Hcl & Hst).
  destruct (answer_error fuel self (mkConn s1 (conn_ticks c + 1 + 1 + 1) (conn_perf c)) p request st Hi1) as (s2 & E2 & Hi2 & _ & Hs2);
    [by apply error_sendable|].
  destruct (connection_round clock fuel self c t0 request (Err st) s1 s2 E1 E2) as (t1 & c' & E & Hc & _).
  rewrite Hcl in E. exists c'. rewrite Hc. cbn [conn_stream] in Hs2. split_and?; [|done|congruence].
  destruct fuel as [|fuel]; [lia|]. unfold serve_connection. by eapply loop_break.
Qed.
End Errors.

(** C20. A request that cannot be read: whenever [load] reports an error, the
    task answers with that status, a Content-Length of 0 and no body, and ends
    the connection, without calling the handler. *)
Theorem bad_request_answered `{UrlOps} `{TimeOps} {T} `{!Server T} (self : T) clock fuel c t0 p request st s1 :
  idle p (conn_stream c) → load fuel (conn_stream c) = Done (request, Err st, s1) → (40 ≤ fuel)%nat →
  ∃ c', serve_connection clock fuel self t0 c = Done (tt, c') ∧ idle p (conn_stream c')
    ∧ sent (wrapped (conn_stream c'))
      = sent (wrapped (conn_stream c)) ++ as_bytes (lit "HTTP/1.1 " ++ Status.to_str st) ++ [CR; LF]
          ++ lit "Content-Length: 0" ++ [CR; LF] ++ [CR; LF].
Proof.
  intros Hi E Hf. destruct (serve_error self clock fuel c t0 p request st s1 Hi E Hf) as (c' & Ec & Hc & Hs).
  exists c'. split_and?; try done. rewrite Hs. unfold response_head, response_writer.status_line.
  assert ((headers_of (coded_headers error_headers) ≫= wire_line response_table)
    = lit "Content-Length: 0" ++ [CR; LF]) as -> by (vm_compute; reflexivity).
  rewrite (app_assoc (lit "HTTP/1.1 ")), (as_bytes_app _ [CR; LF]), <-!app_assoc. done.
Qed.

Lemma bad_request_answered_witness :
  let c := mkConn (tcp_stream [lit "NONSENSE" ++ [CR; LF]]) 0 [] in
  ∃ c', serve_connection (Server0:=greeter) Z.of_nat 100 tt 0 c = Done (tt, c') ∧ idle None (conn_stream c')
    ∧ sent (wrapped (conn_stream c'))
      = [] ++ as_bytes (lit "HTTP/1.1 " ++ Status.to_str BadRequest) ++ [CR; LF]
          ++ lit "Content-Length: 0" ++ [CR; LF] ++ [CR; LF].
Proof.
  intros c.
  assert (Hr : match load (H:=text_urls) (H0:=second_times) 100 (conn_stream c) with
               | Done (r, st, _) => st = Err BadRequest
               | _ => False
               end) by (vm_compute; reflexivity).
  destruct (load (H:=text_urls) (H0:=second_times) 100 (conn_stream c)) as [[[request status] s1]|e|] eqn:E;
    [|destruct Hr|destruct Hr].
  subst status.
  apply (bad_request_answered (Server0:=greeter) tt Z.of_nat 100 c 0 None request BadRequest s1);
    [|exact E|lia].
  split; [apply tcp_stream_wf; repeat constructor; discriminate|]. split; [apply new_ready|reflexivity].
Defined.

(** ** The statistics do not depend on the order of arrival *)

(** The sum of a duration over the requests. *)
Definition total (d : Perf → Z) (ps : list Perf) : Z := foldr (λ p a, d p + a) 0 ps.

Lemma wrap64_step a x y : wrap64 (wrap64 (a + wrap64 x) + y) = wrap64 (a + (x + y)).
Proof. unfold wrap64. Z.to_euclidean_division_equations. lia. Qed.

(** The totals after some data, from totals in range. *)
Definition totals_after (t : Totals) (ps : list Perf) : Totals :=
  mkTotals
    (wrap64 (td_spawn t + total (λ p, perf_spawned p - perf_start p) ps))
    (wrap64 (td_request t + total (λ p, perf_request_made p - perf_spawned p) ps))
    (wrap64 (td_response t + total (λ p, perf_response_made p - perf_request_made p) ps))
    (wrap64 (td_handle t + total (λ p, perf_finished p - perf_response_made p) ps))
    (wrap64 (td_total t + total (λ p, perf_finished p - perf_start p) ps))
    (wrap64 (td_count t + Z.of_nat (length ps))).

Definition totals_wrapped (t : Totals) : Prop := totals_after t [] = t.

Lemma wrap64_idemp z : wrap64 (wrap64 z + 0) = wrap64 z.
Proof. unfold wrap64. by rewrite Z.add_0_r, Z.mod_mod. Qed.

Lemma perf_step_wrapped t p : totals_wrapped (perf_step t p).
Proof. unfold totals_wrapped, totals_after, perf_step. cbn. by rewrite !wrap64_idemp. Qed.

Lemma perf_dumper_totals ps : ∀ t, totals_wrapped t → (perf_dumper t ps).1 = totals_after t ps.
Proof.
  induction ps as [|p ps IH]; intros t Ht; [by rewrite Ht|]. cbn [perf_dumper].
  specialize (IH (perf_step t p) (perf_step_wrapped t p)).
  destruct (perf_dumper (perf_step t p) ps) as [t' ds]. cbn [fst] in *. rewrite IH.
  unfold totals_after, perf_step. cbn [td_spawn td_request td_response td_handle td_total td_count total foldr length].
  rewrite !wrap64_step. f_equal. unfold wrap64. rewrite Nat2Z.inj_succ. Z.to_euclidean_division_equations. lia.
Qed.

Lemma total_permutation d ps ps' : ps ≡ₚ ps' → total d ps = total d ps'.
Proof. induction 1; simpl; lia. Qed.

(** The number of dumps. *)
Lemma perf_dumper_dumps ps : ∀ t,
  0 ≤ td_count t → td_count t + Z.of_nat (length ps) < 2 ^ 64 →
  Z.of_nat (length (perf_dumper t ps).2)
  = (td_count t + Z.of_nat (length ps)) / PERF_DUMP_FREQUENCY - td_count t / PERF_DUMP_FREQUENCY.
Proof.
  induction ps as [|p ps IH]; intros t Ht Hlen; [simpl; rewrite Z.add_0_r; lia|]. cbn [perf_dumper].
  rewrite length_cons, Nat2Z.inj_succ in *. specialize (IH (perf_step t p)).
  assert (Hc : td_count (perf_step t p) = td_count t + 1) by (cbn; apply wrap64_small; lia).
  rewrite Hc in *. destruct (perf_dumper (perf_step t p) ps) as [t' ds]. cbn [snd] in *.
  specialize (IH ltac:(lia) ltac:(lia)).
  replace (td_count t + Z.succ (Z.of_nat (length ps))) with (td_count t + 1 + Z.of_nat (length ps)) by lia.
  unfold PERF_DUMP_FREQUENCY in *.
  destruct (Z.eqb_spec ((td_count t + 1) mod 10000) 0); simpl length; Z.to_euclidean_division_equations; lia.
Qed.

(** The statistics task: the connections send their data on one channel
    in any interleaving, and the totals it keeps depend only on what was sent,
    not on its order: each is the sum of a duration modulo 2^64, the four
    parts of a request add up to its total, and there is one dump for each
    10000 requests. *)
Theorem perf_totals ps ps' :
  ps ≡ₚ ps' → Z.of_nat (length ps) < 2 ^ 64 →
  let t := (perf_dumper totals_zero ps).1 in
  (perf_dumper totals_zero ps').1 = t
  ∧ td_total t = wrap64 (total (λ p, perf_finished p - perf_start p) ps)
  ∧ td_total t = wrap64 (td_spawn t + td_request t + td_response t + td_handle t)
  ∧ td_count t = Z.of_nat (length ps)
  ∧ Z.of_nat (length (perf_dumper totals_zero ps).2) = Z.of_nat (length ps) / PERF_DUMP_FREQUENCY.
Proof.
  intros Hperm Hlen t.
  assert (Et : t = totals_after totals_zero ps) by (by apply perf_dumper_totals).
  split_and?.
  - rewrite Et, perf_dumper_totals by done. unfold totals_after.
    by rewrite !(total_permutation _ ps ps' Hperm), (Permutation_length Hperm).
  - by rewrite Et.
  - rewrite Et. cbn. clear. assert (Hsum : total (λ p, perf_finished p - perf_start p) ps
      = total (λ p, perf_spawned p - perf_start p) ps + total (λ p, perf_request_made p - perf_spawned p) ps
        + total (λ p, perf_response_made p - perf_request_made p) ps + total (λ p, perf_finished p - perf_response_made p) ps).
    { induction ps as [|p ps IH]; simpl; lia. }
    rewrite Hsum. unfold wrap64. Z.to_euclidean_division_equations. lia.
  - rewrite Et. cbn. apply wrap64_small. lia.
  - rewrite perf_dumper_dumps by (cbn; lia). change (td_count totals_zero) with 0. rewrite Z.add_0_l, Z.div_0_l by done. lia.
Qed.

Lemma perf_totals_witness :
  let ps := [mkPerf 0 1 3 4 9; mkPerf 2 2 5 6 7] in
  let ps' := [mkPerf 2 2 5 6 7; mkPerf 0 1 3 4 9] in
  let t := (perf_dumper totals_zero ps).1 in
  (perf_dumper totals_zero ps').1 = t
  ∧ td_total t = wrap64 (total (λ p, perf_finished p - perf_start p) ps)
  ∧ td_total t = wrap64 (td_spawn t + td_request t + td_response t + td_handle t)
  ∧ td_count t = Z.of_nat (length ps)
  ∧ Z.of_nat (length (perf_dumper totals_zero ps).2) = Z.of_nat (length ps) / PERF_DUMP_FREQUENCY.
Proof. apply perf_totals; [apply Permutation_swap|reflexivity]. Defined.
