(* ===== verification/ServeForever.v ===== *)
(** * The accept loop and its tasks (src/libhttp/server/mod.rs, [serve_forever])

    [serve_forever] accepts connections and spawns a task for each; the tasks
    share nothing but the channel on which they report to the statistics task.
    The system of these tasks is a state machine whose actions are the rounds
    of the accept loop, of the connections' loops and of the statistics loop,
    in any interleaving.  The theorems are about every reachable state: each
    connection behaves as if it were alone, whatever happens to the others,
    and the statistics account for every request exactly once. *)

From stdpp Require Import relations.
From S2P Require Import Prelude Strs Rfc2616 Method Io Buffer Common Chunked SerializationUtils HeaderIter HeaderValues Headers Status Branchify ServerRequest ServerResponse Server.

(** ** The state *)

(** A connection's task: in its loop, ended, or failed; the connection's state
    is the one before the round that failed. *)
Inductive Task : Type :=
  | Running (time_start : u64) (c : Conn)
  | Ended (c : Conn)
  | Failed (e : string) (c : Conn).
Definition task_conn (t : Task) : Conn :=
  match t with Running _ c | Ended c | Failed _ c => c end.

(** The system: what [accept] will return, the tasks in the order in which
    they were spawned, the channel, and the state of [perf_dumper]. *)
Record Sys : Type := mkSys {
  accepts : list (option TcpStream);
  tasks : list Task;
  channel : list Perf;
  totals : Totals;
  dumps : list Totals
}.

Inductive action : Type := Accept | Round (i : nat) | Recv.

Section System.
Context `{UrlOps} `{TimeOps} {T : Type} `{!Server T} (self : T) (fuel : nat).
(** The clock as the accept loop reads it for each connection, and as each
    connection's task reads it. *)
Context (accept_time : nat → u64) (clock : nat → nat → u64).

(** [TcpListener::bind(..).listen()]: without a listener there is nothing to do. *)
Definition serve_forever (listening : option (list (option TcpStream))) : option Sys :=
  match listening with
  | None => None
  | Some incoming => Some (mkSys incoming [] [] totals_zero [])
  end.

(** A round of the accept loop: a failed [accept] is skipped. *)
Definition accept_round (s : Sys) : option Sys :=
  match accepts s with
  | [] => None
  | None :: rest => Some (mkSys rest (tasks s) (channel s) (totals s) (dumps s))
  | Some stream :: rest =>
      let time_start := accept_time (length (tasks s)) in
      Some (mkSys rest (tasks s ++ [Running time_start (accepted stream)]) (channel s) (totals s) (dumps s))
  end.

(** A round of the loop of connection [i]; what it reports goes to the
    channel.  A round that does not return takes no step. *)
Definition task_round (i : nat) (s : Sys) : option Sys :=
  match tasks s !! i with
  | Some (Running time_start c) =>
      match connection_body (clock i) fuel self time_start c with
      | Done (inl time_start', c') =>
          Some (mkSys (accepts s) (<[i := Running time_start' c']> (tasks s))
                  (channel s ++ drop (length (conn_perf c)) (conn_perf c')) (totals s) (dumps s))
      | Done (inr _, c') =>
          Some (mkSys (accepts s) (<[i := Ended c']> (tasks s))
                  (channel s ++ drop (length (conn_perf c)) (conn_perf c')) (totals s) (dumps s))
      | Fail e => Some (mkSys (accepts s) (<[i := Failed e c]> (tasks s)) (channel s) (totals s) (dumps s))
      | Diverge => None
      end
  | _ => None
  end.

(** A round of [perf_dumper]. *)
Definition recv_round (s : Sys) : option Sys :=
  match channel s with
  | [] => None
  | data :: rest =>
      let t := perf_step (totals s) data in
      Some (mkSys (accepts s) (tasks s) rest t
              (dumps s ++ if td_count t mod PERF_DUMP_FREQUENCY =? 0 then [t] else []))
  end.

Definition act (a : action) : Sys → option Sys :=
  match a with Accept => accept_round | Round i => task_round i | Recv => recv_round end.

(** The transitions, with their actions. *)
Definition step (s s' : Sys) : Prop := ∃ a, act a s = Some s'.
Fixpoint run (acts : list action) (s : Sys) : option Sys :=
  match acts with [] => Some s | a :: acts' => act a s ≫= run acts' end.
Definition reachable (incoming : list (option TcpStream)) (s : Sys) : Prop :=
  ∃ s0, serve_forever (Some incoming) = Some s0 ∧ rtc step s0 s.

Lemma run_steps acts : ∀ s s', run acts s = Some s' → rtc step s s'.
Proof.
  induction acts as [|a acts IH]; intros s s'; cbn [run]; [intros [= ->]; reflexivity|].
  destruct (act a s) as [s1|] eqn:E; [|done]. intros Hr. eapply rtc_l; [by exists a|]. by apply IH.
Qed.

(** ** Each connection is on its own *)

(** The loop of connection [i], alone. *)
Definition alone (i n : nat) (stream : TcpStream) : res (unit * Conn) :=
  loop n (connection_body (clock i) fuel self) (accept_time i) (accepted stream).

(** Where a task is in its own loop. *)
Definition task_at (i : nat) (stream : TcpStream) (t : Task) : Prop :=
  match t with
  | Running t1 c1 => ∃ k, ∀ m, alone i (k + m) stream = loop m (connection_body (clock i) fuel self) t1 c1
  | Ended c => ∃ n, alone i n stream = Done (tt, c)
  | Failed e _ => ∃ n, alone i n stream = Fail e
  end.

(** The connections accepted so far. *)
Definition streams (l : list (option TcpStream)) : list TcpStream := omap id l.

Definition isolated (incoming : list (option TcpStream)) (s : Sys) : Prop :=
  ∃ taken, incoming = taken ++ accepts s ∧ length (streams taken) = length (tasks s)
    ∧ ∀ i stream t, streams taken !! i = Some stream → tasks s !! i = Some t → task_at i stream t.

Lemma task_round_at i stream t1 c1 :
  task_at i stream (Running t1 c1) →
  match connection_body (clock i) fuel self t1 c1 with
  | Done (inl t2, c2) => task_at i stream (Running t2 c2)
  | Done (inr _, c2) => task_at i stream (Ended c2)
  | Fail e => task_at i stream (Failed e c1)
  | Diverge => True
  end.
Proof.
  intros [k Hk]. destruct (connection_body (clock i) fuel self t1 c1) as [[[t2|[]] c2]|e|] eqn:E; [| | |done].
  - exists (k + 1)%nat. intros m. rewrite <-Nat.add_assoc, Hk. by apply loop_continue.
  - exists (k + 1)%nat. rewrite Hk. by apply loop_break.
  - exists (k + 1)%nat. rewrite Hk. by apply loop_fail.
Qed.

Lemma isolated_insert incoming s i t t' ch tot ds :
  isolated incoming s → tasks s !! i = Some t →
  (∀ stream, task_at i stream t → task_at i stream t') →
  isolated incoming (mkSys (accepts s) (<[i := t']> (tasks s)) ch tot ds).
Proof.
  intros (taken & Hin & Hlen & Hat) Hi Ht. exists taken. cbn [accepts tasks]. rewrite length_insert. split_and?; try done.
  intros j stream t2 Hj Ht2. destruct (decide (i = j)) as [->|Hij].
  - rewrite list_lookup_insert_eq in Ht2 by (by eapply lookup_lt_Some). injection Ht2 as <-. by apply Ht, Hat.
  - rewrite list_lookup_insert_ne in Ht2 by done. by apply Hat.
Qed.

Lemma streams_snoc taken o : streams (taken ++ [o]) = streams taken ++ match o with Some x => [x] | None => [] end.
Proof. unfold streams. rewrite omap_app. by destruct o. Qed.

Lemma isolated_step incoming s s' : isolated incoming s → step s s' → isolated incoming s'.
Proof.
  intros Hs [[|i|] E]; cbn [act] in E.
  - unfold accept_round in E. destruct Hs as (taken & Hin & Hlen & Hat).
    destruct (accepts s) as [|[stream|] rest] eqn:Ea; [done| |]; injection E as <-.
    + exists (taken ++ [Some stream]). cbn [accepts tasks]. rewrite streams_snoc, !length_app, <-app_assoc. cbn [app length].
      split; [done|]. split; [lia|]. intros i st t Hst Ht.
      apply lookup_app_Some in Hst as [Hst|[Hge Hst]], Ht as [Ht|[Hge' Ht]].
      * by apply Hat.
      * apply lookup_lt_Some in Hst. lia.
      * apply lookup_lt_Some in Ht. lia.
      * apply list_lookup_singleton_Some in Hst as [Hi <-], Ht as [_ <-]. exists 0%nat. intros m.
        assert (i = length (tasks s)) as -> by lia. done.
    + exists (taken ++ [None]). cbn [accepts tasks]. rewrite streams_snoc, app_nil_r, <-app_assoc. done.
  - unfold task_round in E. destruct (tasks s !! i) as [[t1 c1|c|e c]|] eqn:Ei; try done.
    pose proof (λ stream, task_round_at i stream t1 c1) as Hr.
    destruct (connection_body (clock i) fuel self t1 c1) as [[[t2|[]] c2]|e|]; try done; injection E as <-;
      by eapply isolated_insert.
  - unfold recv_round in E. destruct (channel s); [done|]. by injection E as <-.
Qed.

Lemma isolated_reachable incoming s : reachable incoming s → isolated incoming s.
Proof.
  intros (s0 & [= <-] & Hs). revert Hs. apply (rtc_ind_r (λ s, isolated incoming s)).
  - exists []. by split_and?.
  - intros s1 s2 _ Hstep Hi. by eapply isolated_step.
Qed.

(** ** The statistics *)

(** A round reports one request. *)
Lemma connection_body_perf (ck : nat → u64) t0 c r c' :
  connection_body ck fuel self t0 c = Done (r, c') → ∃ p, conn_perf c' = conn_perf c ++ [p].
Proof.
  unfold connection_body. rewrite (bind_Done _ _ _ _ _ (now_Done _ _)), bind_unfold. unfold zoom at 1.
  cbn [conn_stream]. destruct (load fuel (conn_stream c)) as [[[request err] s1]| |]; [|done|done].
  rewrite !(bind_Done _ _ _ _ _ (now_Done _ _)), bind_unfold. unfold with_response, zoom.
  match goal with |- context [match ?m ?w with _ => _ end] => destruct (m w) as [[[] w']| |] end; [|done|done].
  rewrite (bind_Done _ _ _ _ _ (now_Done _ _)). unfold perf_send. rewrite bind_modify.
  destruct (close_connection request); intros [= <- <-]; by eexists.
Qed.

(** What all the tasks have reported. *)
Definition reported (s : Sys) : list Perf := tasks s ≫= λ t, conn_perf (task_conn t).

Lemma perf_dumper_snoc ps p : ∀ t,
  perf_dumper t (ps ++ [p])
  = let '(t', ds) := perf_dumper t ps in
    let t2 := perf_step t' p in (t2, ds ++ if td_count t2 mod PERF_DUMP_FREQUENCY =? 0 then [t2] else []).
Proof.
  induction ps as [|q ps IH]; intros t; cbn [app perf_dumper].
  { by destruct (td_count (perf_step t p) mod PERF_DUMP_FREQUENCY =? 0). }
  rewrite IH. destruct (perf_dumper (perf_step t q) ps) as [t' ds].
  by destruct (td_count (perf_step t q) mod PERF_DUMP_FREQUENCY =? 0).
Qed.

(** Nothing reported is lost or counted twice. *)
Definition accounted (s : Sys) : Prop :=
  ∃ received, perf_dumper totals_zero received = (totals s, dumps s) ∧ received ++ channel s ≡ₚ reported s.

Lemma reported_insert (ts : list Task) i t t' ps :
  ts !! i = Some t → conn_perf (task_conn t') = conn_perf (task_conn t) ++ ps →
  (<[i := t']> ts ≫= λ t, conn_perf (task_conn t)) ≡ₚ (ts ≫= λ t, conn_perf (task_conn t)) ++ ps.
Proof.
  intros Hi Ht. rewrite <-(take_drop_middle ts i t Hi). rewrite insert_app_r_alt; rewrite length_take.
  2: { apply lookup_lt_Some in Hi. lia. }
  apply lookup_lt_Some in Hi. rewrite Nat.min_l, Nat.sub_diag by lia. cbn [insert list_insert].
  rewrite !bind_app, !bind_cons, Ht. rewrite <-!app_assoc. do 2 f_equiv. apply Permutation_app_comm.
Qed.

Lemma accounted_step s s' : accounted s → step s s' → accounted s'.
Proof.
  intros (received & Hd & Hp) [[|i|] E]; cbn [act] in E.
  - exists received. unfold accept_round in E. destruct (accepts s) as [|[stream|] rest]; [done| |]; injection E as <-; [|done].
    split; [done|]. unfold reported. cbn [tasks channel]. rewrite bind_app. cbn. by rewrite app_nil_r.
  - unfold task_round in E. destruct (tasks s !! i) as [[t1 c1|c|e c]|] eqn:Ei; try done.
    destruct (connection_body (clock i) fuel self t1 c1) as [[r c2]|e|] eqn:Eb; [| |done].
    + destruct (connection_body_perf _ _ _ _ _ Eb) as [p Hperf].
      assert (Hdrop : drop (length (conn_perf c1)) (conn_perf c2) = [p]) by (by rewrite Hperf, drop_app_length).
      destruct r as [t2|[]]; injection E as <-; exists received; (split; [done|]); unfold reported; cbn [tasks channel];
        rewrite Hdrop, (reported_insert _ i (Running t1 c1) _ [p]) by done; by rewrite app_assoc, Hp.
    + injection E as <-. exists received. split; [done|]. unfold reported. cbn [tasks channel].
      rewrite (reported_insert _ i (Running t1 c1) _ []) by (done || by rewrite app_nil_r). by rewrite app_nil_r.
  - unfold recv_round in E. destruct (channel s) as [|p rest] eqn:Ec; [done|]. injection E as <-.
    exists (received ++ [p]). rewrite perf_dumper_snoc, Hd. cbn [totals dumps channel]. split; [done|].
    by rewrite <-app_assoc.
Qed.

Lemma accounted_reachable incoming s : reachable incoming s → accounted s.
Proof.
  intros (s0 & [= <-] & Hs). revert Hs. apply (rtc_ind_r accounted).
  - by exists [].
  - intros s1 s2 _ Hstep Ha. by eapply accounted_step.
Qed.

(** ** States at rest *)

(** Nothing more will happen: no connection is waiting, no report, and no
    task can take a step. *)
Definition at_rest (s : Sys) : Prop := ∀ a, act a s = None.

Lemma at_rest_accepts s : at_rest s → accepts s = [].
Proof. intros Hr. specialize (Hr Accept). cbn in Hr. unfold accept_round in Hr. by destruct (accepts s) as [|[|]]. Qed.

Lemma at_rest_channel s : at_rest s → channel s = [].
Proof. intros Hr. specialize (Hr Recv). cbn in Hr. unfold recv_round in Hr. by destruct (channel s). Qed.

Lemma alone_mono i n m stream : (n ≤ m)%nat → alone i n stream ≠ Diverge → alone i m stream = alone i n stream.
Proof.
  intros Hm Hn. destruct (mle_loop n m (connection_body (clock i) fuel self) _ Hm (λ a, mle_refl _)
    (accept_time i) (accepted stream)) as [Hd|He]; [done|exact (eq_sym He)].
Qed.

(** A loop that ends has one result. *)
Lemma alone_Done i n stream c :
  alone i n stream = Done (tt, c) →
  (∀ m, (n ≤ m)%nat → alone i m stream = Done (tt, c))
  ∧ (∀ m, alone i m stream ≠ Diverge → alone i m stream = Done (tt, c)).
Proof.
  intros Hn. assert (Hmono : ∀ m, (n ≤ m)%nat → alone i m stream = Done (tt, c)).
  { intros m Hm. rewrite (alone_mono i n m stream Hm); [done|by rewrite Hn]. }
  split; [done|]. intros m Hm. rewrite <-(alone_mono i m (n + m) stream) by (done || lia). apply Hmono. lia.
Qed.

(** A task that ends alone has ended. *)
Lemma at_rest_ended incoming s i stream n c :
  isolated incoming s → at_rest s → streams incoming !! i = Some stream → alone i n stream = Done (tt, c) →
  tasks s !! i = Some (Ended c).
Proof.
  intros (taken & Hin & Hlen & Hat) Hrest Hi Hn. rewrite (at_rest_accepts s Hrest), app_nil_r in Hin. subst taken.
  apply lookup_lt_Some in Hi as Hlt. rewrite Hlen in Hlt. apply lookup_lt_is_Some in Hlt as [t Ht].
  specialize (Hat i stream t Hi Ht). rewrite Ht.
  destruct (alone_Done i n stream c Hn) as [Hmono Huniq].
  destruct t as [t1 c1|c1|e c1]; cbn [task_at] in Hat.
  - destruct Hat as [k Hk]. specialize (Hrest (Round i)). cbn in Hrest. unfold task_round in Hrest. rewrite Ht in Hrest.
    specialize (Hk (S n)). rewrite Hmono in Hk by lia. rewrite loop_S, bind_unfold in Hk.
    by destruct (connection_body (clock i) fuel self t1 c1) as [[[t2|[]] c2]|e|].
  - destruct Hat as [m Hm]. specialize (Huniq m). rewrite Hm in Huniq. by injection (Huniq ltac:(done)) as <-.
  - destruct Hat as [m Hm]. specialize (Huniq m). rewrite Hm in Huniq. by specialize (Huniq ltac:(done)).
Qed.

(** ** Bringing a connection to its end *)
Lemma run_app acts1 acts2 s : run (acts1 ++ acts2) s = run acts1 s ≫= run acts2.
Proof.
  revert s. induction acts1 as [|a acts1 IH]; intros s; [done|]. cbn [app run].
  destruct (act a s) as [s1|]; [|done]. apply IH.
Qed.

(** The connections that wait can be accepted. *)
Lemma run_accepts s : ∃ acts s', run acts s = Some s' ∧ accepts s' = [].
Proof.
  remember (accepts s) as l eqn:El. revert s El. induction l as [|o l IH]; intros s El; [by exists [], s|].
  assert (∃ s1, act Accept s = Some s1 ∧ accepts s1 = l) as (s1 & E1 & El1).
  { cbn. unfold accept_round. rewrite <-El. by destruct o; eexists. }
  destruct (IH s1 (eq_sym El1)) as (acts & s' & E & Hs'). exists (Accept :: acts), s'. cbn [run]. by rewrite E1.
Qed.

(** A connection in its loop can be run to its end. *)
Lemma run_rounds i c m : ∀ s t1 c1,
  tasks s !! i = Some (Running t1 c1) → loop m (connection_body (clock i) fuel self) t1 c1 = Done (tt, c) →
  ∃ j s', run (replicate j (Round i)) s = Some s' ∧ tasks s' !! i = Some (Ended c).
Proof.
  induction m as [|m IH]; intros s t1 c1 Hi Hl; [done|]. apply lookup_lt_Some in Hi as Hlt.
  rewrite loop_S, bind_unfold in Hl.
  destruct (connection_body (clock i) fuel self t1 c1) as [[[t2|[]] c2]|e|] eqn:E; [| |done|done].
  - set (s1 := mkSys (accepts s) (<[i := Running t2 c2]> (tasks s))
      (channel s ++ drop (length (conn_perf c1)) (conn_perf c2)) (totals s) (dumps s)).
    destruct (IH s1 t2 c2) as (j & s' & Er & Hs'); [|done|].
    { cbn [tasks s1]. by rewrite list_lookup_insert_eq. }
    exists (S j), s'. split; [|done]. cbn [replicate run act]. unfold task_round. by rewrite Hi, E.
  - injection Hl as <-. eexists 1%nat, _. cbn [replicate run act]. unfold task_round. rewrite Hi, E.
    split; [done|]. cbn [tasks]. by rewrite list_lookup_insert_eq.
Qed.

Lemma run_to_end incoming s i stream n c :
  reachable incoming s → streams incoming !! i = Some stream → alone i n stream = Done (tt, c) →
  ∃ acts s', run acts s = Some s' ∧ tasks s' !! i = Some (Ended c).
Proof.
  intros Hr Hi Hn. destruct (run_accepts s) as (acts & s1 & E1 & Ha).
  assert (Hr1 : reachable incoming s1).
  { destruct Hr as (s0 & E0 & Hs). exists s0. split; [done|]. etrans; [exact Hs|]. by apply (run_steps acts). }
  destruct (isolated_reachable _ _ Hr1) as (taken & Hin & Hlen & Hat). rewrite Ha, app_nil_r in Hin. subst taken.
  apply lookup_lt_Some in Hi as Hlt. rewrite Hlen in Hlt. apply lookup_lt_is_Some in Hlt as [t Ht].
  specialize (Hat i stream t Hi Ht).
  destruct (alone_Done i n stream c Hn) as [Hmono Huniq].
  destruct t as [t1 c1|c1|e c1]; cbn [task_at] in Hat.
  - destruct Hat as [k Hk]. destruct (run_rounds i c n s1 t1 c1 Ht) as (j & s' & Er & Hs').
    + rewrite <-Hk. apply Hmono. lia.
    + exists (acts ++ replicate j (Round i)), s'. by rewrite run_app, E1.
  - destruct Hat as [m Hm]. specialize (Huniq m). rewrite Hm in Huniq. injection (Huniq ltac:(done)) as <-. by exists acts, s1.
  - destruct Hat as [m Hm]. specialize (Huniq m). rewrite Hm in Huniq. by specialize (Huniq ltac:(done)).
Qed.
End System.

(** ** The theorems *)
Arguments reachable {_ _ _ _} self fuel accept_time clock incoming s.
Arguments at_rest {_ _ _ _} self fuel accept_time clock s.
Arguments run {_ _ _ _} self fuel accept_time clock acts s.


(** C3. Every connection is served: a connection that brings valid requests, of
    which only the last closes it, is answered in full, whatever the other
    connections send and whatever becomes of their tasks: from every state the
    server can reach there is a way to run it to the end of that connection's
    task, and in every state in which nothing more can happen its task has
    ended; it has then sent the responses to its requests in their order. *)
Theorem connections_served `{UrlOps} `{TimeOps} {T} `{!Server T} (self : T) fuel accept_time clock incoming s
    (plan : Request → Plan) i segs p requests rest :
  reachable self fuel accept_time clock incoming s →
  streams incoming !! i = Some (mkTcp segs [] p) → Forall (λ seg, seg ≠ []) segs →
  Requests p (concat segs) requests rest → (length (concat segs) + 6 < fuel)%nat →
  (∀ request, request ∈ requests → handles fuel self request (plan request)) →
  ∃ c outs, Forall2 (λ request out, answers (plan request) out) requests outs
    ∧ sent (wrapped (conn_stream c)) = concat outs
    ∧ (∃ acts s', run self fuel accept_time clock acts s = Some s' ∧ tasks s' !! i = Some (Ended c))
    ∧ (at_rest self fuel accept_time clock s → tasks s !! i = Some (Ended c)).
Proof.
  intros Hr Hi Hsegs Hreq Hf Hh.
  destruct (connection_loop_spec (clock i) fuel self plan p (concat segs) requests rest Hreq Hf
    (accepted (mkTcp segs [] p)) fuel (accept_time i)) as (c & outs & E & Hfa & Hsent & _); [| |lia|done|].
  - split; [split; [apply new_read_wf|done]|]. split; [apply new_ready|done].
  - unfold accepted, bs_pending. cbn [conn_stream]. by rewrite window_empty.
  - exists c, outs. split; [done|]. split; [done|]. split.
    + by eapply run_to_end.
    + intros Hrest. eapply at_rest_ended; [by apply isolated_reachable|done|done|exact E].
Qed.


(** ** An example: a client that sends nonsense, a failed accept, and a client
    that asks twice *)
Definition example_incoming : list (option TcpStream) :=
  [Some (mkTcp [lit "NONSENSE" ++ [CR; LF]] [] None); None; Some (wrapped two_requests)].
Definition example_start : Sys := mkSys example_incoming [] [] totals_zero [].
Definition example_acts : list action := [Accept; Accept; Accept; Round 1; Round 0; Recv].
Definition example_run (acts : list action) : option Sys :=
  run (Server0:=greeter) tt 200 Z.of_nat (λ _, Z.of_nat) acts example_start.
Definition example_sys : Sys := default example_start (example_run example_acts).

Lemma example_reachable : reachable (Server0:=greeter) tt 200 Z.of_nat (λ _, Z.of_nat) example_incoming example_sys.
Proof.
  exists example_start. split; [reflexivity|]. apply (run_steps _ _ _ _ example_acts).
  assert (Hr : match example_run example_acts with Some _ => True | None => False end) by (vm_compute; exact I).
  unfold example_sys. unfold example_run in *. destruct (run tt 200 Z.of_nat (λ _, Z.of_nat) example_acts example_start); [reflexivity|destruct Hr].
Qed.


Lemma connections_served_witness :
  ∃ c outs, Forall2 (λ request out, answers greeting out) [asked [example_host]; asked [example_host; close_header]] outs
    ∧ sent (wrapped (conn_stream c)) = concat outs
    ∧ (∃ acts s', run (Server0:=greeter) tt 200 Z.of_nat (λ _, Z.of_nat) acts example_sys = Some s' ∧ tasks s' !! 1%nat = Some (Ended c))
    ∧ (at_rest (Server0:=greeter) tt 200 Z.of_nat (λ _, Z.of_nat) example_sys → tasks example_sys !! 1%nat = Some (Ended c)).
Proof.
  apply (connections_served (Server0:=greeter) tt 200 Z.of_nat (λ _, Z.of_nat) example_incoming example_sys (λ _, greeting) 1
    (tcp_in (wrapped two_requests)) None [asked [example_host]; asked [example_host; close_header]] []).
  - exact example_reachable.
  - reflexivity.
  - repeat constructor; discriminate.
  - exact two_requests_valid.
  - change (concat (tcp_in (wrapped two_requests))) with (bs_pending two_requests). rewrite two_requests_bytes. vm_compute. lia.
  - intros request _. apply greeter_handles.
Defined.

