(* ===== verification/Client.v ===== *)
(** * The client (src/libhttp/client/request.rs, src/libhttp/client/response.rs)

    [RequestWriter] connects to the host of a URL, sends the request line, the
    headers and a body; [read_response] hands its stream to
    [ResponseReader::construct], which reads the status line and the headers
    of the response and leaves the body to be read.  Name resolution, TCP
    connections and the fields of a URL belong to the standard library and are
    parameters.  The theorems say what a request puts on the wire, what
    response is read back, and how the errors are reported. *)

From S2P Require Import Prelude Strs Rfc2616 Method Io Buffer Common Chunked SerializationUtils HeaderIter HeaderValues Headers Status Branchify ServerRequest ServerResponse Server.

(** ** What the client uses of the standard library *)

(** The fields of an [extra::url::Url]. *)
Class UrlParts `{UrlOps} := {
  url_host : Url → str;
  url_port : Url → option str
}.

(** [get_host_addresses] and [TcpStream::connect]; both raise a condition when
    they fail, which fails the task if it is not trapped. *)
Class NetOps := {
  get_host_addresses : str → res (option (list IpAddr));
  tcp_connect : SocketAddr → res (option TcpStream)
}.

(** Whether the caller has trapped [io_error::cond]. *)
Class IoErrors := { trapped : bool }.
(** [io_error::cond.raise(err)]: without a handler the task fails. *)
Definition raise `{IoErrors} {S} : M S unit :=
  if trapped then mret tt else fail "Unhandled condition: io_error".

(** [Writer for Option<W>]. *)
#[global] Instance option_writer `{IoErrors} {W} `{Writer W} : Writer (option W) := {
  writer_write bs := λ o,
    match o with
    | Some w => match writer_write bs w with
                | Done (_, w') => Done (tt, Some w')
                | Fail e => Fail e
                | Diverge => Diverge
                end
    | None => raise None
    end;
  writer_flush := λ o,
    match o with
    | Some w => match writer_flush w with
                | Done (_, w') => Done (tt, Some w')
                | Fail e => Fail e
                | Diverge => Diverge
                end
    | None => raise None
    end
}.

(** [Option::unwrap], [Option::expect]. *)
Definition unwrap {S A} (o : option A) : M S A :=
  match o with Some a => mret a | None => fail "called `Option::unwrap()` on a `None` value" end.
Definition expect {S A} (msg : string) (o : option A) : M S A :=
  match o with Some a => mret a | None => fail msg end.

(** ** The two structures *)
Record RequestWriter `{UrlOps} `{TimeOps} (S : Type) : Type := mkRequestWriter {
  rq_stream : option (BufferedStream S);
  rq_headers_written : bool;
  rq_remote_addr : option SocketAddr;
  rq_headers : HeaderCollection;
  rq_method : Method;
  rq_url : Url
}.
Arguments mkRequestWriter {_ _ S}.
Arguments rq_stream {_ _ S}.
Arguments rq_headers_written {_ _ S}.
Arguments rq_remote_addr {_ _ S}.
Arguments rq_headers {_ _ S}.
Arguments rq_method {_ _ S}.
Arguments rq_url {_ _ S}.

Record ResponseReader `{UrlOps} `{TimeOps} (S : Type) : Type := mkResponseReader {
  rr_stream : BufferedStream S;
  rr_request : RequestWriter S;
  rr_version : uint * uint;
  rr_status : Status;
  rr_headers : HeaderCollection
}.
Arguments mkResponseReader {_ _ S}.
Arguments rr_stream {_ _ S}.
Arguments rr_request {_ _ S}.
Arguments rr_version {_ _ S}.
Arguments rr_status {_ _ S}.
Arguments rr_headers {_ _ S}.

(** ** src/libhttp/client/response.rs *)
Module response_reader.
Section Operations.
Context `{UrlOps} `{TimeOps} `{IoErrors} {S : Type} `{Reader S} (fuel : nat).

(** [io_error::cond.raise(bad_response_err()); return Err(request);] *)
Definition bad_response {St A} : M St (option A) := raise;; mret None.

(** The digits of the status code; [digits] and [status_code] are local. *)
Definition read_status_code : M (BufferedStream S) (option u16) :=
  digit_loop Buffer.read_byte wrap16 4 SP fuel (0, 0).

Definition reason_body (reason : str) : M (BufferedStream S) (str + option str) :=
  ob ← Buffer.read_byte;
  match ob with
  | Some b =>
      if b =? CR then
        ob2 ← Buffer.read_byte;
        if bool_decide (ob2 = Some LF) then break (Some reason) else break None
      else continue (reason ++ [b])
  | None => break None
  end.
Definition read_reason : M (BufferedStream S) (option str) := loop fuel reason_body [].

Definition response_headers_body (headers : HeaderCollection) :
    M (RequestBuffer S) (HeaderCollection + option HeaderCollection) :=
  r ← request_buffer.read_header fuel response_table;
  match r with
  | Err EndOfFile => break None
  | Err EndOfHeaders => break (Some headers)
  | Err MalformedHeaderSyntax => break None
  | Err MalformedHeaderValue => continue headers
  | Ok header => continue (collection_insert header headers)
  end.
(** The buffer borrows the stream while the headers are read. *)
Definition read_response_headers : M (BufferedStream S) (option HeaderCollection) :=
  zoom request_buffer.new (λ b _, rb_stream b)
    (loop fuel response_headers_body (collection_new response_table)).

(** The parts of a response; every error raises the condition first. *)
Definition construct_body : M (BufferedStream S) (option ((uint * uint) * Status * HeaderCollection)) :=
  ov ← read_http_version fuel SP;
  match ov with
  | None => bad_response
  | Some http_version =>
      oc ← read_status_code;
      match oc with
      | None => bad_response
      | Some status_code =>
          or ← read_reason;
          match or with
          | None => bad_response
          | Some reason =>
              oh ← read_response_headers;
              match oh with
              | None => bad_response
              | Some headers =>
                  mret (Some (http_version, from_code_and_reason status_code reason, headers))
              end
          end
      end
  end.

Definition construct (stream : BufferedStream S) (request : RequestWriter S) :
    res (Result (ResponseReader S) (RequestWriter S)) :=
  match construct_body stream with
  | Done (Some (version, status, headers), stream') =>
      Done (Ok (mkResponseReader stream' request version status headers))
  | Done (None, _) => Done (Err request)
  | Fail e => Fail e
  | Diverge => Diverge
  end.

Definition set_stream (s : BufferedStream S) (r : ResponseReader S) :=
  mkResponseReader s (rr_request r) (rr_version r) (rr_status r) (rr_headers r).
(** [Reader for ResponseReader]. *)
#[global] Instance ResponseReader_reader : Reader (ResponseReader S) := {
  reader_read n := zoom rr_stream set_stream (Buffer.read n);
  reader_eof := zoom rr_stream set_stream Buffer.eof
}.
End Operations.
End response_reader.

(** The body of a response is read as the bytes of a source. *)
#[global] Program Instance ResponseReader_source `{UrlOps} `{TimeOps} {S} `{ByteSource S} :
    ByteSource (ResponseReader S) := {
  pending r := bs_pending (rr_stream r);
  source_inv r := stream_wf (rr_stream r);
  source_fresh r := can_poke (rr_stream r)
}.
Next Obligation.
  intros ? ? S ? ? n r Hi%stream_wf_inv Hn.
  destruct (read_spec _ True_read_stable n (rr_stream r) Hi Hn) as (o & s' & E & Hi' & Hf & Ho).
  exists o, (response_reader.set_stream s' r). split; [|by rewrite stream_wf_inv].
  cbn [reader_read response_reader.ResponseReader_reader]. unfold zoom. by rewrite E.
Qed.

(** ** src/libhttp/client/request.rs *)
Module request_writer.
Section Operations.
Context `{UrlOps} `{TimeOps} `{!UrlParts} `{NetOps} `{IoErrors} (fuel : nat).
Abbreviation Writer' := (RequestWriter TcpStream).

Definition is_ipv4 (a : IpAddr) : bool := match a with Ipv4Addr _ _ _ _ => true | _ => false end.

Definition url_to_socket_addr {S} (url : Url) : M S SocketAddr :=
  addrs ← call (get_host_addresses (url_host url));
  addrs ← unwrap addrs;
  addr ← unwrap (List.find is_ipv4 addrs);
  let port := default (lit "80") (url_port url) in
  port ← unwrap (u16_from_str port);
  mret (mkSocketAddr addr port).

(** [RequestWriter::new]. *)
Definition new (method : Method) (url : Url) : M unit Writer' :=
  host ← match url_port url with
         | None => mret (mkHost (url_host url) None)
         | Some p =>
             port ← expect "You didn't aught to give a bad port!" (u16_from_str p);
             mret (mkHost (url_host url) (Some port))
         end;
  remote_addr ← url_to_socket_addr url;
  let request := mkRequestWriter None false (Some remote_addr) (collection_new request_table) method url in
  mret (mkRequestWriter (rq_stream request) (rq_headers_written request) (rq_remote_addr request)
          (collection_set Headers.request.host (Some (VHost host)) (rq_headers request))
          (rq_method request) (rq_url request)).

Definition set_stream (s : option (BufferedStream TcpStream)) (r : Writer') : Writer' :=
  mkRequestWriter s (rq_headers_written r) (rq_remote_addr r) (rq_headers r) (rq_method r) (rq_url r).
Definition set_headers_written (r : Writer') : Writer' :=
  mkRequestWriter (rq_stream r) true (rq_remote_addr r) (rq_headers r) (rq_method r) (rq_url r).
(** A call on [self.stream]. *)
Definition on_stream {A} (m : M (option (BufferedStream TcpStream)) A) : M Writer' A :=
  zoom rq_stream set_stream m.

Definition connect : M Writer' bool :=
  none ← gets (λ r, bool_decide (rq_stream r = None));
  if negb none then fail "I don't think you meant to call connect() twice, you know."
  else
    oaddr ← gets rq_remote_addr;
    match oaddr with
    | Some addr =>
        os ← call (tcp_connect addr);
        match os with
        | Some stream => modify (set_stream (Some (Buffer.new stream false)));; mret true
        | None => mret false
        end
    | None => fail "connect() called before remote_addr was set"
    end.

Definition try_connect : M Writer' unit :=
  none ← gets (λ r, bool_decide (rq_stream r = None));
  if (none : bool) then connect;; mret tt else mret tt.

(** [format!("{} {} HTTP/1.0\r\n", self.method.to_str(), self.url.to_str())]. *)
Definition request_line_text (method : Method) (url : Url) : str :=
  Method.to_str method ++ [SP] ++ url_to_str url ++ lit " HTTP/1.0" ++ [CR; LF].

Definition write_headers : M Writer' unit :=
  written ← gets rq_headers_written;
  if (written : bool) then fail "RequestWriter.write_headers() called, but headers already written"
  else
    none ← gets (λ r, bool_decide (rq_stream r = None));
    (if (none : bool) then
       connected ← connect;
       if negb connected then fail "Uh oh, failed to connect!" else mret tt
     else mret tt);;
    method ← gets rq_method;
    url ← gets rq_url;
    on_stream (writer_write (as_bytes (request_line_text method url)));;
    hs ← gets rq_headers;
    on_stream (write_all request_table fuel hs);;
    modify set_headers_written.

Definition try_write_headers : M Writer' unit :=
  written ← gets rq_headers_written;
  if (written : bool) then mret tt else write_headers.

(** [Writer for RequestWriter]. *)
Definition write (buf : list u8) : M Writer' unit :=
  written ← gets rq_headers_written;
  (if (written : bool) then mret tt else write_headers);;
  on_stream (writer_write buf).
Definition flush : M Writer' unit := on_stream writer_flush.

(** [read_response] consumes the request: the stream is taken out of it. *)
Definition read_response (self : Writer') : res (Result (ResponseReader TcpStream) Writer') :=
  match (try_write_headers;; flush) self with
  | Done (_, mut_self) =>
      match rq_stream mut_self with
      | Some stream => response_reader.construct fuel stream (set_stream None mut_self)
      | None => Done (Err mut_self)
      end
  | Fail e => Fail e
  | Diverge => Diverge
  end.
End Operations.
End request_writer.

(** ** Reading a response *)

(** The status line, with its line end: the version, at most three digits,
    the reason up to the line end, and what follows. *)
Definition response_line (l : list u8) (x : (uint * uint) * u16 * str) (rest : list u8) : Prop :=
  ∃ l1 l2, version_text SP l x.1.1 l1 ∧ digits_then 3 SP l1 x.1.2 l2
    ∧ l2 = x.2 ++ CR :: LF :: rest ∧ (CR ∉ x.2).

(** A line has one reading. *)
Lemma reason_inj r r' rest rest' :
  CR ∉ r → CR ∉ r' → r ++ CR :: LF :: rest = r' ++ CR :: LF :: rest' → r = r' ∧ rest = rest'.
Proof.
  intros Hr Hr' E. by destruct (split_at_unique CR r (CR :: LF :: rest) r' (CR :: LF :: rest')) as [-> [= ->]].
Qed.

Lemma response_line_inj l x x' rest rest' :
  response_line l x rest → response_line l x' rest' → x = x' ∧ rest = rest'.
Proof.
  intros (l1 & l2 & Hv & Hd & -> & Hr) (l1' & l2' & Hv' & Hd' & -> & Hr').
  destruct (version_text_inj SP l _ _ _ _ eq_refl Hv Hv') as [Ev ->].
  pose proof (digits_then_inj _ _ _ _ _ _ _ _ Hd Hd' eq_refl) as El. rewrite El in Hd.
  pose proof (digits_then_value _ _ _ _ _ _ _ Hd Hd') as Ec.
  destruct (reason_inj _ _ _ _ Hr Hr' El) as [Er ->]. split; [|done].
  destruct x as [[? ?] ?], x' as [[? ?] ?]; simpl in *. congruence.
Qed.

Lemma digits_then_length d stop l v l' : digits_then d stop l v l' → (length l' < length l)%nat.
Proof. intros (ds & -> & _). rewrite length_app. simpl. lia. Qed.

Lemma response_line_length l x rest : response_line l x rest → (length rest < length l)%nat.
Proof.
  intros (l1 & l2 & Hv%version_text_length & Hd%digits_then_length & -> & _). rewrite length_app in Hd. simpl in Hd. lia.
Qed.

Section Reading.
Context {S : Type} `{ByteSource S} (F : BufferedStream S → Prop) (HF : read_stable F).
Context `{UrlOps} `{TimeOps} `{IoErrors}.
Local Instance Src : ByteSource (BufferedStream S) := BufferedStream_source F HF.
Implicit Types (s : BufferedStream S) (l : list u8).

Lemma bs_read_byte s l :
  src_rel s l → ∃ s', Buffer.read_byte s = Done (head l, s') ∧ src_rel s' (tail l).
Proof.
  intros Hs. destruct (msim_Done _ _ _ _ s l (head l) (tail l) (read_byte_sim F HF 1 ltac:(lia)) Hs) as (s' & E & Hs').
  - rewrite read_byte_util_list by lia. by destruct l.
  - exists s'. split; [done|]. by apply fresh_src.
Qed.

Lemma wrap16_pow4 z : 0 ≤ z < 10 ^ 4 → wrap16 z = z.
Proof. intros Hz. apply wrap16_small. lia. Qed.

Lemma read_status_code_spec s l fuel :
  src_rel s l → (4 < fuel)%nat →
  ∃ o s' l', response_reader.read_status_code fuel s = Done (o, s') ∧ src_rel s' l'
    ∧ match o with
      | Some v => digits_then 3 SP l v l'
      | None => ∀ v l'', ¬ digits_then 3 SP l v l''
      end.
Proof.
  intros Hs Hf.
  destruct (digit_loop_width (read_byte_util 1) wrap16 4 fuel 3 SP l) as (o & l' & E & Ho);
    [apply rb_list; lia|apply wrap16_pow4|lia|lia|lia|done|].
  assert (Hsim : msim src_rel src_rel (Buffer.read_byte (T:=S)) (read_byte_util (R:=list u8) 1)).
  { eapply msim_weaken; [done|apply fresh_src|apply (read_byte_sim F HF); lia]. }
  destruct (msim_Done _ _ _ _ s l o l' (digit_loop_sim src_rel _ _ wrap16 4 SP fuel (0, 0) Hsim) Hs E) as (s' & E' & Hs').
  by exists o, s', l'.
Qed.

Lemma reason_loop_spec l : ∀ u acc s n,
  src_rel s (u ++ l) → CR ∉ u → starts_with CR l → (length u < n)%nat →
  ∃ s', loop n response_reader.reason_body acc s
        = Done (match l with _ :: c :: _ => if c =? LF then Some (acc ++ u) else None | _ => None end, s')
    ∧ src_rel s' (drop 2 l).
Proof.
  induction u as [|c u IH]; intros acc s n Hs Hu Hl Hn; (destruct n as [|n]; [simpl in Hn; lia|]);
    destruct (bs_read_byte s _ Hs) as (s1 & E1 & Hs1).
  - cbn [app] in *. rewrite app_nil_r. destruct l as [|c l].
    { exists s1. split; [|done]. eapply loop_break. unfold response_reader.reason_body.
      by rewrite (bind_Done _ _ _ _ _ E1). }
    simpl in Hl. subst c. destruct (bs_read_byte s1 _ Hs1) as (s2 & E2 & Hs2). exists s2. cbn [tail] in *.
    split; [|by destruct l]. eapply loop_break. unfold response_reader.reason_body.
    rewrite (bind_Done _ _ _ _ _ E1). cbn [head]. change (CR =? CR) with true. cbn iota. rewrite (bind_Done _ _ _ _ _ E2).
    destruct l as [|c l]; [done|]. cbn [head]. destruct (Z.eqb_spec c LF) as [->|Hc].
    + by rewrite bool_decide_true.
    + rewrite bool_decide_false by congruence. done.
  - apply not_elem_of_cons in Hu as [Hc Hu].
    rewrite (loop_continue _ _ _ _ (acc ++ [c]) s1).
    + destruct (IH (acc ++ [c]) s1 n) as (s' & E & Hs'); [done|done|done|simpl in Hn; lia|].
      exists s'. rewrite E, <-app_assoc. done.
    + unfold response_reader.reason_body. rewrite (bind_Done _ _ _ _ _ E1). cbn [head app].
      assert ((c =? CR) = false) as -> by (apply Z.eqb_neq; congruence). done.
Qed.

Lemma read_reason_spec s l fuel :
  src_rel s l → (length l < fuel)%nat →
  ∃ o s' l', response_reader.read_reason fuel s = Done (o, s') ∧ src_rel s' l'
    ∧ match o with
      | Some r => l = r ++ CR :: LF :: l' ∧ (CR ∉ r)
      | None => ∀ r l'', l = r ++ CR :: LF :: l'' → CR ∉ r → False
      end.
Proof.
  intros Hs Hf. destruct (split_at CR l) as (u & l2 & -> & Hcr & Hl2').
  rewrite length_app in Hf.
  destruct (reason_loop_spec l2 u [] s fuel Hs Hcr Hl2' ltac:(lia)) as (s' & E & Hs').
  assert (Hinv : ∀ r l'', u ++ l2 = r ++ CR :: LF :: l'' → CR ∉ r → r = u ∧ l2 = CR :: LF :: l'').
  { intros r l'' El Hr. by destruct (split_at_unique CR u l2 r (CR :: LF :: l'')) as [-> ->]. }
  eexists _, s', _. split; [exact E|]. split; [exact Hs'|].
  destruct l2 as [|c [|c2 l2]]; simpl in Hl2'; subst.
  - intros r l'' El Hr. by destruct (Hinv r l'' El Hr).
  - intros r l'' El Hr. by destruct (Hinv r l'' El Hr).
  - destruct (Z.eqb_spec c2 LF) as [->|Hc]; [done|].
    intros r l'' El Hr. destruct (Hinv r l'' El Hr) as [_ [= ? _]]. done.
Qed.

(** The headers, up to the empty line. *)
Lemma read_response_headers_spec s hs rest fuel :
  Forall (header_ok response_table) hs → src_rel s (header_lines response_table hs ++ CR :: LF :: rest) →
  (length (header_lines response_table hs ++ CR :: LF :: rest) < fuel)%nat →
  ∃ s', response_reader.read_response_headers fuel s
        = Done (Some (collect_headers hs (collection_new response_table)), s') ∧ src_rel s' rest.
Proof.
  intros Hhs Hs Hf. pose proof (header_lines_length response_table hs) as Hn.
  destruct (header_loop_spec F HF (λ c h, collection_insert h c) Some (response_reader.response_headers_body fuel)
    response_table fuel rest (tables_ok _ (or_intror eq_refl)))
    with (hs := hs) (a := collection_new response_table) (b := request_buffer.new s) (n := fuel)
    as (b' & E & Hb'); try done.
  - intros a b h b' E. unfold response_reader.response_headers_body. by rewrite (bind_Done _ _ _ _ _ E).
  - intros a b b' E. unfold response_reader.response_headers_body. by rewrite (bind_Done _ _ _ _ _ E).
  - rewrite length_app in Hf. lia.
  - exists (rb_stream b'). split; [|done]. unfold response_reader.read_response_headers, zoom. by rewrite E.
Qed.

(** A response that was cut in the headers. *)
Lemma read_response_headers_cut s hs fuel :
  Forall (header_ok response_table) hs → src_rel s (header_lines response_table hs) →
  (length (header_lines response_table hs) < fuel)%nat →
  ∃ s', response_reader.read_response_headers fuel s = Done (None, s').
Proof.
  intros Hhs Hs Hf. pose proof (header_lines_length response_table hs) as Hn.
  destruct (header_loop_cut F HF (λ c h, collection_insert h c) (response_reader.response_headers_body fuel)
    response_table fuel (tables_ok _ (or_intror eq_refl)))
    with (hs := hs) (a := collection_new response_table) (b := request_buffer.new s) (n := fuel)
    as (b1 & b' & n' & E & E'); try done; [|lia|].
  - intros a b h b' E. unfold response_reader.response_headers_body. by rewrite (bind_Done _ _ _ _ _ E).
  - exists (rb_stream b'). unfold response_reader.read_response_headers, zoom. rewrite E.
    rewrite (loop_break _ _ _ _ None b'); [done|]. unfold response_reader.response_headers_body.
    by rewrite (bind_Done _ _ _ _ _ E').
Qed.

(** The status line, then whatever the headers give. *)
Lemma construct_body_spec s fuel :
  bs_inv F s → (length (bs_pending s) + 6 < fuel)%nat →
  (∃ x rest s1, response_line (bs_pending s) x rest ∧ src_rel s1 rest
    ∧ response_reader.construct_body fuel s
      = (oh ← response_reader.read_response_headers fuel;
         match oh with
         | None => response_reader.bad_response
         | Some hs => mret (Some (x.1.1, from_code_and_reason x.1.2 x.2, hs))
         end) s1)
  ∨ ((∀ x rest, ¬ response_line (bs_pending s) x rest)
     ∧ ∃ s1, response_reader.construct_body fuel s = response_reader.bad_response s1).
Proof.
  intros Hi Hf. unfold response_reader.construct_body.
  destruct (read_http_version_list fuel SP (bs_pending s) ltac:(lia) eq_refl) as (ov & l1 & E & Hv).
  assert (Hs : src_rel s (bs_pending s)) by done.
  destruct (msim_Done src_rel src_rel _ _ s _ ov l1 (read_http_version_sim fuel SP) Hs E) as (s1 & E1 & Hs1).
  rewrite (bind_Done _ _ _ _ _ E1). destruct ov as [v|]; cycle 1.
  { right. split; [|by exists s1]. intros x rest (l' & _ & Hx & _). by apply (Hv x.1.1 l'). }
  pose proof (version_text_length _ _ _ _ Hv) as Hl1.
  destruct (read_status_code_spec s1 l1 fuel Hs1 ltac:(lia)) as (oc & s2 & l2 & E2 & Hs2 & Hc).
  rewrite (bind_Done _ _ _ _ _ E2). destruct oc as [c|]; cycle 1.
  { right. split; [|by exists s2]. intros x rest (l' & l2' & Hx & Hd & _).
    destruct (version_text_inj SP _ _ _ _ _ eq_refl Hv Hx) as [_ <-]. by apply (Hc x.1.2 l2'). }
  pose proof (digits_then_length _ _ _ _ _ Hc) as Hl2.
  destruct (read_reason_spec s2 l2 fuel Hs2 ltac:(lia)) as (or & s3 & l3 & E3 & Hs3 & Hr).
  rewrite (bind_Done _ _ _ _ _ E3). destruct or as [r|]; cycle 1.
  { right. split; [|by exists s3]. intros x rest (l' & l2' & Hx & Hd & -> & Hcr).
    destruct (version_text_inj SP _ _ _ _ _ eq_refl Hv Hx) as [_ <-].
    pose proof (digits_then_inj _ _ _ _ _ _ _ _ Hc Hd eq_refl) as ->. by apply (Hr x.2 rest). }
  left. exists (v, c, r), l3, s3. split; [|done]. exists l1, l2. by destruct Hr.
Qed.

Lemma construct_body_ok s fuel x hs rest :
  bs_inv F s → (length (bs_pending s) + 6 < fuel)%nat →
  response_line (bs_pending s) x (header_lines response_table hs ++ CR :: LF :: rest) →
  Forall (header_ok response_table) hs →
  ∃ s', response_reader.construct_body fuel s
        = Done (Some (x.1.1, from_code_and_reason x.1.2 x.2, collect_headers hs (collection_new response_table)), s')
    ∧ bs_inv F s' ∧ bs_pending s' = rest.
Proof.
  intros Hi Hf Hline Hhs.
  destruct (construct_body_spec s fuel Hi Hf) as [(x' & rest' & s1 & Hline' & Hs1 & ->)|[Hno _]];
    [|by destruct (Hno _ _ Hline)].
  destruct (response_line_inj _ _ _ _ _ Hline Hline') as [<- <-]. apply response_line_length in Hline.
  destruct (read_response_headers_spec s1 hs rest fuel Hhs Hs1 ltac:(lia)) as (s' & E & Hs').
  exists s'. by rewrite (bind_Done _ _ _ _ _ E).
Qed.

Lemma construct_body_cut s fuel x hs :
  bs_inv F s → (length (bs_pending s) + 6 < fuel)%nat →
  response_line (bs_pending s) x (header_lines response_table hs) → Forall (header_ok response_table) hs →
  ∃ s', response_reader.construct_body fuel s = response_reader.bad_response s'.
Proof.
  intros Hi Hf Hline Hhs.
  destruct (construct_body_spec s fuel Hi Hf) as [(x' & rest' & s1 & Hline' & Hs1 & ->)|[Hno _]];
    [|by destruct (Hno _ _ Hline)].
  destruct (response_line_inj _ _ _ _ _ Hline Hline') as [<- <-]. apply response_line_length in Hline.
  destruct (read_response_headers_cut s1 hs fuel Hhs Hs1 ltac:(lia)) as (s' & E).
  exists s'. by rewrite (bind_Done _ _ _ _ _ E).
Qed.

Lemma read_response_headers_safe fuel :
  safe (bs_inv F) (response_reader.read_response_headers fuel) (λ _, bs_inv F).
Proof.
  intros s Hs. unfold response_reader.read_response_headers, zoom.
  assert (Hl : safe (λ b, bs_inv F (rb_stream b)) (loop fuel (response_reader.response_headers_body fuel)
    (collection_new response_table)) (λ _ b, bs_inv F (rb_stream b))).
  { apply (safe_loop fuel _ (λ _ b, bs_inv F (rb_stream b))). intros c.
    eapply safe_bind; [apply (read_header_safe F HF)|]. intros [h|[]]; by apply safe_ret. }
  specialize (Hl (request_buffer.new s) Hs). by destruct (loop _ _ _ _) as [[? ?]| |].
Qed.
End Reading.

(** *** Conditions *)

(** A caller that has trapped the condition. *)
Definition trapping : IoErrors := {| trapped := true |}.
Definition not_trapping : IoErrors := {| trapped := false |}.

Section Conditions.
Context `{UrlOps} `{TimeOps} {S : Type} `{Reader S} (fuel : nat).

(** Each error raises the condition once, as the last thing. *)
Lemma construct_body_raise (io : IoErrors) (s : BufferedStream S) :
  response_reader.construct_body (H1:=io) fuel s
  = (o ← response_reader.construct_body (H1:=trapping) fuel;
     match o with None => response_reader.bad_response | Some x => mret (Some x) end) s.
Proof.
  unfold response_reader.construct_body.
  repeat (rewrite bind_assoc; apply bind_ext; intros [?|] ?; [|done]). done.
Qed.

Lemma construct_untrapped (s : BufferedStream S) request :
  response_reader.construct (H1:=not_trapping) fuel s request
  = match response_reader.construct (H1:=trapping) fuel s request with
    | Done (Ok r) => Done (Ok r)
    | Done (Err _) => Fail "Unhandled condition: io_error"
    | Fail e => Fail e
    | Diverge => Diverge
    end.
Proof.
  unfold response_reader.construct. rewrite (construct_body_raise not_trapping), bind_unfold.
  by destruct (response_reader.construct_body (H1:=trapping) fuel s) as [[[[[v st] hs]|] s']| |].
Qed.
End Conditions.

(** ** Sending a request *)

(** The head of a request: request line, headers, empty line. *)
Definition request_head `{UrlOps} `{TimeOps} (m : Method) (url : Url) (c : HeaderCollection) : list u8 :=
  as_bytes (request_writer.request_line_text m url) ++ (headers_of c ≫= wire_line request_table) ++ [CR; LF].

(** Headers that can be sent, with enough fuel for the loop over them. *)
Definition request_sendable `{UrlOps} `{TimeOps} (fuel : nat) (m : Method) (url : Url) (c : HeaderCollection) : Prop :=
  length (fields c) = length request_table
  ∧ Forall (header_writable request_table) (headers_of c)
  ∧ (length request_table + length (extensions c) + 2 ≤ fuel)%nat
  ∧ fits (request_head m url c).

(** The stream a request uses: the one it has, or the connection it opens. *)
Definition opens `{UrlOps} `{TimeOps} `{NetOps} (r : RequestWriter TcpStream) (s : BufferedStream TcpStream) : Prop :=
  rq_stream r = Some s
  ∨ rq_stream r = None ∧ ∃ addr t, rq_remote_addr r = Some addr ∧ tcp_connect addr = Done (Some t) ∧ s = Buffer.new t false.

(** A use of a request as a [Writer]. *)
Definition run_cop `{UrlOps} `{TimeOps} `{NetOps} `{IoErrors} (fuel : nat) (op : wop) : M (RequestWriter TcpStream) unit :=
  match op with WWrite bs => request_writer.write fuel bs | WFlush => request_writer.flush end.

Section Sending.
Context (G : BufferedStream TcpStream → Prop) (HG : write_stable G).
Context `{UrlOps} `{TimeOps} `{NetOps} `{IoErrors}.
Implicit Types (s : BufferedStream TcpStream) (r : RequestWriter TcpStream).

(** A stream is written to through the [Option]. *)
Lemma option_for_each {A} (xs : list A) (f : A → M (option (BufferedStream TcpStream)) unit)
    (g : A → M (BufferedStream TcpStream) unit) :
  (∀ x s, f x (Some s) = match g x s with Done (_, s') => Done (tt, Some s') | Fail e => Fail e | Diverge => Diverge end) →
  ∀ s, for_each xs f (Some s)
       = match for_each xs g s with Done (_, s') => Done (tt, Some s') | Fail e => Fail e | Diverge => Diverge end.
Proof.
  intros Hfg. induction xs as [|x xs IH]; intros s; [done|]. cbn [for_each]. rewrite !bind_unfold, Hfg.
  destruct (g x s) as [[[] s1]| |]; [apply IH|done|done].
Qed.

Lemma option_writes (m : M (option (BufferedStream TcpStream)) unit) bs s :
  Writes m bs → fits bs → write_wf s → G s → call_wrapped_flush s = false → writing_chunked_body s = false →
  ∃ s', m (Some s) = Done (tt, Some s') ∧ write_wf s' ∧ G s' ∧ call_wrapped_flush s' = false ∧ writing_chunked_body s' = false
    ∧ sent (wrapped s') ++ buffered s' = sent (wrapped s) ++ buffered s ++ bs.
Proof.
  intros (bss & <- & Hm) Hfit Hwf HGs Hc Hk.
  assert (HW : Writes (for_each bss (writer_write (W:=BufferedStream TcpStream))) (concat bss)) by (by exists bss).
  destruct (plain_writes G HG _ _ s HW Hfit Hwf HGs Hc Hk) as (s' & E & Hs'). exists s'. split; [|done].
  by rewrite Hm, (option_for_each _ _ writer_write), E.
Qed.

Lemma on_stream_Done {A} (m : M (option (BufferedStream TcpStream)) A) r a o :
  m (rq_stream r) = Done (a, o) → request_writer.on_stream m r = Done (a, request_writer.set_stream o r).
Proof. intros E. unfold request_writer.on_stream, zoom. by rewrite E. Qed.

(** [write_headers] connects if need be, and writes the head. *)
Lemma request_headers_spec fuel r s :
  rq_headers_written r = false → opens r s → ready s → G s → request_sendable fuel (rq_method r) (rq_url r) (rq_headers r) →
  ∃ s', request_writer.write_headers fuel r
        = Done (tt, request_writer.set_headers_written (request_writer.set_stream (Some s') r))
    ∧ write_wf s' ∧ G s' ∧ call_wrapped_flush s' = false ∧ writing_chunked_body s' = false
    ∧ sent (wrapped s') ++ buffered s' = sent (wrapped s) ++ request_head (rq_method r) (rq_url r) (rq_headers r).
Proof.
  intros Hw Ho (Hwf & Hb & Hcf & Hk) HGs (Hlen & Hok & Hfuel & Hfit). unfold request_head in Hfit.
  apply fits_app in Hfit as [Hfit1 Hfit2].
  destruct (option_writes _ _ s (Writes_write (as_bytes (request_writer.request_line_text (rq_method r) (rq_url r)))) Hfit1 Hwf HGs Hcf Hk)
    as (s1 & E1 & Hwf1 & HG1 & Hcf1 & Hk1 & Ho1).
  destruct (option_writes _ _ s1 (write_all_writes (W:=option (BufferedStream TcpStream)) request_table fuel (rq_headers r)
      (tables_ok _ (or_introl eq_refl)) Hlen Hok Hfuel) Hfit2 Hwf1 HG1 Hcf1 Hk1)
    as (s2 & E2 & Hwf2 & HG2 & Hcf2 & Hk2 & Ho2).
  exists s2. split; [|split_and?; try done].
  - unfold request_writer.write_headers. rewrite bind_gets, Hw, bind_gets.
    set (r1 := request_writer.set_stream (Some s) r).
    assert (Ec : (if bool_decide (rq_stream r = None) then
        connected ← request_writer.connect;
        if negb connected then fail "Uh oh, failed to connect!" else mret tt
      else mret tt) r = Done (tt, r1)).
    { destruct Ho as [Hs|(Hs & addr & t & Ha & Et & ->)]; rewrite Hs.
      - rewrite bool_decide_false by done. subst r1. destruct r; simpl in *. by subst.
      - rewrite bool_decide_true by done. unfold request_writer.connect. rewrite bind_assoc, bind_gets, Hs.
        rewrite bool_decide_true by done. cbn [negb]. rewrite bind_assoc, bind_gets, Ha, bind_assoc.
        unfold call. rewrite bind_unfold, Et. done. }
    rewrite (bind_Done _ _ _ _ _ Ec), !bind_gets.
    rewrite (bind_Done _ _ _ _ _ (on_stream_Done _ r1 _ _ E1)), bind_gets.
    change (rq_headers (request_writer.set_stream (Some s1) r1)) with (rq_headers r).
    by rewrite (bind_Done _ _ _ _ _ (on_stream_Done _ (request_writer.set_stream (Some s1) r1) _ _ E2)).
  - rewrite Ho2, app_assoc, Ho1, Hb. cbn [app]. by rewrite <-app_assoc.
Qed.

(** Once the headers are written, the request is its stream. *)
Lemma run_cops_written fuel ops : ∀ r s,
  rq_headers_written r = true → rq_stream r = Some s →
  for_each ops (run_cop fuel) r
  = match run_wops ops s with
    | Done (_, s') => Done (tt, request_writer.set_stream (Some s') r)
    | Fail e => Fail e
    | Diverge => Diverge
    end.
Proof.
  unfold run_wops. induction ops as [|op ops IH]; intros r s Hw Hs; [destruct r; simpl in *; by subst|]. cbn [for_each].
  rewrite !bind_unfold.
  assert (Eop : run_cop fuel op r = match run_wop op s with
    | Done (_, s') => Done (tt, request_writer.set_stream (Some s') r) | Fail e => Fail e | Diverge => Diverge end).
  { destruct op as [bs|]; cbn [run_cop run_wop];
      [unfold request_writer.write; rewrite bind_gets, Hw, bind_ret|unfold request_writer.flush];
      unfold request_writer.on_stream, zoom; rewrite Hs; cbn [writer_write writer_flush option_writer BufferedStream_writer];
      [by destruct (Buffer.write bs s) as [[[] s1]| |]|by destruct (Buffer.flush s) as [[[] s1]| |]]. }
  rewrite Eop. destruct (run_wop op s) as [[[] s1]| |]; [|done|done]. by rewrite (IH _ s1) by done.
Qed.

(** Writing a body, then the flush of [read_response]. *)
Lemma request_spec fuel ops r s :
  rq_headers_written r = false → opens r s → ready s → G s → request_sendable fuel (rq_method r) (rq_url r) (rq_headers r) →
  Forall wop_fits ops → head ops ≠ Some WFlush →
  ∃ r1 s', for_each ops (run_cop fuel) r = Done (tt, r1)
    ∧ (request_writer.try_write_headers fuel;; request_writer.flush) r1
      = Done (tt, request_writer.set_headers_written (request_writer.set_stream (Some s') r))
    ∧ ready s' ∧ G s'
    ∧ sent (wrapped s') = sent (wrapped s) ++ request_head (rq_method r) (rq_url r) (rq_headers r) ++ payload ops.
Proof.
  intros Hw Ho Hr HGs Hs Hops Hhead.
  destruct (request_headers_spec fuel r s Hw Ho Hr HGs Hs) as (s1 & E1 & Hwf1 & HG1 & Hcf1 & Hk1 & Ho1).
  set (r0 := request_writer.set_headers_written (request_writer.set_stream (Some s1) r)).
  destruct (run_wops_spec G HG ops s1 Hwf1 HG1 Hcf1 Hops) as (s2 & body & out & E2 & Hwf2 & (Hs2 & HG2 & Hcf2 & Hk2) & HE & Hb2).
  destruct (flush_spec G HG s2 Hwf2 HG2 ltac:(congruence)) as (s3 & E3 & Hwf3 & Hb3 & (Hs3 & HG3 & Hcf3 & Hk3)).
  rewrite Hk1 in HE. apply emits_plain in HE as ->.
  assert (Eflush : request_writer.flush (request_writer.set_stream (Some s2) r0) = Done (tt, request_writer.set_stream (Some s3) r0)).
  { apply (on_stream_Done _ (request_writer.set_stream (Some s2) r0)). cbn [writer_flush option_writer BufferedStream_writer rq_stream request_writer.set_stream].
    by rewrite E3. }
  assert (Hrun : ∃ r1, for_each ops (run_cop fuel) r = Done (tt, r1)
    ∧ request_writer.try_write_headers fuel r1 = Done (tt, request_writer.set_stream (Some s2) r0)).
  { destruct ops as [|op ops].
    - cbn in E2. injection E2 as <-. exists r. split; [done|]. unfold request_writer.try_write_headers. by rewrite bind_gets, Hw.
    - destruct op as [bs|]; [|done]. exists (request_writer.set_stream (Some s2) r0). split; [|done].
      assert (Eop : run_cop fuel (WWrite bs) r = run_cop fuel (WWrite bs) r0).
      { cbn [run_cop]. unfold request_writer.write. rewrite !bind_gets, Hw, (bind_Done _ _ _ _ _ E1). done. }
      cbn [for_each]. rewrite bind_unfold, Eop, <-bind_unfold.
      change (for_each (WWrite bs :: ops) (run_cop fuel) r0 = Done (tt, request_writer.set_stream (Some s2) r0)).
      by rewrite (run_cops_written fuel _ r0 s1), E2. }
  destruct Hrun as (r1 & Er1 & Etry). exists r1, s3. split; [done|]. split.
  - by rewrite (bind_Done _ _ _ _ _ Etry).
  - split; [unfold ready; split_and?; congruence || done|]. split; [done|].
    rewrite Hs3, Hs2, Hk2, Hk1, <-app_assoc. cbn [emit].
    assert (Hd : (if decide (buffered s2 = []) then [] else buffered s2) = buffered s2)
      by (by case_decide as Hd; [rewrite Hd|]).
    rewrite Hd, <-Hb2. by rewrite !app_assoc, Ho1.
Qed.
End Sending.

(** ** The theorems *)

(** [ResponseReader::construct] on a well-formed response: on any stream
    whose bytes, however fragmented, are a status line, the lines of valid
    headers, an empty line and anything else, it returns the version, the
    status for the code and the reason, and the collection of the headers; the
    request is kept, and exactly the body is left to be read. *)
Theorem construct_correct `{UrlOps} `{TimeOps} `{IoErrors} {S} `{ByteSource S}
    (s : BufferedStream S) (request : RequestWriter S) fuel version code reason hs rest :
  stream_wf s → (length (bs_pending s) + 6 < fuel)%nat →
  response_line (bs_pending s) (version, code, reason) (header_lines response_table hs ++ [CR; LF] ++ rest) →
  Forall (header_ok response_table) hs →
  ∃ s', response_reader.construct fuel s request
        = Done (Ok (mkResponseReader s' request version (from_code_and_reason code reason)
                      (collect_headers hs (collection_new response_table))))
    ∧ stream_wf s' ∧ bs_pending s' = rest.
Proof.
  intros Hwf%stream_wf_inv Hf Hline Hhs.
  destruct (construct_body_ok _ True_read_stable s fuel _ hs rest Hwf Hf Hline Hhs) as (s' & E & Hi & Hp).
  exists s'. unfold response_reader.construct. rewrite E. by rewrite stream_wf_inv.
Qed.

(** A response, for the examples. *)
Definition example_reply : list (list u8) :=
  [lit "HTTP/1.1 20"; lit "0 OK" ++ [CR; LF] ++ lit "Content-Len"; lit "gth: 2" ++ [CR; LF; CR]; [LF] ++ lit "Hi"].
Definition example_length `{UrlOps} `{TimeOps} : Header := Known response.content_length (VUint 2).

Lemma version_1_1_sp rest : version_text SP (lit "HTTP/1.1" ++ SP :: rest) (1, 1) rest.
Proof.
  exists (lit "HTTP/"), (lit "1.1" ++ SP :: rest), (lit "1" ++ SP :: rest).
  split_and?; [done|done| |].
  - exists (lit "1"). split_and?; vm_compute; done.
  - exists (lit "1"). split_and?; vm_compute; done.
Qed.

Lemma example_reply_line rest :
  response_line (lit "HTTP/1.1" ++ SP :: lit "200" ++ SP :: lit "OK" ++ CR :: LF :: rest) ((1, 1), 200, lit "OK") rest.
Proof.
  exists (lit "200" ++ SP :: lit "OK" ++ CR :: LF :: rest), (lit "OK" ++ CR :: LF :: rest).
  split; [apply version_1_1_sp|]. split; [exists (lit "200"); split_and?; vm_compute; done|].
  split; [done|]. by apply (bool_decide_unpack _).
Qed.

Lemma example_reply_pending :
  bs_pending (tcp_stream example_reply)
  = lit "HTTP/1.1" ++ SP :: lit "200" ++ SP :: lit "OK" ++ CR :: LF
      :: lit "Content-Length: 2" ++ [CR; LF] ++ [CR; LF] ++ lit "Hi".
Proof. vm_compute. reflexivity. Qed.

Lemma example_length_ok `{UrlOps} `{TimeOps} : header_ok response_table example_length.
Proof. split; [by eexists|]. cbn [value_ok wire_ok uint_wire example_length]. lia. Qed.

(** A request to send, on a connection that will bring [segs]. *)
Definition text_parts : UrlParts (H:=text_urls) :=
  {| url_host _ := lit "x.org"; url_port _ := None |}.
Definition example_net (segs : list (list u8)) : NetOps :=
  {| get_host_addresses _ := Done (Some [Ipv6Addr 0 0 0 0 0 0 0 1; Ipv4Addr 10 0 0 1]);
     tcp_connect _ := Done (Some (mkTcp segs [] None)) |}.
Definition example_request : RequestWriter TcpStream (H:=text_urls) (H0:=second_times) :=
  mkRequestWriter None false (Some (mkSocketAddr (Ipv4Addr 10 0 0 1) 80))
    (collection_set Headers.request.host (Some (VHost (mkHost (lit "x.org") None))) (collection_new request_table))
    Get (HeaderStr (lit "http://x.org/") : Url (UrlOps:=text_urls)).

Lemma construct_correct_witness :
  let hs := [example_length (H:=text_urls) (H0:=second_times)] in
  ∃ s', response_reader.construct (H:=text_urls) (H0:=second_times) (H1:=not_trapping) 100 (tcp_stream example_reply) example_request
        = Done (Ok (mkResponseReader s' example_request (1, 1) (from_code_and_reason 200 (lit "OK"))
                      (collect_headers hs (collection_new response_table))))
    ∧ stream_wf s' ∧ bs_pending s' = lit "Hi".
Proof.
  intros hs. apply (construct_correct (H:=text_urls) (H0:=second_times) (H1:=not_trapping)).
  - apply tcp_stream_wf. repeat constructor; discriminate.
  - rewrite example_reply_pending. vm_compute. lia.
  - rewrite example_reply_pending. apply example_reply_line.
  - apply Forall_cons. split; [apply example_length_ok|by apply Forall_nil].
Defined.

(** C17. How [construct] reports errors, whatever the stream sends: with the
    condition trapped the task does not fail, and the only error is the one
    that hands the request back; a stream that does not start with a status
    line, or ends before the end of the headers, is such an error.  Without a
    handler the task fails in exactly these cases, and otherwise the result is
    the same. *)
Theorem construct_errors `{UrlOps} `{TimeOps} {S} `{ByteSource S}
    (s : BufferedStream S) (request : RequestWriter S) fuel :
  stream_wf s → (length (bs_pending s) + 6 < fuel)%nat →
  let r := response_reader.construct (H1:=trapping) fuel s request in
  (∀ e, r ≠ Fail e)
  ∧ (∀ req, r = Done (Err req) → req = request)
  ∧ ((∀ x rest, ¬ response_line (bs_pending s) x rest) → r = Done (Err request))
  ∧ (∀ x hs, response_line (bs_pending s) x (header_lines response_table hs) →
     Forall (header_ok response_table) hs → r = Done (Err request))
  ∧ response_reader.construct (H1:=not_trapping) fuel s request
    = match r with Done (Err _) => Fail "Unhandled condition: io_error" | _ => r end.
Proof.
  intros Hwf%stream_wf_inv Hf r. set (cb := response_reader.construct_body (H1:=trapping) fuel s).
  assert (Hr : r = match cb with
    | Done (Some (version, status, headers), stream') => Done (Ok (mkResponseReader stream' request version status headers))
    | Done (None, _) => Done (Err request) | Fail e => Fail e | Diverge => Diverge end) by done.
  pose proof (construct_body_spec (H3:=trapping) _ True_read_stable s fuel Hwf Hf) as Hcb.
  assert (Hbad : ∀ s1, cb = response_reader.bad_response (H1:=trapping) s1 → r = Done (Err request)).
  { intros s1 E. by rewrite Hr, E. }
  split_and?.
  - intros e. rewrite Hr. destruct Hcb as [(x & rest & s1 & _ & [Hi1 _] & E)|[_ [s1 E]]]; fold cb in E; [|by rewrite E].
    pose proof (read_response_headers_safe _ True_read_stable fuel s1 Hi1) as Hs. rewrite bind_unfold in E.
    by destruct (response_reader.read_response_headers fuel s1) as [[[hs|] s2]| |]; rewrite E.
  - intros req. rewrite Hr. by destruct cb as [[[[[v st] hs]|] s']| |]; intros [= <-].
  - intros Hno. destruct Hcb as [(x & rest & s1 & Hl & _)|[_ [s1 E]]]; [by destruct (Hno x rest)|by apply (Hbad s1)].
  - intros x hs Hl Hhs.
    destruct (construct_body_cut (H3:=trapping) _ True_read_stable s fuel x hs Hwf Hf Hl Hhs) as (s1 & E). by apply (Hbad s1).
  - rewrite construct_untrapped. fold r. by destruct r as [[|]| |].
Qed.

Lemma construct_errors_witness :
  response_reader.construct (H:=text_urls) (H0:=second_times) (H1:=not_trapping) 100
    (tcp_stream [lit "HTTP/1.1 200 OK" ++ [CR; LF]]) example_request
  = Fail "Unhandled condition: io_error".
Proof.
  set (s := tcp_stream _).
  assert (Ep : bs_pending s = lit "HTTP/1.1" ++ SP :: lit "200" ++ SP :: lit "OK" ++ CR :: LF :: []) by (vm_compute; reflexivity).
  destruct (construct_errors (H:=text_urls) (H0:=second_times) s example_request 100) as (_ & _ & _ & Hcut & ->).
  - apply tcp_stream_wf. repeat constructor; discriminate.
  - rewrite Ep. vm_compute. lia.
  - rewrite (Hcut ((1, 1), 200, lit "OK") []); [reflexivity| |by apply Forall_nil].
    rewrite Ep. apply example_reply_line.
Defined.

(** The request as [new] makes it. *)
Definition new_request `{UrlOps} `{TimeOps} `{!UrlParts} (m : Method) (url : Url) (port : option u16) (ip : IpAddr) :
    RequestWriter TcpStream :=
  mkRequestWriter None false (Some (mkSocketAddr ip (default 80 port)))
    (collection_set Headers.request.host (Some (VHost (mkHost (url_host url) port))) (collection_new request_table))
    m url.

(** [RequestWriter::new]: the Host header carries the host of the URL and
    its port if it has one, and the address to connect to is the first IPv4
    address of the host, with that port or else 80; nothing is connected yet.
    A port that is not a 16-bit number fails the task, and so does a host that
    cannot be resolved or has no IPv4 address. *)
Theorem new_correct `{UrlOps} `{TimeOps} `{!UrlParts} `{NetOps} (m : Method) (url : Url) :
  (∀ port addrs1 ip addrs2,
     match url_port url with Some p => ∃ n, u16_from_str p = Some n ∧ port = Some n | None => port = None end →
     get_host_addresses (url_host url) = Done (Some (addrs1 ++ ip :: addrs2)) →
     Forall (λ a, request_writer.is_ipv4 a = false) addrs1 → request_writer.is_ipv4 ip = true →
     request_writer.new m url tt = Done (new_request m url port ip, tt))
  ∧ (∀ p, url_port url = Some p → u16_from_str p = None → ∃ e, request_writer.new m url tt = Fail e)
  ∧ (∀ oaddrs, get_host_addresses (url_host url) = Done oaddrs →
     Forall (λ a, request_writer.is_ipv4 a = false) (default [] oaddrs) → ∃ e, request_writer.new m url tt = Fail e).
Proof.
  assert (Hfind : ∀ l1 a l2, Forall (λ a, request_writer.is_ipv4 a = false) l1 → request_writer.is_ipv4 a = true →
    List.find request_writer.is_ipv4 (l1 ++ a :: l2) = Some a).
  { intros l1 a l2 Hl1 Ha. induction Hl1 as [|b l1 Hb Hl1 IH]; simpl; [by rewrite Ha|by rewrite Hb]. }
  assert (Hnone : ∀ l, Forall (λ a, request_writer.is_ipv4 a = false) l → List.find request_writer.is_ipv4 l = None).
  { induction 1 as [|b l Hb Hl IH]; simpl; [done|by rewrite Hb]. }
  split_and?.
  - intros port addrs1 ip addrs2 Hport Haddrs H1' Hip. unfold request_writer.new.
    assert (Esock : ∀ n : Z, u16_from_str (default (lit "80") (url_port url)) = Some n →
      request_writer.url_to_socket_addr (S:=unit) url tt = Done (mkSocketAddr ip n, tt)).
    { intros n En. unfold request_writer.url_to_socket_addr, call. rewrite bind_unfold, Haddrs. cbn beta iota.
      cbn [unwrap]. rewrite bind_ret, (Hfind _ _ _ H1' Hip). cbn [unwrap]. rewrite bind_ret, En. done. }
    destruct (url_port url) as [p|] eqn:Ep; [destruct Hport as (n & En & ->)|subst port].
    + unfold expect. rewrite bind_assoc, En, !bind_ret. by rewrite (bind_Done _ _ _ _ _ (Esock n En)).
    + rewrite bind_ret. by rewrite (bind_Done _ _ _ _ _ (Esock 80 ltac:(vm_compute; reflexivity))).
  - intros p Ep En. eexists. unfold request_writer.new. rewrite Ep, bind_unfold. unfold expect. rewrite En. done.
  - intros oaddrs Ha Hno. unfold request_writer.new.
    assert (Hsock : ∀ s : unit, ∃ e, request_writer.url_to_socket_addr (S:=unit) url s = Fail e).
    { intros s. eexists. unfold request_writer.url_to_socket_addr, call. rewrite bind_unfold, Ha. cbn beta iota.
      destruct oaddrs as [addrs|]; [|done]. cbn [unwrap]. rewrite bind_ret. cbn [default] in Hno. unfold id in Hno.
      by rewrite (Hnone _ Hno). }
    destruct (Hsock tt) as (e & Es). destruct (url_port url) as [p|]; [|by exists e; rewrite bind_ret, bind_unfold, Es].
    rewrite bind_assoc. unfold expect. destruct (u16_from_str p) as [n|]; [|by eexists].
    exists e. by rewrite !bind_ret, bind_unfold, Es.
Qed.

Lemma new_correct_witness :
  let url := HeaderStr (lit "http://x.org/") : Url (UrlOps:=text_urls) in
  request_writer.new (H0:=second_times) (H1:=text_parts) (H2:=example_net []) Get url tt
  = Done (new_request (H0:=second_times) (H1:=text_parts) Get url None (Ipv4Addr 10 0 0 1), tt).
Proof.
  intros url.
  apply (proj1 (new_correct (H0:=second_times) (H1:=text_parts) (H2:=example_net []) Get url)
    None [Ipv6Addr 0 0 0 0 0 0 0 1] (Ipv4Addr 10 0 0 1) []); [reflexivity|reflexivity| |reflexivity].
  apply Forall_cons. split; [reflexivity|by apply Forall_nil].
Defined.

Section Exchange.
Context `{UrlOps} `{TimeOps} `{NetOps} `{IoErrors}.

(** A whole exchange, with the frame of both directions. *)
Lemma read_response_spec (r : RequestWriter TcpStream) s p fuel ops x hs rest :
  rq_headers_written r = false → opens r s → idle p s →
  request_sendable fuel (rq_method r) (rq_url r) (rq_headers r) → Forall wop_fits ops → head ops ≠ Some WFlush →
  (length (bs_pending s) + 6 < fuel)%nat →
  response_line (bs_pending s) x (header_lines response_table hs ++ CR :: LF :: rest) →
  Forall (header_ok response_table) hs →
  ∃ r1 s', for_each ops (run_cop fuel) r = Done (tt, r1)
    ∧ request_writer.read_response fuel r1
      = Done (Ok (mkResponseReader s' (request_writer.set_headers_written (request_writer.set_stream None r))
                    x.1.1 (from_code_and_reason x.1.2 x.2) (collect_headers hs (collection_new response_table))))
    ∧ idle p s' ∧ bs_pending s' = rest
    ∧ sent (wrapped s') = sent (wrapped s) ++ request_head (rq_method r) (rq_url r) (rq_headers r) ++ payload ops.
Proof.
  intros Hw Ho (Hwf & Hr & Hp) Hs Hops Hhead Hf Hline Hhs.
  destruct (request_spec _ (read_frame_stable (bs_pending s) p) fuel ops r s Hw Ho Hr) as (r1 & s1 & Er1 & E1 & Hr1 & Hg1 & Hs1); try done.
  destruct Hg1 as (Hwf1 & Hl1 & Hp1). rewrite <-Hl1 in Hf, Hline.
  destruct (construct_body_ok _ (write_frame_stable (sent (wrapped s1)) p) s1 fuel x hs rest (idle_inv p s1 (conj Hwf1 (conj Hr1 Hp1))) Hf Hline Hhs)
    as (s2 & E2 & [Hi2 Hs2]%inv_idle & Hp2).
  exists r1, s2. split; [done|]. split; [|split; [done|split; [done|congruence]]].
  unfold request_writer.read_response. rewrite E1. cbn [rq_stream request_writer.set_headers_written request_writer.set_stream].
  unfold response_reader.construct. rewrite E2. by destruct x as [[v c] reason].
Qed.
End Exchange.

(** C6. A client's exchange: a request, connected or not, is written to as a
    [Writer] any number of times; [read_response] then has sent the request
    line, each header, an empty line and the body, as it was written, and
    nothing is left in the buffer; and it returns the response: its version,
    its status and its headers, with exactly the body left to be read. *)
Theorem read_response_correct `{UrlOps} `{TimeOps} `{NetOps} `{IoErrors} (r : RequestWriter TcpStream) s p fuel ops
    version code reason hs rest :
  rq_headers_written r = false → opens r s → idle p s →
  request_sendable fuel (rq_method r) (rq_url r) (rq_headers r) → Forall wop_fits ops → head ops ≠ Some WFlush →
  (length (bs_pending s) + 6 < fuel)%nat →
  response_line (bs_pending s) (version, code, reason) (header_lines response_table hs ++ [CR; LF] ++ rest) →
  Forall (header_ok response_table) hs →
  ∃ r1 reader, for_each ops (run_cop fuel) r = Done (tt, r1)
    ∧ request_writer.read_response fuel r1 = Done (Ok reader)
    ∧ sent (wrapped (rr_stream reader))
      = sent (wrapped s) ++ request_head (rq_method r) (rq_url r) (rq_headers r) ++ payload ops
    ∧ buffered (rr_stream reader) = []
    ∧ rr_version reader = version ∧ rr_status reader = from_code_and_reason code reason
    ∧ rr_headers reader = collect_headers hs (collection_new response_table)
    ∧ bs_pending (rr_stream reader) = rest.
Proof.
  intros Hw Ho Hi Hs Hops Hhead Hf Hline Hhs.
  destruct (read_response_spec r s p fuel ops _ hs rest Hw Ho Hi Hs Hops Hhead Hf Hline Hhs)
    as (r1 & s' & E1 & E2 & (_ & (_ & Hb & _) & _) & Hp & Hsent).
  eexists r1, _. split; [exact E1|]. split; [exact E2|]. by split_and?.
Qed.

Lemma example_sendable :
  request_sendable 100 (rq_method example_request) (rq_url example_request) (rq_headers example_request).
Proof.
  split; [reflexivity|]. split; [|split; [vm_compute; lia|vm_compute; reflexivity]].
  assert (headers_of (rq_headers example_request) = [example_host (H:=text_urls) (H0:=second_times)]) as -> by reflexivity.
  apply Forall_cons. split; [|by apply Forall_nil]. apply header_ok_writable, example_host_ok.
Qed.

Lemma example_idle segs : Forall (λ seg, seg ≠ []) segs → idle None (tcp_stream segs).
Proof. intros Hs. split; [by apply tcp_stream_wf|]. split; [apply new_ready|done]. Qed.

Lemma read_response_correct_witness :
  let ops := [WWrite (lit "a"); WFlush; WWrite (lit "b")] in
  ∃ r1 reader, for_each ops (run_cop (H1:=example_net example_reply) (H2:=not_trapping) 100) example_request = Done (tt, r1)
    ∧ request_writer.read_response (H2:=example_net example_reply) (H3:=not_trapping) 100 r1 = Done (Ok reader)
    ∧ sent (wrapped (rr_stream reader))
      = [] ++ request_head (rq_method example_request) (rq_url example_request) (rq_headers example_request) ++ lit "ab"
    ∧ buffered (rr_stream reader) = []
    ∧ rr_version reader = (1, 1) ∧ rr_status reader = from_code_and_reason 200 (lit "OK")
    ∧ rr_headers reader = collect_headers [example_length (H:=text_urls) (H0:=second_times)] (collection_new response_table)
    ∧ bs_pending (rr_stream reader) = lit "Hi".
Proof.
  intros ops.
  apply (read_response_correct (H1:=example_net example_reply) (H2:=not_trapping) example_request (tcp_stream example_reply) None 100 ops).
  - reflexivity.
  - right. split; [reflexivity|]. by eexists _, _.
  - apply example_idle. repeat constructor; discriminate.
  - apply example_sendable.
  - repeat constructor.
  - discriminate.
  - rewrite example_reply_pending. vm_compute. lia.
  - rewrite example_reply_pending. apply example_reply_line.
  - apply Forall_cons. split; [apply example_length_ok|by apply Forall_nil].
Defined.


