(* ===== verification/Termination.v ===== *)
(** * Termination: reading a message returns

    The loops of the parsers run until they see the byte they wait for or the
    end of the input; each round of each loop takes a byte.  The one exception
    is [read_token_or_quoted_string] (HeaderIter.v), which is called only for
    the parameters of a Content-Type or a Transfer-Encoding.  So every parser
    returns on an input in which the parameters of these headers, if there are
    any, can be read; the condition, [calm], is about nothing else, whatever
    the other bytes are.  Hangs.v shows what happens without it.  The theorems
    are for the values of headers, a header line, [Request::load] and
    [ResponseReader::construct].
    The measure of a loop over a value is the number of bytes the iterator has
    still to yield; that of a loop over header lines is the number of bytes
    the stream has still to deliver. *)

From S2P Require Import Prelude Strs Rfc2616 Method Io Buffer Common Chunked SerializationUtils HeaderIter HeaderValues Headers Status Branchify ServerRequest ServerResponse Server Client.

(** ** A logic of returning methods

    [returns P m Q]: from a state in [P], [m] does not run out of fuel, and if
    it returns [a] in state [s'] then [Q a s']. *)
Definition returns {S A} (P : S → Prop) (m : M S A) (Q : A → S → Prop) : Prop :=
  ∀ s, P s → match m s with Done (a, s') => Q a s' | Fail _ => True | Diverge => False end.

Section Logic.
Context {S : Type}.
Implicit Types P : S → Prop.

Lemma returns_ret {A} P (a : A) (Q : A → S → Prop) : (∀ s, P s → Q a s) → returns P (mret a) Q.
Proof. intros H s Hs. by apply H. Qed.

Lemma returns_gets {A} P (f : S → A) : returns P (gets f) (λ a s, P s ∧ a = f s).
Proof. by intros s Hs. Qed.

Lemma returns_call {A} P (r : res A) : r ≠ Diverge → returns P (call r) (λ _, P).
Proof. intros Hr s Hs. unfold call. by destruct r. Qed.

Lemma returns_fail {A} P e (Q : A → S → Prop) : returns P (fail e) Q.
Proof. by intros s Hs. Qed.

Lemma returns_bind {A B} P (m : M S A) (k : A → M S B) Q Q' :
  returns P m Q → (∀ a, returns (Q a) (k a) Q') → returns P (m ≫= k) Q'.
Proof.
  intros Hm Hk s Hs. rewrite bind_unfold. specialize (Hm s Hs).
  destruct (m s) as [[a t]| |]; [by apply Hk|done|done].
Qed.

Lemma returns_weaken {A} P P' (m : M S A) (Q Q' : A → S → Prop) :
  (∀ s, P' s → P s) → (∀ a s, Q a s → Q' a s) → returns P m Q → returns P' m Q'.
Proof.
  intros HP HQ Hm s Hs. specialize (Hm s (HP s Hs)). destruct (m s) as [[a t]| |]; auto.
Qed.

Lemma returns_if {A} P (c : bool) (m m' : M S A) Q :
  (c = true → returns P m Q) → (c = false → returns P m' Q) → returns P (if c then m else m') Q.
Proof. destruct c; auto. Qed.

Lemma returns_pure {A} (φ : Prop) P (m : M S A) Q :
  (φ → returns P m Q) → returns (λ s, P s ∧ φ) m Q.
Proof. intros H s [Hs Hφ]. by apply H. Qed.

(** A loop returns when a measure decreases in every round. *)
Lemma returns_loop {A B} n (body : A → M S (A + B)) (I : nat → A → S → Prop) (Q : B → S → Prop) :
  (∀ k a, returns (I k a) (body a)
     (λ r s, match r with inl a' => ∃ k', (k' < k)%nat ∧ I k' a' s | inr b => Q b s end)) →
  ∀ k a, (k < n)%nat → returns (I k a) (loop n body a) Q.
Proof.
  intros Hb. induction n as [|n IH]; intros k a Hk; [lia|].
  eapply returns_bind; [apply Hb|]. intros [a'|b]; [|by apply returns_ret].
  intros s (k' & Hk' & Hs). apply (IH k' a'); [lia|done].
Qed.
End Logic.

(** ** Iterators over a value

    [P] is what is known of the bytes of the value that are left; it is about
    the rest of a value as well.  When [started], white space is no longer
    dropped. *)
Class SuffixClosed (P : list u8 → Prop) := suffix_closed b vs : P (b :: vs) → P vs.
#[global] Instance anything_closed : SuffixClosed (λ _, True).
Proof. by intros b vs _. Qed.

Section Left.
Context {R : Type} `{ByteSource R} (n : nat) (rest : list u8) (P : list u8 → Prop).
Implicit Types it : HeaderValueByteIterator R.

(** At most [k] bytes are left to yield, and [rest] follows the header. *)
Definition left_to_yield (started : bool) (k : nat) it : Prop :=
  (∃ vs, Reads n it vs rest ∧ P vs ∧ (length vs ≤ k)%nat) ∧ (started = true → at_start it = false).
(** After [next] has yielded [b]: it can be put back. *)
Definition yielded (started : bool) (k : nat) (b : u8) it : Prop :=
  left_to_yield started k it ∧ left_to_yield started (S k) (set_next_byte (Some b) it)
  ∧ (is_lws b = false → at_start it = false).
Definition fewer (started : bool) (k : nat) it : Prop := ∃ k', k = S k' ∧ left_to_yield started k' it.

Lemma left_le st k k' it : (k ≤ k')%nat → left_to_yield st k it → left_to_yield st k' it.
Proof. intros Hk ((vs & ? & ? & ?) & Hs). split; [|done]. exists vs. split_and!; [done|done|lia]. Qed.
Lemma left_S st k it : left_to_yield st k it → left_to_yield st (S k) it.
Proof. apply left_le. lia. Qed.
Lemma lt_fewer st k k' it : (k < k')%nat → left_to_yield st k it → fewer st k' it.
Proof. intros Hk Hit. exists (pred k'). split; [lia|]. by apply (left_le st k); [lia|]. Qed.
Lemma fewer_left st k it : fewer st k it → left_to_yield st k it.
Proof. intros (k' & -> & ?). by apply left_S. Qed.
Lemma left_started st k it : left_to_yield true k it → left_to_yield st k it.
Proof. intros [? Hs]. split; auto. Qed.
Lemma fewer_started st k it : fewer true k it → fewer st k it.
Proof. intros (k' & ? & ?). exists k'. split; [done|]. by apply left_started. Qed.
Lemma yielded_fewer st k b it : yielded st k b it → fewer st (S k) it.
Proof. intros (? & _). by exists k. Qed.
Lemma yielded_left st k b it : yielded st k b it → left_to_yield st (S k) it.
Proof. intros (? & _). by apply left_S. Qed.

(** White space that is put back at the start of a value is dropped again. *)
Lemma put_back_Reads m it b vs :
  Yielded it b → (is_lws b = false → at_start it = false) → Reads m it vs rest →
  ∃ vs', Reads (S m) (set_next_byte (Some b) it) vs' rest ∧ (vs' = b :: vs ∨ vs' = vs).
Proof.
  intros HY Hs HR. destruct (at_start it) eqn:Ea; [|exists (b :: vs); split; [by apply set_next_byte_Reads|by left]].
  exists vs. split; [|by right]. destruct HY as (E & Est & _ & _), HR as (Hi & Hm & HR).
  unfold stream in *. rewrite E, Est, Ea in *. split; [done|]. split; [simpl in *; lia|].
  simpl. rewrite Est, Ea. destruct (is_lws b); [done|by discriminate (Hs eq_refl)].
Qed.
End Left.

Section Iterators.
Context {R : Type} `{ByteSource R} (n fuel : nat) (Hfuel : (n < fuel)%nat) (rest : list u8).
Context (P : list u8 → Prop) {HP : SuffixClosed P} (st : bool).
Implicit Types it : HeaderValueByteIterator R.
Abbreviation left := (left_to_yield (R:=R) n rest P st).
Abbreviation yielded := (yielded (R:=R) n rest P st).
Abbreviation fewer := (fewer (R:=R) n rest P st).

Lemma next_returns k :
  returns (left k) (Iter.next fuel)
    (λ o it, match o with Some b => ∃ k', k = S k' ∧ yielded k' b it | None => left k it end).
Proof using Hfuel HP.
  intros it [(vs & HR & Hc & Hk) Hst]. destruct vs as [|b vs].
  - destruct (next_none n fuel it rest Hfuel HR) as (it' & -> & [HR' Hs'] & Hf). split; [by exists []|auto].
  - destruct (next_some n fuel it b vs rest Hfuel HR) as (it' & -> & [HR' Hs'] & Hn & HY & Hs).
    destruct k as [|k]; [simpl in Hk; lia|]. simpl in Hk. exists k. split; [done|].
    split; [|split; [|done]]; (split; [|cbn [at_start set_next_byte]; auto]).
    + exists vs. split; [eapply Reads_weaken; [|done]; lia|]. split; [by eapply suffix_closed|lia].
    + destruct (put_back_Reads rest (pred n) it' b vs HY Hs HR') as (vs' & HR2 & Hvs).
      exists vs'. split; [by eapply Reads_weaken; [|done]; lia|].
      destruct Hvs as [->| ->]; (split; [first [done|by eapply suffix_closed]|simpl; lia]).
Qed.

Lemma put_back_returns k b : returns (yielded k b) (Iter.put_back b) (λ _, left (S k)).
Proof.
  intros it (_ & Hl & _). unfold Iter.put_back. rewrite bind_gets.
  destruct (next_byte it); [done|]. exact Hl.
Qed.

Lemma bind_next_returns {A} k (m : option u8 → M (HeaderValueByteIterator R) A) Q :
  returns (left k) (m None) Q → (∀ k' b, k = S k' → returns (yielded k' b) (m (Some b)) Q) →
  returns (left k) (Iter.next fuel ≫= m) Q.
Proof using Hfuel HP.
  intros HN HS. eapply returns_bind; [apply next_returns|]. intros [b|]; [|exact HN].
  intros it (k' & -> & Hy). by apply (HS k' b).
Qed.

(** A loop over the bytes of the value, started with at most as many rounds to
    go as there are bytes. *)
Lemma left_bound k it : left k it → ∃ k', (k' ≤ k)%nat ∧ (k' < fuel)%nat ∧ left k' it.
Proof using Hfuel.
  intros [(vs & HR & Hc & Hk) Hs]. pose proof (Reads_length _ _ _ _ HR). exists (length vs).
  split_and!; [done|lia|]. split; [by exists vs|done].
Qed.

Lemma iter_loop_returns {A B} (body : A → M (HeaderValueByteIterator R) (A + B)) k a :
  (∀ k a, returns (left k) (body a) (λ r it, match r with inl _ => fewer k it | inr _ => left k it end)) →
  returns (left k) (loop fuel body a) (λ _, left k).
Proof using Hfuel.
  intros Hb it (k0 & Hk0 & Hf & Hit)%left_bound.
  apply (returns_loop fuel body (λ k' _ it, left k' it ∧ (k' ≤ k)%nat) (λ _, left k)) with k0; [|done|by split].
  intros k' a'. apply returns_pure. intros Hk'. eapply returns_weaken; [done| |apply Hb].
  intros [a''|b] it'; [intros (k'' & -> & ?); exists k''; split_and!; try done; lia|by apply left_le].
Qed.
End Iterators.

Create HintDb termination.
#[export] Hint Resolve left_S fewer_left yielded_fewer yielded_left left_started fewer_started : termination.

(** Walk through a method that is made of [next], [put_back] and returns. *)
Ltac iter_returns Hf :=
  intros; repeat first
    [ progress (intros)
    | progress unfold Iter.lws_body, Iter.collect_body, Iter.drain_body, Iter.quoted_body
    | match goal with
      | |- returns (left_to_yield ?n ?r ?P ?st ?k) (Iter.next ?f ≫= _) _ => apply (bind_next_returns n f Hf r P st)
      | |- returns (left_to_yield _ _ ?P ?st _) (loop _ _ _) _ => apply (iter_loop_returns _ _ Hf _ P st)
      | |- returns _ (if _ then _ else _) _ => apply returns_if
      | |- returns (yielded _ _ _ _ _ _) (Iter.put_back _ ≫= _) _ => eapply returns_bind; [apply put_back_returns|]
      | |- returns _ (mret _) _ => apply returns_ret
      | |- returns _ (continue _) _ => apply returns_ret
      | |- returns _ (break _) _ => apply returns_ret
      | |- returns _ (match ?x with _ => _ end) _ => destruct x
      end
    | progress simpl | progress simplify_eq | solve [eauto with termination] ].

Section Methods.
Context {R : Type} `{ByteSource R} (n fuel : nat) (Hfuel : (n < fuel)%nat) (rest : list u8).
Context (P : list u8 → Prop) {HP : SuffixClosed P} (st : bool).
Abbreviation left := (left_to_yield (R:=R) n rest P).
Abbreviation returning m := (∀ k, returns (left st k) m (λ _, left st k)).

Lemma consume_lws_returns : returning (Iter.consume_lws fuel).
Proof using Hfuel HP. unfold Iter.consume_lws. iter_returns Hfuel. Qed.

Lemma consume_optional_lws_returns : returning (Iter.consume_optional_lws fuel).
Proof using Hfuel HP. intros k. eapply returns_bind; [apply consume_lws_returns|]. iter_returns Hfuel. Qed.

Lemma verify_consumed_returns : returning (Iter.verify_consumed fuel).
Proof using Hfuel HP. intros k. eapply returns_bind; [apply consume_optional_lws_returns|]. iter_returns Hfuel. Qed.

Lemma some_if_consumed_returns {T} (t : T) : returning (Iter.some_if_consumed fuel t).
Proof using Hfuel HP. intros k. eapply returns_bind; [apply verify_consumed_returns|]. iter_returns Hfuel. Qed.

Lemma collect_to_str_returns : returning (Iter.collect_to_str fuel).
Proof using Hfuel HP. unfold Iter.collect_to_str. iter_returns Hfuel. Qed.

Lemma read_quoted_string_returns opened : returning (Iter.read_quoted_string fuel opened).
Proof using Hfuel HP. unfold Iter.read_quoted_string. iter_returns Hfuel. Qed.

Lemma next_left : returning (Iter.next fuel).
Proof using Hfuel HP.
  intros k. eapply returns_weaken; [done| |apply (next_returns n fuel Hfuel rest P st)].
  intros [b|] it; [intros (k' & -> & Hy); eauto with termination|done].
Qed.

(** A comma that has been consumed is a byte less to yield. *)
Lemma consume_comma_lws_returns k :
  returns (left st k) (Iter.consume_comma_lws fuel)
    (λ c it, match c with CommaConsumed => fewer n rest P st k it | _ => left st k it end).
Proof using Hfuel HP.
  eapply returns_bind; [apply consume_optional_lws_returns|]. intros []. iter_returns Hfuel.
  eapply returns_bind; [eapply returns_weaken; [| |apply consume_optional_lws_returns]|].
  - intros it (Hit & _). exact Hit.
  - intros u it Hit. exact Hit.
  - intros u. apply returns_ret. intros it Hit. by exists k'.
Qed.

(** So is a token that has been read; the value has then started. *)
Lemma read_token_returns k :
  returns (left st k) (Iter.read_token fuel)
    (λ o it, match o with Some _ => fewer n rest P true k it | None => left st k it end).
Proof using Hfuel HP.
  set (so (out : str) := if decide (out = []) then st else true).
  assert (Hl : returns (left st k) (loop fuel (Iter.token_body fuel) [])
    (λ out it, left st k it ∧ (out ≠ [] → fewer n rest P true k it))).
  { intros it (k0 & Hk0 & Hf & Hit)%(left_bound n fuel Hfuel).
    apply (returns_loop fuel (Iter.token_body fuel)
      (λ k' out it, left (so out) k' it ∧ ((k' ≤ k)%nat ∧ (out ≠ [] → (k' < k)%nat)))) with k0; [|done|by split_and!].
    clear it k0 Hk0 Hf Hit. intros k' out. apply returns_pure. intros [Hk' Hout].
    assert (Hstop : ∀ it, left (so out) k' it → left st k it ∧ (out ≠ [] → fewer n rest P true k it)).
    { intros it Hit. unfold so in Hit. case_decide; [split; [by eapply left_le|done]|].
      split; [by apply left_started; eapply left_le|]. intros _. eapply lt_fewer; [by apply Hout|done]. }
    unfold Iter.token_body. apply (bind_next_returns n fuel Hfuel rest P (so out)); [by apply returns_ret|].
    intros k1 b ->. apply returns_if; intros Hsep; [|apply returns_if; intros Hitem].
    - eapply returns_bind; [apply put_back_returns|]. intros []. by apply returns_ret.
    - apply returns_ret. intros it (Hit & _ & Hs). exists k1. split_and!; try lia.
      unfold so. rewrite decide_False by (by destruct out). split; [apply Hit|]. intros _. apply Hs.
      destruct (is_lws b) eqn:Hlws; [|done]. by rewrite lws_separator in Hsep.
    - apply returns_ret. intros it (Hit & _). exists k1. split_and!; [lia|exact Hit|lia|].
      intros Hne. specialize (Hout Hne). lia. }
  eapply returns_bind; [exact Hl|]. intros out. apply returns_ret. intros it [? ?]. case_bool_decide; auto.
Qed.

Lemma read_token_left : returning (Iter.read_token fuel).
Proof using Hfuel HP.
  intros k. eapply returns_weaken; [done| |apply read_token_returns]. intros [s|] it; eauto with termination.
Qed.

(** After the value has been read to its end, what follows it is left. *)
Lemma drain_returns k :
  returns (left st k) (Iter.drain fuel) (λ _ it, Reads n it [] rest ∧ it_state it = Finished).
Proof using Hfuel.
  intros it [(vs & HR & _) _]. by destruct (drain_spec n fuel it vs rest Hfuel HR) as (it' & -> & [? _] & ?).
Qed.
End Methods.

(** ** Parameters

    A value whose parameters can all be read: wherever a semicolon starts a
    parameter, its value is a quoted string or the last token there is. *)
Definition parameters_end (vs : list u8) : Prop :=
  ∀ p q, vs = p ++ chr ";" :: q → value_parameter q ≠ Diverge.
#[global] Instance parameters_end_closed : SuffixClosed parameters_end.
Proof. intros b vs Hvs p q ->. by apply (Hvs (b :: p) q). Qed.

Lemma parameters_end_suffix vs vs' : vs' `suffix_of` vs → parameters_end vs → parameters_end vs'.
Proof. intros [l ->] Hvs p q ->. apply (Hvs (l ++ p) q). by rewrite app_assoc. Qed.

(** A method on the value that only takes bytes off its front. *)
Definition takes {A} (m : M (list u8) A) : Prop :=
  ∀ vs, match m vs with Done (_, vs') => vs' `suffix_of` vs | Fail _ => False | Diverge => True end.

Lemma takes_ret {A} (a : A) : takes (mret a).
Proof. intros vs. exists []. done. Qed.
Lemma takes_bind {A B} (m : M (list u8) A) (k : A → M (list u8) B) :
  takes m → (∀ a, takes (k a)) → takes (m ≫= k).
Proof.
  intros Hm Hk vs. rewrite bind_unfold. specialize (Hm vs). destruct (m vs) as [[a vs1]| |]; [|done|done].
  specialize (Hk a vs1). destruct (k a vs1) as [[b vs2]| |]; [by etrans|done|done].
Qed.

Lemma drop_lws_suffix vs : drop_lws vs `suffix_of` vs.
Proof. induction vs as [|b vs IH]; [done|]. simpl. destruct (is_lws b); [by apply suffix_cons_r|done]. Qed.
Lemma split_token_suffix vs : (split_token vs).2 `suffix_of` vs.
Proof.
  induction vs as [|b vs IH]; [done|]. simpl. destruct (is_separator b); [done|].
  destruct (split_token vs) as [t r]. by apply suffix_cons_r.
Qed.
Lemma scan_suffix {A B} (step : A → u8 → A + B * bool) fin vs : ∀ a, (scan step fin a vs).2 `suffix_of` vs.
Proof.
  induction vs as [|b vs IH]; intros a; [done|]. simpl.
  destruct (step a b) as [a'|[r []]]; simpl; [by apply suffix_cons_r|done|by apply suffix_cons_r].
Qed.
Lemma token_or_quoted_takes : takes token_or_quoted.
Proof.
  intros [|b vs]; [by exists []|]. unfold token_or_quoted. destruct (b =? DOUBLE_QUOTE).
  - pose proof (scan_suffix quoted_step (λ _, None) vs (quoted.Normal, [])) as Hs. unfold quoted_scan.
    destruct (scan _ _ _ _) as [o vs']. by apply suffix_cons_r.
  - destruct (existsb is_separator (b :: vs)); [done|]. apply suffix_nil.
Qed.

Lemma value_parameter_takes : takes value_parameter.
Proof.
  assert (Hlws : takes (modify drop_lws)) by (intros vs; apply drop_lws_suffix).
  apply takes_bind; [done|intros _]. apply takes_bind; [intros vs; apply split_token_suffix|].
  intros [key|]; [|apply takes_ret]. apply takes_bind; [done|intros _].
  apply takes_bind; [intros [|b vs]; [by exists []|by apply suffix_cons_r]|]. intros ob.
  case_bool_decide; [|apply takes_ret]. apply takes_bind; [done|intros _].
  apply takes_bind; [apply token_or_quoted_takes|]. intros [v|]; [|apply takes_ret].
  apply takes_bind; [done|intros _]. apply takes_ret.
Qed.

Lemma value_parameters_end fuel : ∀ vs acc,
  parameters_end vs → (length vs < fuel)%nat →
  ∃ o vs', loop fuel value_parameters_body acc vs = Done (o, vs') ∧ vs' `suffix_of` vs.
Proof.
  induction fuel as [|fuel IH]; intros vs acc Hvs Hf; [lia|]. rewrite loop_S, bind_unfold.
  unfold value_parameters_body at 1, value_next. destruct vs as [|b vs]; [by exists (Some acc), []|].
  rewrite (bind_Done _ _ (b :: vs) (Some b) vs) by done. destruct (Z.eqb_spec b (chr ";")) as [->|Hb].
  - pose proof (Hvs [] vs eq_refl) as Hd. pose proof (value_parameter_takes vs) as Ht. rewrite bind_unfold.
    destruct (value_parameter vs) as [[[p|] vs1]| |]; [| |done|done].
    + destruct (IH vs1 (acc ++ [p])) as (o & vs' & E & Hs).
      { eapply parameters_end_suffix; [|done]. by apply suffix_cons_r. }
      { apply suffix_length in Ht. simpl in Hf. lia. }
      exists o, vs'. split; [done|]. etrans; [done|]. by apply suffix_cons_r.
    + exists None, vs1. split; [done|]. by apply suffix_cons_r.
  - by exists (Some acc), (b :: vs).
Qed.

Lemma read_parameters_returns {R} `{ByteSource R} n fuel (Hfuel : (n < fuel)%nat) rest k :
  returns (left_to_yield (R:=R) n rest parameters_end true k) (Iter.read_parameters fuel)
    (λ _, left_to_yield n rest parameters_end true k).
Proof.
  intros it [(vs & HR & Hvs & Hk) Hs]. pose proof (Reads_length _ _ _ _ HR).
  destruct (value_parameters_end fuel vs [] Hvs ltac:(lia)) as (o & vs' & E & Hsuf).
  destruct (msim_Done _ _ _ _ it vs o vs' (read_parameters_sim n fuel rest Hfuel)) as (it' & -> & HR' & Hs');
    [split; auto|done|].
  split; [|done]. exists vs'. split; [done|]. split; [by eapply parameters_end_suffix|].
  apply suffix_length in Hsuf. lia.
Qed.

(** ** Reading the value of a header *)
Class TotalRead (P : list u8 → Prop) (T : Type) `{HeaderConvertible T} := {
  read_returns R (HR : Reader R) (HS : ByteSource R) n fuel rest (Hfuel : (n < fuel)%nat) k :
    returns (left_to_yield (R:=R) n rest P false k) (from_stream (T:=T) fuel) (λ _, left_to_yield n rest P false k)
}.

(** A method that starts with one that returns. *)
Lemma bind_returning {S A B} (P : S → Prop) (m : M S A) (k : A → M S B) Q :
  returns P m (λ _, P) → (∀ a, returns P (k a) Q) → returns P (m ≫= k) Q.
Proof. intros Hm Hk. by eapply returns_bind. Qed.

Lemma normalise_total s : normalise_header_name s ≠ Diverge.
Proof.
  unfold normalise_header_name. destruct (is_ascii s) eqn:E;
    [by rewrite normalise_go_ascii | by rewrite normalise_go_fail].
Qed.

Lemma from_str_or_new_total s : from_str_or_new s ≠ Diverge.
Proof. unfold from_str_or_new. by destruct (negb _). Qed.

#[export] Hint Resolve collect_to_str_returns read_quoted_string_returns some_if_consumed_returns
  read_parameters_returns consume_optional_lws_returns read_token_left next_left
  normalise_total from_str_or_new_total returns_call parameters_end_closed anything_closed : termination.
Ltac value_returns :=
  intros; repeat first
    [ progress intros
    | solve [eauto with termination]
    | apply returns_ret
    | apply bind_returning; [solve [eauto with termination]|]
    | apply returns_if
    | match goal with
      | |- returns _ (match ?x with _ => _ end) _ => destruct x
      end ].

Section Values.
Context (P : list u8 → Prop) `{HP : SuffixClosed P}.
#[global] Instance str_total : TotalRead P header_str.
Proof using HP. constructor. value_returns. Qed.
#[global] Instance uint_total : TotalRead P uint.
Proof using HP. constructor. value_returns. Qed.
#[global] Instance Url_total `{UrlOps} : TotalRead P Url.
Proof using HP. constructor. value_returns. Qed.
#[global] Instance Tm_total `{TimeOps} : TotalRead P Tm.
Proof using HP. constructor. value_returns. Qed.
#[global] Instance Host_total : TotalRead P Host.
Proof using HP. constructor. value_returns. Qed.
#[global] Instance Connection_total : TotalRead P Connection.
Proof using HP. constructor. unfold from_stream; simpl; unfold Connection_from_stream. value_returns. Qed.
#[global] Instance Method_total : TotalRead P Method.
Proof using HP. constructor. unfold from_stream; simpl; unfold Method_from_stream. value_returns. Qed.
#[global] Instance EntityTag_total : TotalRead P EntityTag.
Proof using HP.
  constructor. unfold from_stream; simpl; unfold EntityTag_from_stream. value_returns; apply bind_returning; value_returns.
Qed.
(** Each round of the loop over range units takes a token. *)
#[global] Instance AcceptableRanges_total : TotalRead P AcceptableRanges.
Proof using HP.
  constructor. intros R HR HS n fuel rest Hfuel k. apply bind_returning; [|value_returns].
  apply (iter_loop_returns n fuel Hfuel). intros k' us. unfold ranges_body.
  eapply returns_bind; [apply (read_token_returns n fuel Hfuel rest P)|]. intros [token|]; [|by apply returns_ret].
  repeat (apply returns_if; intros _); apply returns_ret; eauto with termination.
Qed.
(** Each round of the loop over a comma list takes a comma. *)
#[global] Instance comma_list_total {T} `{TotalRead P T} : TotalRead P (list T).
Proof using HP.
  constructor. intros R HR HS n fuel rest Hfuel k. apply (iter_loop_returns n fuel Hfuel). intros k' xs.
  unfold list_from_body. apply bind_returning; [by apply read_returns|]. intros [x|]; [|by apply returns_ret].
  eapply returns_bind; [apply (consume_comma_lws_returns n fuel Hfuel rest P)|]. intros []; by apply returns_ret.
Qed.
End Values.

(** The types that have parameters. *)
Section Parameterised.
Context {R : Type} `{ByteSource R} (n fuel : nat) (Hfuel : (n < fuel)%nat) (rest : list u8).
Abbreviation left := (left_to_yield (R:=R) n rest parameters_end).

(** After a token, reading goes on where white space counts. *)
Lemma after_token {A} k (m : option str → M (HeaderValueByteIterator R) A) :
  returns (left false k) (m None) (λ _, left false k) →
  (∀ s, returns (left true k) (m (Some s)) (λ _, left true k)) →
  returns (left false k) (Iter.read_token fuel ≫= m) (λ _, left false k).
Proof using Hfuel.
  intros HN HS. eapply returns_bind; [apply (read_token_returns n fuel Hfuel rest parameters_end)|].
  intros [s|]; [|done]. eapply returns_weaken; [| |apply (HS s)]; eauto with termination.
Qed.
End Parameterised.

#[global] Instance TransferCoding_total : TotalRead parameters_end TransferCoding.
Proof.
  constructor. intros R HR HS n fuel rest Hfuel k. apply (after_token n fuel Hfuel); value_returns.
Qed.
#[global] Instance MediaType_total : TotalRead parameters_end MediaType.
Proof.
  constructor. intros R HR HS n fuel rest Hfuel k. apply (after_token n fuel Hfuel); value_returns.
Qed.

(** ** Reading a header *)

(** The names of headers whose values have parameters. *)
Definition row_parameters (tbl : table) (name : str) : bool :=
  match find_row name 0 tbl with
  | Some (_, r) => match row_kind r with KMediaType | KTransferCodings => true | _ => false end
  | None => false
  end.
Definition parameterised (tbl : table) (name : str) : bool :=
  match normalise_header_name name with Done n => row_parameters tbl n | _ => false end.

(** Bytes in which no header has parameters that cannot be read: wherever the
    name of such a header stands before a colon, what follows is such a value. *)
Definition calm (tbl : table) (l : list u8) : Prop :=
  ∀ p name q l2, l = p ++ name ++ q ++ COLON :: l2 → Forall (λ c, c = SP) q → parameterised tbl name = true →
    parameters_end (unfold_value true false l2).1.

Lemma calm_suffix tbl l l' : l' `suffix_of` l → calm tbl l → calm tbl l'.
Proof. intros [x ->] Hc p name q l2 ->. apply (Hc (x ++ p)). by rewrite app_assoc. Qed.

Section Header.
Context `{UrlOps} `{TimeOps} {R : Type} {HR : Reader R} {HS : ByteSource R} (tbl : table) (fuel : nat).

Lemma value_from_stream_returns n rest (Hfuel : (n < fuel)%nat) P `{SuffixClosed P} name k :
  (row_parameters tbl name = true → P = parameters_end) →
  returns (left_to_yield (R:=R) n rest P false k) (value_from_stream tbl fuel name) (λ _, left_to_yield n rest P false k).
Proof using Type.
  unfold value_from_stream, row_parameters. destruct (find_row name 0 tbl) as [[i r]|]; [|value_returns].
  intros HPar. apply bind_returning; [|value_returns].
  destruct (row_kind r); try rewrite (HPar eq_refl); (apply bind_returning; [by apply read_returns|value_returns]).
Qed.

(** What follows the value has been left to read: after the byte that is
    returned, in the reader. *)
Lemma header_line_value_returns name (l : list u8) :
  (parameterised tbl name = true → parameters_end (unfold_value true false l).1) → (length l < fuel)%nat →
  returns (λ r, source_inv r ∧ pending r = l) (header_line_value (R:=R) tbl fuel name)
    (λ r s, source_inv s ∧ match r.1 with Ok _ | Err MalformedHeaderValue => True | _ => False end
       ∧ option_list r.2 ++ pending s `suffix_of` l).
Proof using Type.
  intros Hl Hf r [Hi Hp]. unfold header_line_value.
  destruct (unfold_value true false l) as [vs rest] eqn:E.
  pose proof (unfold_value_shape _ _ _ _ _ E) as [_ Hsuf].
  set (P := if parameterised tbl name then parameters_end else λ _, True).
  assert (HP : SuffixClosed P) by (unfold P; destruct (parameterised tbl name); apply _).
  assert (Hret : returns (left_to_yield (R:=R) (length l) rest P false (length vs)) (header_of_iter tbl fuel name)
    (λ x it, Reads (length l) it [] rest ∧ it_state it = Finished ∧ x.2 = next_byte it)).
  { intros it Hit. unfold header_of_iter. rewrite bind_unfold. unfold call.
    destruct (normalise_header_name name) as [nm|e|] eqn:En; [|done|by destruct (normalise_total name)].
    assert (HPar : row_parameters tbl nm = true → P = parameters_end)
      by (intros Hrow; unfold P, parameterised; by rewrite En, Hrow).
    revert it Hit. apply bind_returning; [by apply value_from_stream_returns|]. intros h.
    eapply returns_bind; [by apply drain_returns|]. intros [].
    eapply returns_bind; [apply returns_gets|]. intros nb. apply returns_ret. intros it [[? ?] ?]. by split_and!. }
  assert (Hnew : left_to_yield (length l) rest P false (length vs) (Iter.new r)).
  { split; [|done]. exists vs. pose proof (new_Reads r (length l) Hi) as HR0. rewrite Hp, E in HR0.
    split_and!; [by apply HR0| |done]. unfold P. destruct (parameterised tbl name); [by apply Hl|done]. }
  specialize (Hret (Iter.new r) Hnew). destruct (header_of_iter tbl fuel name (Iter.new r)) as [[[h nb] it]|e|]; [|done|done].
  destruct Hret as ((Hi' & _ & Hst) & Hst' & Hnb). cbn [snd] in Hnb. subst nb.
  rewrite Hst' in Hst. destruct Hst as (_ & Hst & _). unfold stream in Hst.
  destruct h as [h|]; cbn [fst snd]; by rewrite Hst.
Qed.
End Header.

Section HeaderLine.
Context `{UrlOps} `{TimeOps} {R : Type} {HR : Reader R} {HS : ByteSource R} (tbl : table) (fuel : nat).

(** At most [j] bytes are left to read, and they are calm. *)
Definition to_read (j : nat) (r : R) : Prop :=
  source_inv r ∧ calm tbl (pending r) ∧ (length (pending r) ≤ j)%nat.

(** Inside the name loop, started with [l] to read: some bytes, the name read
    so far, and spaces after it have been taken. *)
Definition in_name (l : list u8) (sn : name_state * str) (r : R) : Prop :=
  ∃ p q, l = p ++ sn.2 ++ q ++ pending r ∧ Forall (λ c, c = SP) q
    ∧ match sn.1 with Start => sn.2 = [] ∧ q = [] | ReadingName => q = [] | _ => True end.

(** A round of the name loop takes a byte. *)
Lemma name_body_step l sn r b l' :
  source_inv r → in_name l sn r → pending r = b :: l' → (0 < fuel)%nat →
  ∃ x r', name_body fuel sn r = Done (x, r') ∧ source_inv r' ∧ source_fresh r' ∧ pending r' = l'
    ∧ match x with
      | inl sn' => in_name l sn' r'
      | inr (Ok name) => ∃ p q, l = p ++ name ++ q ++ COLON :: l' ∧ Forall (λ c, c = SP) q
      | inr (Err e) => e = EndOfFile ∨ e = EndOfHeaders ∨ e = MalformedHeaderSyntax
      end.
Proof using Type.
  intros Hi (p & q & Hl & Hq & Hst) Hp Hf. destruct (read_byte_fresh fuel r Hi Hf) as (r' & E & Hi' & Hf' & Hp').
  rewrite Hp in E, Hp', Hl. cbn [head tail] in E, Hp'. destruct sn as [st name]. cbn [fst snd] in *.
  unfold name_body. rewrite (bind_Done _ _ _ _ _ E). cbn beta iota zeta.
  set (reading := match st with Start | ReadingName => true | _ => false end).
  destruct (reading && is_token_item b) eqn:E1.
  { eexists _, r'. split; [done|]. split_and!; try done. exists p, []. cbn [fst snd]. split_and!; try done.
    assert (q = []) as -> by (destruct st; simpl in *; by destruct_and?). rewrite Hl, Hp'. by rewrite <-!app_assoc. }
  destruct (match st with Start => true | _ => false end && (b =? CR)) eqn:E2.
  { eexists _, r'. split; [done|]. split_and!; try done. exists (p ++ name ++ q ++ [b]), []. cbn [fst snd].
    destruct st; try done. destruct Hst as [-> ->]. split_and!; try done. rewrite Hl, Hp'. by rewrite <-!app_assoc. }
  destruct (match st with Start | GotCR => true | _ => false end && (b =? LF)).
  { eexists _, r'. split; [done|]. split_and!; auto. }
  destruct (Z.eqb_spec b SP) as [->|_].
  { eexists _, r'. split; [done|]. split_and!; try done. exists p, (q ++ [SP]). cbn [fst snd].
    split_and!; try done; [rewrite Hl, Hp'; by rewrite <-!app_assoc|]. apply Forall_app. split; [done|by repeat constructor]. }
  destruct (Z.eqb_spec b COLON) as [->|_]; eexists _, r'; (split; [done|]); split_and!; auto. by exists p, q.
Qed.

Lemma name_loop_returns j :
  (j < fuel)%nat →
  returns (to_read j) (loop fuel (name_body (R:=R) fuel) (Start, []))
    (λ x r, match x with
            | Ok name => source_fresh r ∧ source_inv r ∧ calm tbl (pending r) ∧ (length (pending r) < j)%nat
                ∧ (parameterised tbl name = true → parameters_end (unfold_value true false (pending r)).1)
            | Err e => (e = EndOfFile ∨ e = EndOfHeaders ∨ e = MalformedHeaderSyntax) ∧ source_inv r ∧ source_fresh r
            end).
Proof using Type.
  intros Hj r0 (Hi0 & Hc0 & Hl0). remember (pending r0) as l eqn:El.
  apply (returns_loop fuel (name_body fuel)
    (λ k sn r, (source_inv r ∧ in_name l sn r) ∧ ((length (pending r) ≤ k)%nat ∧ (k ≤ j)%nat))) with j; [|done|].
  2: { rewrite <-El. split_and!; try done. exists [], []. rewrite <-El. by split_and!. }
  clear r0 Hi0 Hl0 El. intros k sn r ((Hi & Hin) & Hl & Hk). destruct (pending r) as [|b l'] eqn:Ep.
  - destruct (read_byte_fresh fuel r Hi ltac:(lia)) as (r' & E & Hi' & Hf' & _). rewrite Ep in E.
    unfold name_body. destruct sn. rewrite (bind_Done _ _ _ _ _ E). cbn. by split_and!; [left|..].
  - destruct (name_body_step l sn r b l' Hi Hin Ep ltac:(lia)) as (x & r' & E & Hi' & Hf' & Hp' & Hx).
    rewrite E. simpl in Hl. destruct x as [sn'|[name|e]]; [|destruct Hx as (p & q & Hlq & Hq)|done].
    + exists (length l'). rewrite Hp'. split_and!; try done; lia.
    + rewrite Hp'. split_and!; try done; [|lia|].
      * eapply calm_suffix; [|exact Hc0]. exists (p ++ name ++ q ++ [COLON]). rewrite Hlq. by rewrite <-!app_assoc.
      * intros Hn. by apply (Hc0 p name q l' Hlq Hq Hn).
Qed.

Lemma header_enum_returns j :
  (j < fuel)%nat →
  returns (to_read j) (header_enum_from_stream (R:=R) tbl fuel)
    (λ x r, source_inv r ∧ source_fresh r ∧
       match x.1 with
       | Ok _ | Err MalformedHeaderValue =>
           calm tbl (option_list x.2 ++ pending r) ∧ (length (option_list x.2 ++ pending r) < j)%nat
       | Err _ => x.2 = None
       end).
Proof using Type.
  intros Hj. eapply returns_bind; [by apply name_loop_returns|]. intros [name|e].
  - intros r (Hf & Hi & Hc & Hl & Hpar).
    pose proof (header_line_value_returns (HS:=fresh_source HS) tbl fuel name (pending r) Hpar ltac:(lia) r (conj (conj Hi Hf) eq_refl)) as E.
    destruct (header_line_value tbl fuel name r) as [[[h nb] r']| |]; [|done|done]. cbn [fst snd] in E.
    destruct E as ([Hi' Hf'] & Hh & Hsuf). split; [done|]. split; [done|]. cbn [fst snd].
    assert (Hlen : (length (option_list nb ++ pending r') ≤ length (pending r))%nat) by (by apply suffix_length).
    assert (Hn : calm tbl (option_list nb ++ pending r')) by (by eapply calm_suffix).
    destruct h as [h|[]]; try done; split; try done; lia.
  - apply returns_ret. intros r ([->|[->| ->]] & Hi & Hf); by split_and!.
Qed.
End HeaderLine.

(** ** Reading the headers of a message *)
Section Messages.
Context {S : Type} `{ByteSource S} (F : BufferedStream S → Prop) (HF : read_stable F).
Context `{UrlOps} `{TimeOps} (tbl : table) (fuel : nat).
Local Instance Src : ByteSource (BufferedStream S) := BufferedStream_source F HF.

Definition rb_to_read (j : nat) (b : RequestBuffer S) : Prop := to_read tbl j (rb_stream b).

(** A header that has been read, or whose value is malformed, is a byte less to read. *)
Lemma read_header_returns j :
  (j < fuel)%nat →
  returns (rb_to_read j) (request_buffer.read_header fuel tbl)
    (λ x b, match x with
            | Ok _ | Err MalformedHeaderValue => ∃ j', (j' < j)%nat ∧ rb_to_read j' b
            | Err _ => True
            end).
Proof using Type.
  intros Hj b Hb. unfold request_buffer.read_header. rewrite bind_unfold.
  pose proof (header_enum_returns tbl fuel j Hj (rb_stream b) Hb) as E.
  unfold request_buffer.on_stream at 1, zoom at 1.
  destruct (header_enum_from_stream tbl fuel (rb_stream b)) as [[[h nb] s1]| |]; [|done|done].
  destruct E as (Hi & Hf & Hh). cbn [fst snd] in Hh. destruct nb as [c|]; cycle 1.
  { destruct h as [h|[]]; try done; destruct Hh as [Hc Hl]; by exists (length (bs_pending s1)). }
  destruct (on_stream_sim fresh_rel src_rel (poke_byte c) (λ l, Done (tt, c :: l))
    (request_buffer.set_stream s1 b) (bs_pending s1) tt (c :: bs_pending s1) (poke_byte_sim F HF c))
    as (b2 & E2 & [Hi2 Hp2] & _); [split; [split; [exact Hi|reflexivity]|exact Hf]|done|].
  rewrite (bind_Done _ _ _ _ _ E2). cbn [mret M_ret].
  assert (Hless : calm tbl (c :: bs_pending s1) ∧ (length (c :: bs_pending s1) < j)%nat →
    ∃ j', (j' < j)%nat ∧ rb_to_read j' b2).
  { intros [Hc Hl]. exists (length (c :: bs_pending s1)). split; [done|]. split; [done|].
    change (pending (rb_stream b2)) with (bs_pending (rb_stream b2)). change (bs_pending (rb_stream b2) = c :: bs_pending s1) in Hp2.
    rewrite Hp2. by split. }
  destruct h as [h|[]]; try done; by apply Hless.
Qed.

(** A loop that stops at any other error. *)
Lemma header_loop_returns {A B} (body : A → M (RequestBuffer S) (A + B)) a j :
  (∀ a, ∃ k, body a = request_buffer.read_header fuel tbl ≫= k
     ∧ ∀ x b, match k x b with
              | Done (inl _, b') => b' = b ∧ match x with Ok _ | Err MalformedHeaderValue => True | Err _ => False end
              | Diverge => False
              | _ => True
              end) →
  (j < fuel)%nat → returns (rb_to_read j) (loop fuel body a) (λ _ _, True).
Proof using Type.
  intros Hb Hj b0 Hb0.
  apply (returns_loop fuel body (λ k _ b, rb_to_read k b ∧ (k ≤ j)%nat)) with j; [|done|by split].
  clear b0 Hb0 a. intros i a. apply returns_pure. intros Hi. destruct (Hb a) as (k & -> & Hk).
  eapply returns_bind; [apply read_header_returns; lia|]. intros x b Hx. specialize (Hk x b).
  destruct (k x b) as [[[a'|r] b']| |]; [|done|done|done]. destruct Hk as [-> Hk].
  assert (Hless : ∃ j', (j' < i)%nat ∧ rb_to_read j' b) by (destruct x as [h|[]]; done).
  destruct Hless as (j' & ? & ?). exists j'. split_and!; try done. lia.
Qed.
End Messages.

Lemma headers_loop_returns `{UrlOps} `{TimeOps} F (HF : read_stable (T:=TcpStream) F) fuel j request :
  (j < fuel)%nat →
  returns (rb_to_read F HF request_table j) (loop fuel (headers_body fuel) request) (λ _ _, True).
Proof.
  intros Hj. apply (header_loop_returns F HF request_table fuel); [|done]. intros r. eexists. split; [reflexivity|]. by intros [h|[]] b.
Qed.

Lemma read_response_headers_returns `{UrlOps} `{TimeOps} {S} `{ByteSource S} (s : BufferedStream S) fuel :
  stream_wf s → calm response_table (bs_pending s) → (length (bs_pending s) < fuel)%nat →
  response_reader.read_response_headers fuel s ≠ Diverge.
Proof.
  intros Hwf%stream_wf_inv Hc Hf. unfold response_reader.read_response_headers, zoom.
  pose proof (header_loop_returns _ True_read_stable response_table fuel (response_reader.response_headers_body fuel)
    (collection_new response_table) (length (bs_pending s))) as Hl.
  specialize (Hl ltac:(intros c; eexists; split; [reflexivity|]; by intros [h|[]] b) Hf (request_buffer.new s)).
  specialize (Hl (conj Hwf (conj Hc (le_n _)))). by destruct (loop _ _ _ _) as [[? ?]| |].
Qed.

(** ** The theorems *)

(** C10. [Request::load] returns: on every input in which no Content-Type or
    Transfer-Encoding after the request line has parameters that cannot be
    read, however malformed, cut short or fragmented it is, it returns a
    request with its status, or fails the task because the client has
    disconnected; it does not loop. *)
Theorem load_terminates `{UrlOps} `{TimeOps} (s : BufferedStream TcpStream) fuel :
  stream_wf s → (∀ x rest, request_line (bs_pending s) x rest → calm request_table rest) →
  (length (bs_pending s) + 6 < fuel)%nat →
  (∃ request status s', load fuel s = Done (request, status, s'))
  ∨ load fuel s = Fail "client disconnected, nowhere to send response".
Proof.
  intros Hwf Hc Hf. assert (Hd : load fuel s ≠ Diverge).
  { unfold load. rewrite bind_gets. unfold zoom, load_body.
    destruct (read_request_line_spec _ True_read_stable (request_buffer.new s) fuel (bs_pending s))
      as (o & b1 & E1 & Ho); [by apply stream_wf_inv in Hwf|done|].
    rewrite (bind_Done _ _ _ _ _ E1). destruct o as [[[m ru] v]|e']; [|done].
    destruct Ho as (rest & Hline & [[Hb1 Hp1] _]). pose proof (request_line_length _ _ _ Hline) as Hl.
    cbn zeta. set (req := set_line m ru v _).
    pose proof (headers_loop_returns _ True_read_stable fuel (length rest) req ltac:(lia) b1) as Hloop.
    change (bs_pending (rb_stream b1) = rest) in Hp1. specialize (Hc _ _ Hline). rewrite <-Hp1 in Hc, Hloop.
    specialize (Hloop (conj Hb1 (conj Hc (le_n _)))).
    repeat case_bool_decide; rewrite ?bind_unfold; try done;
      by destruct (loop fuel (headers_body fuel) req b1) as [[[r [[]|e1]] b2]| |]. }
  destruct (load fuel s) as [[[request status] s']|e|] eqn:E; [left; eauto| |done].
  right. f_equal. by apply (load_fails _ True_read_stable s fuel); [apply stream_wf_inv|..].
Qed.



(** A request with a parameter and a malformed header, and a response cut in
    its headers. *)
Fixpoint parameters_check (vs : list u8) : bool :=
  match vs with
  | [] => true
  | b :: vs' =>
      (if b =? chr ";" then match value_parameter vs' with Diverge => false | _ => true end else true)
      && parameters_check vs'
  end.
Fixpoint calm_check (l : list u8) : bool :=
  match l with
  | [] => true
  | b :: l' => (if b =? COLON then parameters_check (unfold_value true false l').1 else true) && calm_check l'
  end.

Lemma parameters_check_end vs : parameters_check vs = true → parameters_end vs.
Proof.
  induction vs as [|b vs IH]; [by intros _ [] q|]. cbn [parameters_check]. intros [Hb Hvs]%andb_true_iff.
  intros [|c p] q E; injection E as -> ->; [|by apply (IH Hvs p q)].
  rewrite Z.eqb_refl in Hb. by destruct (value_parameter q).
Qed.

Lemma calm_check_calm tbl l : calm_check l = true → calm tbl l.
Proof.
  intros Hl p name q l2 E _ _. rewrite !app_assoc in E. revert E. generalize ((p ++ name) ++ q). clear p name q.
  induction l as [|b l IH]; [by intros []|]. cbn [calm_check] in Hl. apply andb_true_iff in Hl as [Hb Hl].
  intros [|c p] E; injection E as -> ->; [|by apply (IH Hl p)].
  rewrite Z.eqb_refl in Hb. by apply parameters_check_end.
Qed.

Definition malformed_text : list u8 :=
  lit "Content-Type: text/html; charset=utf-8" ++ [CR; LF] ++ lit "Connection: ,," ++ [CR; LF; CR; LF].
Definition malformed_request : BufferedStream TcpStream :=
  tcp_stream [lit "GET /a HTTP/1.1" ++ [CR; LF]; malformed_text].
Definition cut_text : list u8 := lit "Allow GET".
Definition cut_response : BufferedStream TcpStream :=
  tcp_stream [lit "HTTP/1.1 200 OK" ++ [CR; LF]; cut_text].

Lemma load_terminates_witness :
  (∃ request status s', load (H:=text_urls) (H0:=second_times) 100 malformed_request = Done (request, status, s'))
  ∨ load (H:=text_urls) (H0:=second_times) 100 malformed_request = Fail "client disconnected, nowhere to send response".
Proof.
  assert (E : bs_pending malformed_request
    = lit "GET" ++ SP :: lit "/a" ++ SP :: lit "HTTP/1.1" ++ CR :: LF :: malformed_text) by (vm_compute; reflexivity).
  apply (load_terminates (H:=text_urls) (H0:=second_times) malformed_request 100).
  - apply tcp_stream_wf. repeat constructor; discriminate.
  - rewrite E. intros x rest Hx.
    destruct (request_line_inj (H:=text_urls) _ _ _ _ _ Hx (example_request_line malformed_text)) as [_ ->].
    apply calm_check_calm. vm_compute. reflexivity.
  - vm_compute. lia.
Defined.

