(* ===== verification/Hangs.v ===== *)
(** * A header that hangs the server

    The other side of Termination.v: a Content-Type whose parameter has a
    token as its value, with anything after it, sends the parser of headers
    into an endless loop.  A request with such a header is never answered: the
    task of its connection goes round for ever in
    [read_token_or_quoted_string] (src/libhttp/headers/mod.rs), which puts the
    separator after the token back and reads it again. *)

From S2P Require Import Prelude Strs Rfc2616 Method Io Buffer Common Chunked SerializationUtils HeaderIter HeaderValues Headers Status Branchify ServerRequest ServerResponse Server.

(** ** On the value *)
Lemma value_parameter_diverges k v sep more :
  token_ok k → token_ok v → is_separator sep = true →
  value_parameter (k ++ chr "=" :: v ++ sep :: more) = Diverge.
Proof.
  intros [Hk0 Hk] [Hv0 Hv] Hsep. unfold value_parameter.
  rewrite bind_modify, drop_lws_token by done. unfold value_token at 1.
  rewrite bind_unfold, split_token_app; [|done|reflexivity]. cbn [fst snd].
  unfold non_empty. rewrite bool_decide_false by done.
  rewrite bind_modify. cbn [drop_lws]. change (is_lws (chr "=")) with false. cbn iota.
  unfold value_next. rewrite bind_unfold. cbn [head tail]. rewrite bool_decide_true by done.
  rewrite bind_modify, drop_lws_token by done. rewrite bind_unfold. unfold token_or_quoted.
  destruct v as [|b v]; [done|]. cbn [app].
  destruct (Z.eqb_spec b DOUBLE_QUOTE) as [->|]; [by apply Forall_cons in Hv as [? _]|].
  replace (existsb is_separator (b :: v ++ sep :: more)) with true; [done|].
  symmetry. apply existsb_exists. exists sep. split; [|done]. right. apply in_or_app. right. by left.
Qed.

(** The text of the value up to the separator that is put back. *)
Definition hanging_value (t sub k v : str) (sep : u8) : list u8 :=
  t ++ chr "/" :: sub ++ chr ";" :: k ++ chr "=" :: v ++ [sep].

Lemma hanging_value_app t sub k v sep more :
  hanging_value t sub k v sep ++ more = t ++ chr "/" :: sub ++ chr ";" :: k ++ chr "=" :: v ++ sep :: more.
Proof. unfold hanging_value. repeat (rewrite <-app_assoc; cbn [app]). done. Qed.

Lemma hanging_value_text t sub k v sep :
  token_ok t → token_ok sub → token_ok k → token_ok v → is_separator sep = true →
  Forall is_text (hanging_value t sub k v sep).
Proof.
  intros [_ Ht] [_ Hs] [_ Hk] [_ Hv] Hsep.
  assert (Htok : ∀ s, Forall (λ b, is_token_item b = true) s → Forall is_text s).
  { intros s Hall. eapply Forall_impl; [exact Hall|]. intros b Hb. split; intros ->; done. }
  unfold hanging_value. repeat (apply Forall_app; split; [by apply Htok|]; try (apply Forall_cons; split; [by split|])).
  repeat constructor; intros ->; done.
Qed.

(** ** On the iterator *)
Lemma MediaType_diverges {R} `{ByteSource R} n fuel (it : HeaderValueByteIterator R) t sub k v sep more rest :
  (n < fuel)%nat → token_ok t → token_ok sub → token_ok k → token_ok v → is_separator sep = true →
  Reads n it (hanging_value t sub k v sep ++ more) rest → MediaType_from_stream fuel it = Diverge.
Proof.
  intros Hn [Ht0 Ht] [Hs0 Hs] Hk Hv Hsep HR. unfold MediaType_from_stream.
  rewrite hanging_value_app in HR.
  destruct (read_token_started n fuel it t (chr "/" :: _) rest Hn Ht0 Ht eq_refl HR) as (it1 & E1 & HR1 & _).
  rewrite (bind_Done _ _ _ _ _ E1). cbn beta iota.
  destruct (next_some n fuel it1 _ _ rest Hn HR1) as (it2 & E2 & [HR2 _] & Hn2 & _ & Hs2).
  rewrite (bind_Done _ _ _ _ _ E2). rewrite bool_decide_false by (intros Hx; by apply Hx).
  destruct (read_token_spec (pred n) fuel it2 _ rest ltac:(lia) HR2 (or_introl (Hs2 eq_refl))) as (it3 & E3 & [HR3 Hk3]).
  rewrite split_token_app in * by done. cbn [fst snd] in *. unfold non_empty in E3.
  rewrite bool_decide_false in E3 by done. rewrite (bind_Done _ _ _ _ _ E3). cbn beta iota.
  pose proof (read_parameters_sim (pred n) fuel rest ltac:(lia) it3 _ (conj HR3 (Hk3 (Hs2 eq_refl)))) as Hsim.
  rewrite bind_unfold. destruct fuel as [|f]; [lia|].
  assert (Hd : loop (S f) value_parameters_body [] (chr ";" :: k ++ chr "=" :: v ++ sep :: more) = Diverge).
  { rewrite loop_S, bind_unfold. unfold value_parameters_body at 1, value_next. rewrite bind_unfold. cbn [head tail].
    rewrite Z.eqb_refl, bind_unfold. by rewrite value_parameter_diverges. }
  rewrite Hd in Hsim. by destruct (Iter.read_parameters (S f) it3) as [[? ?]| |].
Qed.

(** ** On a header line *)
Definition hanging_line (t sub k v : str) (sep : u8) (more : list u8) : list u8 :=
  lit "Content-Type:" ++ hanging_value t sub k v sep ++ more.

Section Line.
Context `{UrlOps} `{TimeOps} (t sub k v : str) (sep : u8).
Context (Ht : token_ok t) (Hsub : token_ok sub) (Hk : token_ok k) (Hv : token_ok v) (Hsep : is_separator sep = true).

Lemma header_enum_diverges {R} `{ByteSource R} fuel (r : R) more :
  source_inv r → pending r = hanging_line t sub k v sep more → (length (pending r) < fuel)%nat →
  header_enum_from_stream request_table fuel r = Diverge.
Proof using Ht Hsub Hk Hv Hsep.
  intros Hi Hp Hf. unfold hanging_line in Hp.
  destruct (name_loop_read fuel (hanging_value t sub k v sep ++ more) (lit "Content-Type") fuel Start [] r)
    as (r1 & E1 & Hi1 & Hp1); [lia| |done|by repeat constructor|by left|done|].
  { rewrite Hp, length_app in Hf. simpl in *. lia. }
  unfold header_enum_from_stream. rewrite (bind_Done _ _ _ _ _ E1). cbn [app].
  unfold header_line_value, header_of_iter. rewrite bind_unfold.
  change (call (normalise_header_name (lit "Content-Type")) (Iter.new r1))
    with (Done (lit "Content-Type", Iter.new r1)). cbn beta iota.
  rewrite bind_unfold. unfold value_from_stream.
  change (find_row (lit "Content-Type") 0 request_table) with (Some (35%nat, Row "Content-Type" "Content-Type" KMediaType)).
  cbn iota. rewrite bind_unfold. cbn [value_of_kind row_kind]. unfold read_as. rewrite bind_unfold.
  assert (Hlen : (length (pending r1) < fuel)%nat) by (rewrite Hp1; rewrite Hp, length_app in Hf; lia).
  pose proof (new_Reads r1 (length (pending r1)) Hi1 ltac:(lia)) as HR.
  assert (Hu : unfold_value true false (pending r1)
    = (hanging_value t sub k v sep ++ (unfold_value false false more).1, (unfold_value false false more).2)).
  { rewrite Hp1, <-unfold_value_text by (by apply hanging_value_text). destruct Ht as [Ht0 Htok].
    unfold hanging_value. destruct t as [|b t']; [done|]. apply Forall_cons in Htok as [Hb _]. cbn [app].
    apply unfold_value_first; [|split; intros ->; done].
    destruct (is_lws b) eqn:Hl; [|done]. apply lws_separator in Hl. by rewrite token_item_not_separator in Hl. }
  rewrite Hu in HR. cbn [fst snd] in HR. cbn [from_stream MediaType_convertible].
  rewrite (MediaType_diverges _ fuel _ t sub k v sep _ _ Hlen
    Ht Hsub Hk Hv Hsep HR). done.
Qed.

Lemma headers_loop_diverges F (HF : read_stable (T:=TcpStream) F) fuel hs more n request b :
  Forall (header_ok request_table) hs →
  rb_rel F HF b (header_lines request_table hs ++ hanging_line t sub k v sep more) →
  (length (header_lines request_table hs ++ hanging_line t sub k v sep more) < fuel)%nat → (length hs < n)%nat →
  loop n (headers_body fuel) request b = Diverge.
Proof using Ht Hsub Hk Hv Hsep.
  intros Hhs Hb Hf Hn.
  destruct (header_loop_lines F HF (λ r h, set_headers (collection_insert h (headers r)) r) (headers_body fuel)
    request_table fuel (hanging_line t sub k v sep more) (tables_ok _ (or_introl eq_refl)) eq_refl) with hs request b n
    as (b' & n' & -> & Hi' & Hp'); try done.
  { intros r b0 h b0' E. unfold headers_body. by rewrite (bind_Done _ _ _ _ _ E). }
  rewrite length_app in Hf. rewrite loop_S, bind_unfold. unfold headers_body at 1, request_buffer.read_header.
  rewrite !bind_unfold. unfold request_buffer.on_stream at 1, zoom.
  pose (Src := BufferedStream_source F HF). change (bs_pending (rb_stream b') = hanging_line t sub k v sep more) in Hp'.
  assert (Hlen : (length (bs_pending (rb_stream b')) < fuel)%nat) by (rewrite Hp'; lia).
  by rewrite (header_enum_diverges (R:=BufferedStream TcpStream) (H2:=Src) fuel (rb_stream b') more Hi' Hp' Hlen).
Qed.
End Line.

(** ** On a connection *)

(** C31. A request that hangs the server: after a valid request line and any
    valid headers, a Content-Type of the form type/subtype;key=value, with
    tokens as key and value, in which a separator follows the value, makes
    [Request::load] run for ever, whatever comes after: no amount of fuel makes
    it return, and the task of the connection neither answers nor ends. *)
Theorem load_hangs `{UrlOps} `{TimeOps} (s : BufferedStream TcpStream) fuel m ru ver hs t sub k v sep more :
  stream_wf s →
  request_line (bs_pending s) (m, ru, ver) (header_lines request_table hs ++ hanging_line t sub k v sep more) →
  ver = (1, 0) ∨ ver = (1, 1) → Forall (header_ok request_table) hs →
  token_ok t → token_ok sub → token_ok k → token_ok v → is_separator sep = true →
  (length (bs_pending s) + 6 < fuel)%nat →
  load fuel s = Diverge
  ∧ ∀ T (HT : Server T) (self : T) clock t0 c, conn_stream c = s → serve_connection clock fuel self t0 c = Diverge.
Proof.
  intros Hwf Hline Hver Hhs Ht Hsub Hk Hv Hsep Hf.
  assert (Hd : load fuel s = Diverge).
  { unfold load. rewrite bind_gets. unfold zoom, load_body.
    destruct (read_request_line_spec _ True_read_stable (request_buffer.new s) fuel (bs_pending s))
      as (o & b1 & E1 & Ho); [by apply stream_wf_inv in Hwf|done|].
    rewrite (bind_Done _ _ _ _ _ E1). destruct o as [x|e]; [|by destruct Ho as [_ Ho]; destruct (Ho _ _ Hline)].
    destruct Ho as (rest & Hline' & Hb1). destruct (request_line_inj _ _ _ _ _ Hline Hline') as [<- <-].
    pose proof (request_line_length _ _ _ Hline) as Hlen. cbn zeta. set (req := set_line m ru ver _).
    assert (Hloop : loop fuel (headers_body fuel) req b1 = Diverge) by (
      apply (headers_loop_diverges t sub k v sep Ht Hsub Hk Hv Hsep _ True_read_stable fuel hs more);
        [done|by apply rb_fresh_rel|lia|];
      pose proof (header_lines_length request_table hs); rewrite length_app in Hlen; lia).
    destruct Hver as [-> | ->]; repeat case_bool_decide; try done; by rewrite bind_unfold, Hloop. }
  split; [done|]. intros T HT self clock t0 c <-. unfold serve_connection. destruct fuel as [|f]; [lia|].
  rewrite loop_S, bind_unfold. unfold connection_body. rewrite (bind_Done _ _ _ _ _ (now_Done _ _)).
  rewrite bind_unfold. unfold zoom at 1. cbn [conn_stream]. by rewrite Hd.
Qed.

(** The request of a browser that names the character set first. *)
Definition hanging_text : list u8 := lit "Content-Type:text/html;charset=utf-8;q=1" ++ [CR; LF; CR; LF].
Definition hanging_request : BufferedStream TcpStream :=
  tcp_stream [lit "GET /a HTTP/1.1" ++ [CR; LF]; hanging_text].

Lemma load_hangs_witness : load (H:=text_urls) (H0:=second_times) 1000 hanging_request = Diverge.
Proof.
  assert (E : bs_pending hanging_request
    = lit "GET" ++ SP :: lit "/a" ++ SP :: lit "HTTP/1.1" ++ CR :: LF :: hanging_text) by (vm_compute; reflexivity).
  destruct (load_hangs (H:=text_urls) (H0:=second_times) hanging_request 1000 Get (AbsolutePath (lit "/a")) (1, 1) []
    (lit "text") (lit "html") (lit "charset") (lit "utf-8") (chr ";") (lit "q=1" ++ [CR; LF; CR; LF])) as [Hd _];
    [|rewrite E; exact (example_request_line (H:=text_urls) hanging_text)
     |right; reflexivity|apply Forall_nil; exact I|split; [discriminate|repeat constructor]..|reflexivity|vm_compute; lia|exact Hd].
  apply tcp_stream_wf. repeat constructor; discriminate.
Defined.
