(* ===== verification/Fuel.v ===== *)
(** * Fuel: what the number of rounds decides

    A loop of the source is modelled with a number of rounds, its fuel.  This
    file shows what that number means.  More fuel never changes a result
    ([mle], for every method from the bytes of a header value up to a whole
    message), and fuel above the number of bytes there are to read changes
    nothing at all: on every input, calm or not, [Request::load] and
    [ResponseReader::construct] give the same outcome for every such fuel.  So
    a message on which a bounded run is still going is one on which the source
    loops for ever, and Termination.v and Hangs.v speak of the program and not
    of its bounds. *)

From S2P Require Import Prelude Strs Rfc2616 Method Io Buffer Common Chunked SerializationUtils HeaderIter HeaderValues Headers Status Branchify ServerRequest ServerResponse Server Client Termination Hangs.

(** ** More fuel does not change a result *)

Create HintDb fuel.
Create HintDb settled.
#[export] Hint Resolve mle_refl read_byte_util_mle next_mle read_token_or_quoted_string_mle : fuel.
(** Walk through two runs of a method. *)
Ltac more_fuel :=
  intros; repeat first
    [ progress intros
    | solve [eauto with fuel nocore]
    | apply mle_if
    | apply mle_loop; [assumption|]
    | apply mle_bind
    | apply mle_zoom
    | match goal with |- mle (match ?x with _ => _ end) _ => destruct x end ].

Section Methods.
Context {R : Type} `{Reader R} (f1 f2 : nat) (Hle : (f1 ≤ f2)%nat).
Abbreviation grows m := (mle (m f1) (m f2)).
#[local] Hint Resolve Hle : fuel.

Lemma consume_lws_mle : grows (Iter.consume_lws (R:=R)).
Proof using Hle. unfold Iter.consume_lws, Iter.lws_body. more_fuel. Qed.
#[local] Hint Resolve consume_lws_mle : fuel.
Lemma consume_optional_lws_mle : grows (Iter.consume_optional_lws (R:=R)).
Proof using Hle. unfold Iter.consume_optional_lws. more_fuel. Qed.
#[local] Hint Resolve consume_optional_lws_mle : fuel.
Lemma verify_consumed_mle : grows (Iter.verify_consumed (R:=R)).
Proof using Hle. unfold Iter.verify_consumed. more_fuel. Qed.
#[local] Hint Resolve verify_consumed_mle : fuel.
Lemma some_if_consumed_mle {T} (t : T) : grows (λ f, Iter.some_if_consumed (R:=R) f t).
Proof using Hle. unfold Iter.some_if_consumed. more_fuel. Qed.
Lemma collect_to_str_mle : grows (Iter.collect_to_str (R:=R)).
Proof using Hle. unfold Iter.collect_to_str, Iter.collect_body. more_fuel. Qed.
Lemma consume_comma_lws_mle : grows (Iter.consume_comma_lws (R:=R)).
Proof using Hle. unfold Iter.consume_comma_lws. more_fuel. Qed.
Lemma read_quoted_string_mle opened : grows (λ f, Iter.read_quoted_string (R:=R) f opened).
Proof using Hle. unfold Iter.read_quoted_string, Iter.quoted_body. more_fuel. Qed.
Lemma read_token_mle : grows (Iter.read_token (R:=R)).
Proof using Hle. unfold Iter.read_token, Iter.token_body. more_fuel. Qed.
#[local] Hint Resolve read_token_mle : fuel.
Lemma read_parameter_mle opened : grows (λ f, Iter.read_parameter (R:=R) f opened).
Proof using Hle. unfold Iter.read_parameter. more_fuel. Qed.
#[local] Hint Resolve read_parameter_mle : fuel.
Lemma read_parameters_mle : grows (Iter.read_parameters (R:=R)).
Proof using Hle. unfold Iter.read_parameters, Iter.parameters_body. more_fuel. Qed.
Lemma drain_mle : grows (Iter.drain (R:=R)).
Proof using Hle. unfold Iter.drain, Iter.drain_body. more_fuel. Qed.
End Methods.

#[export] Hint Resolve consume_optional_lws_mle some_if_consumed_mle collect_to_str_mle consume_comma_lws_mle
  read_quoted_string_mle read_token_mle read_parameters_mle drain_mle : fuel.

(** ** A logic of methods that have settled

    [settled P m1 m2 Q]: from a state in [P], [m1] and [m2], the same method
    with two amounts of fuel, have the same outcome, also when they do not
    return, and if they return [a] in state [s'] then [Q a s']. *)
Definition settled {S A} (P : S → Prop) (m1 m2 : M S A) (Q : A → S → Prop) : Prop :=
  ∀ s, P s → m1 s = m2 s ∧ match m1 s with Done (a, s') => Q a s' | _ => True end.

Section Logic.
Context {S : Type}.
Implicit Types P : S → Prop.

(** A method that returns has settled. *)
Lemma returns_settled {A} P (m1 m2 : M S A) Q : returns P m1 Q → mle m1 m2 → settled P m1 m2 Q.
Proof.
  intros Hr Hm s Hs. specialize (Hr s Hs). destruct (Hm s) as [E|E]; [by rewrite E in Hr|]. split; [done|].
  by destruct (m1 s) as [[a t]| |].
Qed.

Lemma settled_ret {A} P (a : A) (Q : A → S → Prop) : (∀ s, P s → Q a s) → settled P (mret a) (mret a) Q.
Proof. intros H s Hs. split; [done|]. by apply H. Qed.

Lemma settled_bind {A B} P (m1 m2 : M S A) (k1 k2 : A → M S B) Q Q' :
  settled P m1 m2 Q → (∀ a, settled (Q a) (k1 a) (k2 a) Q') → settled P (m1 ≫= k1) (m2 ≫= k2) Q'.
Proof.
  intros Hm Hk s Hs. rewrite !bind_unfold. destruct (Hm s Hs) as [<- HQ].
  destruct (m1 s) as [[a t]| |]; [by apply Hk|done|done].
Qed.

Lemma settled_weaken {A} P P' (m1 m2 : M S A) (Q Q' : A → S → Prop) :
  (∀ s, P' s → P s) → (∀ a s, Q a s → Q' a s) → settled P m1 m2 Q → settled P' m1 m2 Q'.
Proof.
  intros HP HQ Hm s Hs. destruct (Hm s (HP s Hs)) as [<- HQ']. split; [done|].
  destruct (m1 s) as [[a t]| |]; auto.
Qed.

Lemma settled_if {A} P (c : bool) (m1 m2 m1' m2' : M S A) Q :
  settled P m1 m2 Q → settled P m1' m2' Q → settled P (if c then m1 else m1') (if c then m2 else m2') Q.
Proof. by destruct c. Qed.

(** A method that gives up with [None]. *)
Lemma settled_option {A B} P (m1 m2 : M S (option A)) (k1 k2 : option A → M S B) Q :
  settled P m1 m2 (λ o s, o ≠ None → P s) → (∀ s, settled (eq s) (k1 None) (k2 None) Q) →
  (∀ a, settled P (k1 (Some a)) (k2 (Some a)) Q) → settled P (m1 ≫= k1) (m2 ≫= k2) Q.
Proof.
  intros Hm HN HS. eapply settled_bind; [exact Hm|]. intros [a|] s Hs; [by apply HS, Hs|by apply (HN s)].
Qed.

(** A loop in which a measure decreases has settled once there are more rounds
    than the measure. *)
Lemma settled_loop {A B} n1 n2 (b1 b2 : A → M S (A + B)) (I : nat → A → S → Prop) (Q : B → S → Prop) :
  (∀ k a, settled (I k a) (b1 a) (b2 a)
     (λ r s, match r with inl a' => ∃ k', (k' < k)%nat ∧ I k' a' s | inr b => Q b s end)) →
  ∀ k a, (k < n1)%nat → (k < n2)%nat → settled (I k a) (loop n1 b1 a) (loop n2 b2 a) Q.
Proof.
  intros Hb. revert n2. induction n1 as [|n1 IH]; intros n2 k a H1 H2; [lia|]. destruct n2 as [|n2]; [lia|].
  eapply settled_bind; [apply Hb|]. intros [a'|b]; [|by apply settled_ret].
  intros s (k' & Hk' & Hs). apply (IH n2 k' a'); [lia|lia|done].
Qed.
End Logic.

(** ** Values of headers *)
Section Values.
Context {R : Type} `{ByteSource R} (n f1 f2 : nat) (Hn : (n < f1)%nat) (Hle : (f1 ≤ f2)%nat) (rest : list u8).
Abbreviation left := (left_to_yield (R:=R) n rest (λ _, True)).

(** The parameters of a value: the loop of [read_parameters] over the value. *)
Lemma value_parameters_settled g1 g2 vs :
  (length vs < g1)%nat → (length vs < g2)%nat →
  settled (eq vs) (loop g1 value_parameters_body []) (loop g2 value_parameters_body []) (λ _ vs', vs' `suffix_of` vs).
Proof.
  intros H1 H2 vs0 <-.
  apply (settled_loop g1 g2 value_parameters_body value_parameters_body
    (λ k _ l, l `suffix_of` vs ∧ (length l ≤ k)%nat) (λ _ l, l `suffix_of` vs)) with (length vs); [|done..].
  intros k acc l [Hl Hk]. split; [done|]. unfold value_parameters_body, value_next. destruct l as [|b l]; [done|].
  rewrite (bind_Done _ _ (b :: l) (Some b) l) by done. destruct (b =? chr ";"); [|done].
  pose proof (value_parameter_takes l) as Ht. rewrite bind_unfold.
  assert (Hs : ∀ l', l' `suffix_of` l → l' `suffix_of` vs ∧ (length l' < k)%nat).
  { intros l' Hl'. split; [etrans; [|exact Hl]; by apply suffix_cons_r|]. apply suffix_length in Hl'. simpl in Hk. lia. }
  destruct (value_parameter l) as [[[p|] l1]| |]; [|by apply Hs|done|done].
  destruct (Hs l1 Ht) as [? ?]. by exists (length l1).
Qed.

Lemma read_parameters_settled k :
  settled (left true k) (Iter.read_parameters f1) (Iter.read_parameters f2) (λ _, left true k).
Proof using Hn Hle.
  intros it [(vs & HR & _ & Hk) Hs]. pose proof (Reads_length _ _ _ _ HR) as Hl.
  assert (Hat : at_value n rest it vs) by (split; auto).
  pose proof (read_parameters_sim n f1 rest Hn it vs Hat) as H1.
  pose proof (read_parameters_sim n f2 rest ltac:(lia) it vs Hat) as H2.
  destruct (value_parameters_settled f1 f2 vs ltac:(lia) ltac:(lia) vs eq_refl) as [E Hv]. rewrite <-E in H2.
  destruct (read_parameters_mle f1 f2 Hle it) as [Ed|Ee].
  - rewrite Ed in H1 |- *. destruct (loop f1 _ _ _) as [[o vs']| |]; [done|done|].
    by destruct (Iter.read_parameters f2 it) as [[? ?]| |].
  - split; [done|]. clear H2. destruct (loop f1 _ _ _) as [[o vs']| |], (Iter.read_parameters f1 it) as [[o1 it']| |]; try done.
    destruct H1 as [-> [HR' Hs']]. split; [|done]. exists vs'. split; [done|]. split; [done|].
    apply suffix_length in Hv. lia.
Qed.

(** A loop over the bytes of a value. *)
Lemma iter_loop_settled {A B} (b1 b2 : A → M (HeaderValueByteIterator R) (A + B)) k a :
  (∀ k a, settled (left false k) (b1 a) (b2 a)
     (λ r it, match r with inl _ => fewer n rest (λ _, True) false k it | inr _ => left false k it end)) →
  settled (left false k) (loop f1 b1 a) (loop f2 b2 a) (λ _, left false k).
Proof using Hn Hle.
  intros Hb it (k0 & Hk0 & Hf & Hit)%(left_bound n f1 Hn).
  apply (settled_loop f1 f2 b1 b2 (λ k' _ it, left false k' it ∧ (k' ≤ k)%nat) (λ _, left false k)) with k0;
    [|done|lia|by split].
  intros k' a' it' [Hit' Hk']. destruct (Hb k' a' it' Hit') as [E HQ]. split; [done|].
  destruct (b1 a' it') as [[[a''|r] t]| |]; try done; [|by eapply left_le].
  destruct HQ as (k'' & -> & ?). exists k''. split_and!; try done; lia.
Qed.
End Values.

(** What a type of header value promises: more fuel does not change what is
    read, and fuel above the number of bytes changes nothing. *)
Class SettledRead (T : Type) `{HeaderConvertible T} := {
  read_mle R (HR : Reader R) f1 f2 : (f1 ≤ f2)%nat → mle (from_stream (R:=R) (T:=T) f1) (from_stream f2);
  read_settled R (HR : Reader R) (HS : ByteSource R) n f1 f2 rest k : (n < f1)%nat → (f1 ≤ f2)%nat →
    settled (left_to_yield (R:=R) n rest (λ _, True) false k) (from_stream (T:=T) f1) (from_stream f2)
      (λ _, left_to_yield n rest (λ _, True) false k)
}.
#[export] Hint Resolve read_mle : fuel.

(** The types that always return. *)
Lemma total_settled {T} `{TotalRead (λ _, True) T} :
  (∀ R (HR : Reader R) f1 f2, (f1 ≤ f2)%nat → mle (from_stream (R:=R) (T:=T) f1) (from_stream f2)) → SettledRead T.
Proof.
  intros Hm. constructor; [done|]. intros. apply returns_settled; [by apply read_returns|by apply Hm].
Qed.

#[global] Instance str_settled : SettledRead header_str.
Proof. apply total_settled. intros. cbn; unfold str_from_stream. more_fuel. Qed.
#[global] Instance uint_settled : SettledRead uint.
Proof. apply total_settled. intros. cbn; unfold uint_from_stream. more_fuel. Qed.
#[global] Instance Method_settled : SettledRead Method.
Proof. apply total_settled. intros. cbn; unfold Method_from_stream. more_fuel. Qed.
#[global] Instance Url_settled `{UrlOps} : SettledRead Url.
Proof. apply total_settled. intros. cbn; unfold Url_from_stream. more_fuel. Qed.
#[global] Instance Tm_settled `{TimeOps} : SettledRead Tm.
Proof. apply total_settled. intros. cbn; unfold Tm_from_stream. more_fuel. Qed.
#[global] Instance Connection_settled : SettledRead Connection.
Proof. apply total_settled. intros. cbn; unfold Connection_from_stream. more_fuel. Qed.
#[global] Instance Host_settled : SettledRead Host.
Proof. apply total_settled. intros. cbn; unfold Host_from_stream. more_fuel. Qed.
#[global] Instance EntityTag_settled : SettledRead EntityTag.
Proof. apply total_settled. intros. cbn; unfold EntityTag_from_stream. more_fuel. Qed.
#[global] Instance AcceptableRanges_settled : SettledRead AcceptableRanges.
Proof. apply total_settled. intros. cbn; unfold AcceptableRanges_from_stream, ranges_body. more_fuel. Qed.

(** The types with parameters: after a token, what is left has started. *)
Section Parameterised.
Context {R : Type} `{ByteSource R} (n f1 f2 : nat) (Hn : (n < f1)%nat) (Hle : (f1 ≤ f2)%nat) (rest : list u8).
Abbreviation left := (left_to_yield (R:=R) n rest (λ _, True)).

Lemma after_token_settled {A} k (m1 m2 : option str → M (HeaderValueByteIterator R) A) :
  settled (left false k) (m1 None) (m2 None) (λ _, left false k) →
  (∀ s, settled (left true k) (m1 (Some s)) (m2 (Some s)) (λ _, left true k)) →
  settled (left false k) (Iter.read_token f1 ≫= m1) (Iter.read_token f2 ≫= m2) (λ _, left false k).
Proof using Hn Hle.
  intros HN HS. eapply settled_bind.
  { apply returns_settled; [apply (read_token_returns n f1 Hn rest (λ _, True))|by apply read_token_mle]. }
  intros [s|]; [|done]. eapply settled_weaken; [| |apply (HS s)]; eauto with termination.
Qed.

(** A method that returns and one that has settled, in sequence. *)
Lemma bind_settled {A B} st k (m1 m2 : M (HeaderValueByteIterator R) A) (k1 k2 : A → M _ B) Q :
  settled (left st k) m1 m2 (λ _, left st k) → (∀ a, settled (left st k) (k1 a) (k2 a) Q) →
  settled (left st k) (m1 ≫= k1) (m2 ≫= k2) Q.
Proof using Type. intros Hm Hk. by eapply settled_bind. Qed.

Lemma next_settled st k : settled (left st k) (Iter.next f1) (Iter.next f2) (λ _, left st k).
Proof using Hn Hle. apply returns_settled; [by apply next_left; [|apply _]|by apply next_mle]. Qed.
Lemma read_token_settled st k : settled (left st k) (Iter.read_token f1) (Iter.read_token f2) (λ _, left st k).
Proof using Hn Hle. apply returns_settled; [by apply read_token_left; [|apply _]|by apply read_token_mle]. Qed.
Lemma some_if_consumed_settled {T} (t : T) st k :
  settled (left st k) (Iter.some_if_consumed f1 t) (Iter.some_if_consumed f2 t) (λ _, left st k).
Proof using Hn Hle. apply returns_settled; [by apply some_if_consumed_returns; [|apply _]|by apply some_if_consumed_mle]. Qed.
Lemma optional_lws_settled st k :
  settled (left st k) (Iter.consume_optional_lws f1) (Iter.consume_optional_lws f2) (λ _, left st k).
Proof using Hn Hle. apply returns_settled; [by apply consume_optional_lws_returns; [|apply _]|by apply consume_optional_lws_mle]. Qed.
End Parameterised.
#[export] Hint Resolve next_settled read_token_settled some_if_consumed_settled optional_lws_settled
  read_parameters_settled : settled.
Ltac value_settled :=
  intros; repeat first
    [ progress intros
    | solve [eauto with settled]
    | apply settled_ret; solve [auto]
    | apply settled_if
    | apply bind_settled; [solve [eauto with settled]|]
    | match goal with |- settled _ (match ?x with _ => _ end) _ _ => destruct x end ].

#[global] Instance TransferCoding_settled : SettledRead TransferCoding.
Proof.
  constructor; [intros; cbn; unfold TransferCoding_from_stream; more_fuel|].
  intros. apply after_token_settled; value_settled.
Qed.
#[global] Instance MediaType_settled : SettledRead MediaType.
Proof.
  constructor; [intros; cbn; unfold MediaType_from_stream; more_fuel|].
  intros. apply after_token_settled; value_settled.
Qed.
#[global] Instance comma_list_settled {T} `{SettledRead T} : SettledRead (list T).
Proof.
  constructor; [intros; cbn; unfold list_from_stream, list_from_body; more_fuel|].
  intros R HR HS n f1 f2 rest k Hn Hle. apply (iter_loop_settled n f1 f2 Hn Hle). intros k' xs.
  apply bind_settled; [by apply read_settled|]. intros [x|]; [|by apply settled_ret].
  eapply settled_bind.
  { apply returns_settled; [apply (consume_comma_lws_returns n f1 Hn rest (λ _, True))|by apply consume_comma_lws_mle]. }
  intros []; by apply settled_ret.
Qed.

(** ** Header lines *)
Section Lines.
Context `{UrlOps} `{TimeOps} {R : Type} {HR : Reader R} (tbl : table) (f1 f2 : nat) (Hle : (f1 ≤ f2)%nat).

Lemma header_of_iter_mle name : mle (header_of_iter (R:=R) tbl f1 name) (header_of_iter tbl f2 name).
Proof using Hle.
  unfold header_of_iter, value_from_stream. more_fuel.
  destruct (row_kind _); (apply mle_bind; [by apply read_mle|more_fuel]).
Qed.

Lemma header_enum_mle : mle (header_enum_from_stream (R:=R) tbl f1) (header_enum_from_stream tbl f2).
Proof using Hle.
  apply mle_bind; [apply mle_loop; [done|]; intros [st name]; unfold name_body; more_fuel|].
  intros [name|e]; [|apply mle_refl]. intros r. unfold header_line_value.
  by destruct (header_of_iter_mle name (Iter.new r)) as [->| ->]; [left|right].
Qed.

Context {HS : ByteSource R}.

Lemma value_from_stream_settled n rest name k : (n < f1)%nat →
  settled (left_to_yield (R:=R) n rest (λ _, True) false k) (value_from_stream tbl f1 name) (value_from_stream tbl f2 name)
    (λ _, left_to_yield n rest (λ _, True) false k).
Proof using Hle.
  intros Hn. unfold value_from_stream. destruct (find_row name 0 tbl) as [[i r]|].
  - apply bind_settled; [|value_settled].
    destruct (row_kind r); (apply bind_settled; [by apply read_settled|value_settled]).
  - apply bind_settled; [|value_settled].
    apply returns_settled; [by apply collect_to_str_returns; [|apply _]|by apply collect_to_str_mle].
Qed.

Lemma header_line_value_settled name (l : list u8) : (length l < f1)%nat →
  settled (λ r, source_inv r ∧ pending r = l) (header_line_value (R:=R) tbl f1 name) (header_line_value tbl f2 name)
    (λ r s, source_inv s ∧ match r.1 with Ok _ | Err MalformedHeaderValue => True | _ => False end
       ∧ option_list r.2 ++ pending s `suffix_of` l).
Proof using Hle.
  intros Hf r [Hi Hp]. unfold header_line_value. destruct (unfold_value true false l) as [vs rest] eqn:E.
  pose proof (unfold_value_shape _ _ _ _ _ E) as [_ Hsuf].
  assert (Hret : settled (left_to_yield (R:=R) (length l) rest (λ _, True) false (length vs))
    (header_of_iter tbl f1 name) (header_of_iter tbl f2 name)
    (λ x it, Reads (length l) it [] rest ∧ it_state it = Finished ∧ x.2 = next_byte it)).
  { eapply settled_bind; [apply returns_settled; [apply returns_call, normalise_total|apply mle_refl]|]. intros nm.
    apply bind_settled; [by apply value_from_stream_settled|]. intros h.
    eapply settled_bind; [apply returns_settled; [by apply drain_returns|by apply drain_mle]|]. intros [].
    intros it [? ?]. split; [done|]. by split_and!. }
  assert (Hnew : left_to_yield (length l) rest (λ _, True) false (length vs) (Iter.new r)).
  { split; [|done]. exists vs. pose proof (new_Reads r (length l) Hi) as HR0. rewrite Hp, E in HR0.
    split_and!; [by apply HR0|done|done]. }
  destruct (Hret (Iter.new r) Hnew) as [<- HQ]. split; [done|].
  destruct (header_of_iter tbl f1 name (Iter.new r)) as [[[h nb] it]|e|]; [|done|done].
  destruct HQ as ((Hi' & _ & Hst) & Hst' & Hnb). cbn [snd] in Hnb. subst nb.
  rewrite Hst' in Hst. destruct Hst as (_ & Hst & _). unfold stream in Hst.
  destruct h as [h|]; cbn [fst snd]; by rewrite Hst.
Qed.

End Lines.

Section Names.
Context `{UrlOps} `{TimeOps} {R : Type} {HR : Reader R} {HS : ByteSource R} (tbl : table) (f1 f2 : nat) (Hle : (f1 ≤ f2)%nat).

(** At most [j] bytes are left to read, whatever they are. *)
Definition at_most (j : nat) (r : R) : Prop := source_inv r ∧ (length (pending r) ≤ j)%nat.

Lemma header_enum_settled j : (j < f1)%nat →
  settled (at_most j) (header_enum_from_stream (R:=R) tbl f1) (header_enum_from_stream tbl f2)
    (λ x r, source_inv r ∧ source_fresh r ∧
       match x.1 with
       | Ok _ | Err MalformedHeaderValue => (length (option_list x.2 ++ pending r) < j)%nat
       | Err _ => x.2 = None
       end).
Proof using Hle.
  intros Hj. eapply settled_bind.
  { eapply (settled_weaken (to_read [] j)); [|intros x r Hx; exact Hx|apply returns_settled].
    - intros r [Hi Hl]. split; [exact Hi|]. split; [|exact Hl]. intros p name q l2 _ _. unfold parameterised.
      by destruct (normalise_header_name name).
    - by apply (name_loop_returns []).
    - apply mle_loop; [done|]. intros [st name]. unfold name_body. more_fuel. }
  intros [name|e].
  - intros r (Hf & Hi & _ & Hl & _).
    pose proof (header_line_value_settled (HS:=fresh_source HS) tbl f1 f2 Hle name (pending r) ltac:(lia) r
      (conj (conj Hi Hf) eq_refl)) as [<- HQ]. split; [done|].
    destruct (header_line_value tbl f1 name r) as [[[h nb] r']| |]; [|done|done].
    destruct HQ as ([Hi' Hf'] & Hh & Hsuf). split; [done|]. split; [done|]. cbn [fst snd] in *.
    assert (Hlen : (length (option_list nb ++ pending r') ≤ length (pending r))%nat) by (by apply suffix_length).
    destruct h as [h|[]]; try done; lia.
  - apply settled_ret. intros r ([->|[->| ->]] & Hi & Hf); by split_and!.
Qed.
End Names.

(** ** Messages *)
Section MoreFuel.
Context `{UrlOps} `{TimeOps} (f1 f2 : nat) (Hle : (f1 ≤ f2)%nat).
#[local] Hint Resolve Hle : fuel.

Lemma digit_loop_mle {R} (rb1 rb2 : M R (option u8)) wrap limit stop st :
  mle rb1 rb2 → mle (digit_loop rb1 wrap limit stop f1 st) (digit_loop rb2 wrap limit stop f2 st).
Proof using Hle. intros Hrb. apply mle_loop; [done|]. intros [d m]. apply mle_if; [apply mle_refl|]. more_fuel. Qed.

Lemma read_http_version_mle {R} `{Reader R} b : mle (read_http_version (R:=R) f1 b) (read_http_version f2 b).
Proof using Hle.
  assert (Hu : ∀ m u, mle (read_uint (R:=R) f1 m u) (read_uint f2 m u)) by (intros; apply digit_loop_mle; more_fuel).
  unfold read_http_version. induction http_letters as [|[lo up] ls IH]; cbn [expect_letters].
  - unfold version_numbers. more_fuel.
  - unfold expect_letter. more_fuel.
Qed.

Context {S : Type} `{Reader S}.

Lemma read_header_mle tbl : mle (request_buffer.read_header (S:=S) f1 tbl) (request_buffer.read_header f2 tbl).
Proof using Hle. apply mle_bind; [apply mle_zoom; by apply header_enum_mle|]. more_fuel. Qed.

Lemma read_request_line_mle :
  mle (request_buffer.read_request_line (S:=S) f1) (request_buffer.read_request_line f2).
Proof using Hle.
  apply mle_bind; [unfold request_buffer.read_method, Branchify.read_method, run_method; more_fuel|].
  intros [m|]; [|apply mle_refl]. apply mle_bind; [unfold request_buffer.read_request_uri; more_fuel|].
  intros [u|e]; [|apply mle_refl]. apply mle_bind; [|more_fuel]. apply mle_zoom, read_http_version_mle.
Qed.

Lemma read_response_headers_mle :
  mle (response_reader.read_response_headers (S:=S) f1) (response_reader.read_response_headers f2).
Proof using Hle.
  apply mle_zoom, mle_loop; [done|]. intros hs. apply mle_bind; [apply read_header_mle|more_fuel].
Qed.

Lemma construct_body_mle `{IoErrors} :
  mle (response_reader.construct_body (S:=S) f1) (response_reader.construct_body f2).
Proof using Hle.
  apply mle_bind; [apply read_http_version_mle|]. intros [v|]; [|apply mle_refl].
  apply mle_bind; [apply digit_loop_mle, mle_refl|]. intros [c|]; [|apply mle_refl].
  apply mle_bind; [apply mle_loop; [done|]; intros; apply mle_refl|]. intros [r|]; [|apply mle_refl].
  apply mle_bind; [apply read_response_headers_mle|]. intros; apply mle_refl.
Qed.
End MoreFuel.

Lemma load_mle `{UrlOps} `{TimeOps} f1 f2 : (f1 ≤ f2)%nat → mle (load f1) (load f2).
Proof.
  intros Hle. apply mle_bind; [apply mle_refl|]. intros peer. apply mle_zoom.
  apply mle_bind; [by apply read_request_line_mle|]. intros [[[m u] v]|e]; [|apply mle_refl]. cbn beta zeta.
  repeat apply mle_if; try apply mle_refl; (apply mle_bind; [|intros; apply mle_refl]);
    (apply mle_loop; [done|]; intros r; apply mle_bind; [by apply read_header_mle|intros; apply mle_refl]).
Qed.

Section Messages.
Context {S : Type} `{ByteSource S} (F : BufferedStream S → Prop) (HF : read_stable F).
Context `{UrlOps} `{TimeOps} (f1 f2 : nat) (Hle : (f1 ≤ f2)%nat).
Local Instance Src : ByteSource (BufferedStream S) := BufferedStream_source F HF.

Definition rb_at_most (j : nat) (b : RequestBuffer S) : Prop := at_most j (rb_stream b).

(** A header that has been read, or whose value is malformed, is a byte less to read. *)
Lemma read_header_settled tbl j : (j < f1)%nat →
  settled (rb_at_most j) (request_buffer.read_header f1 tbl) (request_buffer.read_header f2 tbl)
    (λ x b, match x with
            | Ok _ | Err MalformedHeaderValue => ∃ j', (j' < j)%nat ∧ rb_at_most j' b
            | Err _ => True
            end).
Proof using Hle.
  intros Hj b Hb. unfold request_buffer.read_header. rewrite !bind_unfold.
  destruct (header_enum_settled tbl f1 f2 Hle j Hj (rb_stream b) Hb) as [E HQ].
  unfold request_buffer.on_stream at 1 3 5, zoom. rewrite <-E. split; [done|].
  destruct (header_enum_from_stream tbl f1 (rb_stream b)) as [[[h nb] s1]| |]; [|done|done].
  destruct HQ as (Hi & Hf & Hh). cbn [fst snd] in Hh. destruct nb as [c|]; cycle 1.
  { destruct h as [h|[]]; try done; by exists (length (bs_pending s1)). }
  destruct (on_stream_sim fresh_rel src_rel (poke_byte c) (λ l, Done (tt, c :: l))
    (request_buffer.set_stream s1 b) (bs_pending s1) tt (c :: bs_pending s1) (poke_byte_sim F HF c))
    as (b2 & E2 & [Hi2 Hp2] & _); [split; [split; [exact Hi|reflexivity]|exact Hf]|done|].
  rewrite (bind_Done _ _ _ _ _ E2). cbn [mret M_ret].
  assert (Hless : (length (c :: bs_pending s1) < j)%nat → ∃ j', (j' < j)%nat ∧ rb_at_most j' b2).
  { intros Hl. exists (length (c :: bs_pending s1)). split; [done|]. split; [done|].
    change (bs_pending (rb_stream b2) = c :: bs_pending s1) in Hp2.
    change (pending (rb_stream b2)) with (bs_pending (rb_stream b2)). by rewrite Hp2. }
  destruct h as [h|[]]; try done; by apply Hless.
Qed.

(** A loop over headers that stops at any other error. *)
Lemma header_loop_settled {A B} tbl (k : A → Result Header HeaderLineErr → M (RequestBuffer S) (A + B)) a j :
  (∀ a x b, match k a x b with
            | Done (inl _, b') => b' = b ∧ match x with Ok _ | Err MalformedHeaderValue => True | Err _ => False end
            | _ => True
            end) →
  (j < f1)%nat →
  settled (rb_at_most j) (loop f1 (λ a, request_buffer.read_header f1 tbl ≫= k a) a)
    (loop f2 (λ a, request_buffer.read_header f2 tbl ≫= k a) a) (λ _ _, True).
Proof using Hle.
  intros Hk Hj b0 Hb0.
  apply (settled_loop f1 f2 _ _ (λ i _ b, rb_at_most i b ∧ (i ≤ j)%nat)) with j; [|done|lia|by split].
  clear b0 Hb0 a. intros i a b [Hb Hi]. revert b Hb.
  eapply settled_bind; [apply read_header_settled; lia|]. intros x b Hx. split; [done|]. specialize (Hk a x b).
  destruct (k a x b) as [[[a'|r] b']| |]; try done. destruct Hk as [-> Hk].
  assert (Hless : ∃ j', (j' < i)%nat ∧ rb_at_most j' b) by (destruct x as [h|[]]; done).
  destruct Hless as (j' & ? & ?). exists j'. split_and!; try done. lia.
Qed.

Lemma read_response_headers_settled j : (j < f1)%nat →
  settled (at_most j) (response_reader.read_response_headers f1) (response_reader.read_response_headers f2) (λ _ _, True).
Proof using Hle.
  intros Hj s Hs. unfold response_reader.read_response_headers, zoom.
  destruct (header_loop_settled response_table
    (λ hs r, match r with
             | Err EndOfFile => break None
             | Err EndOfHeaders => break (Some hs)
             | Err MalformedHeaderSyntax => break None
             | Err MalformedHeaderValue => continue hs
             | Ok h => continue (collection_insert h hs)
             end) (collection_new response_table) j ltac:(by intros ? [?|[]] ?) Hj (request_buffer.new s) Hs) as [E _].
  unfold response_reader.response_headers_body. rewrite <-E. split; [done|]. by destruct (loop _ _ _ _) as [[? ?]| |].
Qed.

(** The three parts of a status line. *)
Lemma status_line_returns j : (j + 6 < f1)%nat →
  returns (at_most j) (read_http_version (R:=BufferedStream S) f1 SP) (λ ov s, ov ≠ None → at_most j s)
  ∧ returns (at_most j) (response_reader.read_status_code f1) (λ oc s, oc ≠ None → at_most j s)
  ∧ returns (at_most j) (response_reader.read_reason f1) (λ or s, or ≠ None → at_most j s).
Proof using HF.
  intros Hf. clear f2 Hle. split_and!; intros s [Hi Hl].
  - destruct (read_http_version_list f1 SP (bs_pending s) ltac:(cbn in Hl; lia) eq_refl) as (ov & l1 & E & Hv).
    destruct (msim_Done src_rel src_rel _ _ s _ ov l1 (read_http_version_sim f1 SP) (conj Hi eq_refl) E) as (s1 & -> & [Hi1 Hp1]).
    destruct ov as [v|]; [|done]. intros _. apply version_text_length in Hv. split; [done|]. cbn in *. subst. lia.
  - destruct (read_status_code_spec F HF s (bs_pending s) f1 (conj Hi eq_refl) ltac:(lia)) as (oc & s2 & l2 & -> & [Hi2 Hp2] & Hc).
    destruct oc as [c|]; [|done]. intros _. apply digits_then_length in Hc. split; [done|]. cbn in *. subst. lia.
  - destruct (read_reason_spec F HF s (bs_pending s) f1 (conj Hi eq_refl) ltac:(cbn in Hl; lia)) as (or & s3 & l3 & -> & [Hi3 Hp3] & Hr).
    destruct or as [r|]; [|done]. intros _. split; [done|]. destruct Hr as [Hr _]. cbn in *. subst.
    rewrite Hr, length_app in Hl. simpl in Hl. lia.
Qed.
End Messages.

Lemma construct_settled `{UrlOps} `{TimeOps} `{IoErrors} {S} `{ByteSource S} (s : BufferedStream S) f1 f2 :
  stream_wf s → (length (bs_pending s) + 6 < f1)%nat → (f1 ≤ f2)%nat →
  response_reader.construct_body f1 s = response_reader.construct_body f2 s.
Proof.
  intros Hwf%stream_wf_inv Hf Hle. pose (src := Src (λ _, True) True_read_stable).
  destruct (status_line_returns (λ _, True) True_read_stable f1 (length (bs_pending s)) Hf) as (H1' & H2' & H3').
  assert (Hbad : ∀ A (P : BufferedStream S → Prop), settled P (response_reader.bad_response (A:=A))
    response_reader.bad_response (λ _ _, True)).
  { intros A P s1 _. split; [done|]. by destruct (response_reader.bad_response s1) as [[? ?]| |]. }
  enough (settled (at_most (length (bs_pending s))) (response_reader.construct_body f1) (response_reader.construct_body f2)
    (λ _ _, True)) as Hall by (by apply Hall).
  apply settled_option; [apply returns_settled; [exact H1'|by apply read_http_version_mle]|intros; apply Hbad|]. intros v.
  apply settled_option; [apply returns_settled; [exact H2'|by apply digit_loop_mle, mle_refl]|intros; apply Hbad|]. intros c.
  apply settled_option; [apply returns_settled; [exact H3'|by apply mle_loop; [|intros; apply mle_refl]]|intros; apply Hbad|].
  intros r. eapply settled_bind; [apply read_response_headers_settled; lia|].
  intros [hs|]; [by apply settled_ret|apply Hbad].
Qed.

Lemma load_settled `{UrlOps} `{TimeOps} (s : BufferedStream TcpStream) f1 f2 :
  stream_wf s → (length (bs_pending s) + 6 < f1)%nat → (f1 ≤ f2)%nat → load f1 s = load f2 s.
Proof.
  intros Hwf Hf Hle. unfold load. rewrite !bind_gets. unfold zoom, load_body.
  destruct (read_request_line_spec _ True_read_stable (request_buffer.new s) f1 (bs_pending s))
    as (o & b1 & E1 & Ho); [by apply stream_wf_inv in Hwf|done|].
  rewrite (bind_Done _ _ _ _ _ E1), (bind_Done _ _ _ _ _ (mle_Done _ _ _ _ (read_request_line_mle f1 f2 Hle) E1)).
  destruct o as [[[m ru] v]|e']; [|done].
  destruct Ho as (rest & Hline & [[Hb1 Hp1] _]). pose proof (request_line_length _ _ _ Hline) as Hl. cbn zeta.
  set (req := set_line m ru v _).
  destruct (header_loop_settled _ True_read_stable f1 f2 Hle request_table
    (λ r x, match x with
            | Err EndOfFile => fail "client disconnected, nowhere to send response"
            | Err EndOfHeaders => break (r, Ok tt)
            | Err MalformedHeaderSyntax => break (r, Err BadRequest)
            | Err MalformedHeaderValue => continue r
            | Ok h => continue (set_headers (collection_insert h (headers r)) r)
            end) req (length rest) ltac:(by intros ? [?|[]] ?) ltac:(lia) b1) as [E _].
  { split; [done|]. change (bs_pending (rb_stream b1) = rest) in Hp1.
    change (pending (rb_stream b1)) with (bs_pending (rb_stream b1)). by rewrite Hp1. }
  unfold headers_body. repeat case_bool_decide; rewrite ?bind_unfold; try done; by rewrite E.
Qed.

(** ** The theorems *)

(** Outcomes that grow with the fuel and have settled from [n] on: the fuel
    decides nothing but whether the run is long enough to see the outcome. *)
Lemma decided {A} (m : nat → res A) n :
  (∀ f1 f2, (f1 ≤ f2)%nat → m f1 = Diverge ∨ m f1 = m f2) →
  (∀ f1 f2, (n < f1)%nat → (f1 ≤ f2)%nat → m f1 = m f2) →
  (∀ f1 f2, (n < f1)%nat → (n < f2)%nat → m f1 = m f2)
  ∧ (m (S n) = Diverge ↔ ∀ f, m f = Diverge)
  ∧ ∀ f, m f ≠ Diverge → m f = m (S n).
Proof.
  intros Hm Hs. assert (Heq : ∀ f, (n < f)%nat → m (S n) = m f) by (intros f Hf; apply Hs; lia).
  assert (Hup : ∀ f, m f = Diverge ∨ m f = m (S n)).
  { intros f. destruct (decide (n < f)%nat) as [Hf|Hf]; [right; symmetry; by apply Heq|apply Hm; lia]. }
  split_and!.
  - intros f1 f2 H1 H2. by rewrite <-(Heq f1 H1), <-(Heq f2 H2).
  - split; [|by intros Hd]. intros Hd f. destruct (Hup f) as [?|E]; [done|by rewrite E].
  - intros f Hf. by destruct (Hup f).
Qed.

(** C32. Whether [Request::load] returns is decided by a run of bounded length:
    on every input, valid or not, any two amounts of fuel above the number of
    bytes there are to read and six give the same outcome; a run with that
    many rounds that has not returned never returns, however many rounds it is
    given; and where a run with less fuel returns or fails, the outcome is the
    same. *)
Theorem load_decided `{UrlOps} `{TimeOps} (s : BufferedStream TcpStream) :
  stream_wf s →
  let n := (length (bs_pending s) + 6)%nat in
  (∀ f1 f2, (n < f1)%nat → (n < f2)%nat → load f1 s = load f2 s)
  ∧ (load (S n) s = Diverge ↔ ∀ f, load f s = Diverge)
  ∧ ∀ f, load f s ≠ Diverge → load f s = load (S n) s.
Proof.
  intros Hwf n. apply (decided (λ f, load f s) n); [intros f1 f2 Hf; by apply load_mle|]. intros. by apply load_settled.
Qed.

(** The request that hangs, and the one with a malformed header. *)
Lemma load_decided_witness :
  (∀ f, load (H:=text_urls) (H0:=second_times) f hanging_request = Diverge)
  ∧ ∀ f, (100 < f)%nat → load (H:=text_urls) (H0:=second_times) f malformed_request
      = load (H:=text_urls) (H0:=second_times) 101 malformed_request.
Proof.
  assert (Hw1 : stream_wf hanging_request) by (apply tcp_stream_wf; repeat constructor; discriminate).
  assert (Hw2 : stream_wf malformed_request) by (apply tcp_stream_wf; repeat constructor; discriminate).
  assert (Hrun : match load (H:=text_urls) (H0:=second_times) (S (length (bs_pending hanging_request) + 6)) hanging_request with
    Diverge => true | _ => false end = true) by (vm_compute; reflexivity).
  assert (Hlen : bool_decide (length (bs_pending malformed_request) + 6 < 101)%nat = true) by (vm_compute; reflexivity).
  apply bool_decide_eq_true in Hlen.
  destruct (load_decided (H:=text_urls) (H0:=second_times) hanging_request Hw1) as (_ & [Hd _] & _).
  destruct (load_decided (H:=text_urls) (H0:=second_times) malformed_request Hw2) as (He & _ & _). cbn zeta in *. split.
  - apply Hd. revert Hrun. generalize (load (H:=text_urls) (H0:=second_times) (S (length (bs_pending hanging_request) + 6)) hanging_request).
    intros [x|e|] Hrun; [discriminate|discriminate|reflexivity].
  - intros f Hf. apply He; lia.
Defined.

(** The same for [ResponseReader::construct]. *)
Theorem construct_decided `{UrlOps} `{TimeOps} `{IoErrors} {S} `{ByteSource S}
    (s : BufferedStream S) (request : RequestWriter S) :
  stream_wf s →
  let n := (length (bs_pending s) + 6)%nat in
  (∀ f1 f2, (n < f1)%nat → (n < f2)%nat →
     response_reader.construct f1 s request = response_reader.construct f2 s request)
  ∧ (response_reader.construct (1 + n) s request = Diverge ↔ ∀ f, response_reader.construct f s request = Diverge)
  ∧ ∀ f, response_reader.construct f s request ≠ Diverge →
      response_reader.construct f s request = response_reader.construct (1 + n) s request.
Proof.
  intros Hwf n. apply (decided (λ f, response_reader.construct f s request) n); unfold response_reader.construct.
  - intros f1 f2 Hf. by destruct (construct_body_mle f1 f2 Hf s) as [->| ->]; [left|right].
  - intros f1 f2 Hn Hf. by rewrite (construct_settled s f1 f2 Hwf Hn Hf).
Qed.
