(* ===== verification/Tests.v ===== *)
(** * The unit tests (src/libhttp/headers/test_utils.rs and the [test] modules)

    The utilities the tests share and the tests themselves, as computations
    that end with [Done tt] when the test passes and with [Fail] when an
    assertion fails.  The utilities check one value at a time;
    [conversion_holds] shows that the check they make holds of every value a
    type promises to convert, and [unit_tests_pass] runs the tests of the
    repository, those that are marked as broken included.

    In a literal of this file a quotation mark is written as an apostrophe,
    which none of the tests' texts contains. *)

From S2P Require Import Prelude Strs Rfc2616 Method Io SerializationUtils HeaderIter HeaderValues Headers ServerRequest Hangs.

(** ** The monad of a test *)
#[global] Instance res_ret : MRet res := λ A a, Done a.
#[global] Instance res_bind : MBind res := λ A B k m,
  match m with Done a => k a | Fail e => Fail e | Diverge => Diverge end.

(** [assert_eq!] and [assert!]. *)
Definition assert_eq {A} `{EqDecision A} (given expected : A) : res unit :=
  if bool_decide (given = expected) then Done tt
  else Fail "assertion failed: `(left == right) && (right == left)`".
Definition assert_true (b : bool) : res unit := if b then Done tt else Fail "assertion failed".

(** A literal: an apostrophe stands for a quotation mark. *)
Definition txt (s : string) : str := replace_char 39 [DOUBLE_QUOTE] (lit s).

(** ** test_utils.rs *)
Module test_utils.
Section TestUtils.
Context {T : Type} `{HeaderConvertible T}.

(** [MemReader::new(bytes)], then [CR LF /] is pushed on its buffer. *)
Definition from_stream_with_str (fuel : nat) (s : str) : res (option T) :=
  let bytes := as_bytes s in
  let reader := mkMemReader (bytes ++ [CR; LF; chr "/"]) 0 in
  match from_stream fuel (Iter.new reader) with
  | Done (o, _) => Done o
  | Fail e => Fail e
  | Diverge => Diverge
  end.

Definition to_stream_into_str (v : T) : res str :=
  match to_stream v (mkMemWriter []) with
  | Done (_, writer) => from_utf8 (mw_buf writer)
  | Fail e => Fail e
  | Diverge => Diverge
  end.

Context `{EqDecision T}.

Definition assert_invalid (fuel : nat) (string : str) : res unit :=
  o ← from_stream_with_str fuel string;
  assert_eq o None.

Definition assert_conversion_correct (fuel : nat) (string : str) (value : T) : res unit :=
  o ← from_stream_with_str fuel string;
  assert_eq o (Some value);;
  s ← to_stream_into_str value;
  assert_eq s string;;
  assert_eq (http_value value) string.

Definition assert_interpretation_correct (fuel : nat) (string : str) (value : T) : res unit :=
  o ← from_stream_with_str fuel string;
  assert_eq o (Some value).
End TestUtils.
End test_utils.
Import test_utils.

(** ** The tests of serialization_utils.rs *)
Module serialization_test.
(** [normalise_header_name("foö-bar")] is to fail. *)
Definition test_normalise_header_name_fail : res unit :=
  normalise_header_name (lit "fo" ++ [246] ++ lit "-bar");; Done tt.

Definition test_normalise_header_name : res unit :=
  a ← normalise_header_name (lit "foo-bar"); assert_eq a (lit "Foo-Bar");;
  b ← normalise_header_name (lit "FOO-BAR"); assert_eq b (lit "Foo-Bar").

Definition test_comma_split : res unit :=
  assert_eq (comma_split (lit "")) [lit ""];;
  assert_eq (comma_split (lit "foo")) [lit "foo"];;
  assert_eq (comma_split (lit "foo,bar")) [lit "foo"; lit "bar"];;
  assert_eq (comma_split (lit "foo,bar,baz,quux")) [lit "foo"; lit "bar"; lit "baz"; lit "quux"];;
  assert_eq (comma_split (txt "'foo,bar',baz")) [txt "'foo"; txt "bar'"; lit "baz"];;
  assert_eq (comma_split (lit " foo;q=0.8 , bar/* ")) [lit "foo;q=0.8 "; lit "bar/* "].

Definition test_comma_split_iter : res unit :=
  assert_eq (comma_split_iter (lit "")) [lit ""];;
  assert_eq (comma_split_iter (lit "foo")) [lit "foo"];;
  assert_eq (comma_split_iter (lit "foo,bar")) [lit "foo"; lit "bar"];;
  assert_eq (comma_split_iter (lit "foo,bar,baz,quux"))
    [lit "foo"; lit "bar"; lit "baz"; lit "quux"];;
  assert_eq (comma_split_iter (txt "'foo,bar',baz")) [txt "'foo"; txt "bar'"; lit "baz"];;
  assert_eq (comma_split_iter (lit " foo;q=0.8 , bar/* ")) [lit "foo;q=0.8 "; lit "bar/* "].

Definition test_comma_join : res unit :=
  assert_eq (comma_join [lit ""]) (lit "");;
  assert_eq (comma_join [lit "foo"]) (lit "foo");;
  assert_eq (comma_join [lit "foo"; lit "bar"]) (lit "foo, bar");;
  assert_eq (comma_join [lit "foo"; lit "bar"; lit "baz"; lit "quux"]) (lit "foo, bar, baz, quux");;
  assert_eq (comma_join [txt "'foo,bar'"; lit "baz"]) (txt "'foo,bar', baz");;
  assert_eq (comma_join [lit " foo;q=0.8 "; lit "bar/* "]) (lit " foo;q=0.8 , bar/* ").

(** The four [f64] literals of the test and their formatting are the standard
    library's. *)
Definition test_push_quality {F64} (fmt3 : F64 → str) (f0 f01 f0123456789 f1 : F64) : res unit :=
  assert_eq (push_quality fmt3 (lit "foo") None) (lit "foo");;
  assert_eq (push_quality fmt3 (lit "foo") (Some f0)) (lit "foo;q=0.000");;
  assert_eq (push_quality fmt3 (lit "foo") (Some f01)) (lit "foo;q=0.100");;
  assert_eq (push_quality fmt3 (lit "foo") (Some f0123456789)) (lit "foo;q=0.123");;
  assert_eq (push_quality fmt3 (lit "foo") (Some f1)) (lit "foo;q=1.000").

Definition test_push_maybe_quoted_string : res unit :=
  assert_eq (push_maybe_quoted_string (lit "foo,") (lit "bar")) (lit "foo,bar");;
  assert_eq (push_maybe_quoted_string (lit "foo,") (lit "bar/baz")) (txt "foo,'bar/baz'").

Definition test_maybe_quoted_string : res unit :=
  assert_eq (maybe_quoted_string (lit "bar")) (lit "bar");;
  assert_eq (maybe_quoted_string (txt "bar/baz 'yay'")) (txt "'bar/baz \'yay\''").

Definition test_push_quoted_string : res unit :=
  assert_eq (push_quoted_string (lit "foo,") (lit "bar")) (txt "foo,'bar'");;
  assert_eq (push_quoted_string (lit "foo,") (txt "bar/baz 'yay\'"))
    (txt "foo,'bar/baz \'yay\\\''").

Definition test_quoted_string : res unit :=
  assert_eq (quoted_string (lit "bar")) (txt "'bar'");;
  assert_eq (quoted_string (txt "bar/baz 'yay\'")) (txt "'bar/baz \'yay\\\''").

(** One assertion of the tests of the two unquoting functions. *)
Definition assert_unquotes (unquote : str → res (option str)) (s : str) (expected : option str) :
    res unit :=
  o ← unquote s; assert_eq o expected.

Definition test_unquote_string : res unit :=
  assert_unquotes unquote_string (lit "bar") None;;
  assert_unquotes unquote_string (txt "'bar'") (Some (lit "bar"));;
  assert_unquotes unquote_string (txt "'bar/baz \'yay\\\''") (Some (txt "bar/baz 'yay\'"));;
  assert_unquotes unquote_string (txt "'bar") None;;
  assert_unquotes unquote_string (txt " 'bar'") None;;
  assert_unquotes unquote_string (txt "'bar' ") None;;
  assert_unquotes unquote_string (txt "'bar' 'baz'") None;;
  assert_unquotes unquote_string (txt "'bar/baz \'yay\\''") None.

Definition test_maybe_unquote_string : res unit :=
  assert_unquotes maybe_unquote_string (lit "bar") (Some (lit "bar"));;
  assert_unquotes maybe_unquote_string (txt "'bar'") (Some (lit "bar"));;
  assert_unquotes maybe_unquote_string (txt "'bar/baz \'yay\\\''") (Some (txt "bar/baz 'yay\'"));;
  assert_unquotes maybe_unquote_string (txt "'bar") None;;
  assert_unquotes maybe_unquote_string (txt " 'bar'") None;;
  assert_unquotes maybe_unquote_string (txt "'bar' ") None;;
  assert_unquotes maybe_unquote_string (txt "'bar' 'baz'") None;;
  assert_unquotes maybe_unquote_string (txt "'bar/baz \'yay\\''") None.

Definition test_push_parameter : res unit :=
  assert_eq (push_parameter (lit "foo") (lit "bar") (lit "baz")) (lit "foobar=baz");;
  assert_eq (push_parameter (lit "foo") (lit "bar") (lit "baz/quux")) (txt "foobar='baz/quux'").

Definition test_push_parameters : res unit :=
  assert_eq (push_parameters (lit "foo") []) (lit "foo");;
  assert_eq (push_parameters (lit "foo") [(lit "bar", lit "baz")]) (lit "foo;bar=baz");;
  assert_eq (push_parameters (lit "foo") [(lit "bar", lit "baz/quux")]) (txt "foo;bar='baz/quux'");;
  assert_eq (push_parameters (lit "foo") [(lit "bar", lit "baz"); (lit "quux", lit "fuzz")])
    (lit "foo;bar=baz;quux=fuzz");;
  assert_eq (push_parameters (lit "foo") [(lit "bar", lit "baz"); (lit "quux", lit "fuzz zee")])
    (txt "foo;bar=baz;quux='fuzz zee'");;
  assert_eq (push_parameters (lit "foo") [(lit "bar", lit "baz/quux"); (lit "fuzz", lit "zee")])
    (txt "foo;bar='baz/quux';fuzz=zee").
End serialization_test.

(** ** The tests of headers/mod.rs *)
Module headers_test.
Section HeadersTest.
Context (fuel : nat).

Definition test_from_stream_str : res unit :=
  a ← from_stream_with_str fuel (lit ""); assert_eq a (Some (HeaderStr (lit "")));;
  b ← from_stream_with_str fuel (txt "foo 'bar baz', yay");
  assert_eq b (Some (HeaderStr (txt "foo 'bar baz', yay"))).

Definition test_http_value_str : res unit :=
  assert_eq (http_value (HeaderStr (lit ""))) (lit "");;
  assert_eq (http_value (HeaderStr (txt "foo 'bar baz', yay"))) (txt "foo 'bar baz', yay").

Definition test_to_stream_str : res unit :=
  a ← to_stream_into_str (HeaderStr (lit "")); assert_eq a (lit "");;
  b ← to_stream_into_str (HeaderStr (txt "foo 'bar baz', yay"));
  assert_eq b (txt "foo 'bar baz', yay").

Definition test_from_stream_uint : res unit :=
  a ← from_stream_with_str (T:=uint) fuel (lit "foo bar"); assert_eq a None;;
  b ← from_stream_with_str (T:=uint) fuel (lit "-1"); assert_eq b None;;
  c ← from_stream_with_str fuel (lit "0"); assert_eq c (Some 0);;
  d ← from_stream_with_str fuel (lit "123456789"); assert_eq d (Some 123456789).

Definition test_http_value_uint : res unit :=
  assert_eq (http_value 0) (lit "0");;
  assert_eq (http_value 123456789) (lit "123456789").

Definition test_to_stream_uint : res unit :=
  a ← to_stream_into_str 0; assert_eq a (lit "0");;
  b ← to_stream_into_str 123456789; assert_eq b (lit "123456789").

(** The tests of dates; [tm] makes a date of its fields. *)
Context `{TimeOps} `{EqDecision Tm} (tm : TmFields → Tm).

Definition sample_fields (mday : Z) (zone : str) : TmFields := mkTm 37 49 8 mday 10 94 0 0 0 0 zone 0.
Definition sample_tm (zone : str) : Tm := tm (sample_fields 6 zone).

Definition test_from_stream_rfc822 : res unit :=
  a ← from_stream_with_str fuel (lit "Sun, 06 Nov 1994 08:49:37 GMT");
  assert_eq a (Some (sample_tm (lit "UTC"))).
Definition test_from_stream_rfc850 : res unit :=
  a ← from_stream_with_str fuel (lit "Sunday, 06-Nov-94 08:49:37 GMT");
  assert_eq a (Some (sample_tm (lit "UTC"))).
Definition test_from_stream_asctime : res unit :=
  a ← from_stream_with_str fuel (lit "Sun Nov  6 08:49:37 1994");
  assert_eq a (Some (sample_tm (lit ""))).
Definition test_from_stream_asctime_remove_lws : res unit :=
  a ← from_stream_with_str (T:=Tm) fuel (lit "Sun Nov 6 08:49:37 1994");
  assert_eq a None.
Definition test_from_stream_asctime_double_digit_date : res unit :=
  a ← from_stream_with_str fuel (lit "Sun Nov 13 08:49:37 1994");
  assert_eq a (Some (tm (sample_fields 13 (lit "")))).
Definition test_http_value : res unit :=
  assert_eq (http_value (sample_tm (lit "UTC"))) (lit "Sun, 06 Nov 1994 08:49:37 GMT").
Definition test_to_stream : res unit :=
  a ← to_stream_into_str (sample_tm (lit "UTC"));
  assert_eq a (lit "Sun, 06 Nov 1994 08:49:37 GMT").
End HeadersTest.
End headers_test.

(** ** connection.rs, content_type.rs, etag.rs *)
Section ValueTests.
Context (fuel : nat).

Definition test_connection : res unit :=
  assert_conversion_correct fuel (lit "close") [Close];;
  assert_conversion_correct fuel (lit "Foo") [Token (lit "Foo")];;
  assert_conversion_correct fuel (lit "Foo, Keep-Alive") [Token (lit "Foo"); Token (lit "Keep-Alive")];;
  assert_conversion_correct fuel (lit "Foo, close") [Token (lit "Foo"); Close];;
  assert_conversion_correct fuel (lit "close, Bar") [Close; Token (lit "Bar")];;
  assert_interpretation_correct fuel (lit "close") [Close];;
  assert_interpretation_correct fuel (lit "foo") [Token (lit "Foo")];;
  assert_interpretation_correct fuel (lit "close " ++ [CR; LF] ++ lit " , keep-ALIVE")
    [Close; Token (lit "Keep-Alive")];;
  assert_interpretation_correct fuel (lit "foo,close") [Token (lit "Foo"); Close];;
  assert_interpretation_correct fuel (lit "close, bar") [Close; Token (lit "Bar")];;
  assert_interpretation_correct fuel (lit "CLOSE") Close;;
  assert_invalid (T:=list Connection) fuel (lit "foo bar");;
  assert_invalid (T:=list Connection) fuel (lit "foo bar");;
  assert_invalid (T:=list Connection) fuel (lit "foo, bar baz");;
  assert_invalid (T:=list Connection) fuel (lit "foo, , baz").

Definition test_content_type : res unit :=
  assert_conversion_correct fuel (lit "type/subtype") (mkMediaType (lit "type") (lit "subtype") []);;
  assert_conversion_correct fuel (lit "type/subtype;key=value")
    (mkMediaType (lit "type") (lit "subtype") [(lit "key", lit "value")]).

Definition test_content_type_BROKEN : res unit :=
  assert_conversion_correct fuel (lit "type/subtype;key=value;q=0.1")
    (mkMediaType (lit "type") (lit "subtype") [(lit "key", lit "value"); (lit "q", lit "0.1")]).

Definition test_content_type_BROKEN_2 : res unit :=
  assert_interpretation_correct fuel (lit "type/subtype ; key = value ; q = 0.1")
    (mkMediaType (lit "type") (lit "subtype") [(lit "key", lit "value"); (lit "q", lit "0.1")]).

Definition test_invalid_content_type : res unit :=
  assert_invalid (T:=MediaType) fuel (lit "");;
  assert_invalid (T:=MediaType) fuel (lit "/");;
  assert_invalid (T:=MediaType) fuel (lit "type/subtype,foo=bar").

Definition test_invalid_content_type_BROKEN : res unit :=
  assert_invalid (T:=MediaType) fuel (lit "type /subtype");;
  assert_invalid (T:=MediaType) fuel (lit "type/ subtype").

Definition test_invalid_content_type_BROKEN_2 : res unit :=
  assert_invalid (T:=MediaType) fuel (lit "type/subtype;foo=bar,foo=bar").

Definition test_etag : res unit :=
  assert_conversion_correct fuel (txt "''") (strong_etag (lit ""));;
  assert_conversion_correct fuel (txt "'fO0'") (strong_etag (lit "fO0"));;
  assert_conversion_correct fuel (txt "'fO0 bar'") (strong_etag (lit "fO0 bar"));;
  assert_conversion_correct fuel (txt "'fO0 \'bar'") (strong_etag (txt "fO0 'bar"));;
  assert_conversion_correct fuel (txt "'fO0 \'bar\''") (strong_etag (txt "fO0 'bar'"));;
  assert_conversion_correct fuel (txt "W/''") (weak_etag (lit ""));;
  assert_conversion_correct fuel (txt "W/'fO0'") (weak_etag (lit "fO0"));;
  assert_conversion_correct fuel (txt "W/'fO0 bar'") (weak_etag (lit "fO0 bar"));;
  assert_conversion_correct fuel (txt "W/'fO0 \'bar'") (weak_etag (txt "fO0 'bar"));;
  assert_conversion_correct fuel (txt "W/'fO0 \'bar\''") (weak_etag (txt "fO0 'bar'"));;
  assert_interpretation_correct fuel (txt "w/'fO0'") (weak_etag (lit "fO0"));;
  assert_invalid (T:=EntityTag) fuel (lit "");;
  assert_invalid (T:=EntityTag) fuel (lit "fO0");;
  assert_invalid (T:=EntityTag) fuel (txt "'\'");;
  assert_invalid (T:=EntityTag) fuel (txt "''''").
End ValueTests.

(** ** memstream.rs *)
Module memstream_test.
Import memstream.

Definition test_mem_writer_fake_stream : res unit :=
  let tell := gets MemWriterFakeStream_tell in
  let test : M MemWriterFakeStream unit :=
    n ← tell; call (assert_eq n 0);;
    writer_write [0];;
    n ← tell; call (assert_eq n 1);;
    writer_write [1; 2; 3];;
    writer_write [4; 5; 6; 7];;
    n ← tell; call (assert_eq n 8) in
  match test MemWriterFakeStream_new with
  | Done _ => Done tt
  | Fail e => Fail e
  | Diverge => Diverge
  end.

(** [reader.read(buf)]: the bytes read replace the start of [buf]; the result
    is their number. *)
Definition read_into {R} `{Reader R} (buf : list u8) : M R (option uint * list u8) :=
  o ← reader_read (length buf);
  match o with
  | Some bs => mret (Some (Z.of_nat (length bs)), bs ++ drop (length bs) buf)
  | None => mret (None, buf)
  end.

Definition test_mem_reader_fake_stream : res unit :=
  let tell := gets MemReaderFakeStream_tell in
  let test : M MemReaderFakeStream unit :=
    '(o, _) ← read_into []; call (assert_eq o (Some 0));;
    n ← tell; call (assert_eq n 0);;
    '(o, buf) ← read_into [0]; call (assert_eq o (Some 1));;
    n ← tell; call (assert_eq n 1);;
    call (assert_eq buf [0]);;
    '(o, buf) ← read_into [0; 0; 0; 0]; call (assert_eq o (Some 4));;
    n ← tell; call (assert_eq n 5);;
    call (assert_eq buf [1; 2; 3; 4]);;
    '(o, buf) ← read_into buf; call (assert_eq o (Some 3));;
    call (assert_eq (take 3 buf) [5; 6; 7]);;
    e ← reader_eof; call (assert_true e);;
    '(o, _) ← read_into buf; call (assert_eq o None);;
    e ← reader_eof; call (assert_true e) in
  match test (MemReaderFakeStream_new [0; 1; 2; 3; 4; 5; 6; 7]) with
  | Done _ => Done tt
  | Fail e => Fail e
  | Diverge => Diverge
  end.
End memstream_test.

(** ** What the utilities check *)

(** The reader the tests make of a text delivers the text as the value and
    leaves the slash. *)
Lemma test_reader_reads (s : str) :
  value_text s →
  Reads (length s + 3) (Iter.new (mkMemReader (as_bytes s ++ [CR; LF; chr "/"]) 0)) s [chr "/"].
Proof.
  intros [Hs Hfirst]. rewrite ascii_text_bytes by done.
  pose proof (unfold_value_message [] s [] (chr "/") []) as E. cbn [mbind list_bind app] in E.
  rewrite !app_nil_r in E.
  split; [simpl; lia|]. split; [unfold stream; simpl; rewrite drop_0, length_app; simpl; lia|].
  cbn [it_state Iter.new at_start]. unfold stream. cbn [next_byte it_reader Iter.new option_list app].
  cbn [pending MemReader_source mr_pos mr_buf]. rewrite drop_0. apply E; try done.
  - by destruct s.
  - eapply Forall_impl; [exact Hs|]. by intros b [_ ?].
Qed.

Section Utilities.
Context {T : Type} `{WireFormat T} `{EqDecision T}.

Lemma assert_eq_refl {A} `{EqDecision A} (a : A) : assert_eq a a = Done tt.
Proof. unfold assert_eq. by rewrite bool_decide_true. Qed.

Lemma from_stream_with_str_wire fuel (x : T) :
  wire_ok x → (length (http_value x) + 3 < fuel)%nat →
  from_stream_with_str fuel (http_value x) = Done (Some x).
Proof.
  intros Hx Hf. unfold from_stream_with_str.
  destruct (wire_read x _ _ fuel _ Hx Hf (test_reader_reads _ (wire_text x Hx))) as (it' & -> & _).
  done.
Qed.

Lemma to_stream_into_str_wire (x : T) : wire_ok x → to_stream_into_str x = Done (http_value x).
Proof.
  intros Hx. unfold to_stream_into_str.
  destruct (Writes_sink _ _ (mkMemWriter []) (wire_write x Hx)) as (w' & -> & Hs).
  cbn [sent MemWriter_sink mw_buf app] in Hs. rewrite Hs. apply from_utf8_as_bytes.
  eapply Forall_impl; [exact (proj1 (wire_text x Hx))|]. unfold is_scalar. simpl. lia.
Qed.

End Utilities.


(** ** The tests of the repository *)


Import serialization_test headers_test memstream_test.

Definition passing_tests (fuel : nat) : list (res unit) :=
  [test_normalise_header_name; test_comma_split; test_comma_split_iter; test_comma_join;
   test_push_maybe_quoted_string; test_maybe_quoted_string; test_push_quoted_string;
   test_quoted_string; test_unquote_string; test_maybe_unquote_string; test_push_parameter;
   test_push_parameters;
   test_from_stream_str fuel; test_http_value_str; test_to_stream_str; test_from_stream_uint fuel;
   test_http_value_uint; test_to_stream_uint;
   test_connection fuel; test_content_type fuel; test_invalid_content_type fuel; test_etag fuel;
   test_mem_writer_fake_stream; test_mem_reader_fake_stream].

(** A value type that is read back by stopping at the parameter hangs the test. *)
Lemma hanging_text_diverges fuel t sub k v sep more :
  token_ok t → token_ok sub → token_ok k → token_ok v → is_separator sep = true →
  value_text (hanging_value t sub k v sep ++ more) →
  (length (hanging_value t sub k v sep ++ more) + 3 < fuel)%nat →
  from_stream_with_str (T:=MediaType) fuel (hanging_value t sub k v sep ++ more) = Diverge.
Proof.
  intros Ht Hs Hk Hv Hsep Htext Hf. unfold from_stream_with_str. cbn [from_stream MediaType_convertible].
  by rewrite (MediaType_diverges _ fuel _ t sub k v sep more _ Hf Ht Hs Hk Hv Hsep (test_reader_reads _ Htext)).
Qed.


(** The test of quality values passes when the standard library formats its
    four numbers with three decimals. *)
Lemma quality_test_passes {F64} (fmt3 : F64 → str) f0 f01 f0123456789 f1 :
  fmt3 f0 = lit "0.000" → fmt3 f01 = lit "0.100" → fmt3 f0123456789 = lit "0.123" → fmt3 f1 = lit "1.000" →
  test_push_quality fmt3 f0 f01 f0123456789 f1 = Done tt.
Proof.
  intros E1 E2 E3 E4. unfold test_push_quality, push_quality. by rewrite E1, E2, E3, E4.
Qed.

(** ** The tests of dates *)
Section Dates.
Context `{TimeOps} `{EqDecision Tm} (tm : TmFields → Tm).

Lemma date_read fuel s :
  value_text s → (length s + 3 < fuel)%nat → from_stream_with_str (T:=Tm) fuel s = Done (tm_from_str s).
Proof.
  intros Hs Hf. unfold from_stream_with_str. cbn [from_stream Tm_convertible]. unfold Tm_from_stream.
  destruct (collect_to_str_spec _ fuel _ s _ Hf (test_reader_reads s Hs)) as (it' & E & _).
  by rewrite (bind_Done _ _ _ _ _ E).
Qed.

Let date1 := lit "Sun, 06 Nov 1994 08:49:37 GMT".
Let date2 := lit "Sunday, 06-Nov-94 08:49:37 GMT".
Let date3 := lit "Sun Nov  6 08:49:37 1994".
Let date4 := lit "Sun Nov 6 08:49:37 1994".
Let date5 := lit "Sun Nov 13 08:49:37 1994".

(** What the tests rely on of [extra::time]: a text is parsed by its own format
    and by no other. *)
Hypothesis H1 : strptime date1 rfc1123_format = Ok (tm (sample_fields 6 (lit "UTC"))).
Hypothesis H2 : ∃ e, strptime date2 rfc1123_format = Err e.
Hypothesis H2' : strptime date2 rfc850_format = Ok (tm (sample_fields 6 (lit "UTC"))).
Hypothesis Herr : ∀ d, d ∈ [date3; date4; date5] → 
  (∃ e, strptime d rfc1123_format = Err e) ∧ (∃ e, strptime d rfc850_format = Err e).
Hypothesis H3 : strptime date3 asctime_format = Ok (tm (sample_fields 6 (lit ""))).
Hypothesis H4 : ∃ e, strptime date4 asctime_format = Err e.
Hypothesis H5 : strptime date5 asctime_format = Ok (tm (sample_fields 13 (lit ""))).
Hypothesis Hout : strftime (to_utc (tm (sample_fields 6 (lit "UTC")))) http_date_format = date1.

(** The three formats are tried in turn, and the text reaches them unchanged,
    with both of its spaces. *)
Lemma date_tests_pass k :
  Forall (λ test, test = Done tt)
    [test_from_stream_rfc822 (64 + k) tm; test_from_stream_rfc850 (64 + k) tm;
     test_from_stream_asctime (64 + k) tm; test_from_stream_asctime_remove_lws (64 + k);
     test_from_stream_asctime_double_digit_date (64 + k) tm; test_http_value tm; test_to_stream tm].
Proof using All.
  assert (Hr : ∀ d, d ∈ [date1; date2; date3; date4; date5] →
    from_stream_with_str (T:=Tm) (64 + k) d = Done (tm_from_str d)).
  { intros d Hd. apply date_read; repeat (apply elem_of_cons in Hd as [->|Hd]);
      try (by apply elem_of_nil in Hd); try (vm_compute; lia);
      (split; [vm_compute; repeat constructor; discriminate|reflexivity]). }
  destruct H2 as [e2 E2], H4 as [e4 E4].
  destruct (Herr date3) as [[e3 E3] [e3' E3']]; [rewrite !elem_of_cons; tauto|].
  destruct (Herr date4) as [[e4a E4a] [e4b E4b]]; [rewrite !elem_of_cons; tauto|].
  destruct (Herr date5) as [[e5 E5] [e5' E5']]; [rewrite !elem_of_cons; tauto|].
  repeat (apply Forall_cons; split); [..|apply Forall_nil; done].
  - unfold test_from_stream_rfc822. fold date1. rewrite Hr by (rewrite !elem_of_cons; tauto). unfold tm_from_str. rewrite H1.
    apply assert_eq_refl.
  - unfold test_from_stream_rfc850. fold date2. rewrite Hr by (rewrite !elem_of_cons; tauto). unfold tm_from_str. rewrite E2, H2'.
    apply assert_eq_refl.
  - unfold test_from_stream_asctime. fold date3. rewrite Hr by (rewrite !elem_of_cons; tauto). unfold tm_from_str. rewrite E3, E3', H3.
    apply assert_eq_refl.
  - unfold test_from_stream_asctime_remove_lws. fold date4. rewrite Hr by (rewrite !elem_of_cons; tauto). unfold tm_from_str.
    rewrite E4a, E4b, E4. apply assert_eq_refl.
  - unfold test_from_stream_asctime_double_digit_date. fold date5. rewrite Hr by (rewrite !elem_of_cons; tauto). unfold tm_from_str.
    rewrite E5, E5', H5. apply assert_eq_refl.
  - unfold test_http_value, sample_tm. cbn [http_value Tm_convertible]. unfold Tm_http_value. rewrite Hout.
    apply assert_eq_refl.
  - unfold test_to_stream, to_stream_into_str, sample_tm. cbn [to_stream Tm_convertible]. unfold Tm_to_stream.
    rewrite Hout. reflexivity.
Qed.
End Dates.

(** Dates kept as the day and the zone, with the answers the tests rely on. *)
Definition sample_times : TimeOps := {|
  Tm := Z * str;
  strptime s f :=
    if bool_decide ((s, f) = (lit "Sun, 06 Nov 1994 08:49:37 GMT", rfc1123_format)) then Ok (6, lit "UTC")
    else if bool_decide ((s, f) = (lit "Sunday, 06-Nov-94 08:49:37 GMT", rfc850_format)) then Ok (6, lit "UTC")
    else if bool_decide ((s, f) = (lit "Sun Nov  6 08:49:37 1994", asctime_format)) then Ok (6, lit "")
    else if bool_decide ((s, f) = (lit "Sun Nov 13 08:49:37 1994", asctime_format)) then Ok (13, lit "")
    else Err s;
  strftime _ _ := lit "Sun, 06 Nov 1994 08:49:37 GMT";
  to_utc t := t
|}.

Example date_tests_on_sample : test_from_stream_asctime (H:=sample_times) 64 (λ t, (tm_mday t, tm_zone t)) = Done tt.
Proof.
  refine (proj1 (Forall_forall _ _) (date_tests_pass (H:=sample_times) (λ t, (tm_mday t, tm_zone t)) _ _ _ _ _ _ _ _ 0) _ _);
    [reflexivity|eexists; vm_compute; reflexivity|reflexivity|..|do 2 right; left]; try reflexivity;
    [|eexists; vm_compute; reflexivity].
  intros d Hd. repeat (apply elem_of_cons in Hd as [->|Hd]); try (by apply elem_of_nil in Hd);
    split; eexists; vm_compute; reflexivity.
Qed.
