(* ===== verification/Examples.v ===== *)
(** * The example servers (src/examples/server)

    The four servers that come with the library, as instances of [Server].
    Each is shown to handle a request as a plan of a status, headers and a
    body, so that what is proved of the connection's task applies to it: the
    theorems give the responses on the wire.

    [now_utc request] is the time at which the request is handled. *)

From S2P Require Import Prelude Strs Rfc2616 Method Io Buffer Common Chunked SerializationUtils HeaderIter HeaderValues Headers Status Branchify ServerRequest ServerResponse Server.

(** All of them listen on 127.0.0.1:8001. *)
Definition example_config : Config := mkConfig (mkSocketAddr (Ipv4Addr 127 0 0 1) 8001).

Section Servers.
Context `{UrlOps} `{TimeOps} (now_utc : Request → Tm) (fuel : nat).
Import response_writer.

Definition set_str (i : nat) (s : string) : M ResponseWriter unit :=
  set_header i (Some (VStr (HeaderStr (lit s)))).

(** ** hello_world.rs *)
Inductive HelloWorldServer : Type := hello_world_server.
Definition hello_world_handle_request (request : Request) : M ResponseWriter unit :=
  set_header response.date (Some (VTm (now_utc request)));;
  set_header response.content_length (Some (VUint 14));;
  set_header response.content_type
    (Some (VMediaType (mkMediaType (lit "text") (lit "plain") [(lit "charset", lit "UTF-8")])));;
  set_str response.server "Example";;
  write fuel (lit "Hello, World!" ++ [LF]).
#[global] Instance HelloWorldServer_server : Server HelloWorldServer := {
  handle_request _ := hello_world_handle_request;
  get_config _ := example_config
}.

(** ** apache_fake.rs *)
Context (tm : TmFields → Tm).
Inductive ApacheFakeServer : Type := apache_fake_server.
Definition apache_page : list u8 :=
  lit "<html><body><h1>It works!</h1>" ++ [LF]
  ++ lit "<p>This is the default web page for this server.</p>" ++ [LF]
  ++ lit "<p>The web server software is running but no content has been added, yet.</p>" ++ [LF]
  ++ lit "</body></html>" ++ [LF].
Definition apache_fake_handle_request (request : Request) : M ResponseWriter unit :=
  set_header response.date (Some (VTm (now_utc request)));;
  set_str response.server "Apache/2.2.22 (Ubuntu)";;
  set_header response.last_modified (Some (VTm (tm (mkTm 42 46 11 5 4 111 4 0 0 0 (lit "GMT") 0))));;
  set_header response.etag (Some (VEntityTag (mkEntityTag false (lit "501b29-b1-4a285ed47404a"))));;
  set_header response.accept_ranges (Some (VAcceptableRanges (RangeUnits [Bytes])));;
  set_header response.content_length (Some (VUint 177));;
  set_str response.vary "Accept-Encoding";;
  set_header response.content_type (Some (VMediaType (mkMediaType (lit "text") (lit "html") [])));;
  modify (λ w, set_headers (mkCollection (fields (rw_headers w))
    (tree_insert (lit "X-Pad") (lit "avoid browser bug") (extensions (rw_headers w)))) w);;
  write fuel apache_page.
#[global] Instance ApacheFakeServer_server : Server ApacheFakeServer := {
  handle_request _ := apache_fake_handle_request;
  get_config _ := example_config
}.

(** ** request_uri.rs *)
Inductive RequestUriServer : Type := request_uri_server.
Definition MethodNotAllowed : Status := Registered (lit "MethodNotAllowed").
(** The part of the handler after the first [match]; what it prints on the
    console is left out. *)
Definition request_uri_page (request : Request) : M ResponseWriter unit :=
  set_header response.content_type (Some (VMediaType (mkMediaType (lit "text") (lit "html") [])));;
  write fuel (lit "<!DOCTYPE html><title>Rust HTTP server</title>");;
  match request_uri request with
  | Star | Authority _ => modify (set_status BadRequest)
  | AbsoluteUri _ | AbsolutePath _ => mret tt
  end.
(** The [match] on the method and the URI, and what follows. *)
Definition request_uri_rest (request : Request) : M ResponseWriter unit :=
  match method request, request_uri request with
  | Connect, _ => modify (set_status MethodNotAllowed)
  | _, Authority _ => modify (set_status BadRequest)
  | Options, Star =>
      set_header response.allow (Some (VMethods [Get; Head; Post; Put; Delete; Trace; Options; Connect; Patch]));;
      set_header response.content_length (Some (VUint 0))
  | Options, AbsoluteUri _ | Options, AbsolutePath _ => request_uri_page request
  | _, AbsoluteUri _ | _, AbsolutePath _ => request_uri_page request
  | _, Star => request_uri_page request
  end.
Definition request_uri_handle_request (request : Request) : M ResponseWriter unit :=
  set_header response.date (Some (VTm (now_utc request)));;
  set_str response.server "Rust Thingummy/0.1-pre";;
  request_uri_rest request.
#[global] Instance RequestUriServer_server : Server RequestUriServer := {
  handle_request _ := request_uri_handle_request;
  get_config _ := example_config
}.

(** ** info.rs *)
Inductive InfoServer : Type := info_server.
(** The texts that [{:?}] makes of the values. *)
Context (fmt_host : option HeaderValue → str) (fmt_uri : RequestUri → str) (fmt_version : uint * uint → str).
Definition fmt_bool (b : bool) : str := if b then lit "true" else lit "false".

(** The row of a header in a table. *)
Definition info_row (tbl : table) (h : Header) : str :=
  lit "<tr><td><code>" ++ header_name tbl h ++ lit "</code></td><td><code>" ++ header_value h
  ++ lit "</code></td></tr>".
(** [for header in headers.iter()]. *)
Definition info_rows_body (tbl : table) (it : HeaderCollectionIterator) :
    M ResponseWriter (HeaderCollectionIterator + unit) :=
  r ← call (coll_next (length tbl) fuel it);
  let '(oh, it') := (r : option Header * HeaderCollectionIterator) in
  match oh with
  | Some h => write fuel (as_bytes (info_row tbl h));; continue it'
  | None => break tt
  end.
Definition info_rows (tbl : table) (c : HeaderCollection) : M ResponseWriter unit :=
  loop fuel (info_rows_body tbl) (coll_iter c).

(** The list of the request's properties; the literal spans lines. *)
Definition info_indent : str := [LF] ++ lit "            ".
Definition info_request (r : Request) : str :=
  lit "<dl>" ++ info_indent ++ lit "<dt>Method</dt><dd>" ++ Method.to_str (method r) ++ lit "</dd>"
  ++ info_indent ++ lit "<dt>Host</dt><dd>" ++ fmt_host (collection_get request.host (headers r)) ++ lit "</dd>"
  ++ info_indent ++ lit "<dt>Request URI</dt><dd>" ++ fmt_uri (request_uri r) ++ lit "</dd>"
  ++ info_indent ++ lit "<dt>HTTP version</dt><dd>" ++ fmt_version (version r) ++ lit "</dd>"
  ++ info_indent ++ lit "<dt>Close connection</dt><dd>" ++ fmt_bool (close_connection r) ++ lit "</dd></dl>".
Definition info_table : list u8 := lit "<table><thead><tr><th>Name</th><th>Value</th></thead><tbody>".

Definition info_handle_request (r : Request) : M ResponseWriter unit :=
  set_header response.date (Some (VTm (now_utc r)));;
  set_header response.content_type
    (Some (VMediaType (mkMediaType (lit "text") (lit "html") [(lit "charset", lit "UTF-8")])));;
  set_str response.server "Rust Thingummy/0.0-pre";;
  write fuel (lit "<!DOCTYPE html><title>Rust HTTP server</title>");;
  write fuel (lit "<h1>Request</h1>");;
  write fuel (as_bytes (info_request r));;
  write fuel (lit "<h2>Extension headers</h2>");;
  write fuel info_table;;
  info_rows request_table (headers r);;
  write fuel (lit "</tbody></table>");;
  write fuel (lit "<h2>Body</h2><pre>");;
  write fuel (as_bytes (body r));;
  write fuel (lit "</pre>");;
  write fuel (lit "<h1>Response</h1>");;
  st ← gets rw_status;
  write fuel (as_bytes (lit "<dl><dt>Status</dt><dd>" ++ Status.fmt_Default st ++ lit "</dd></dl>"));;
  write fuel (lit "<h2>Headers</h2>");;
  write fuel info_table;;
  h ← gets rw_headers;
  info_rows response_table h;;
  write fuel (lit "</tbody></table>").
#[global] Instance InfoServer_server : Server InfoServer := {
  handle_request _ := info_handle_request;
  get_config _ := example_config
}.
End Servers.
Arguments HelloWorldServer_server {_ _} now_utc fuel.
Arguments ApacheFakeServer_server {_ _} now_utc fuel tm.
Arguments RequestUriServer_server {_ _} now_utc fuel.
Arguments InfoServer_server {_ _} now_utc fuel fmt_host fmt_uri fmt_version.

(** ** What a server that plans its responses puts on the wire *)
Section Serve.
Context `{UrlOps} `{TimeOps} {T : Type} `{!Server T} (self : T).

Lemma serves_planned fuel (clock : nat → u64) plan (P : Request → list u8 → Prop) c t0 p requests rest :
  idle p (conn_stream c) → Requests p (bs_pending (conn_stream c)) requests rest →
  (length (bs_pending (conn_stream c)) + 6 < fuel)%nat →
  (∀ request, request ∈ requests → handles fuel self request (plan request)) →
  (∀ request out, answers (plan request) out → P request out) →
  ∃ c' outs, serve_connection clock fuel self t0 c = Done (tt, c')
    ∧ Forall2 P requests outs ∧ sent (wrapped (conn_stream c')) = sent (wrapped (conn_stream c)) ++ concat outs
    ∧ bs_pending (conn_stream c') = rest.
Proof.
  intros Hi Hr Hf Hh HP.
  destruct (connection_loop_spec clock fuel self plan p _ requests rest Hr Hf c fuel t0 Hi eq_refl ltac:(lia) Hh)
    as (c' & outs & E & Ha & Hs & Hp & _).
  exists c', outs. split_and?; try done. eapply Forall2_impl; [exact Ha|]. intros request out. apply HP.
Qed.

(** One response is determined by its request. *)
Lemma serves_exactly fuel (clock : nat → u64) plan (f : Request → list u8) c t0 p requests rest :
  idle p (conn_stream c) → Requests p (bs_pending (conn_stream c)) requests rest →
  (length (bs_pending (conn_stream c)) + 6 < fuel)%nat →
  (∀ request, request ∈ requests → handles fuel self request (plan request)) →
  (∀ request out, answers (plan request) out → out = f request) →
  ∃ c', serve_connection clock fuel self t0 c = Done (tt, c')
    ∧ sent (wrapped (conn_stream c')) = sent (wrapped (conn_stream c)) ++ (requests ≫= f)
    ∧ bs_pending (conn_stream c') = rest.
Proof.
  intros Hi Hr Hf Hh HP.
  destruct (serves_planned fuel clock plan (λ request out, out = f request) c t0 p requests rest Hi Hr Hf Hh HP)
    as (c' & outs & E & Ha & Hs & Hp).
  exists c'. split_and?; try done. rewrite Hs. f_equal. clear -Ha. induction Ha as [|r o rs os -> _ IH]; [done|].
  cbn. by rewrite IH.
Qed.
End Serve.

(** ** What a write does to the rest of a response *)
Section Effects.
Context `{UrlOps} `{TimeOps} (fuel : nat).
Implicit Types w : ResponseWriter.

(** The head is written, with the headers as they are sent; nothing else
    changes. *)
Definition head_done w w' : Prop :=
  rw_headers_written w' = true ∧ rw_request w' = rw_request w ∧ rw_status w' = rw_status w
  ∧ rw_headers w' = if rw_headers_written w then rw_headers w else coded_headers (rw_headers w).

Lemma on_writer_inv {A} (m : M (BufferedStream TcpStream) A) w a w' :
  response_writer.on_writer m w = Done (a, w') → ∃ s, w' = response_writer.set_writer s w.
Proof.
  unfold response_writer.on_writer, zoom. destruct (m (rw_writer w)) as [[a' s]| |]; [|done|done].
  intros [= <- <-]. by exists s.
Qed.

Lemma bind_inv {S A B} (m : M S A) (k : A → M S B) s b s' :
  (m ≫= k) s = Done (b, s') → ∃ a s1, m s = Done (a, s1) ∧ k a s1 = Done (b, s').
Proof. rewrite bind_unfold. destruct (m s) as [[a s1]| |]; [|done|done]. by exists a, s1. Qed.

Lemma write_headers_effect w w' : response_writer.write_headers fuel w = Done (tt, w') → head_done w w'.
Proof.
  unfold response_writer.write_headers, head_done. rewrite bind_gets.
  destruct (rw_headers_written w) eqn:Ew; [done|]. rewrite bind_gets.
  intros ([] & w1 & [s1 ->]%on_writer_inv & E)%bind_inv. revert E. rewrite bind_gets.
  cbn [rw_headers response_writer.set_writer]. unfold response_writer.set_header.
  assert (Hm : ∀ (b : option HeaderValue) (k : unit → M ResponseWriter unit),
    ((if bool_decide (b = None)
      then modify (λ w0, response_writer.set_headers (collection_set response.transfer_encoding
             (Some (VTransferCodings [Chunked])) (rw_headers w0)) w0)
      else modify (λ w0, response_writer.set_headers (collection_set response.transfer_encoding None (rw_headers w0)) w0))
     ≫= k) (response_writer.set_writer s1 w)
    = k tt (response_writer.set_headers (collection_set response.transfer_encoding
        (if bool_decide (b = None) then Some (VTransferCodings [Chunked]) else None) (rw_headers w))
        (response_writer.set_writer s1 w))) by (intros b k; by destruct (bool_decide (b = None))).
  rewrite Hm, bind_gets. fold (coded_headers (rw_headers w)).
  intros ([] & w2 & [s2 ->]%on_writer_inv & E)%bind_inv. revert E. rewrite bind_modify, bind_gets.
  cbn [rw_headers response_writer.set_writer response_writer.set_headers response_writer.set_headers_written].
  case_bool_decide.
  - intros ([] & w3 & [s3 ->]%on_writer_inv & [s4 ->]%on_writer_inv)%bind_inv. done.
  - intros E. by injection E as <-.
Qed.

Lemma write_effect bs w w' : response_writer.write fuel bs w = Done (tt, w') → head_done w w'.
Proof.
  unfold response_writer.write. rewrite bind_gets. intros ([] & w1 & E1 & [s ->]%on_writer_inv)%bind_inv.
  destruct (rw_headers_written w) eqn:Ew; [|by apply write_headers_effect in E1].
  injection E1 as <-. unfold head_done. by rewrite Ew.
Qed.
End Effects.

(** The line of a header that is set to a text. *)
Definition text_line (name : string) (value : str) : list u8 := as_bytes (lit name ++ lit ": " ++ value) ++ [CR; LF].
(** A date that can be sent. *)
Definition date_fits `{TimeOps} (t : Tm) : Prop := Z.of_nat (length (as_bytes (Tm_http_value t))) < 2 ^ 61.

(** Headers with given values are writable. *)
Ltac writable :=
  repeat (apply Forall_cons; split; [split; [by eexists|]|]); [..|by apply Forall_nil];
  unfold writable_value, value_ok; cbn [wire_ok]; try done.

Lemma text_line_length name value :
  length (text_line name value) = (length (as_bytes (lit name ++ lit ": ")) + length (as_bytes value) + 2)%nat.
Proof. unfold text_line. rewrite app_assoc, as_bytes_app, !length_app. simpl. lia. Qed.

Lemma charset_ok : params_ok [(lit "charset", lit "UTF-8")].
Proof.
  split; [split; [done|by repeat constructor]|]. split; [split; [done|]|by split].
  vm_compute. repeat constructor; discriminate.
Qed.

(** A handler that ends in one write. *)
Lemma single_write `{UrlOps} `{TimeOps} fuel bs w :
  response_writer.write fuel bs w = (response_writer.write fuel bs;; mret tt) w.
Proof. rewrite bind_unfold. by destruct (response_writer.write fuel bs w) as [[[] ?]| |]. Qed.

Section HelloWorld.
Context `{UrlOps} `{TimeOps} (now_utc : Request → Tm) (fuel : nat).

Definition hello_headers (request : Request) : HeaderCollection :=
  collection_set response.server (Some (VStr (HeaderStr (lit "Example"))))
    (collection_set response.content_type
       (Some (VMediaType (mkMediaType (lit "text") (lit "plain") [(lit "charset", lit "UTF-8")])))
       (collection_set response.content_length (Some (VUint 14))
          (collection_set response.date (Some (VTm (now_utc request))) (collection_new response_table)))).
Definition hello_plan (request : Request) : Plan :=
  (status_Ok, hello_headers request, [WWrite (lit "Hello, World!" ++ [LF])]).
(** The response, byte by byte. *)
Definition hello_response (request : Request) : list u8 :=
  lit "HTTP/1.1 200 OK" ++ [CR; LF] ++ text_line "Date" (Tm_http_value (now_utc request))
  ++ lit "Server: Example" ++ [CR; LF] ++ lit "Content-Length: 14" ++ [CR; LF]
  ++ lit "Content-Type: text/plain;charset=UTF-8" ++ [CR; LF; CR; LF] ++ lit "Hello, World!" ++ [LF].

Lemma hello_sent request :
  headers_of (coded_headers (hello_headers request))
  = [Known response.date (VTm (now_utc request)); Known response.server (VStr (HeaderStr (lit "Example")));
     Known response.content_length (VUint 14);
     Known response.content_type
       (VMediaType (mkMediaType (lit "text") (lit "plain") [(lit "charset", lit "UTF-8")]))].
Proof. reflexivity. Qed.

Lemma hello_head request :
  response_head status_Ok (hello_headers request) ++ lit "Hello, World!" ++ [LF] = hello_response request.
Proof.
  unfold response_head. rewrite hello_sent. cbn [mbind list_bind].
  change (wire_line response_table (Known response.date (VTm (now_utc request))))
    with (text_line "Date" (Tm_http_value (now_utc request))).
  unfold hello_response. generalize (text_line "Date" (Tm_http_value (now_utc request))). intros date.
  rewrite <-!app_assoc. reflexivity.
Qed.

Lemma hello_handles request :
  date_fits (now_utc request) → (40 ≤ fuel)%nat →
  handles (Server0:=HelloWorldServer_server now_utc fuel) fuel hello_world_server request (hello_plan request).
Proof.
  intros Hd Hf. split; [apply handles_exactly; intros s|split; [split; [done|]|split; [by repeat constructor|done]]].
  - cbn [for_each run_rop handle_request HelloWorldServer_server].
    unfold hello_world_handle_request, set_str, response_writer.set_header. rewrite !bind_modify. apply single_write.
  - split; [|split].
    + rewrite hello_sent. writable.
      * split; [vm_compute; repeat constructor; discriminate|reflexivity].
      * split; [split; [done|by repeat constructor]|]. split; [split; [done|by repeat constructor]|].
        apply charset_ok.
    + cbn. lia.
    + apply (fits_app _ (lit "Hello, World!" ++ [LF])). rewrite hello_head. unfold fits, hello_response, date_fits in *.
      rewrite !length_app, text_line_length. revert Hd. generalize (length (as_bytes (Tm_http_value (now_utc request)))).
      intros n Hn. simpl. lia.
Qed.
End HelloWorld.

(** C33. The hello-world example, end to end: on a connection whose bytes are
    valid requests of which only the last closes it, the server's task ends
    having sent, for each request in turn, the response given here byte by
    byte, with the date of that request; its Content-Length is the length of
    its body. *)
Theorem hello_world_serves `{UrlOps} `{TimeOps} (now_utc : Request → Tm) clock fuel c t0 p requests rest :
  idle p (conn_stream c) → Requests p (bs_pending (conn_stream c)) requests rest →
  (length (bs_pending (conn_stream c)) + 40 ≤ fuel)%nat →
  Forall (λ request, date_fits (now_utc request)) requests →
  ∃ c', serve_connection (Server0:=HelloWorldServer_server now_utc fuel) clock fuel hello_world_server t0 c
      = Done (tt, c')
    ∧ sent (wrapped (conn_stream c')) = sent (wrapped (conn_stream c)) ++ (requests ≫= hello_response now_utc)
    ∧ bs_pending (conn_stream c') = rest.
Proof.
  intros Hi Hr Hf Hd. rewrite Forall_forall in Hd.
  apply (serves_exactly (Server0:=HelloWorldServer_server now_utc fuel) _ fuel clock (hello_plan now_utc) _ c t0 p requests rest Hi Hr);
    [lia|intros request Hq; apply hello_handles; [by apply Hd|lia]|].
  intros request out (bs & Hb & ->). rewrite <-hello_head. f_equal. exact Hb.
Qed.

Lemma hello_world_serves_witness :
  let c := mkConn two_requests 0 [] in
  let requests := [asked [example_host]; asked [example_host; close_header]] in
  let now_utc : Request (H:=text_urls) (H0:=second_times) → Tm (TimeOps:=second_times) := λ _, 784111777 in
  ∃ c', serve_connection (Server0:=HelloWorldServer_server now_utc 200) Z.of_nat 200 hello_world_server 0 c
      = Done (tt, c')
    ∧ sent (wrapped (conn_stream c')) = sent (wrapped (conn_stream c)) ++ (requests ≫= hello_response now_utc)
    ∧ bs_pending (conn_stream c') = [].
Proof.
  intros c requests now_utc. apply (hello_world_serves now_utc Z.of_nat 200 c 0 None requests []).
  - split; [apply tcp_stream_wf; repeat constructor; discriminate|]. split; [apply new_ready|reflexivity].
  - exact two_requests_valid.
  - change (bs_pending (conn_stream c)) with (bs_pending two_requests). rewrite two_requests_bytes. vm_compute. lia.
  - repeat constructor.
Defined.

Section Apache.
Context `{UrlOps} `{TimeOps} (now_utc : Request → Tm) (fuel : nat) (tm : TmFields → Tm).

Definition apache_modified : Tm := tm (mkTm 42 46 11 5 4 111 4 0 0 0 (lit "GMT") 0).
Definition apache_headers (request : Request) : HeaderCollection :=
  mkCollection
    (fields
      (collection_set response.content_type (Some (VMediaType (mkMediaType (lit "text") (lit "html") [])))
      (collection_set response.vary (Some (VStr (HeaderStr (lit "Accept-Encoding"))))
      (collection_set response.content_length (Some (VUint 177))
      (collection_set response.accept_ranges (Some (VAcceptableRanges (RangeUnits [Bytes])))
      (collection_set response.etag (Some (VEntityTag (mkEntityTag false (lit "501b29-b1-4a285ed47404a"))))
      (collection_set response.last_modified (Some (VTm apache_modified))
      (collection_set response.server (Some (VStr (HeaderStr (lit "Apache/2.2.22 (Ubuntu)"))))
      (collection_set response.date (Some (VTm (now_utc request))) (collection_new response_table))))))))))
    [(lit "X-Pad", lit "avoid browser bug")].
Definition apache_plan (request : Request) : Plan := (status_Ok, apache_headers request, [WWrite apache_page]).
Definition apache_response (request : Request) : list u8 :=
  lit "HTTP/1.1 200 OK" ++ [CR; LF] ++ text_line "Date" (Tm_http_value (now_utc request))
  ++ lit "Accept-Ranges: bytes" ++ [CR; LF]
  ++ lit "ETag: " ++ [DOUBLE_QUOTE] ++ lit "501b29-b1-4a285ed47404a" ++ [DOUBLE_QUOTE; CR; LF]
  ++ lit "Server: Apache/2.2.22 (Ubuntu)" ++ [CR; LF] ++ lit "Vary: Accept-Encoding" ++ [CR; LF]
  ++ lit "Content-Length: 177" ++ [CR; LF] ++ lit "Content-Type: text/html" ++ [CR; LF]
  ++ text_line "Last-Modified" (Tm_http_value apache_modified)
  ++ lit "X-Pad: avoid browser bug" ++ [CR; LF; CR; LF] ++ apache_page.

Lemma apache_sent request :
  headers_of (coded_headers (apache_headers request))
  = [Known response.date (VTm (now_utc request)); Known response.accept_ranges (VAcceptableRanges (RangeUnits [Bytes]));
     Known response.etag (VEntityTag (mkEntityTag false (lit "501b29-b1-4a285ed47404a")));
     Known response.server (VStr (HeaderStr (lit "Apache/2.2.22 (Ubuntu)")));
     Known response.vary (VStr (HeaderStr (lit "Accept-Encoding"))); Known response.content_length (VUint 177);
     Known response.content_type (VMediaType (mkMediaType (lit "text") (lit "html") []));
     Known response.last_modified (VTm apache_modified);
     ExtensionHeader (lit "X-Pad") (lit "avoid browser bug")].
Proof. reflexivity. Qed.

Lemma apache_head request : response_head status_Ok (apache_headers request) ++ apache_page = apache_response request.
Proof.
  unfold response_head. rewrite apache_sent. cbn [mbind list_bind].
  change (wire_line response_table (Known response.date (VTm (now_utc request))))
    with (text_line "Date" (Tm_http_value (now_utc request))).
  change (wire_line response_table (Known response.last_modified (VTm apache_modified)))
    with (text_line "Last-Modified" (Tm_http_value apache_modified)).
  unfold apache_response. generalize (text_line "Date" (Tm_http_value (now_utc request))).
  generalize (text_line "Last-Modified" (Tm_http_value apache_modified)). intros date modified.
  rewrite <-!app_assoc. reflexivity.
Qed.

Lemma apache_handles request :
  date_fits (now_utc request) → date_fits apache_modified → (40 ≤ fuel)%nat →
  handles (Server0:=ApacheFakeServer_server now_utc fuel tm) fuel apache_fake_server request (apache_plan request).
Proof.
  intros Hd Hm Hf. split; [apply handles_exactly; intros s|split; [split; [done|]|split; [by repeat constructor|done]]].
  - cbn [for_each run_rop handle_request ApacheFakeServer_server].
    unfold apache_fake_handle_request, set_str, response_writer.set_header. rewrite !bind_modify. apply single_write.
  - split; [|split].
    + rewrite apache_sent. writable; try (split; [vm_compute; repeat constructor; discriminate|reflexivity]).
      split; [split; [done|by repeat constructor]|]. by split; [split; [done|by repeat constructor]|].
    + cbn. lia.
    + apply (fits_app _ apache_page). rewrite apache_head. unfold fits, apache_response, date_fits in *.
      rewrite !length_app, !text_line_length. revert Hd Hm.
      generalize (length (as_bytes (Tm_http_value (now_utc request)))), (length (as_bytes (Tm_http_value apache_modified))).
      intros n m Hn Hm. simpl. lia.
Qed.

(** The example that imitates Apache: its Content-Length of 177 is the length
    of its page, and the extension header comes last. *)
Lemma apache_fake_serves clock c t0 p requests rest :
  idle p (conn_stream c) → Requests p (bs_pending (conn_stream c)) requests rest →
  (length (bs_pending (conn_stream c)) + 40 ≤ fuel)%nat →
  Forall (λ request, date_fits (now_utc request)) requests → date_fits apache_modified →
  length apache_page = 177%nat
  ∧ ∃ c', serve_connection (Server0:=ApacheFakeServer_server now_utc fuel tm) clock fuel apache_fake_server t0 c
      = Done (tt, c')
    ∧ sent (wrapped (conn_stream c')) = sent (wrapped (conn_stream c)) ++ (requests ≫= apache_response)
    ∧ bs_pending (conn_stream c') = rest.
Proof.
  intros Hi Hr Hf Hd Hm. split; [reflexivity|]. rewrite Forall_forall in Hd.
  apply (serves_exactly (Server0:=ApacheFakeServer_server now_utc fuel tm) _ fuel clock apache_plan _ c t0 p requests rest Hi Hr);
    [lia|intros request Hq; apply apache_handles; [by apply Hd|done|lia]|].
  intros request out (bs & Hb & ->). rewrite <-apache_head. f_equal. exact Hb.
Qed.
End Apache.

(** ** request_uri.rs *)
Section RequestUriExample.
Context `{UrlOps} `{TimeOps} (now_utc : Request → Tm) (fuel : nat).

Definition uri_headers (request : Request) : HeaderCollection :=
  collection_set response.server (Some (VStr (HeaderStr (lit "Rust Thingummy/0.1-pre"))))
    (collection_set response.date (Some (VTm (now_utc request))) (collection_new response_table)).
Definition uri_html (c : HeaderCollection) : HeaderCollection :=
  collection_set response.content_type (Some (VMediaType (mkMediaType (lit "text") (lit "html") []))) c.
Definition all_methods : list Method := [Get; Head; Post; Put; Delete; Trace; Options; Connect; Patch].
Definition uri_allow (c : HeaderCollection) : HeaderCollection :=
  collection_set response.content_length (Some (VUint 0))
    (collection_set response.allow (Some (VMethods all_methods)) c).
Definition uri_page : list u8 := lit "<!DOCTYPE html><title>Rust HTTP server</title>".
(** The response, by cases: a status other than 200 is sent only where the
    handler sets it before it writes. *)
Definition uri_plan (request : Request) : Plan :=
  let page := (status_Ok, uri_html (uri_headers request), [WWrite uri_page]) in
  match method request, request_uri request with
  | Connect, _ => (MethodNotAllowed, uri_headers request, [])
  | _, Authority _ => (BadRequest, uri_headers request, [])
  | Options, Star =>
      (status_Ok, uri_allow (uri_headers request), [])
  | _, _ => page
  end.

Lemma uri_page_handles request s :
  match request_uri request with Authority _ => False | _ => True end →
  match (for_each [WWrite uri_page] (run_rop fuel)
     (mkResponseWriter s false request (uri_html (uri_headers request)) status_Ok)) with
  | Done (_, w) => ∃ w', request_uri_page fuel request
        (mkResponseWriter s false request (uri_headers request) status_Ok) = Done (tt, w') ∧ late w' w
  | Fail e => request_uri_page fuel request
        (mkResponseWriter s false request (uri_headers request) status_Ok) = Fail e
  | Diverge => request_uri_page fuel request
        (mkResponseWriter s false request (uri_headers request) status_Ok) = Diverge
  end.
Proof.
  intros Hu. cbn [for_each run_rop]. rewrite <-single_write. unfold request_uri_page, response_writer.set_header.
  rewrite bind_modify, bind_unfold. unfold response_writer.set_headers, uri_html. cbn [rw_headers rw_writer rw_headers_written rw_request rw_status].
  fold uri_page.
  match goal with |- context [response_writer.write fuel uri_page ?w0] =>
    destruct (response_writer.write fuel uri_page w0) as [[[] w]| |] eqn:Ew; [|done|done] end.
  destruct (request_uri request); try done; (eexists; split; [done|]); [|by left|by left].
  right. split; [by apply (write_effect fuel _ _ _ Ew)|]. exists (rw_headers w), BadRequest. by destruct w.
Qed.

Lemma uri_runs request :
  let '(st, hs, ops) := uri_plan request in
  msim (planned request hs st) late
    (handle_request (Server:=RequestUriServer_server now_utc fuel) request_uri_server request)
    (for_each ops (run_rop fuel)).
Proof.
  assert (Hset : ∀ s, handle_request (Server:=RequestUriServer_server now_utc fuel) request_uri_server request
      (response_writer.new s request) = request_uri_rest fuel request (mkResponseWriter s false request (uri_headers request) status_Ok))
    by done.
  destruct (uri_plan request) as [[st hs] ops] eqn:Ep. intros w0 w (s & -> & ->). rewrite Hset. revert Ep.
  unfold uri_plan, request_uri_rest.
  assert (Hpage := uri_page_handles request s).
  destruct (request_uri request) eqn:Eu, (method request) eqn:Em; intros Ep; simplify_eq;
    try (split; [reflexivity|left; reflexivity]);
    specialize (Hpage I); destruct (for_each _ _ _) as [[[] w1]| |]; try (by rewrite Hpage);
    destruct Hpage as (w' & -> & Hl); by split.
Qed.

(** The headers the plans send. *)
Definition uri_status (st : Status) : Prop := st = status_Ok ∨ st = BadRequest ∨ st = MethodNotAllowed.
Definition uri_extra (extra : HeaderCollection → HeaderCollection) : Prop :=
  extra = (λ c, c) ∨ extra = uri_html ∨ extra = uri_allow.

Lemma uri_sendable request st extra :
  date_fits (now_utc request) → (40 ≤ fuel)%nat → uri_status st → uri_extra extra →
  sendable fuel st (extra (uri_headers request)).
Proof.
  intros Hd Hf Hst Hex. set (date := Known response.date (VTm (now_utc request))).
  set (server := Known response.server (VStr (HeaderStr (lit "Rust Thingummy/0.1-pre")))).
  set (coding := Known response.transfer_encoding (VTransferCodings [Chunked])).
  set (html := Known response.content_type (VMediaType (mkMediaType (lit "text") (lit "html") []))).
  assert (Hsent : headers_of (coded_headers (extra (uri_headers request))) = [date; coding; server]
    ∨ headers_of (coded_headers (extra (uri_headers request))) = [date; coding; server; html]
    ∨ headers_of (coded_headers (extra (uri_headers request)))
      = [date; server; Known response.allow (VMethods all_methods); Known response.content_length (VUint 0)]).
  { destruct Hex as [->|[->| ->]]; [left|right; left|right; right]; reflexivity. }
  assert (Hw : Forall (header_writable response_table) (headers_of (coded_headers (extra (uri_headers request))))).
  { destruct Hsent as [->|[->| ->]]; writable;
      try (split; [vm_compute; repeat constructor; discriminate|reflexivity]).
    - by split; [|by repeat constructor].
    - by split; [|by repeat constructor].
    - split; [split; [done|by repeat constructor]|]. by split; [split; [done|by repeat constructor]|].
    - split; [done|]. repeat (apply Forall_cons; split; [by split; [|split; [|repeat constructor]]|]). by apply Forall_nil. }
  split; [|split; [done|split]].
  - destruct Hex as [->|[->| ->]]; reflexivity.
  - assert (extensions (extra (uri_headers request)) = []) as -> by (destruct Hex as [->|[->| ->]]; reflexivity).
    cbn. lia.
  - unfold response_head, date_fits, fits in *.
    assert (Hl : (length (headers_of (coded_headers (extra (uri_headers request))) ≫= wire_line response_table)
      ≤ length (text_line "Date" (Tm_http_value (now_utc request))) + 500)%nat).
    { assert (Hc : Forall (λ h, (length (wire_line response_table h) ≤ 120)%nat)
        [coding; server; html; Known response.allow (VMethods all_methods); Known response.content_length (VUint 0)])
        by (repeat (apply Forall_cons; split; [vm_compute; lia|]); by apply Forall_nil).
      rewrite !Forall_cons in Hc. destruct Hc as (Hc1 & Hc2 & Hc3 & Hc4 & Hc5 & _).
      change (text_line "Date" (Tm_http_value (now_utc request))) with (wire_line response_table date).
      clearbody date coding server html.
      destruct Hsent as [->|[->| ->]]; cbn [mbind list_bind]; rewrite !length_app; simpl (length []); lia. }
    rewrite text_line_length in Hl. rewrite !length_app.
    assert (Hs : (length (as_bytes (response_writer.status_line st)) ≤ 100)%nat)
      by (destruct Hst as [->|[->| ->]]; vm_compute; lia).
    simpl (length [CR; LF]). simpl (length (as_bytes (lit "Date" ++ lit ": "))) in Hl. lia.
Qed.

Lemma uri_plan_shape request :
  ∃ st extra ops, uri_plan request = (st, extra (uri_headers request), ops)
    ∧ uri_status st ∧ uri_extra extra ∧ (ops = [] ∨ ops = [WWrite uri_page]).
Proof.
  unfold uri_status, uri_extra, uri_plan. destruct (request_uri request), (method request);
    first [exists status_Ok, uri_html, [WWrite uri_page]; split; [reflexivity|tauto]
          |exists status_Ok, uri_allow, []; split; [reflexivity|tauto]
          |exists BadRequest, (λ c, c), []; split; [reflexivity|tauto]
          |exists MethodNotAllowed, (λ c, c), []; split; [reflexivity|tauto]].
Qed.

Lemma uri_handles request :
  date_fits (now_utc request) → (40 ≤ fuel)%nat →
  handles (Server0:=RequestUriServer_server now_utc fuel) fuel request_uri_server request (uri_plan request).
Proof.
  intros Hd Hf. pose proof (uri_runs request) as Hrun.
  destruct (uri_plan_shape request) as (st & extra & ops & Ep & Hst & Hex & Hops). rewrite Ep in Hrun |- *.
  split; [exact Hrun|]. split; [by apply uri_sendable|]. destruct Hops as [->| ->]; by split; [repeat constructor|].
Qed.
End RequestUriExample.

(** A request for [*] other than OPTIONS and CONNECT: the handler asks for 400,
    but only after it has written, and 200 is sent. *)
Lemma uri_late_status `{UrlOps} `{TimeOps} now_utc fuel (request : Request) :
  request_uri request = Star → method request ≠ Options → method request ≠ Connect →
  (∀ out, answers (uri_plan now_utc request) out → (lit "HTTP/1.1 200 OK") `prefix_of` out)
  ∧ ∀ s w, request_uri_handle_request now_utc fuel request (response_writer.new s request) = Done (tt, w) →
      rw_status w = BadRequest.
Proof.
  intros Hu Ho Hc. split.
  - assert (Hp : uri_plan now_utc request = (status_Ok, uri_html (uri_headers now_utc request), [WWrite uri_page])).
    { unfold uri_plan. rewrite Hu. by destruct (method request). }
    rewrite Hp. intros out (bs & _ & ->). unfold response_head. rewrite <-!app_assoc.
    change (as_bytes (response_writer.status_line status_Ok)) with (lit "HTTP/1.1 200 OK" ++ [CR; LF]).
    rewrite <-app_assoc. by eexists.
  - intros s w. unfold request_uri_handle_request, set_str, response_writer.set_header.
    rewrite !bind_modify. unfold request_uri_rest. rewrite Hu.
    intros E. assert (Hpage : ∀ w0, request_uri_page fuel request w0 = Done (tt, w) → rw_status w = BadRequest).
    { intros w0. unfold request_uri_page. rewrite Hu. intros ([] & w1 & _ & ([] & w2 & _ & E2)%bind_inv)%bind_inv.
      by injection E2 as <-. }
    destruct (method request); try done; by apply Hpage in E.
Qed.

(** C34. The request-URI example: on a connection of valid requests, each is
    answered as [uri_plan] says: CONNECT with 405, a URI of the authority form
    with 400, OPTIONS of the whole server with the methods it allows and an
    empty body, everything else with a page and 200.  For a request for the
    whole server with any other method the handler means to answer 400, but it
    sets the status after it has begun to write the page: 200 is sent. *)
Theorem request_uri_serves `{UrlOps} `{TimeOps} (now_utc : Request → Tm) clock fuel c t0 p requests rest :
  idle p (conn_stream c) → Requests p (bs_pending (conn_stream c)) requests rest →
  (length (bs_pending (conn_stream c)) + 40 ≤ fuel)%nat →
  Forall (λ request, date_fits (now_utc request)) requests →
  ∃ c' outs, serve_connection (Server0:=RequestUriServer_server now_utc fuel) clock fuel request_uri_server t0 c
      = Done (tt, c')
    ∧ sent (wrapped (conn_stream c')) = sent (wrapped (conn_stream c)) ++ concat outs
    ∧ bs_pending (conn_stream c') = rest
    ∧ Forall2 (λ request out, answers (uri_plan now_utc request) out
        ∧ (request_uri request = Star → method request ≠ Options → method request ≠ Connect →
           (lit "HTTP/1.1 200 OK") `prefix_of` out
           ∧ ∀ s w, request_uri_handle_request now_utc fuel request (response_writer.new s request) = Done (tt, w) →
               rw_status w = BadRequest)) requests outs.
Proof.
  intros Hi Hr Hf Hd. rewrite Forall_forall in Hd.
  destruct (serves_planned (Server0:=RequestUriServer_server now_utc fuel) request_uri_server fuel clock (uri_plan now_utc)
    (λ request out, answers (uri_plan now_utc request) out) c t0 p requests rest Hi Hr) as (c' & outs & E & Ha & Hs & Hp);
    [lia|intros request Hq; apply uri_handles; [by apply Hd|lia]|done|].
  exists c', outs. split_and?; try done. eapply Forall2_impl; [exact Ha|]. intros request out Hout. split; [done|].
  intros Hu Ho Hc. destruct (uri_late_status now_utc fuel request Hu Ho Hc) as [H1 H2]. by split; [apply H1|].
Qed.

Lemma request_uri_serves_witness :
  let c := mkConn two_requests 0 [] in
  let requests := [asked [example_host]; asked [example_host; close_header]] in
  let now_utc : Request (H:=text_urls) (H0:=second_times) → Tm (TimeOps:=second_times) := λ _, 784111777 in
  ∃ c' outs, serve_connection (Server0:=RequestUriServer_server now_utc 200) Z.of_nat 200 request_uri_server 0 c
      = Done (tt, c')
    ∧ sent (wrapped (conn_stream c')) = sent (wrapped (conn_stream c)) ++ concat outs
    ∧ bs_pending (conn_stream c') = []
    ∧ Forall2 (λ request out, answers (uri_plan now_utc request) out) requests outs.
Proof.
  intros c requests now_utc.
  destruct (request_uri_serves now_utc Z.of_nat 200 c 0 None requests []) as (c' & outs & E & Hs & Hp & Ha).
  - split; [apply tcp_stream_wf; repeat constructor; discriminate|]. split; [apply new_ready|reflexivity].
  - exact two_requests_valid.
  - change (bs_pending (conn_stream c)) with (bs_pending two_requests). rewrite two_requests_bytes. vm_compute. lia.
  - repeat constructor.
  - exists c', outs. split; [exact E|]. split; [exact Hs|]. split; [exact Hp|].
    eapply Forall2_impl; [exact Ha|]. intros request out [Hout _]. exact Hout.
Defined.

(** ** info.rs *)
Section InfoExample.
Context `{UrlOps} `{TimeOps} (now_utc : Request → Tm) (fuel : nat).
Context (fmt_host : option HeaderValue → str) (fmt_uri : RequestUri → str) (fmt_version : uint * uint → str).

Definition info_headers (r : Request) : HeaderCollection :=
  collection_set response.server (Some (VStr (HeaderStr (lit "Rust Thingummy/0.0-pre"))))
    (collection_set response.content_type
       (Some (VMediaType (mkMediaType (lit "text") (lit "html") [(lit "charset", lit "UTF-8")])))
       (collection_set response.date (Some (VTm (now_utc r))) (collection_new response_table))).
Definition info_table_rows (tbl : table) (c : HeaderCollection) : list (list u8) :=
  (λ h, as_bytes (info_row tbl h)) <$> headers_of c.
(** The pieces of the page; the headers of the response are those that are
    sent, with the transfer coding. *)
Definition info_pieces (r : Request) : list (list u8) :=
  [lit "<!DOCTYPE html><title>Rust HTTP server</title>"; lit "<h1>Request</h1>";
   as_bytes (info_request fmt_host fmt_uri fmt_version r); lit "<h2>Extension headers</h2>"; info_table]
  ++ info_table_rows request_table (headers r)
  ++ [lit "</tbody></table>"; lit "<h2>Body</h2><pre>"; as_bytes (body r); lit "</pre>"; lit "<h1>Response</h1>";
      as_bytes (lit "<dl><dt>Status</dt><dd>" ++ Status.fmt_Default status_Ok ++ lit "</dd></dl>");
      lit "<h2>Headers</h2>"; info_table]
  ++ info_table_rows response_table (coded_headers (info_headers r)) ++ [lit "</tbody></table>"].
Definition info_plan (r : Request) : Plan := (status_Ok, info_headers r, WWrite <$> info_pieces r).
Definition info_page (r : Request) : list u8 := concat (info_pieces r).

Lemma payload_writes bss : payload (WWrite <$> bss) = concat bss.
Proof. unfold payload. induction bss as [|b bss IH]; [done|]. rewrite fmap_cons. cbn. by f_equal. Qed.

(** The loop over the headers writes their rows in order. *)
Lemma info_rows_loop tbl it fuel' w :
  coll_wf (length tbl) it → (length tbl + 2 ≤ fuel)%nat → (length (remaining (length tbl) it) < fuel')%nat →
  loop fuel' (info_rows_body fuel tbl) it w
  = for_each ((λ h, as_bytes (info_row tbl h)) <$> remaining (length tbl) it) (response_writer.write fuel) w.
Proof.
  remember (remaining (length tbl) it) as hs eqn:Ehs. revert it fuel' w Ehs.
  induction hs as [|h hs IH]; intros it fuel' w Ehs Hwf Hf Hf'; symmetry in Ehs;
    (destruct fuel' as [|fuel']; [simpl in Hf'; lia|]);
    destruct (coll_next_spec (length tbl) fuel it Hwf) as (it' & E & Hwf' & Hr); [lia|lia| |lia|lia|];
    rewrite Ehs in E, Hr; simpl in Hr; rewrite loop_S.
  - assert (Eb : info_rows_body fuel tbl it w = Done (inr tt, w)) by (unfold info_rows_body, call; by rewrite bind_unfold, E).
    by rewrite (bind_Done _ _ _ _ _ Eb).
  - assert (Eb : info_rows_body fuel tbl it w
      = (response_writer.write fuel (as_bytes (info_row tbl h));; continue it') w)
      by (unfold info_rows_body, call; by rewrite bind_unfold, E).
    rewrite bind_unfold, Eb, <-bind_unfold, bind_assoc, fmap_cons. cbn [for_each]. apply bind_ext. intros [] t.
    rewrite bind_continue. apply IH; [by rewrite Hr|done|done|simpl in Hf'; lia].
Qed.

Lemma info_rows_writes tbl c w :
  length (fields c) = length tbl → (length tbl + length (extensions c) + 2 ≤ fuel)%nat →
  info_rows fuel tbl c w = for_each (info_table_rows tbl c) (response_writer.write fuel) w.
Proof.
  intros Hlen Hf. unfold info_rows.
  assert (Er : remaining (length tbl) (coll_iter c) = headers_of c).
  { unfold remaining. cbn [coll_iter pos coll]. by rewrite decide_True by lia. }
  rewrite info_rows_loop; [by rewrite Er|split; [done|cbn; lia]|lia|].
  rewrite Er. unfold headers_of. rewrite length_app, length_fmap.
  pose proof (known_from_length (fields c) 0). lia.
Qed.

(** Two ways to go on after a write agree when they agree once the head is
    written. *)
Definition info_inv (r : Request) (w : ResponseWriter) : Prop :=
  rw_headers_written w = true ∧ rw_status w = status_Ok ∧ rw_headers w = coded_headers (info_headers r).

Lemma info_write r bs (k k' : unit → M ResponseWriter unit) w :
  info_inv r w ∨ (rw_headers_written w = false ∧ rw_status w = status_Ok ∧ rw_headers w = info_headers r) →
  (∀ t, info_inv r t → k tt t = k' tt t) →
  (response_writer.write fuel bs ≫= k) w = (run_rop fuel (WWrite bs) ≫= k') w.
Proof.
  intros Hw Hk. cbn [run_rop]. rewrite !bind_unfold.
  destruct (response_writer.write fuel bs w) as [[[] t]| |] eqn:E; [|done|done]. apply Hk.
  apply write_effect in E as (E1 & _ & E2 & E3). destruct Hw as [(Hw & Hs & Hh)|(Hw & Hs & Hh)];
    rewrite Hw in E3; unfold info_inv; by rewrite E1, E2, E3, Hs, Hh.
Qed.

Lemma info_writes r bss (k k' : unit → M ResponseWriter unit) w :
  info_inv r w → (∀ t, info_inv r t → k tt t = k' tt t) →
  (for_each bss (response_writer.write fuel) ≫= k) w = (for_each (WWrite <$> bss) (run_rop fuel) ≫= k') w.
Proof.
  intros Hw Hk. revert w Hw. induction bss as [|b bss IH]; intros w Hw; [by apply Hk|].
  rewrite fmap_cons. cbn [for_each]. rewrite !bind_assoc. apply (info_write r); [by left|]. intros t Ht. by apply IH.
Qed.

Lemma info_runs r s :
  length (fields (headers r)) = length request_table → (length (extensions (headers r)) + 40 ≤ fuel)%nat →
  info_handle_request now_utc fuel fmt_host fmt_uri fmt_version r (response_writer.new s r)
  = for_each (WWrite <$> info_pieces r) (run_rop fuel) (mkResponseWriter s false r (info_headers r) status_Ok).
Proof.
  intros Hlen Hf. unfold info_handle_request, set_str, response_writer.set_header. rewrite !bind_modify.
  change (response_writer.set_headers _ _) with (mkResponseWriter s false r (info_headers r) status_Ok).
  unfold info_pieces. rewrite !fmap_app, !fmap_cons, !fmap_nil. cbn [app for_each].
  apply (info_write r); [by right|]. intros t1 Ht1. do 4 (apply (info_write r); [by left|]; clear t1 Ht1; intros t1 Ht1).
  rewrite bind_unfold, info_rows_writes, <-bind_unfold, for_each_app by (done || cbn; lia).
  apply (info_writes r); [done|]. clear t1 Ht1. intros t1 Ht1. cbn [for_each].
  do 5 (apply (info_write r); [by left|]; clear t1 Ht1; intros t1 Ht1).
  destruct Ht1 as (Hw & Hs & Hh). rewrite bind_gets, Hs.
  do 3 (apply (info_write r); [by left|]; clear t1 Hw Hs Hh; intros t1 (Hw & Hs & Hh)).
  rewrite bind_gets, Hh, bind_unfold, info_rows_writes, <-bind_unfold, for_each_app by (reflexivity || cbn; lia).
  apply (info_writes r); [by split|]. intros t2 _. apply single_write.
Qed.

Lemma info_handles r :
  length (fields (headers r)) = length request_table → (length (extensions (headers r)) + 40 ≤ fuel)%nat →
  date_fits (now_utc r) → fits (info_page r) →
  handles (Server0:=InfoServer_server now_utc fuel fmt_host fmt_uri fmt_version) fuel info_server r (info_plan r).
Proof.
  intros Hlen Hf Hd Hfit. split; [|split; [split; [done|]|split]].
  - apply handles_exactly. intros s. by apply info_runs.
  - assert (Hsent : headers_of (coded_headers (info_headers r))
      = [Known response.date (VTm (now_utc r)); Known response.transfer_encoding (VTransferCodings [Chunked]);
         Known response.server (VStr (HeaderStr (lit "Rust Thingummy/0.0-pre")));
         Known response.content_type
           (VMediaType (mkMediaType (lit "text") (lit "html") [(lit "charset", lit "UTF-8")]))]) by reflexivity.
    split; [|split; [cbn; lia|]].
    + rewrite Hsent. writable; try (split; [vm_compute; repeat constructor; discriminate|reflexivity]).
      * by split; [|by repeat constructor].
      * split; [split; [done|by repeat constructor]|]. split; [split; [done|by repeat constructor]|]. apply charset_ok.
    + unfold response_head. rewrite Hsent. cbn [mbind list_bind]. unfold fits, date_fits in *.
      change (wire_line response_table (Known response.date (VTm (now_utc r))))
        with (text_line "Date" (Tm_http_value (now_utc r))).
      assert (Hs : (length (as_bytes (response_writer.status_line status_Ok)) ≤ 100)%nat) by (vm_compute; lia).
      rewrite !length_app, text_line_length.
      match goal with |- context [(length (wire_line response_table ?h1) + (length (wire_line response_table ?h2)
        + (length (wire_line response_table ?h3) + _)))%nat] =>
        assert (Hw : (length (wire_line response_table h1) + length (wire_line response_table h2)
          + length (wire_line response_table h3) ≤ 400)%nat) by (vm_compute; lia) end.
      simpl (length []). simpl (length [CR; LF]). simpl (length (as_bytes (lit "Date" ++ lit ": "))). lia.
  - apply Forall_fmap, Forall_forall. intros bs Hbs. unfold fits in *. cbn. unfold fits.
    assert (length bs ≤ length (info_page r))%nat; [|lia]. unfold info_page.
    apply list_elem_of_split in Hbs as (l1 & l2 & ->). rewrite concat_app, !length_app. cbn. rewrite length_app. lia.
  - by rewrite payload_writes.
Qed.
End InfoExample.

(** A request that was read has a field for each row of the table. *)
Lemma message_fields `{UrlOps} `{TimeOps} p l request rest :
  message p l request rest → length (fields (headers request)) = length request_table.
Proof.
  intros (m & ru & v & hs & _ & _ & _ & E). unfold load_answer in E.
  destruct (bool_decide _ && bool_decide _) in E; simplify_eq. cbn [headers]. by rewrite collect_headers_fields.
Qed.

Lemma requests_fields `{UrlOps} `{TimeOps} p l requests rest request :
  Requests p l requests rest → request ∈ requests → length (fields (headers request)) = length request_table.
Proof.
  induction 1 as [l r rest Hm _|l r rest rs rest' Hm _ _ IH]; intros Hin; apply elem_of_cons in Hin as [->|Hin];
    [by eapply message_fields|by apply elem_of_nil in Hin|by eapply message_fields|by apply IH].
Qed.

(** The example that shows what it knows: each request is answered with a
    chunked page that decodes to the text of [info_page], which has a row for
    every header of the request, and one for every header of the response. *)
Lemma info_serves `{UrlOps} `{TimeOps} now_utc fmt_host fmt_uri fmt_version clock fuel c t0 p requests rest :
  idle p (conn_stream c) → Requests p (bs_pending (conn_stream c)) requests rest →
  (length (bs_pending (conn_stream c)) + 6 < fuel)%nat →
  Forall (λ r, (length (extensions (headers r)) + 40 ≤ fuel)%nat ∧ date_fits (now_utc r)
    ∧ fits (info_page now_utc fmt_host fmt_uri fmt_version r)) requests →
  ∃ c' outs, serve_connection (Server0:=InfoServer_server now_utc fuel fmt_host fmt_uri fmt_version) clock fuel info_server t0 c
      = Done (tt, c')
    ∧ Forall2 (λ r out, ∃ body, out = response_head status_Ok (info_headers now_utc r) ++ body
        ∧ let page := info_page now_utc fmt_host fmt_uri fmt_version r in
          ∀ more, dechunk (S (length page)) (body ++ more) = Some (page, more)) requests outs
    ∧ sent (wrapped (conn_stream c')) = sent (wrapped (conn_stream c)) ++ concat outs
    ∧ bs_pending (conn_stream c') = rest.
Proof.
  intros Hi Hr Hf Hok. rewrite Forall_forall in Hok.
  apply (serves_planned (Server0:=InfoServer_server now_utc fuel fmt_host fmt_uri fmt_version) info_server fuel clock
    (info_plan now_utc fmt_host fmt_uri fmt_version) _ c t0 p requests rest Hi Hr Hf).
  - intros r Hin. destruct (Hok r Hin) as (H1 & H2 & H3). apply info_handles; try done. by eapply requests_fields.
  - intros r out (bs & Hb & ->). exists bs. split; [done|]. rewrite payload_writes in Hb. exact Hb.
Qed.
