(* ===== verification/ExampleClient.v ===== *)
(** * The example client (src/examples/client/client.rs)

    [main] requests a page of the machine it runs on and prints the response.
    The theorem says what is on the console at the end, for any response that
    the server may send. *)

From S2P Require Import Prelude Strs Rfc2616 Method Io Buffer Common Chunked SerializationUtils HeaderIter HeaderValues Headers Status Branchify ServerRequest ServerResponse Server Client Examples.

(** The state of [main] is the text on the console. *)
Definition print (s : str) : M str unit := modify (λ out, out ++ s).
Definition println (s : str) : M str unit := print (s ++ [LF]).

Section ClientMain.
Context `{UrlOps} `{TimeOps} `{!UrlParts} `{NetOps} `{IoErrors} (fuel : nat).

Definition set_remote_addr (a : option SocketAddr) (r : RequestWriter TcpStream) : RequestWriter TcpStream :=
  mkRequestWriter (rq_stream r) (rq_headers_written r) a (rq_headers r) (rq_method r) (rq_url r).
Definition local_addr : SocketAddr := mkSocketAddr (Ipv4Addr 127 0 0 1) 8001.

(** [println!(" - {}: {}", header.header_name(), header.header_value())]. *)
Definition header_text (h : Header) : str :=
  lit " - " ++ header_name response_table h ++ lit ": " ++ header_value h.
Definition print_headers_body (it : HeaderCollectionIterator) : M str (HeaderCollectionIterator + unit) :=
  r ← call (coll_next (length response_table) fuel it);
  let '(oh, it') := (r : option Header * HeaderCollectionIterator) in
  match oh with
  | Some h => println (header_text h);; continue it'
  | None => break tt
  end.

(** The reader is not used after [read_to_end]. *)
Definition read_body (response : ResponseReader TcpStream) : res (list u8) :=
  match read_to_end fuel response with
  | Done (bs, _) => Done bs
  | Fail e => Fail e
  | Diverge => Diverge
  end.

Definition print_response (response : ResponseReader TcpStream) : M str unit :=
  println (lit "Yay! Started to get the response.");;
  println (lit "Status: " ++ Status.fmt_Default (rr_status response));;
  println (lit "Headers:");;
  loop fuel print_headers_body (coll_iter (rr_headers response));;
  print [LF];;
  println (lit "Response:");;
  body ← call (read_body response);
  text ← call (from_utf8 body);
  println text.

Definition main : M str unit :=
  url ← expect "Uh oh, that's *really* badly broken!" (url_from_str (lit "http://localhost/example"));
  request ← call (match request_writer.new Get url tt with
                  | Done (r, _) => Done r | Fail e => Fail e | Diverge => Diverge end);
  let request := set_remote_addr (Some local_addr) request in
  result ← call (request_writer.read_response fuel request);
  match result with
  | Err _ => fail "This example can progress no further with no response :-("
  | Ok response => print_response response
  end.

(** ** What is printed *)
Definition printed (st : Status) (c : HeaderCollection) (text : str) : str :=
  lit "Yay! Started to get the response." ++ [LF] ++ lit "Status: " ++ Status.to_str st ++ [LF] ++ lit "Headers:" ++ [LF]
  ++ (headers_of c ≫= λ h, header_text h ++ [LF]) ++ [LF] ++ lit "Response:" ++ [LF] ++ text ++ [LF].

Lemma print_headers_loop it fuel' out :
  coll_wf (length response_table) it → (length response_table + 2 ≤ fuel)%nat →
  (length (remaining (length response_table) it) < fuel')%nat →
  loop fuel' print_headers_body it out
  = Done (tt, out ++ (remaining (length response_table) it ≫= λ h, header_text h ++ [LF])).
Proof.
  remember (remaining (length response_table) it) as hs eqn:Ehs. revert it fuel' out Ehs.
  induction hs as [|h hs IH]; intros it fuel' out Ehs Hwf Hf Hf'; symmetry in Ehs;
    (destruct fuel' as [|fuel']; [simpl in Hf'; lia|]);
    destruct (coll_next_spec (length response_table) fuel it Hwf) as (it' & E & Hwf' & Hr); [lia|lia| |lia|lia|];
    rewrite Ehs in E, Hr; cbn [head tail] in E, Hr.
  - assert (Eb : print_headers_body it out = Done (inr tt, out)) by (unfold print_headers_body, call; by rewrite bind_unfold, E).
    by rewrite (loop_break _ _ _ _ _ _ Eb), app_nil_r.
  - assert (Eb : print_headers_body it out = Done (inl it', out ++ header_text h ++ [LF]))
      by (unfold print_headers_body, call; by rewrite bind_unfold, E).
    rewrite (loop_continue _ _ _ _ _ _ Eb), (IH it' fuel'); [|by rewrite Hr|done|done|simpl in Hf'; lia].
    cbn [mbind list_bind]. by rewrite <-!app_assoc.
Qed.

(** The part of [main] after the response is there. *)
Lemma print_response_prints (response : ResponseReader TcpStream) text out :
  length (fields (rr_headers response)) = length response_table →
  (length response_table + length (extensions (rr_headers response)) + 2 ≤ fuel)%nat →
  stream_wf (rr_stream response) → bs_pending (rr_stream response) = as_bytes text →
  (length (as_bytes text) < fuel)%nat → Forall (λ c, is_scalar c = true) text →
  print_response response out
  = Done (tt, out ++ printed (rr_status response) (rr_headers response) text).
Proof.
  intros Hlen Hf Hwf Hp Hfb Hs. unfold print_response, println, print. rewrite !bind_modify.
  assert (Er : remaining (length response_table) (coll_iter (rr_headers response)) = headers_of (rr_headers response)).
  { unfold remaining. cbn [coll_iter pos coll]. by rewrite decide_True by lia. }
  rewrite bind_unfold, print_headers_loop; [|split; [done|cbn; lia]|lia|].
  2:{ rewrite Er. unfold headers_of. rewrite length_app, length_fmap.
      pose proof (known_from_length (fields (rr_headers response)) 0). lia. }
  rewrite !bind_modify, Er.
  destruct (read_to_end_spec (H0:=ResponseReader_source) fuel response Hwf) as (r' & E & _).
  { change (pending response) with (bs_pending (rr_stream response)). by rewrite Hp. }
  change (pending response) with (bs_pending (rr_stream response)) in E.
  assert (Eb : read_body response = Done (as_bytes text)) by (unfold read_body; by rewrite E, Hp).
  rewrite bind_unfold. unfold call at 1. rewrite Eb, bind_unfold. unfold call. rewrite (from_utf8_as_bytes _ Hs).
  unfold modify. f_equal. f_equal. unfold printed. change (Status.fmt_Default (rr_status response)) with (Status.to_str (rr_status response)).
  by rewrite <-!app_assoc.
Qed.

Lemma print_response_fields s r version st c text out :
  length (fields c) = length response_table → (length response_table + length (extensions c) + 2 ≤ fuel)%nat →
  stream_wf s → bs_pending s = as_bytes text → (length (as_bytes text) < fuel)%nat →
  Forall (λ c, is_scalar c = true) text →
  print_response (mkResponseReader s r version st c) out = Done (tt, out ++ printed st c text).
Proof. apply (print_response_prints (mkResponseReader s r version st c)). Qed.
End ClientMain.

(** ** The whole program *)
Lemma tree_insert_length k v m : (length (tree_insert k v m) ≤ S (length m))%nat.
Proof. induction m as [|[k' v'] m IH]; simpl; [done|]. destruct (key_lt k k'); [done|]. destruct (key_lt k' k); simpl; lia. Qed.

Lemma collect_headers_extensions `{UrlOps} `{TimeOps} hs c :
  (length (extensions (collect_headers hs c)) ≤ length hs + length (extensions c))%nat.
Proof.
  revert c. induction hs as [|h hs IH]; intros c; [done|]. cbn. etrans; [apply IH|].
  destruct h as [i v|k v]; cbn; [lia|]. pose proof (tree_insert_length k v (extensions c)). lia.
Qed.

(** C35. The example client, end to end: when the URL parses, its host has an
    IPv4 address, the connection to 127.0.0.1:8001 is made and what it brings,
    however fragmented, is a response with valid headers whose body is UTF-8,
    [main] ends and has printed the status, every header of the response on a
    line of its own, in the order of the collection, and the body. *)
Theorem client_main_prints `{UrlOps} `{TimeOps} `{!UrlParts} `{NetOps} `{IoErrors}
    (url : Url) addrs ip t p fuel version code reason hs text out :
  url_from_str (lit "http://localhost/example") = Some url → url_port url = None →
  get_host_addresses (url_host url) = Done (Some addrs) → List.find request_writer.is_ipv4 addrs = Some ip →
  tcp_connect local_addr = Done (Some t) → idle p (Buffer.new t false) →
  request_sendable fuel Get url
    (collection_set Headers.request.host (Some (VHost (mkHost (url_host url) None))) (collection_new request_table)) →
  response_line (bs_pending (Buffer.new t false)) (version, code, reason)
    (header_lines response_table hs ++ [CR; LF] ++ as_bytes text) →
  Forall (header_ok response_table) hs → Forall (λ c, is_scalar c = true) text →
  (length (bs_pending (Buffer.new t false)) + length hs + 40 ≤ fuel)%nat →
  main fuel out
  = Done (tt, out ++ printed (from_code_and_reason code reason) (collect_headers hs (collection_new response_table)) text).
Proof.
  intros Hurl Hport Haddrs Hip Hconn Hidle Hsend Hline Hhs Htext Hf.
  set (request := new_request Get url None ip).
  assert (Enew : request_writer.new Get url tt = Done (request, tt)).
  { unfold request_writer.new. rewrite Hport, bind_ret, bind_unfold.
    assert (Esock : request_writer.url_to_socket_addr (S:=unit) url tt = Done (mkSocketAddr ip 80, tt)); [|by rewrite Esock].
    unfold request_writer.url_to_socket_addr, call. rewrite bind_unfold, Haddrs. cbn beta iota. cbn [unwrap].
    by rewrite bind_ret, Hip, Hport. }
  destruct (read_response_spec (set_remote_addr (Some local_addr) request) (Buffer.new t false) p fuel []
    (version, code, reason) hs (as_bytes text)) as (r1 & s' & E1 & E2 & Hi & Hp & _); try done; [|lia|].
  { right. split; [done|]. by exists local_addr, t. }
  injection E1 as <-. cbn [fst snd] in E2.
  assert (Hlen : (length (as_bytes text) < length (bs_pending (Buffer.new t false)))%nat)
    by (apply response_line_length in Hline; rewrite !length_app in Hline; simpl in Hline; lia).
  unfold main. rewrite Hurl. cbn [expect]. rewrite bind_ret. rewrite bind_unfold. unfold call at 1. rewrite Enew.
  rewrite bind_unfold. unfold call at 1. rewrite E2. cbn beta iota.
  apply print_response_fields; [| |exact (proj1 Hi)|exact Hp|lia|exact Htext].
  - by rewrite collect_headers_fields.
  - pose proof (collect_headers_extensions hs (collection_new response_table)) as He. cbn in He |- *. lia.
Qed.

Lemma client_main_prints_witness :
  main (H:=text_urls) (H0:=second_times) (H1:=text_parts) (H2:=example_net example_reply) (H3:=not_trapping) 200 []
  = Done (tt, [] ++ printed (H:=text_urls) (H0:=second_times) (from_code_and_reason 200 (lit "OK"))
                (collect_headers [example_length] (collection_new response_table)) (lit "Hi")).
Proof.
  apply (client_main_prints (H:=text_urls) (H0:=second_times) (H1:=text_parts) (H2:=example_net example_reply) (H3:=not_trapping)
    (HeaderStr (lit "http://localhost/example") : Url (UrlOps:=text_urls)) [Ipv6Addr 0 0 0 0 0 0 0 1; Ipv4Addr 10 0 0 1]
    (Ipv4Addr 10 0 0 1) (mkTcp example_reply [] None) None 200 (1, 1) 200 (lit "OK") [example_length] (lit "Hi") []);
    [reflexivity|reflexivity|reflexivity|reflexivity|reflexivity|..].
  - apply (example_idle example_reply). repeat constructor; discriminate.
  - split; [reflexivity|]. split; [|split; [vm_compute; lia|vm_compute; reflexivity]].
    apply Forall_cons. split; [apply header_ok_writable, example_host_ok|apply Forall_nil; exact I].
  - change (bs_pending (Buffer.new (mkTcp example_reply [] None) false)) with (bs_pending (tcp_stream example_reply)).
    rewrite example_reply_pending. apply example_reply_line.
  - apply Forall_cons. split; [apply example_length_ok|apply Forall_nil; exact I].
  - repeat constructor.
  - change (bs_pending (Buffer.new (mkTcp example_reply [] None) false)) with (bs_pending (tcp_stream example_reply)).
    rewrite example_reply_pending. vm_compute. lia.
Defined.
