(* ===== verification/Exchange.v ===== *)
(** * A client and a server

    The two ends of the library put together: the request the client sends is
    the one the server loads, the response the server sends is the one the
    client reads, and so a whole exchange, whatever segments the network cuts
    the two streams into. *)

From S2P Require Import Prelude Strs Rfc2616 Method Io Buffer Common Chunked SerializationUtils HeaderIter HeaderValues Headers Status Branchify ServerRequest ServerResponse Server Client.

(** ** Header collections survive *)
Section Collections.
Context `{UrlOps} `{TimeOps}.

Lemma known_from_cons k o fs :
  known_from k (o :: fs) = match o with Some v => [Known k v] | None => [] end ++ known_from (S k) fs.
Proof. by destruct o. Qed.

(** Inserting the known headers one by one fills the fields. *)
Lemma collect_known fs : ∀ front ext,
  collect_headers (known_from (length front) fs) (mkCollection (front ++ replicate (length fs) None) ext)
  = mkCollection (front ++ fs) ext.
Proof.
  induction fs as [|o fs IH]; intros front ext; [done|].
  rewrite known_from_cons. unfold collect_headers. rewrite foldl_app. fold (collect_headers (known_from (S (length front)) fs)).
  assert (E : foldl (λ c h, collection_insert h c) (mkCollection (front ++ replicate (length (o :: fs)) None) ext)
      (match o with Some v => [Known (length front) v] | None => [] end)
    = mkCollection ((front ++ [o]) ++ replicate (length fs) None) ext).
  { rewrite <-app_assoc. destruct o as [v|]; [|done]. simpl. f_equal.
    rewrite insert_app_r_alt, Nat.sub_diag by lia. done. }
  rewrite E. specialize (IH (front ++ [o]) ext). rewrite length_app, Nat.add_comm in IH. cbn [length Nat.add] in IH.
  unfold collect_headers in IH. rewrite IH, <-app_assoc. done.
Qed.

(** Extensions in the order of their keys are appended. *)
Lemma tree_insert_last k v m : Forall (λ kv, key_lt kv.1 k = true) m → tree_insert k v m = m ++ [(k, v)].
Proof.
  induction 1 as [|[k' v'] m Hk Hm IH]; [done|]. cbn [tree_insert fst] in *.
  destruct (key_lt k k') eqn:E; [|by rewrite Hk, IH].
  unfold key_lt in *. pose proof (bytes_lt_trans _ _ _ E Hk) as Ht. by rewrite bytes_lt_irrefl in Ht.
Qed.

Lemma collect_extensions fs m : ∀ m0,
  keys_sorted (m0 ++ m) →
  collect_headers (extension <$> m) (mkCollection fs m0) = mkCollection fs (m0 ++ m).
Proof.
  induction m as [|[k v] m IH]; intros m0 Hs; [by rewrite app_nil_r|].
  unfold collect_headers. cbn [fmap list_fmap foldl extension collection_insert fields extensions fst snd].
  rewrite tree_insert_last.
  - fold (collect_headers (extension <$> m)). rewrite (cons_middle (k, v) m0 m), app_assoc in Hs |- *.
    rewrite <-(IH _ Hs). done.
  - clear -Hs. induction m0 as [|x m0 IH]; [constructor|]. inversion_clear Hs as [|? ? Hs' Hx]. constructor; [|by apply IH].
    apply Forall_app in Hx as [_ Hx]. by apply Forall_cons in Hx as [? _].
Qed.

Lemma collect_headers_of tbl c :
  length (fields c) = length tbl → keys_sorted (extensions c) →
  collect_headers (headers_of c) (collection_new tbl) = c.
Proof.
  intros Hl Hk. pose proof (collect_known (fields c) [] []) as E1. cbn [length app] in E1.
  pose proof (collect_extensions (fields c) (extensions c) [] Hk) as E2.
  unfold headers_of, collect_headers, collection_new in *. rewrite foldl_app, <-Hl, E1, E2. by destruct c.
Qed.

Lemma wire_lines tbl hs :
  table_ok tbl = true → Forall (header_ok tbl) hs → hs ≫= wire_line tbl = header_lines tbl hs.
Proof.
  intros Htbl. induction 1 as [|h hs Hh Hhs IH]; [done|]. cbn. rewrite wire_line_ok by done. f_equal. exact IH.
Qed.

(** A collection whose headers can be read back. *)
Definition coll_ok (tbl : table) (c : HeaderCollection) : Prop :=
  length (fields c) = length tbl ∧ keys_sorted (extensions c) ∧ Forall (header_ok tbl) (headers_of c).
End Collections.

(** ** The request line and the status line *)

(** A URL the server reads as the client wrote it: an absolute URL without
    spaces, within the limit, that parses back. *)
Definition url_readable `{UrlOps} (url : Url) : Prop :=
  let u := url_to_str url in
  is_ascii u = true ∧ (SP ∉ u) ∧ (length u ≤ 1024)%nat
  ∧ starts_with_char (chr "/") u = false ∧ contains_char (chr "/") u = true ∧ url_from_str u = Some url.
(** A method the server reads as the client wrote it. *)
Definition method_readable (m : Method) : Prop :=
  canonical m = true ∧ Method.to_str m ≠ [] ∧ Forall (λ c, is_token_item c = true) (Method.to_str m)
  ∧ (length (Method.to_str m) ≤ MAX_METHOD_LEN)%nat.

Lemma version_1_0 rest : version_text CR (lit "HTTP/1.0" ++ CR :: rest) (1, 0) rest.
Proof.
  exists (lit "HTTP/"), (lit "1.0" ++ CR :: rest), (lit "0" ++ CR :: rest).
  split_and?; [done|done| |].
  - exists (lit "1"). split_and?; vm_compute; done.
  - exists (lit "0"). split_and?; vm_compute; done.
Qed.

Lemma url_readable_uri `{UrlOps} url :
  url_readable url → RequestUri_from_str (url_to_str url) = Some (AbsoluteUri url).
Proof.
  intros (_ & _ & _ & Hs & Hc & Hu). unfold RequestUri_from_str. rewrite Hs, Hc, Hu.
  rewrite bool_decide_false; [done|]. intros E. rewrite E in Hc. by vm_compute in Hc.
Qed.

Lemma method_ascii m : canonical m = true → is_ascii (Method.to_str m) = true.
Proof. destruct m; try done. intros [? _]%andb_true_iff. done. Qed.

(** The bytes of the request line, and how they are read. *)
Lemma request_line_bytes `{UrlOps} m url :
  method_readable m → url_readable url →
  as_bytes (request_writer.request_line_text m url)
  = Method.to_str m ++ SP :: url_to_str url ++ SP :: lit "HTTP/1.0" ++ [CR; LF].
Proof.
  intros (Hm & _) (Hu & _). unfold request_writer.request_line_text. rewrite !as_bytes_app.
  rewrite (as_bytes_ascii (Method.to_str m)), (as_bytes_ascii (url_to_str url)) by (done || by apply method_ascii).
  done.
Qed.

Lemma request_line_read `{UrlOps} m url rest :
  method_readable m → url_readable url →
  request_line (as_bytes (request_writer.request_line_text m url) ++ rest) (m, AbsoluteUri url, (1, 0)) rest.
Proof.
  intros Hm Hu. rewrite request_line_bytes by done. rewrite <-app_assoc. cbn [app]. rewrite <-app_assoc. cbn [app].
  exists (Method.to_str m), (url_to_str url ++ SP :: lit "HTTP/1.0" ++ [CR; LF] ++ rest). split; [done|]. cbn [fst snd].
  destruct Hm as (Hc & Hne & Ht & Hlen). split; [split_and?; try done; by apply from_str_or_new_to_str|].
  exists (url_to_str url), (lit "HTTP/1.0" ++ [CR; LF] ++ rest). pose proof (url_readable_uri url Hu) as Huri.
  destruct Hu as (Ha & Hsp & Hl & _). split_and?; try done; [|apply version_1_0].
  rewrite uri_fits_ascii by done. by apply Nat.leb_le.
Qed.

Lemma status_digits c rest : 0 ≤ c < 1000 → digits_then 3 SP (uint_to_str c ++ SP :: rest) c rest.
Proof.
  intros Hc. destruct (to_str_radix_spec c 10) as (Hv & Hd & _ & Hlen); [lia|lia|].
  exists (uint_to_str c). split; [done|].
  assert (Hl : (length (uint_to_str c) ≤ 3)%nat) by (apply Hlen; [lia|]; change (10 ^ Z.of_nat 3) with 1000; lia).
  split_and?; [|lia|done|lia|lia].
  apply forallb_Forall. eapply Forall_impl; [apply uint_to_str_digits; lia|]. intros d Hd'. cbn beta in Hd'.
  unfold is_digit. eval_chr. lia.
Qed.

Lemma status_line_read st rest :
  status_text st →
  response_line (as_bytes (response_writer.status_line st) ++ rest) ((1, 1), code st, reason st) rest.
Proof.
  intros (Hc & Ha & Hcr). unfold response_writer.status_line, Status.to_str. rewrite !as_bytes_app.
  rewrite (as_bytes_ascii (uint_to_str (code st))) by (apply uint_to_str_ascii; lia).
  rewrite (as_bytes_ascii (reason st)) by done.
  exists (uint_to_str (code st) ++ SP :: reason st ++ CR :: LF :: rest), (reason st ++ CR :: LF :: rest).
  split; [|split; [by apply status_digits|done]]. cbn [fst snd].
  assert (E : (as_bytes (lit "HTTP/1.1 ") ++ (uint_to_str (code st) ++ as_bytes [chr " "] ++ reason st) ++ as_bytes [CR; LF]) ++ rest
    = lit "HTTP/1.1" ++ SP :: uint_to_str (code st) ++ SP :: reason st ++ CR :: LF :: rest).
  { by rewrite <-!app_assoc. }
  rewrite E. apply version_1_1_sp.
Qed.

(** ** The two messages *)
Section Messages.
Context `{UrlOps} `{TimeOps}.

Definition sent_request (p : option SocketAddr) (m : Method) (url : Url) (c : HeaderCollection) : Request :=
  mkRequest p c [] m (AbsoluteUri url) true (1, 0).

Lemma request_message p m url c body :
  method_readable m → url_readable url → coll_ok request_table c →
  message p (request_head m url c ++ body) (sent_request p m url c) body.
Proof.
  intros Hm Hu (Hl & Hk & Hhs). exists m, (AbsoluteUri url), (1, 0), (headers_of c). split; [|split; [by left|split; [done|]]].
  - unfold request_head. rewrite wire_lines by (done || by apply tables_ok; left).
    rewrite <-app_assoc, <-app_assoc. by apply request_line_read.
  - unfold load_answer. rewrite collect_headers_of by done. done.
Qed.

Lemma response_message st c body :
  status_text st → coll_ok response_table (coded_headers c) →
  response_line (response_head st c ++ body) ((1, 1), code st, reason st)
    (header_lines response_table (headers_of (coded_headers c)) ++ CR :: LF :: body).
Proof.
  intros Hst (_ & _ & Hhs). unfold response_head. rewrite wire_lines by (done || by apply tables_ok; right).
  rewrite <-app_assoc, <-app_assoc. by apply status_line_read.
Qed.
End Messages.

(** C15. The request the client sends is the request the server loads: when the
    head that [RequestWriter] writes, and anything after it, arrives in any
    segments, [Request::load] returns the same method, URL and headers, for
    HTTP/1.0, and leaves what follows to be read.  (Parsing the text of the URL
    back is the standard library's.) *)
Theorem request_reaches_server `{UrlOps} `{TimeOps} (s : BufferedStream TcpStream) fuel m url c body :
  stream_wf s → bs_pending s = request_head m url c ++ body →
  method_readable m → url_readable url → coll_ok request_table c → (length (bs_pending s) + 6 < fuel)%nat →
  ∃ s', load fuel s
        = Done (mkRequest (peer_name (wrapped s)) c [] m (AbsoluteUri url) true (1, 0), Ok tt, s')
    ∧ stream_wf s' ∧ bs_pending s' = body.
Proof.
  intros Hwf%stream_wf_inv Hp Hm Hu Hc Hf.
  destruct (request_message (peer_name (wrapped s)) m url c body Hm Hu Hc) as (m' & ru & v & hs & Hline & Hv & Hhs & Ha).
  rewrite <-Hp in Hline.
  destruct (load_spec _ True_read_stable s fuel m' ru v hs body Hwf Hline Hv Hhs Hf) as (s' & E & Hi & Hb).
  exists s'. rewrite E, Ha. by rewrite stream_wf_inv.
Qed.

Definition example_url : Url (UrlOps:=text_urls) := HeaderStr (lit "http://x.org/").
Lemma example_url_readable : url_readable (H:=text_urls) example_url.
Proof.
  split; [reflexivity|]. split; [by apply (bool_decide_unpack _)|]. split; [vm_compute; lia|]. by split_and?.
Qed.
Lemma get_readable : method_readable Get.
Proof. split; [reflexivity|]. split; [discriminate|]. split; [repeat constructor|vm_compute; lia]. Qed.

Lemma example_coll_ok : coll_ok (H:=text_urls) (H0:=second_times) request_table (rq_headers example_request).
Proof.
  split; [reflexivity|]. split; [constructor|].
  assert (headers_of (rq_headers example_request) = [example_host (H:=text_urls) (H0:=second_times)]) as -> by reflexivity.
  apply Forall_cons. split; [apply example_host_ok|by apply Forall_nil].
Qed.

(** What the example request puts on the wire. *)
Definition example_head : list u8 := request_head (H:=text_urls) (H0:=second_times) Get example_url (rq_headers example_request).

Lemma example_head_pending :
  bs_pending (tcp_stream [take 7 example_head; drop 7 example_head ++ lit "b"]) = example_head ++ lit "b".
Proof. vm_compute. reflexivity. Qed.

Lemma request_reaches_server_witness :
  let s := tcp_stream [take 7 example_head; drop 7 example_head ++ lit "b"] in
  ∃ s', load (H:=text_urls) (H0:=second_times) 100 s
        = Done (mkRequest None (rq_headers example_request) [] Get (AbsoluteUri example_url) true (1, 0), Ok tt, s')
    ∧ stream_wf s' ∧ bs_pending s' = lit "b".
Proof.
  intros s. apply (request_reaches_server (H:=text_urls) (H0:=second_times) s 100 Get example_url).
  - apply tcp_stream_wf. repeat constructor; discriminate.
  - apply example_head_pending.
  - apply get_readable.
  - apply example_url_readable.
  - apply example_coll_ok.
  - subst s. rewrite example_head_pending. vm_compute. lia.
Defined.

(** C16. The response the server sends is the response the client reads: when
    the head that [ResponseWriter] writes, and the body after it, arrives in
    any segments, [ResponseReader::construct] returns the same status and the
    headers that were sent, for HTTP/1.1, and leaves the body to be read. *)
Theorem response_reaches_client `{UrlOps} `{TimeOps} `{IoErrors} {S} `{ByteSource S}
    (s : BufferedStream S) (request : RequestWriter S) fuel st c body :
  stream_wf s → bs_pending s = response_head st c ++ body →
  valid st → status_text st → coll_ok response_table (coded_headers c) → (length (bs_pending s) + 6 < fuel)%nat →
  ∃ s', response_reader.construct fuel s request
        = Done (Ok (mkResponseReader s' request (1, 1) st (coded_headers c)))
    ∧ stream_wf s' ∧ bs_pending s' = body.
Proof.
  intros Hwf%stream_wf_inv Hp Hv Hst Hc Hf. pose proof (response_message st c body Hst Hc) as Hline.
  rewrite <-Hp in Hline. destruct Hc as (Hl & Hk & Hhs).
  destruct (construct_body_ok _ True_read_stable s fuel _ _ body Hwf Hf Hline Hhs) as (s' & E & Hi & Hb).
  cbn [fst snd] in E. rewrite from_code_and_reason_valid, collect_headers_of in E by done.
  exists s'. unfold response_reader.construct. rewrite E. by rewrite stream_wf_inv.
Qed.

Lemma ok_valid : valid status_Ok ∧ status_text status_Ok.
Proof.
  assert (He : mkEntry 200 (lit "OK") None ∈ statuses) by (apply (bool_decide_unpack _); vm_compute; exact I).
  split; [by exists (mkEntry 200 (lit "OK") None)|]. exact (registered_text _ He).
Qed.

(** A response of two bytes. *)
Definition two_bytes : HeaderCollection (H:=text_urls) (H0:=second_times) :=
  collection_set response.content_length (Some (VUint 2)) (collection_new response_table).
Lemma two_bytes_ok : coll_ok (H:=text_urls) (H0:=second_times) response_table (coded_headers two_bytes).
Proof.
  split; [reflexivity|]. split; [constructor|].
  assert (headers_of (coded_headers two_bytes) = [example_length (H:=text_urls) (H0:=second_times)]) as -> by reflexivity.
  apply Forall_cons. split; [apply example_length_ok|by apply Forall_nil].
Qed.
Definition example_response_head : list u8 := response_head (H:=text_urls) (H0:=second_times) status_Ok two_bytes.

Lemma example_response_pending :
  bs_pending (tcp_stream [take 7 example_response_head; drop 7 example_response_head; lit "Hi"])
  = example_response_head ++ lit "Hi".
Proof. vm_compute. reflexivity. Qed.

Lemma response_reaches_client_witness :
  let s := tcp_stream [take 7 example_response_head; drop 7 example_response_head; lit "Hi"] in
  ∃ s', response_reader.construct (H:=text_urls) (H0:=second_times) (H1:=not_trapping) 100 s example_request
        = Done (Ok (mkResponseReader s' example_request (1, 1) status_Ok (coded_headers two_bytes)))
    ∧ stream_wf s' ∧ bs_pending s' = lit "Hi".
Proof.
  intros s. destruct ok_valid as [Hv Ht].
  apply (response_reaches_client (H:=text_urls) (H0:=second_times) (H1:=not_trapping) s example_request 100 status_Ok two_bytes).
  - apply tcp_stream_wf. repeat constructor; discriminate.
  - apply example_response_pending.
  - exact Hv.
  - exact Ht.
  - apply two_bytes_ok.
  - subst s. rewrite example_response_pending. vm_compute. lia.
Defined.

(** ** A whole exchange *)

(** C1. A client and a server: when the bytes a client sends for a request
    arrive at the server in any segments, the connection's task loads that
    very request, runs the handler on it, answers and ends; and when the bytes
    it has sent arrive at the client in any segments, the client, which has
    sent nothing but its request, gets the status and the headers the handler
    set, and the body that is left to read is the one the handler wrote, as it
    is or, without a Content-Length, as a complete chunked body. *)
Theorem exchange_correct `{UrlOps} `{TimeOps} {T} `{!Server T} (self : T) (clock : nat → u64) fuel t0
    (r : RequestWriter TcpStream) addr ops p segs st hs wops :
  rq_stream r = None → rq_headers_written r = false → rq_remote_addr r = Some addr →
  Forall wop_fits ops → head ops ≠ Some WFlush →
  method_readable (rq_method r) → url_readable (rq_url r) → coll_ok request_table (rq_headers r) →
  Forall (λ seg, seg ≠ []) segs →
  concat segs = request_head (rq_method r) (rq_url r) (rq_headers r) ++ payload ops →
  (length (concat segs) + 6 < fuel)%nat →
  handles fuel self (sent_request p (rq_method r) (rq_url r) (rq_headers r)) (st, hs, wops) →
  valid st → status_text st → coll_ok response_table (coded_headers hs) →
  ∃ c' out, serve_connection clock fuel self t0 (accepted (mkTcp segs [] p)) = Done (tt, c')
    ∧ sent (wrapped (conn_stream c')) = out
    ∧ ∀ (net : NetOps) (io : IoErrors) n segs' q,
        tcp_connect addr = Done (Some (mkTcp segs' [] q)) → Forall (λ seg, seg ≠ []) segs' → concat segs' = out →
        request_sendable n (rq_method r) (rq_url r) (rq_headers r) → (length out + 6 < n)%nat →
        ∃ r1 reader, for_each ops (run_cop n) r = Done (tt, r1)
          ∧ request_writer.read_response n r1 = Done (Ok reader)
          ∧ sent (wrapped (rr_stream reader)) = concat segs
          ∧ rr_version reader = (1, 1) ∧ rr_status reader = st ∧ rr_headers reader = coded_headers hs
          ∧ response_body hs (payload wops) (bs_pending (rr_stream reader)).
Proof.
  intros Hs0 Hw Ha Hops Hhead Hm Hu Hc Hsegs Hconcat Hf Hh Hv Hst Hco.
  set (req := sent_request p _ _ _) in *.
  assert (Hidle : ∀ segs p, Forall (λ seg, seg ≠ []) segs → idle p (Buffer.new (mkTcp segs [] p) false)).
  { intros sg p' Hsg. split; [split; [apply new_read_wf|done]|]. split; [apply new_ready|done]. }
  assert (Hpend : ∀ segs p, bs_pending (Buffer.new (mkTcp segs [] p) false) = concat segs).
  { intros sg p'. unfold bs_pending. by rewrite window_empty. }
  destruct (connection_loop_spec clock fuel self (λ _, (st, hs, wops)) p (concat segs) [req] (payload ops)) with
    (c := accepted (mkTcp segs [] p)) (n := fuel) (t0 := t0) as (c' & outs & E & Hfa & Hsent & _); try done.
  - constructor; [|done]. rewrite Hconcat. by apply request_message.
  - by apply Hidle.
  - lia.
  - intros request ->%list_elem_of_singleton. exact Hh.
  - exists c', (concat outs). split; [exact E|]. split; [exact Hsent|].
    apply Forall2_cons_inv_l in Hfa as (out & outs' & (body & Hbody & ->) & ->%Forall2_nil_inv_l & ->).
    cbn [concat]. rewrite app_nil_r. intros net io n segs' q Hnet Hsegs' Hout Hsend Hn.
    pose proof (response_message st hs body Hst Hco) as Hline. rewrite <-Hout, <-(Hpend segs' q) in Hline, Hn.
    destruct (read_response_spec r (Buffer.new (mkTcp segs' [] q) false) q n ops ((1, 1), code st, reason st) (headers_of (coded_headers hs)) body Hw) as (r1 & s' & E1 & E2 & _ & Hb & Hsent'); try done.
    + right. split; [done|]. by exists addr, (mkTcp segs' [] q).
    + by apply Hidle.
    + apply Hco.
    + cbn [fst snd] in E2. destruct Hco as (Hlen & Hkeys & _). rewrite from_code_and_reason_valid, collect_headers_of in E2 by done.
      eexists r1, _. split; [exact E1|]. split; [exact E2|]. cbn [rr_stream rr_version rr_status rr_headers].
      rewrite Hb, Hsent', Hconcat. by split_and?.
Qed.

Lemma greeting_ok : coll_ok (H:=text_urls) (H0:=second_times) response_table (coded_headers (collection_new response_table)).
Proof.
  split; [reflexivity|]. split; [constructor|].
  assert (headers_of (H:=text_urls) (H0:=second_times) (coded_headers (collection_new response_table))
    = [Known 5 (VTransferCodings [Chunked])]) as -> by reflexivity.
  apply Forall_cons. split; [|by apply Forall_nil]. split; [by eexists|].
  unfold value_ok. cbn [wire_ok comma_list_wire]. split; [discriminate|]. by repeat constructor.
Qed.

Lemma exchange_correct_witness :
  let segs := [take 7 example_head; drop 7 example_head] in
  ∃ c' out n, serve_connection (Server0:=greeter) Z.of_nat 200 tt 0 (accepted (mkTcp segs [] None)) = Done (tt, c')
    ∧ sent (wrapped (conn_stream c')) = out
    ∧ ∃ r1 reader, for_each [] (run_cop (H1:=example_net [out]) (H2:=not_trapping) n) example_request = Done (tt, r1)
      ∧ request_writer.read_response (H2:=example_net [out]) (H3:=not_trapping) n r1 = Done (Ok reader)
      ∧ sent (wrapped (rr_stream reader)) = concat segs
      ∧ rr_version reader = (1, 1) ∧ rr_status reader = status_Ok
      ∧ rr_headers reader = coded_headers (collection_new response_table)
      ∧ response_body (H:=text_urls) (H0:=second_times) (collection_new response_table) (lit "Hi") (bs_pending (rr_stream reader)).
Proof.
  intros segs. destruct ok_valid as [Hv Ht].
  destruct (exchange_correct (Server0:=greeter) tt Z.of_nat 200 0 example_request (mkSocketAddr (Ipv4Addr 10 0 0 1) 80) []
    None segs status_Ok (collection_new response_table) [WWrite (lit "Hi")]) as (c' & out & E & Hout & Hclient);
    [reflexivity|reflexivity|reflexivity|apply Forall_nil; exact I|discriminate|apply get_readable|apply example_url_readable
    |apply example_coll_ok|repeat constructor; discriminate|vm_compute; reflexivity|vm_compute; lia
    |apply greeter_handles|exact Hv|exact Ht|apply greeting_ok|].
  exists c', out, (length out + 100)%nat. split; [exact E|]. split; [exact Hout|].
  apply (Hclient (example_net [out]) not_trapping (length out + 100)%nat [out] None).
  - reflexivity.
  - apply Forall_cons. split; [|apply Forall_nil; exact I]. intros ->. revert Hout.
    assert (Hne : match serve_connection (Server0:=greeter) Z.of_nat 200 tt 0 (accepted (mkTcp segs [] None)) with
      | Done (_, c) => match sent (wrapped (conn_stream c)) with [] => False | _ => True end | _ => False end)
      by (vm_compute; exact I).
    rewrite E in Hne. intros E'. rewrite E' in Hne. exact Hne.
  - simpl. apply app_nil_r.
  - destruct example_sendable as (H1 & H2 & H3 & H4). split; [exact H1|]. split; [exact H2|]. split; [|exact H4]. clear -H3. lia.
  - lia.
Defined.
