(* ===== verification/Segments.v ===== *)
(** * The same bytes in other segments

    A TCP connection delivers the bytes of its peer in segments of any size.
    This file shows that the size makes no difference to the library, for any
    bytes at all, malformed messages included: two runs on connections that
    bring the same bytes go in lockstep, with the same results, the same
    failures and the same endless loops, and send the same bytes back.

    The proofs are simulations ([msim]) of a method with itself on two
    sources.  Every parser of headers/mod.rs has one, by induction on its
    structure; [LockstepRead] and [LockstepWrite] are what a type of header
    values promises for it. *)

From S2P Require Import Prelude Strs Rfc2616 Method Io Buffer Common Chunked SerializationUtils HeaderIter HeaderValues Headers Status Branchify ServerRequest ServerResponse Server Client Examples.

(** ** Two sources with the same bytes *)

(** Two methods that behave as a third. *)
Lemma msim_via {S1 S2 S A} P1 Q1 P2 Q2 (m1 : M S1 A) (m2 : M S2 A) (m : M S A) :
  msim P1 Q1 m1 m → msim P2 Q2 m2 m →
  msim (λ s1 s2, ∃ s, P1 s1 s ∧ P2 s2 s) (λ s1 s2, ∃ s, Q1 s1 s ∧ Q2 s2 s) m1 m2.
Proof.
  intros H1 H2 s1 s2 (s & HP1 & HP2). specialize (H1 s1 s HP1). specialize (H2 s2 s HP2).
  destruct (m1 s1) as [[a1 t1]| |], (m2 s2) as [[a2 t2]| |], (m s) as [[a t]| |]; try done; [|congruence].
  destruct H1 as [-> ?], H2 as [-> ?]. eauto.
Qed.

Lemma msim_call {S1 S2 A} (P : S1 → S2 → Prop) (r : res A) : msim P P (call r) (call r).
Proof. intros s1 s2 H. unfold call. by destruct r. Qed.

Lemma msim_break {S1 S2 A B} (P : S1 → S2 → Prop) (b : B) : msim P P (break (A:=A) b) (break b).
Proof. apply msim_ret. Qed.
Lemma msim_continue {S1 S2 A B} (P : S1 → S2 → Prop) (a : A) : msim P P (continue (B:=B) a) (continue a).
Proof. apply msim_ret. Qed.

Lemma msim_bind_ret {S1 S2 A B} (P Q : S1 → S2 → Prop) (a : A) (k1 : A → M S1 B) k2 :
  msim P Q (k1 a) (k2 a) → msim P Q (mret a ≫= k1) (mret a ≫= k2).
Proof. intros H s1 s2. exact (H s1 s2). Qed.

Create HintDb lockstep.
#[export] Hint Resolve msim_ret msim_fail msim_call msim_break msim_continue msim_assert : lockstep.

Definition same {R1 R2} `{HS1 : ByteSource R1} `{HS2 : ByteSource R2} (r1 : R1) (r2 : R2) : Prop :=
  ∃ l, src_rel r1 l ∧ src_rel r2 l.
(** The last byte read can be put back to both. *)
Definition same_fresh {R1 R2} `{HS1 : ByteSource R1} `{HS2 : ByteSource R2} (r1 : R1) (r2 : R2) : Prop :=
  ∃ l, fresh_rel r1 l ∧ fresh_rel r2 l.

Section Sources.
Context {R1 R2 : Type} `{HS1 : ByteSource R1} `{HS2 : ByteSource R2}.

Lemma same_fresh_same (r1 : R1) (r2 : R2) : same_fresh r1 r2 → same r1 r2.
Proof. intros (l & ?%fresh_src & ?%fresh_src). by exists l. Qed.

Lemma same_pending (r1 : R1) (r2 : R2) : same r1 r2 ↔ source_inv r1 ∧ source_inv r2 ∧ pending r1 = pending r2.
Proof.
  split; [by intros (l & [? <-] & [? ?])|]. intros (? & ? & E). exists (pending r1). by repeat split.
Qed.

Lemma read_byte_lockstep fuel :
  msim same same_fresh (read_byte_util (R:=R1) fuel) (read_byte_util (R:=R2) fuel).
Proof. apply (msim_via src_rel fresh_rel src_rel fresh_rel _ _ (read_byte_util (R:=list u8) fuel)); apply read_byte_util_sim. Qed.

Lemma read_http_version_lockstep fuel b :
  msim same same (read_http_version (R:=R1) fuel b) (read_http_version (R:=R2) fuel b).
Proof. apply (msim_via src_rel src_rel src_rel src_rel _ _ (read_http_version (R:=list u8) fuel b)); apply read_http_version_sim. Qed.

(** ** The iterator over a header value *)
Definition iters (Q : R1 → R2 → Prop) (it1 : HeaderValueByteIterator R1) (it2 : HeaderValueByteIterator R2) : Prop :=
  Q (it_reader it1) (it_reader it2) ∧ next_byte it1 = next_byte it2 ∧ at_start it1 = at_start it2
  ∧ it_state it1 = it_state it2.
(** Something has been read ... *)
Definition started := iters same_fresh.
(** ... or nothing has. *)
Definition in_step it1 it2 : Prop :=
  started it1 it2 ∨ (iters same it1 it2 ∧ next_byte it1 = None ∧ it_state it1 = Normal).

Lemma started_in_step it1 it2 : started it1 it2 → in_step it1 it2.
Proof. by left. Qed.

Lemma in_step_fields it1 it2 :
  in_step it1 it2 → next_byte it1 = next_byte it2 ∧ at_start it1 = at_start it2 ∧ it_state it1 = it_state it2.
Proof. by intros [(_ & ? & ? & ?)|[(_ & ? & ? & ?) _]]. Qed.

(** A method of the iterator that reads before it puts back. *)
Definition lockstep {A} (m1 : M (HeaderValueByteIterator R1) A) (m2 : M (HeaderValueByteIterator R2) A) : Prop :=
  msim in_step started m1 m2.

Lemma lockstep_started {A} (m1 : M (HeaderValueByteIterator R1) A) m2 : lockstep m1 m2 → msim started started m1 m2.
Proof. apply msim_weaken; [apply started_in_step|done]. Qed.

Lemma lockstep_bind {A B} (m1 : M (HeaderValueByteIterator R1) A) m2 (k1 : A → M _ B) k2 :
  lockstep m1 m2 → (∀ a, msim started started (k1 a) (k2 a)) → lockstep (m1 ≫= k1) (m2 ≫= k2).
Proof. apply msim_bind. Qed.

Lemma lockstep_loop {A B} n (b1 : A → M (HeaderValueByteIterator R1) (A + B)) b2 :
  (∀ a, lockstep (b1 a) (b2 a)) → ∀ a, lockstep (loop n b1 a) (loop n b2 a).
Proof. apply msim_loop_enter, started_in_step. Qed.

Lemma take_byte_lockstep fuel : lockstep (Iter.take_byte fuel) (Iter.take_byte fuel).
Proof.
  intros it1 it2 Hit. pose proof (in_step_fields it1 it2 Hit) as (Hn & Ha & Hs). unfold Iter.take_byte.
  rewrite !bind_gets, Hn. destruct (next_byte it2) as [b|] eqn:En.
  - rewrite !bind_modify. split; [done|]. destruct Hit as [(Hr & _)|(_ & Hno & _)]; [by split_and?|congruence].
  - apply (msim_zoom in_step started same same_fresh); [| |apply read_byte_lockstep|done].
    + intros i1 i2 [(Hr & _)|[(Hr & _) _]]; [by apply same_fresh_same|done].
    + intros i1 i2 r1 r2 (? & ? & ?)%in_step_fields Hr. by split_and?.
Qed.

Lemma modify_lockstep f1 f2 :
  (∀ it1 it2, started it1 it2 → started (f1 it1) (f2 it2)) → msim started started (modify f1) (modify f2).
Proof. apply msim_modify. Qed.

Lemma next_body_lockstep fuel u : lockstep (Iter.next_body fuel u) (Iter.next_body fuel u).
Proof.
  apply lockstep_bind; [apply take_byte_lockstep|]. intros [b|].
  - eapply msim_bind; [apply msim_gets; by intros ? ? (_ & _ & _ & ?)|]. intros [].
    + apply msim_if; intros _.
      * eapply msim_bind; [apply msim_gets; by intros ? ? (_ & _ & ? & _)|]. intros [].  all: apply msim_ret.
      * apply msim_if; intros _; [apply msim_ret|]. apply msim_if; intros _;
          (eapply msim_bind; [apply modify_lockstep; intros ? ? (? & ? & ? & ?); by split_and?|intros _; apply msim_ret]).
    + apply msim_if; intros _; repeat (eapply msim_bind; [apply modify_lockstep; intros ? ? (? & ? & ? & ?); by split_and?|intros _]);
        apply msim_ret.
    + apply msim_fail.
  - eapply msim_bind; [apply modify_lockstep; intros ? ? (? & ? & ? & ?); by split_and?|intros _; apply msim_ret].
Qed.

Lemma next_lockstep fuel : lockstep (Iter.next fuel) (Iter.next fuel).
Proof.
  intros it1 it2 Hit. pose proof (in_step_fields it1 it2 Hit) as (_ & _ & Hs). unfold Iter.next.
  rewrite !bind_gets, Hs. destruct (it_state it2) eqn:Es; try (by apply lockstep_loop; [apply next_body_lockstep|]).
  split; [done|]. destruct Hit as [?|(_ & _ & Hs')]; [done|congruence].
Qed.

Lemma put_back_lockstep b : msim started started (Iter.put_back (R:=R1) b) (Iter.put_back (R:=R2) b).
Proof.
  eapply msim_bind; [apply msim_gets; by intros ? ? (_ & ? & _)|]. intros nb.
  eapply msim_bind; [apply msim_assert|]. intros _. apply modify_lockstep. intros ? ? (? & ? & ? & ?). by split_and?.
Qed.
End Sources.

#[export] Hint Resolve next_lockstep put_back_lockstep lockstep_started : lockstep.

(** Follow the structure of a method. *)
Ltac follow :=
  intros; repeat first
    [ progress intros
    | solve [eauto with lockstep nocore]
    | apply lockstep_loop
    | apply lockstep_bind; [solve [eauto with lockstep nocore]|]
    | eapply msim_bind; [solve [eauto with lockstep nocore]|]
    | apply msim_if; intros _
    | match goal with
      | |- msim _ _ (match ?x with _ => _ end) _ => destruct x
      | |- lockstep (match ?x with _ => _ end) _ => destruct x
      end ].

Section Methods.
Context {R1 R2 : Type} `{HS1 : ByteSource R1} `{HS2 : ByteSource R2} (fuel : nat).
Abbreviation both m := (lockstep (R1:=R1) (R2:=R2) m m).

Lemma consume_lws_lockstep : both (Iter.consume_lws fuel).
Proof. unfold Iter.consume_lws, Iter.lws_body. follow. Qed.
#[local] Hint Resolve consume_lws_lockstep : lockstep.
Lemma consume_optional_lws_lockstep : both (Iter.consume_optional_lws fuel).
Proof. unfold Iter.consume_optional_lws. follow. Qed.
#[local] Hint Resolve consume_optional_lws_lockstep : lockstep.
Lemma verify_consumed_lockstep : both (Iter.verify_consumed fuel).
Proof. unfold Iter.verify_consumed. follow. Qed.
#[local] Hint Resolve verify_consumed_lockstep : lockstep.
Lemma some_if_consumed_lockstep {T} (t : T) : both (Iter.some_if_consumed fuel t).
Proof. unfold Iter.some_if_consumed. follow. Qed.
Lemma collect_to_str_lockstep : both (Iter.collect_to_str fuel).
Proof. unfold Iter.collect_to_str, Iter.collect_body. follow. Qed.
Lemma consume_comma_lws_lockstep : both (Iter.consume_comma_lws fuel).
Proof. unfold Iter.consume_comma_lws. follow. Qed.
Lemma read_quoted_string_lockstep opened : both (Iter.read_quoted_string fuel opened).
Proof. unfold Iter.read_quoted_string, Iter.quoted_body. follow. Qed.
Lemma read_token_lockstep : both (Iter.read_token fuel).
Proof. unfold Iter.read_token, Iter.token_body. apply lockstep_bind; follow. Qed.
#[local] Hint Resolve read_token_lockstep : lockstep.
Lemma read_token_or_quoted_string_lockstep : both (Iter.read_token_or_quoted_string fuel).
Proof.
  unfold Iter.read_token_or_quoted_string. follow; unfold Iter.quoted_branch, Iter.token_branch.
  - apply lockstep_started. unfold Iter.quoted_body2. follow.
  - eapply msim_bind; [apply modify_lockstep; intros ? ? (? & ? & ? & ?); by split_and?|intros _].
    apply lockstep_started, lockstep_bind; unfold Iter.token_body2; follow.
Qed.
#[local] Hint Resolve read_token_or_quoted_string_lockstep : lockstep.
Lemma read_parameter_lockstep : both (Iter.read_parameter fuel true).
Proof.
  unfold Iter.read_parameter. apply msim_bind_ret. cbn [negb]. apply (lockstep_bind (R1:=R1) (R2:=R2)); follow.
Qed.
#[local] Hint Resolve read_parameter_lockstep : lockstep.
Lemma read_parameters_lockstep : both (Iter.read_parameters fuel).
Proof. unfold Iter.read_parameters, Iter.parameters_body. follow. Qed.
Lemma drain_lockstep : both (Iter.drain fuel).
Proof. unfold Iter.drain, Iter.drain_body. follow. Qed.
End Methods.

#[export] Hint Resolve consume_optional_lws_lockstep some_if_consumed_lockstep collect_to_str_lockstep
  consume_comma_lws_lockstep read_quoted_string_lockstep read_token_lockstep read_parameters_lockstep
  drain_lockstep : lockstep.

(** ** Values of headers *)
Class LockstepRead (T : Type) `{HeaderConvertible T} := {
  read_lockstep R1 R2 (HR1 : Reader R1) (HS1 : ByteSource R1) (HR2 : Reader R2) (HS2 : ByteSource R2) fuel :
    lockstep (R1:=R1) (R2:=R2) (from_stream (T:=T) fuel) (from_stream (T:=T) fuel)
}.
#[export] Hint Resolve read_lockstep : lockstep.

#[global] Instance str_lockstep : LockstepRead header_str.
Proof. constructor. intros. cbn; unfold str_from_stream. follow. Qed.
#[global] Instance uint_lockstep : LockstepRead uint.
Proof. constructor. intros. cbn; unfold uint_from_stream. follow. Qed.
#[global] Instance Method_lockstep : LockstepRead Method.
Proof. constructor. intros. cbn; unfold Method_from_stream. follow. Qed.
#[global] Instance Url_lockstep `{UrlOps} : LockstepRead Url.
Proof. constructor. intros. cbn; unfold Url_from_stream. follow. Qed.
#[global] Instance Tm_lockstep `{TimeOps} : LockstepRead Tm.
Proof. constructor. intros. cbn; unfold Tm_from_stream. follow. Qed.
#[global] Instance Connection_lockstep : LockstepRead Connection.
Proof. constructor. intros. cbn; unfold Connection_from_stream. follow. Qed.
#[global] Instance TransferCoding_lockstep : LockstepRead TransferCoding.
Proof. constructor. intros. cbn; unfold TransferCoding_from_stream. follow. Qed.
#[global] Instance Host_lockstep : LockstepRead Host.
Proof. constructor. intros. cbn; unfold Host_from_stream. follow. Qed.
#[global] Instance EntityTag_lockstep : LockstepRead EntityTag.
Proof.
  constructor. intros. cbn; unfold EntityTag_from_stream. apply lockstep_bind; [follow|intros ob].
  apply (msim_bind _ started); follow.
Qed.
#[global] Instance MediaType_lockstep : LockstepRead MediaType.
Proof. constructor. intros. cbn; unfold MediaType_from_stream. follow. Qed.
#[global] Instance AcceptableRanges_lockstep : LockstepRead AcceptableRanges.
Proof. constructor. intros. cbn; unfold AcceptableRanges_from_stream, ranges_body. apply lockstep_bind; follow. Qed.
#[global] Instance comma_list_lockstep {T} `{LockstepRead T} : LockstepRead (list T).
Proof. constructor. intros. cbn; unfold list_from_stream, list_from_body. follow. Qed.

(** ** Header lines *)
Section Lines.
Context `{UrlOps} `{TimeOps} {R1 R2 : Type} `{HS1 : ByteSource R1} `{HS2 : ByteSource R2} (tbl : table) (fuel : nat).

Lemma value_of_kind_lockstep k : lockstep (R1:=R1) (R2:=R2) (value_of_kind k fuel) (value_of_kind k fuel).
Proof. destruct k; (apply lockstep_bind; [apply read_lockstep|follow]). Qed.
#[local] Hint Resolve value_of_kind_lockstep : lockstep.

Lemma header_of_iter_lockstep name :
  lockstep (R1:=R1) (R2:=R2) (header_of_iter tbl fuel name) (header_of_iter tbl fuel name).
Proof.
  apply (msim_bind _ in_step); [apply msim_call|intros nm]. apply lockstep_bind; [unfold value_from_stream; follow|].
  intros h. eapply msim_bind; [follow|intros _].
  eapply msim_bind; [apply msim_gets; by intros ? ? (_ & ? & _)|]. follow.
Qed.

Lemma header_enum_lockstep :
  msim same same_fresh (header_enum_from_stream (R:=R1) tbl fuel) (header_enum_from_stream (R:=R2) tbl fuel).
Proof.
  apply (msim_bind _ same_fresh).
  - apply msim_loop_enter; [apply same_fresh_same|]. intros [st name].
    eapply msim_bind; [apply read_byte_lockstep|]. follow.
  - intros [name|e]; [|apply msim_ret]. intros r1 r2 Hr. unfold header_line_value.
    assert (Hnew : in_step (Iter.new r1) (Iter.new r2)).
    { right. split; [|done]. split; [by apply same_fresh_same|done]. }
    pose proof (header_of_iter_lockstep name _ _ Hnew) as Hh.
    destruct (header_of_iter tbl fuel name (Iter.new r1)) as [[[[h|] nb] it]| |],
      (header_of_iter tbl fuel name (Iter.new r2)) as [[[[h'|] nb'] it']| |]; try done;
      destruct Hh as [[=] [Hs _]]; subst; done.
Qed.
End Lines.

(** ** The generated method parser *)
Lemma msim_ext {S1 S2 A} (P Q : S1 → S2 → Prop) (m1 m1' : M S1 A) (m2 m2' : M S2 A) :
  (∀ s, m1 s = m1' s) → (∀ s, m2 s = m2' s) → msim P Q m1' m2' → msim P Q m1 m2.
Proof. intros H1 H2 H s1 s2. rewrite H1, H2. apply H. Qed.

Section Generated.
Context {S1 S2 A : Type} (P : S1 → S2 → Prop) (rc1 : M S1 (option u8)) (rc2 : M S2 (option u8)) (Hrc : msim P P rc1 rc2).
Context (end_ : u8) (max_len : nat) (is_valid : u8 → bool) (unknown value : str → A).

Lemma run_branch_lockstep n : ∀ b prefix, (depth b < n)%nat →
  msim P P (run_branch rc1 is_valid unknown value b prefix) (run_branch rc2 is_valid unknown value b prefix).
Proof using Hrc.
  induction n as [|n IH]; intros [m rs cs] prefix Hn; [lia|].
  eapply msim_ext; [intros; apply run_branch_eq..|]. eapply msim_bind; [exact Hrc|].
  intros [b|]; [|apply msim_ret]. destruct (child_for b cs) as [ch|] eqn:Ech.
  - apply IH. pose proof (depth_child b cs ch m rs Ech). lia.
  - follow.
Qed.

Lemma run_method_lockstep fuel branches :
  msim P P (run_method rc1 end_ max_len is_valid unknown value fuel branches)
    (run_method rc2 end_ max_len is_valid unknown value fuel branches).
Proof using Hrc.
  eapply msim_bind; [exact Hrc|]. intros ob. eapply (msim_bind _ P).
  - destruct ob as [b|]; [|apply msim_ret]. induction branches as [|c bs IH]; cbn [run_arms]; [follow|].
    apply msim_if; intros _; [apply (run_branch_lockstep (S (depth c))); lia|done].
  - intros [o|s b]; [apply msim_ret|]. apply msim_loop. intros s'. eapply msim_bind; [exact Hrc|]. follow.
Qed.
End Generated.

(** ** Connections *)

(** All of a buffered connection but its reading side. *)
Definition write_side (s : BufferedStream TcpStream) : list u8 * nat * bool * bool * list u8 * option SocketAddr :=
  (write_buffer s, write_len s, call_wrapped_flush s, writing_chunked_body s, tcp_out (wrapped s), peer_name (wrapped s)).

(** Two connections that bring the same bytes and agree in all else. *)
Definition twins (s1 s2 : BufferedStream TcpStream) : Prop :=
  stream_wf s1 ∧ stream_wf s2 ∧ bs_pending s1 = bs_pending s2 ∧ write_side s1 = write_side s2.

Lemma write_side_stable w : read_stable (λ s, write_side s = w).
Proof.
  split; [done|]. intros n s o t <- E. unfold write_side. cbn [wrapped set_wrapped write_buffer write_len
    call_wrapped_flush writing_chunked_body]. pose proof (duplex_read n (wrapped s) o t E) as Hs. cbn [sent TcpStream_sink] in Hs.
  by rewrite Hs, (tcp_read_peer n _ o t E).
Qed.

Section Reading.
Context (w : list u8 * nat * bool * bool * list u8 * option SocketAddr) `{UrlOps} `{TimeOps} (fuel : nat).
Local Instance Src : ByteSource (BufferedStream TcpStream) := BufferedStream_source (λ s, write_side s = w) (write_side_stable w).
Implicit Types s : BufferedStream TcpStream.

Lemma stream_read_byte_lockstep : msim same same_fresh (Buffer.read_byte (T:=TcpStream)) Buffer.read_byte.
Proof.
  apply (msim_via src_rel fresh_rel src_rel fresh_rel _ _ (read_byte_util (R:=list u8) 1));
    apply (read_byte_sim _ (write_side_stable w)); lia.
Qed.

Lemma poke_byte_lockstep b : msim same_fresh same (poke_byte (T:=TcpStream) b) (poke_byte b).
Proof.
  apply (msim_via fresh_rel src_rel fresh_rel src_rel _ _ (λ l : list u8, Done (tt, b :: l)));
    apply (poke_byte_sim _ (write_side_stable w)).
Qed.

(** The buffers of two requests. *)
Definition buffers (Q : BufferedStream TcpStream → BufferedStream TcpStream → Prop)
    (b1 b2 : RequestBuffer TcpStream) : Prop := Q (rb_stream b1) (rb_stream b2).

Lemma on_stream_lockstep {A} Q Q' (m : M (BufferedStream TcpStream) A) :
  msim Q Q' m m → msim (buffers Q) (buffers Q') (request_buffer.on_stream m) (request_buffer.on_stream m).
Proof. intros Hm. apply (msim_zoom _ _ Q Q'); done. Qed.

Lemma rb_read_byte_lockstep :
  msim (buffers same) (buffers same) (request_buffer.on_stream Buffer.read_byte) (request_buffer.on_stream Buffer.read_byte).
Proof.
  apply on_stream_lockstep. eapply msim_weaken; [done|apply same_fresh_same|apply stream_read_byte_lockstep].
Qed.
#[local] Hint Resolve rb_read_byte_lockstep : lockstep.

Lemma read_header_lockstep tbl :
  msim (buffers same) (buffers same) (request_buffer.read_header fuel tbl) (request_buffer.read_header fuel tbl).
Proof.
  eapply (msim_bind _ (buffers same_fresh)); [apply on_stream_lockstep, header_enum_lockstep|].
  intros [h [b|]].
  - eapply msim_bind; [apply on_stream_lockstep, poke_byte_lockstep|]. follow.
  - eapply msim_weaken; [| |apply (msim_ret (buffers same_fresh))]; [done|]. intros ? ? ?. by apply same_fresh_same.
Qed.
#[local] Hint Resolve read_header_lockstep : lockstep.

Lemma read_request_line_lockstep :
  msim (buffers same) (buffers same) (request_buffer.read_request_line fuel) (request_buffer.read_request_line fuel).
Proof.
  eapply msim_bind; [apply run_method_lockstep; follow|]. intros [m|]; [|apply msim_ret].
  eapply (msim_bind _ (buffers same)).
  - eapply (msim_bind _ (buffers same)); [|follow]. apply msim_loop. unfold request_buffer.uri_body. follow.
  - intros [u|e]; [|apply msim_ret]. eapply (msim_bind _ (buffers same)); [|follow].
    apply on_stream_lockstep, read_http_version_lockstep.
Qed.

Lemma load_body_lockstep peer : msim (buffers same) (buffers same) (load_body fuel peer) (load_body fuel peer).
Proof.
  eapply msim_bind; [apply read_request_line_lockstep|]. intros [[[m u] v]|e]; [|apply msim_ret]. cbn beta zeta.
  assert (Hgo : ∀ req close, msim (buffers same) (buffers same)
    (rh ← loop fuel (headers_body fuel) req; match rh with (r, Err e) => mret (r, Err e) | (r, Ok _) => mret (finish_load close r) end)
    (rh ← loop fuel (headers_body fuel) req; match rh with (r, Err e) => mret (r, Err e) | (r, Ok _) => mret (finish_load close r) end)).
  { intros req close. eapply (msim_bind _ (buffers same)); [|follow]. apply msim_loop. unfold headers_body. follow. }
  repeat (apply msim_if; intros _); [apply Hgo..|apply msim_ret].
Qed.
End Reading.

(** The same bytes, with the writing side [w]. *)
Abbreviation same_in w := (same (HS1:=Src w) (HS2:=Src w)).

Lemma twins_same s1 s2 :
  twins s1 s2 ↔ ∃ w, same_in w s1 s2.
Proof.
  split.
  - intros ([Hr1 Hi1] & [Hr2 Hi2] & Hp & Hw). exists (write_side s1), (bs_pending s1). split; (split; [split_and!|]); done.
  - intros (w & l & [(Hr1 & Hi1 & Hw1) Hp1] & [(Hr2 & Hi2 & Hw2) Hp2]). cbn in *.
    split_and!; [by split..| |]; congruence.
Qed.

(** A method that reads, in lockstep whatever the writing side is. *)
Lemma reading_twins {A} (m : M (BufferedStream TcpStream) A) :
  (∀ w, msim (same_in w) (same_in w) m m) → msim twins twins m m.
Proof.
  intros Hm s1 s2 [w Hs]%twins_same. specialize (Hm w s1 s2 Hs).
  destruct (m s1) as [[a1 t1]| |], (m s2) as [[a2 t2]| |]; try done. destruct Hm as [-> Ht]. split; [done|].
  apply twins_same. by exists w.
Qed.

Section Messages.
Context `{UrlOps} `{TimeOps} (fuel : nat).

Lemma load_lockstep w : msim (same_in w) (same_in w) (load fuel) (load fuel).
Proof.
  eapply (msim_bind _ (same_in w)).
  - apply msim_gets. intros s1 s2 (l & [(_ & _ & Hw1) _] & [(_ & _ & Hw2) _]). unfold write_side in *. congruence.
  - intros peer. apply (msim_zoom _ _ (buffers (same_in w)) (buffers (same_in w))); [done|done|apply load_body_lockstep].
Qed.

Lemma load_twins : msim twins twins (load fuel) (load fuel).
Proof. apply reading_twins, load_lockstep. Qed.

Lemma construct_twins `{IoErrors} :
  msim twins twins (response_reader.construct_body (S:=TcpStream) fuel) (response_reader.construct_body fuel).
Proof.
  apply reading_twins. intros w.
  assert (Hrb : msim (same_in w) (same_in w) (Buffer.read_byte (T:=TcpStream)) Buffer.read_byte).
  { eapply msim_weaken; [done|apply same_fresh_same|apply stream_read_byte_lockstep]. }
  assert (Hbad : ∀ A, msim (same_in w) (same_in w)
    (response_reader.bad_response (A:=A)) response_reader.bad_response).
  { intros A. unfold response_reader.bad_response, raise. destruct trapped; eapply msim_bind; follow. }
  eapply msim_bind; [apply read_http_version_lockstep|]. intros [v|]; [|apply Hbad].
  eapply msim_bind; [apply digit_loop_sim, Hrb|]. intros [c|]; [|apply Hbad].
  eapply (msim_bind _ (same_in w)).
  { apply msim_loop. intros r. eapply msim_bind; [exact Hrb|]. intros [b|]; [|apply msim_break].
    apply msim_if; intros _; [|apply msim_continue]. eapply msim_bind; [exact Hrb|]. follow. }
  intros [r|]; [|apply Hbad]. eapply (msim_bind _ (same_in w)).
  - apply (msim_zoom _ _ (buffers (same_in w)) (buffers (same_in w))); [done|done|]. apply msim_loop. intros hs.
    eapply msim_bind; [apply read_header_lockstep|]. follow.
  - intros [hs|]; [apply msim_ret|apply Hbad].
Qed.
End Messages.

(** ** Writing *)

(** A method that only writes. *)
Lemma write_wrapped_twins bs : msim twins twins (write_wrapped (T:=TcpStream) bs) (write_wrapped bs).
Proof.
  intros s1 s2 ([Hr1 Hi1] & [Hr2 Hi2] & Hp & Hw). split; [done|]. unfold write_side in Hw.
  split_and!; [done|done|done|]. unfold write_side. cbn. congruence.
Qed.

Lemma set_write_twins f1 f2 :
  (∀ s1 s2, twins s1 s2 → ∃ buf len, f1 s1 = set_write buf len s1 ∧ f2 s2 = set_write buf len s2) →
  msim twins twins (modify f1) (modify f2).
Proof.
  intros Hf. apply msim_modify. intros s1 s2 Ht. destruct (Hf s1 s2 Ht) as (buf & len & -> & ->).
  destruct Ht as ([Hr1 Hi1] & [Hr2 Hi2] & Hp & Hw). unfold write_side in Hw.
  split_and!; [done|done|done|]. unfold write_side. cbn. congruence.
Qed.

Lemma set_write_len_twins n : msim twins twins (modify (set_write_len (T:=TcpStream) n)) (modify (set_write_len n)).
Proof.
  apply set_write_twins. intros s1 s2 (_ & _ & _ & Hw). exists (write_buffer s1), n. split; [done|].
  unfold set_write_len. unfold write_side in Hw. congruence.
Qed.

Lemma write_gets_twins {A} (f : BufferedStream TcpStream → A) :
  (∀ s1 s2, write_side s1 = write_side s2 → f s1 = f s2) → msim twins twins (gets f) (gets f).
Proof. intros Hf. apply msim_gets. intros s1 s2 (_ & _ & _ & Hw). by apply Hf. Qed.

Lemma gets_write_len_twins : msim twins twins (gets (write_len (T:=TcpStream))) (gets write_len).
Proof. apply write_gets_twins. unfold write_side. congruence. Qed.
Lemma gets_write_buffer_twins : msim twins twins (gets (write_buffer (T:=TcpStream))) (gets write_buffer).
Proof. apply write_gets_twins. unfold write_side. congruence. Qed.
Lemma gets_chunked_twins : msim twins twins (gets (writing_chunked_body (T:=TcpStream))) (gets writing_chunked_body).
Proof. apply write_gets_twins. unfold write_side. congruence. Qed.
Lemma gets_flush_twins : msim twins twins (gets (call_wrapped_flush (T:=TcpStream))) (gets call_wrapped_flush).
Proof. apply write_gets_twins. unfold write_side. congruence. Qed.
#[export] Hint Resolve write_wrapped_twins set_write_len_twins gets_write_len_twins gets_write_buffer_twins
  gets_chunked_twins gets_flush_twins : lockstep.

Lemma set_chunked_twins b :
  msim twins twins (modify (set_writing_chunked_body (T:=TcpStream) b)) (modify (set_writing_chunked_body b)).
Proof.
  apply msim_modify. intros s1 s2 ([Hr1 Hi1] & [Hr2 Hi2] & Hp & Hw). unfold write_side in Hw.
  split_and!; [done|done|done|]. unfold write_side. cbn. congruence.
Qed.

Ltac write_follow := repeat first [progress follow | eapply (msim_bind _ twins)].

Lemma stream_write_twins bs : msim twins twins (Buffer.write (T:=TcpStream) bs) (Buffer.write bs).
Proof.
  unfold Buffer.write, write_through, write_full. write_follow.
  apply set_write_twins. intros s1 s2 Ht. by eexists _, _.
Qed.

Lemma stream_flush_twins : msim twins twins (Buffer.flush (T:=TcpStream)) Buffer.flush.
Proof.
  unfold Buffer.flush. write_follow. by intros s1 s2 _.
Qed.
#[export] Hint Resolve stream_write_twins stream_flush_twins set_chunked_twins : lockstep.

Lemma stream_finish_twins : msim twins twins (Buffer.finish_response (T:=TcpStream)) Buffer.finish_response.
Proof. unfold Buffer.finish_response. write_follow. Qed.
#[export] Hint Resolve stream_finish_twins : lockstep.

(** What is written of a header depends on nothing but the header. *)
Class LockstepWrite (T : Type) `{HeaderConvertible T} := {
  write_lockstep W1 W2 (HW1 : Writer W1) (HW2 : Writer W2) (P : W1 → W2 → Prop)
      (HP : ∀ bs, msim P P (writer_write bs) (writer_write bs)) x :
    msim P P (to_stream (W:=W1) (T:=T) x) (to_stream (W:=W2) x)
}.

Section Writers.
Context {W1 W2 : Type} {HW1 : Writer W1} {HW2 : Writer W2} (P : W1 → W2 → Prop).
Context (HP : ∀ bs, msim P P (writer_write bs) (writer_write bs)).
#[local] Hint Resolve HP : lockstep.

Lemma write_quoted_string_lockstep s : msim P P (write_quoted_string (W:=W1) s) (write_quoted_string s).
Proof using HP.
  unfold write_quoted_string. follow. eapply (msim_bind _ P); [|follow]. apply msim_for_each. intros b.
  eapply (msim_bind _ P); follow.
Qed.
#[local] Hint Resolve write_quoted_string_lockstep : lockstep.

Lemma write_parameters_lockstep ps : msim P P (write_parameters (W:=W1) ps) (write_parameters ps).
Proof using HP.
  apply msim_for_each. intros [k v]. unfold write_parameter, write_maybe_quoted_string. follow.
Qed.

Lemma write_token_lockstep s : msim P P (write_token (W:=W1) s) (write_token s).
Proof using HP. unfold write_token. follow. Qed.
End Writers.
#[export] Hint Resolve write_quoted_string_lockstep write_parameters_lockstep write_token_lockstep : lockstep.

#[global] Instance str_write_lockstep : LockstepWrite header_str.
Proof. constructor. intros. apply HP. Qed.
#[global] Instance uint_write_lockstep : LockstepWrite uint.
Proof. constructor. intros. apply HP. Qed.
#[global] Instance Method_write_lockstep : LockstepWrite Method.
Proof. constructor. intros. apply HP. Qed.
#[global] Instance Url_write_lockstep `{UrlOps} : LockstepWrite Url.
Proof. constructor. intros. apply HP. Qed.
#[global] Instance Tm_write_lockstep `{TimeOps} : LockstepWrite Tm.
Proof. constructor. intros. apply HP. Qed.
#[global] Instance Connection_write_lockstep : LockstepWrite Connection.
Proof. constructor. intros. apply HP. Qed.
#[global] Instance Host_write_lockstep : LockstepWrite Host.
Proof. constructor. intros. apply HP. Qed.
#[global] Instance TransferCoding_write_lockstep : LockstepWrite TransferCoding.
Proof. constructor. intros ? ? ? ? ? HP x. cbn; unfold TransferCoding_to_stream. follow. Qed.
#[global] Instance EntityTag_write_lockstep : LockstepWrite EntityTag.
Proof.
  constructor. intros ? ? ? ? P HP x. cbn; unfold EntityTag_to_stream. eapply (msim_bind _ P); follow.
Qed.
#[global] Instance MediaType_write_lockstep : LockstepWrite MediaType.
Proof. constructor. intros ? ? ? ? ? HP x. cbn; unfold MediaType_to_stream. follow. Qed.
#[global] Instance AcceptableRanges_write_lockstep : LockstepWrite AcceptableRanges.
Proof.
  constructor. intros ? ? ? ? ? HP [us|]; [|apply HP]. apply msim_for_each. intros []; apply HP.
Qed.
#[global] Instance comma_list_write_lockstep {T} `{LockstepWrite T} : LockstepWrite (list T).
Proof.
  constructor. intros ? ? ? ? P HP x. apply msim_for_each. intros [i item].
  eapply (msim_bind _ P); [apply msim_if; intros _; [apply HP|apply msim_ret]|intros _]. by apply write_lockstep.
Qed.

Lemma write_all_lockstep `{UrlOps} `{TimeOps} {W1 W2} {HW1 : Writer W1} {HW2 : Writer W2} (P : W1 → W2 → Prop)
    tbl fuel c :
  (∀ bs, msim P P (writer_write bs) (writer_write bs)) →
  msim P P (write_all (W:=W1) tbl fuel c) (write_all (W:=W2) tbl fuel c).
Proof.
  intros HP. eapply (msim_bind _ P); [|intros; apply HP]. apply msim_loop. intros it.
  eapply msim_bind; [apply msim_call|]. intros [[h|] it']; [|apply msim_break].
  eapply (msim_bind _ P); [|follow]. destruct h as [i v|k v]; cbn [write_header].
  - eapply msim_bind; [apply HP|intros _]. eapply (msim_bind _ P); [|intros _; apply HP].
    destruct v; by apply write_lockstep.
  - eapply msim_bind; [apply HP|intros _; apply HP].
Qed.

(** ** Responses *)
Section Responses.
Context `{UrlOps} `{TimeOps} (fuel : nat).
Import response_writer.

Definition twin_writers (w1 w2 : ResponseWriter) : Prop :=
  twins (rw_writer w1) (rw_writer w2) ∧ rw_headers_written w1 = rw_headers_written w2
  ∧ rw_request w1 = rw_request w2 ∧ rw_headers w1 = rw_headers w2 ∧ rw_status w1 = rw_status w2.

(** A method of a response that does not look at what the connection brings. *)
Definition blind (m : M ResponseWriter unit) : Prop := msim twin_writers twin_writers m m.

Lemma on_writer_blind m : msim twins twins m m → blind (on_writer m).
Proof.
  intros Hm. apply (msim_zoom _ _ twins twins); [by intros ? ? []| |done].
  intros w1 w2 s1 s2 (_ & ? & ? & ? & ?) Hs. by split_and!.
Qed.

Lemma blind_bind m1 m2 : blind m1 → blind m2 → blind (m1;; m2).
Proof. intros H1 H2. eapply msim_bind; [exact H1|]. by intros []. Qed.

Lemma blind_gets {A} (f : ResponseWriter → A) (k : A → M ResponseWriter unit) :
  (∀ s w, f (set_writer s w) = f w) → (∀ a, blind (k a)) → blind (a ← gets f; k a).
Proof.
  intros Hf Hk. eapply (msim_bind _ twin_writers); [apply msim_gets|done]. intros [s1 ? ? ? ?] [s2 ? ? ? ?] (_ & ? & ? & ? & ?).
  cbn in *. subst. apply (Hf s1 (mkResponseWriter s2 _ _ _ _)).
Qed.

Lemma blind_call {A} (r : res A) (k : A → M ResponseWriter unit) : (∀ a, blind (k a)) → blind (a ← call r; k a).
Proof. intros Hk. eapply msim_bind; [apply msim_call|done]. Qed.

Lemma set_header_blind i v : blind (set_header i v).
Proof. apply msim_modify. intros w1 w2 (? & ? & ? & Hh & ?). split_and!; try done. cbn. by rewrite Hh. Qed.

Lemma set_headers_blind f : blind (modify (λ w, set_headers (f (rw_headers w)) w)).
Proof. apply msim_modify. intros w1 w2 (? & ? & ? & Hh & ?). split_and!; try done. cbn. by rewrite Hh. Qed.

Lemma set_status_blind st : blind (modify (set_status st)).
Proof. apply msim_modify. intros w1 w2 (? & ? & ? & ? & ?). by split_and!. Qed.

Lemma write_headers_blind : blind (write_headers fuel).
Proof.
  apply blind_gets; [done|]. intros written. apply msim_if; intros _; [apply msim_fail|].
  apply blind_gets; [done|]. intros st. apply blind_bind; [apply on_writer_blind, stream_write_twins|].
  apply blind_gets; [done|]. intros cl. apply blind_bind; [apply msim_if; intros _; apply set_header_blind|].
  apply blind_gets; [done|]. intros hs. apply blind_bind.
  { apply on_writer_blind, write_all_lockstep, stream_write_twins. }
  apply blind_bind; [apply msim_modify; by intros w1 w2 (? & ? & ? & ? & ?); split_and!|].
  apply blind_gets; [done|]. intros cl'. apply msim_if; intros _; [|apply msim_ret].
  apply blind_bind; apply on_writer_blind; [apply stream_flush_twins|apply set_chunked_twins].
Qed.

Lemma write_blind bs : blind (write fuel bs).
Proof.
  apply blind_gets; [done|]. intros written. apply blind_bind; [|apply on_writer_blind, stream_write_twins].
  apply msim_if; intros _; [apply msim_ret|apply write_headers_blind].
Qed.

Lemma flush_blind : blind flush.
Proof. apply on_writer_blind, stream_flush_twins. Qed.

Lemma try_write_headers_blind : blind (try_write_headers fuel).
Proof.
  apply blind_gets; [done|]. intros written. apply msim_if; intros _; [apply msim_ret|apply write_headers_blind].
Qed.

Lemma write_content_auto_blind content_type content : blind (write_content_auto fuel content_type content).
Proof.
  repeat (apply blind_bind; [apply set_header_blind|]). apply blind_bind; [apply write_headers_blind|apply write_blind].
Qed.

Lemma finish_response_blind : blind finish_response.
Proof. apply blind_bind; apply on_writer_blind; [apply stream_finish_twins|apply set_chunked_twins]. Qed.
End Responses.

(** ** A whole connection *)
Section Serving.
Context `{UrlOps} `{TimeOps} {T : Type} `{!Server T} (precise_time_ns : nat → u64) (fuel : nat) (self : T).
Context (Hself : ∀ request, blind (handle_request self request)).

Definition twin_conns (c1 c2 : Conn) : Prop :=
  twins (conn_stream c1) (conn_stream c2) ∧ conn_ticks c1 = conn_ticks c2 ∧ conn_perf c1 = conn_perf c2.

Lemma now_lockstep : msim twin_conns twin_conns (now precise_time_ns) (now precise_time_ns).
Proof.
  eapply (msim_bind _ twin_conns); [apply msim_gets; by intros ? ? (_ & ? & _)|]. intros n.
  eapply (msim_bind _ twin_conns); [|follow]. apply msim_modify. by intros ? ? (? & ? & ?).
Qed.

Lemma with_response_lockstep request m : blind m → msim twin_conns twin_conns (with_response request m) (with_response request m).
Proof.
  intros Hm. apply (msim_zoom _ _ twin_writers twin_writers); [|intros ? ? ? ? (_ & ? & ?) [? _]; by split_and!|exact Hm].
  intros c1 c2 (? & _). by split_and!.
Qed.

Lemma answer_request_blind request err : blind (answer_request fuel self request err).
Proof using Hself.
  destruct err as [[]|st]; [by apply blind_bind, try_write_headers_blind|].
  apply blind_bind; [apply set_status_blind|]. apply blind_bind; [apply set_header_blind|apply write_headers_blind].
Qed.

Lemma connection_body_lockstep t0 :
  msim twin_conns twin_conns (connection_body precise_time_ns fuel self t0) (connection_body precise_time_ns fuel self t0).
Proof using Hself.
  eapply msim_bind; [apply now_lockstep|intros t1]. eapply (msim_bind _ twin_conns).
  { apply (msim_zoom _ _ twins twins); [by intros ? ? []|intros ? ? ? ? (_ & ? & ?) ?; by split_and!|apply load_twins]. }
  intros [request err]. do 2 (eapply msim_bind; [apply now_lockstep|intros ?]).
  eapply msim_bind; [apply with_response_lockstep, blind_bind; [apply answer_request_blind|apply finish_response_blind]|intros _].
  eapply msim_bind; [apply now_lockstep|intros ?].
  eapply (msim_bind _ twin_conns); [|follow]. apply msim_modify. intros ? ? (? & ? & Hp). split_and!; [done|done|]. cbn. by rewrite Hp.
Qed.

Lemma serve_connection_lockstep t0 :
  msim twin_conns twin_conns (serve_connection precise_time_ns fuel self t0) (serve_connection precise_time_ns fuel self t0).
Proof using Hself. apply msim_loop, connection_body_lockstep. Qed.
End Serving.

(** The handlers of the examples do not look at what the connection brings. *)
Section ExampleServers.
Context `{UrlOps} `{TimeOps} (now_utc : Request → Tm) (fuel : nat).
Create HintDb blind.
#[local] Hint Resolve set_header_blind set_headers_blind set_status_blind write_blind : blind.
Ltac blindly := repeat first [solve [auto with blind nocore] | apply blind_bind; [solve [auto with blind nocore]|]].

Lemma hello_world_blind request : blind (hello_world_handle_request now_utc fuel request).
Proof. unfold hello_world_handle_request, set_str. blindly. Qed.

Lemma apache_fake_blind tm request : blind (apache_fake_handle_request now_utc fuel tm request).
Proof.
  unfold apache_fake_handle_request, set_str. blindly. apply blind_bind; [|blindly].
  apply (set_headers_blind (λ c, mkCollection (fields c) (tree_insert _ _ (extensions c)))).
Qed.

Lemma request_uri_blind request : blind (request_uri_handle_request now_utc fuel request).
Proof.
  unfold request_uri_handle_request, set_str. blindly.
  assert (Hpage : blind (request_uri_page fuel request)).
  { unfold request_uri_page. blindly. destruct (request_uri request); try apply set_status_blind; apply msim_ret. }
  unfold request_uri_rest. destruct (method request), (request_uri request); try done; blindly.
Qed.

Lemma info_rows_blind tbl c : blind (info_rows fuel tbl c).
Proof.
  apply msim_loop. intros it. eapply msim_bind; [apply msim_call|]. intros [[h|] it']; [|apply msim_break].
  eapply msim_bind; [apply write_blind|]. follow.
Qed.
#[local] Hint Resolve info_rows_blind : blind.

Lemma info_blind fmt_host fmt_uri fmt_version request :
  blind (info_handle_request now_utc fuel fmt_host fmt_uri fmt_version request).
Proof.
  unfold info_handle_request, set_str. blindly. apply blind_gets; [done|]. intros st. blindly.
  apply blind_gets; [done|]. intros hs. blindly.
Qed.
End ExampleServers.

Lemma new_tcp_wf segs out peer b : Forall (λ seg, seg ≠ []) segs → stream_wf (Buffer.new (mkTcp segs out peer) b).
Proof. intros Hs. split; [apply new_read_wf|exact Hs]. Qed.

(** ** The theorems *)

(** C23. What [Request::load] makes of a connection depends on the bytes that
    arrive and not on the segments they arrive in: for any bytes, valid or
    not, with the same fuel, it returns the same request and status and leaves
    the same bytes to be read, or fails with the same message, or loops for
    ever, in all segmentations alike; and it writes nothing. *)
Theorem load_segments `{UrlOps} `{TimeOps} fuel (s1 s2 : BufferedStream TcpStream) :
  stream_wf s1 → stream_wf s2 → bs_pending s1 = bs_pending s2 → write_side s1 = write_side s2 →
  match load fuel s1, load fuel s2 with
  | Done (request1, status1, s1'), Done (request2, status2, s2') =>
      request1 = request2 ∧ status1 = status2 ∧ stream_wf s1' ∧ stream_wf s2'
      ∧ bs_pending s1' = bs_pending s2' ∧ write_side s1' = write_side s1 ∧ write_side s2' = write_side s2
  | Fail e1, Fail e2 => e1 = e2
  | Diverge, Diverge => True
  | _, _ => False
  end.
Proof.
  intros Hs1 Hs2 Hp Hw. assert (Hsame : same_in (write_side s1) s1 s2).
  { apply same_pending. destruct Hs1, Hs2. by split_and!. }
  pose proof (load_lockstep fuel _ s1 s2 Hsame) as Hl.
  destruct (load fuel s1) as [[[r1 st1] s1']| |], (load fuel s2) as [[[r2 st2] s2']| |]; try done.
  destruct Hl as [[= -> ->] (l & [(? & ? & ?) E1] & [(? & ? & ?) E2])]. cbn in E1, E2.
  split_and!; [done|done|by split..|congruence|done|congruence].
Qed.

(** A malformed request, in two segmentations. *)
Definition bad_bytes : list u8 :=
  lit "GET / HTTP/1.1" ++ [CR; LF] ++ lit "Host: example.com" ++ [CR; LF] ++ lit "Accept GET" ++ [CR; LF].
Definition bytewise (l : list u8) : list (list u8) := (λ b, [b]) <$> l.

Lemma bytewise_segments l : Forall (λ seg, seg ≠ []) (bytewise l) ∧ concat (bytewise l) = l.
Proof.
  induction l as [|b l [IH1 IH2]]; [by split|]. cbn. split; [by constructor|]. f_equal. exact IH2.
Qed.

Lemma load_segments_witness :
  let s1 := Buffer.new (mkTcp [bad_bytes] [] None) false in
  let s2 := Buffer.new (mkTcp (bytewise bad_bytes) [] None) false in
  match load (H:=text_urls) (H0:=second_times) 100 s1, load (H:=text_urls) (H0:=second_times) 100 s2 with
  | Done (request1, status1, s1'), Done (request2, status2, s2') =>
      request1 = request2 ∧ status1 = status2 ∧ stream_wf s1' ∧ stream_wf s2'
      ∧ bs_pending s1' = bs_pending s2' ∧ write_side s1' = write_side s1 ∧ write_side s2' = write_side s2
  | Fail e1, Fail e2 => e1 = e2
  | Diverge, Diverge => True
  | _, _ => False
  end.
Proof.
  intros s1 s2. apply (load_segments (H:=text_urls) (H0:=second_times) 100 s1 s2).
  - apply new_tcp_wf. repeat constructor. discriminate.
  - apply new_tcp_wf, bytewise_segments.
  - reflexivity.
  - reflexivity.
Defined.

(** C22. What a server does on a connection depends on the bytes that arrive
    and not on the segments they arrive in: for any bytes, malformed requests
    and requests that hang included, and any handler that looks at the request
    and the response only, the task of the connection sends the same bytes,
    leaves the same bytes unread and reports the same times, or fails with the
    same message, or never ends, in all segmentations alike. *)
Theorem serve_segments `{UrlOps} `{TimeOps} {T} `{!Server T} precise_time_ns fuel (self : T) t0 segs1 segs2 peer :
  (∀ request, blind (handle_request self request)) →
  Forall (λ seg, seg ≠ []) segs1 → Forall (λ seg, seg ≠ []) segs2 → concat segs1 = concat segs2 →
  let serve segs := serve_connection precise_time_ns fuel self t0 (accepted (mkTcp segs [] peer)) in
  match serve segs1, serve segs2 with
  | Done (_, c1), Done (_, c2) =>
      sent (wrapped (conn_stream c1)) = sent (wrapped (conn_stream c2))
      ∧ bs_pending (conn_stream c1) = bs_pending (conn_stream c2) ∧ conn_perf c1 = conn_perf c2
  | Fail e1, Fail e2 => e1 = e2
  | Diverge, Diverge => True
  | _, _ => False
  end.
Proof.
  intros Hself H1 H2 Hc serve. subst serve. cbn beta.
  assert (Ht : twin_conns (accepted (mkTcp segs1 [] peer)) (accepted (mkTcp segs2 [] peer))).
  { split; [|done]. split; [by apply new_tcp_wf|]. split; [by apply new_tcp_wf|]. split; [exact Hc|done]. }
  pose proof (serve_connection_lockstep precise_time_ns fuel self Hself t0 _ _ Ht) as Hs.
  destruct (serve_connection _ _ _ _ (accepted (mkTcp segs1 [] peer))) as [[[] c1]| |],
    (serve_connection _ _ _ _ (accepted (mkTcp segs2 [] peer))) as [[[] c2]| |]; try done.
  destruct Hs as [_ ((_ & _ & Hp & Hw) & _ & Hperf)]. unfold write_side in Hw. split_and!; [cbn; congruence|done|done].
Qed.

Lemma serve_segments_witness :
  let now_utc : Request (H:=text_urls) (H0:=second_times) → Tm (TimeOps:=second_times) := λ _, 784111777 in
  let serve segs := serve_connection (Server0:=HelloWorldServer_server now_utc 200) Z.of_nat 200 hello_world_server 0
    (accepted (mkTcp segs [] None)) in
  match serve [bad_bytes], serve (bytewise bad_bytes) with
  | Done (_, c1), Done (_, c2) =>
      sent (wrapped (conn_stream c1)) = sent (wrapped (conn_stream c2))
      ∧ bs_pending (conn_stream c1) = bs_pending (conn_stream c2) ∧ conn_perf c1 = conn_perf c2
  | Fail e1, Fail e2 => e1 = e2
  | Diverge, Diverge => True
  | _, _ => False
  end.
Proof.
  intros now_utc. apply (serve_segments (Server0:=HelloWorldServer_server now_utc 200) Z.of_nat 200 hello_world_server 0
    [bad_bytes] (bytewise bad_bytes) None).
  - intros request. exact (hello_world_blind (H:=text_urls) (H0:=second_times) now_utc 200 request).
  - repeat constructor. discriminate.
  - apply bytewise_segments.
  - reflexivity.
Defined.

(** C24. The same for the client: [ResponseReader::construct] returns the same
    version, status and headers with the same body left to be read, or hands
    back the request, or fails, or loops for ever, however the bytes of the
    response, valid or not, are cut into segments. *)
Theorem construct_segments `{UrlOps} `{TimeOps} `{IoErrors} fuel (s1 s2 : BufferedStream TcpStream)
    (request : RequestWriter TcpStream) :
  stream_wf s1 → stream_wf s2 → bs_pending s1 = bs_pending s2 → write_side s1 = write_side s2 →
  match response_reader.construct fuel s1 request, response_reader.construct fuel s2 request with
  | Done (Ok r1), Done (Ok r2) =>
      rr_version r1 = rr_version r2 ∧ rr_status r1 = rr_status r2 ∧ rr_headers r1 = rr_headers r2
      ∧ rr_request r1 = rr_request r2 ∧ stream_wf (rr_stream r1) ∧ stream_wf (rr_stream r2)
      ∧ bs_pending (rr_stream r1) = bs_pending (rr_stream r2)
  | Done (Err q1), Done (Err q2) => q1 = request ∧ q2 = request
  | Fail e1, Fail e2 => e1 = e2
  | Diverge, Diverge => True
  | _, _ => False
  end.
Proof.
  intros Hs1 Hs2 Hp Hw. pose proof (construct_twins fuel s1 s2 (conj Hs1 (conj Hs2 (conj Hp Hw)))) as Hc.
  unfold response_reader.construct.
  destruct (response_reader.construct_body fuel s1) as [[[[[v1 st1] h1]|] s1']| |],
    (response_reader.construct_body fuel s2) as [[[[[v2 st2] h2]|] s2']| |]; try done; destruct Hc as [[=] Hc]; try done; subst.
  destruct Hc as (? & ? & ? & _). by split_and!.
Qed.

Lemma construct_segments_witness :
  let l := lit "HTTP/1.1 200 OK" ++ [CR; LF] ++ lit "Server" in
  let s1 := Buffer.new (mkTcp [l] [] None) false in
  let s2 := Buffer.new (mkTcp (bytewise l) [] None) false in
  let construct := response_reader.construct (H:=text_urls) (H0:=second_times) (H1:=not_trapping) 100 in
  match construct s1 example_request, construct s2 example_request with
  | Done (Ok r1), Done (Ok r2) =>
      rr_version r1 = rr_version r2 ∧ rr_status r1 = rr_status r2 ∧ rr_headers r1 = rr_headers r2
      ∧ rr_request r1 = rr_request r2 ∧ stream_wf (rr_stream r1) ∧ stream_wf (rr_stream r2)
      ∧ bs_pending (rr_stream r1) = bs_pending (rr_stream r2)
  | Done (Err q1), Done (Err q2) => q1 = example_request ∧ q2 = example_request
  | Fail e1, Fail e2 => e1 = e2
  | Diverge, Diverge => True
  | _, _ => False
  end.
Proof.
  intros l s1 s2. apply (construct_segments (H:=text_urls) (H0:=second_times) (H1:=not_trapping) 100 s1 s2).
  - apply new_tcp_wf. repeat constructor. discriminate.
  - apply new_tcp_wf, bytewise_segments.
  - reflexivity.
  - reflexivity.
Defined.
